(** * RemitDEX: the remittance orchestrator, its error classifier and retry
    scheduler, the aggregator client and the anchor registry.

  A shallow embedding of the TypeScript sources

    - services/delivery/DeliveryErrorHandler.ts
    - services/database/OrderRepository.ts
    - services/OneInchAggregator.ts
    - services/StellarAnchorService.ts
    - services/RemittanceEngine.ts (with config/wrapped-stellar-usdc.ts,
      services/StellarBridge.ts, services/delivery/DeliveryMethodHandler.ts)
    - services/anchors/SEP6Service.ts and services/anchors/AnchorIntegrations.ts

  Conventions.  JavaScript [number]s that take part in fee and amount
  arithmetic are IEEE binary64 values ([PrimFloat.float]); counters,
  delays and minute estimates are integers far below 2^53 and are kept
  in [nat] / [Z].  [Map]s that are only read by key are [gmap]s, [Map]s
  that are iterated are association lists in insertion order.  Objects
  that are shared by reference (an order held by the repository and by
  the engine at once) live in a heap addressed by locations.  A lookup
  [literal[key]] in an object literal finds the literal's own keys and,
  for the other keys, the members every object inherits from
  [Object.prototype]; where the key always contains a hyphen (the
  corridor map, the rate table) no inherited member can be named and
  only the own keys are modelled.  Strings hold the UTF-8 bytes of the
  text; [length] counts UTF-16 code units as JavaScript does.  A value
  that may be [null] or [undefined] where the code reads a property of
  it is modelled as such, the read throwing a [TypeError]. *)

From Stdlib Require Import ZArith List Bool Ascii String Lia Floats.
From stdpp Require Import gmap strings list pretty.
Import ListNotations.

Set Warnings "-inexact-float".
Local Open Scope string_scope.

(** ** JavaScript string helpers *)

Module Js.

(** [s.includes(needle)] *)
Fixpoint includes (s needle : string) : bool :=
  String.prefix needle s ||
  match s with
  | EmptyString => false
  | String _ rest => includes rest needle
  end.

(** [s.startsWith(p)] *)
Definition startsWith (s p : string) : bool := String.prefix p s.

(** Truthiness of a value that is a string or [undefined]. *)
Definition truthy (v : option string) : bool :=
  match v with
  | Some s => negb (String.eqb s "")
  | None => false
  end.

(** [a || b] on values that are strings or [undefined]. *)
Definition or_else (a b : option string) : option string :=
  if truthy a then a else b.

(** [v === lit] for a string literal [lit]. *)
Definition strictEq (v : option string) (lit : string) : bool :=
  match v with
  | Some s => String.eqb s lit
  | None => false
  end.

Definition lower_ascii (c : ascii) : ascii :=
  let n := nat_of_ascii c in
  if (65 <=? n)%nat && (n <=? 90)%nat then ascii_of_nat (n + 32) else c.

(** [s.toLowerCase()] on the ASCII range.  The one character outside it
    that lowers to an ASCII letter is the Kelvin sign, which lowers to k;
    no key this development looks up contains a k, and no other lowered
    character is compared with anything but ASCII text. *)
Fixpoint toLowerCase (s : string) : string :=
  match s with
  | EmptyString => EmptyString
  | String c rest => String (lower_ascii c) (toLowerCase rest)
  end.

(** The UTF-16 code units a byte of UTF-8 text stands for: one for the
    first byte of a character, none for a continuation byte, two for the
    first byte of a four-byte character, which UTF-16 writes as a
    surrogate pair. *)
Definition units_of_byte (c : ascii) : nat :=
  let n := nat_of_ascii c in
  if (n <? 128)%nat then 1%nat
  else if (n <? 192)%nat then 0%nat
  else if (n <? 240)%nat then 1%nat
  else 2%nat.

(** [s.length] *)
Fixpoint length (s : string) : nat :=
  match s with
  | EmptyString => 0%nat
  | String c rest => (units_of_byte c + length rest)%nat
  end.

(** Text of ASCII characters only, where [length] counts the bytes. *)
Definition is_ascii (s : string) : bool :=
  forallb (fun c => (nat_of_ascii c <? 128)%nat) (list_ascii_of_string s).

(** The members every object literal inherits from [Object.prototype]. *)
Definition prototype_members : list string :=
  [ "constructor"; "__defineGetter__"; "__defineSetter__"; "hasOwnProperty";
    "__lookupGetter__"; "__lookupSetter__"; "isPrototypeOf";
    "propertyIsEnumerable"; "toString"; "valueOf"; "__proto__";
    "toLocaleString" ].

Definition is_prototype_member (key : string) : bool :=
  existsb (String.eqb key) prototype_members.

(** The inherited members whose names are in lower case: those a key
    that went through [toLowerCase] can name. *)
Definition lower_case_members : list string := ["constructor"; "__proto__"].

(** What [literal[key]] finds in an object literal whose own values are
    of type [A]: an own value, or the inherited member of that name (a
    function, or for [__proto__] the prototype object; truthy either
    way, and without any of the properties the code goes on to read). *)
Inductive Member (A : Type) : Type :=
| own (a : A)
| inherited (name : string).
Arguments own {A} a.
Arguments inherited {A} name.

(** [null] and [undefined] *)
Inductive Absent := js_undefined | js_null.

(** A value that may be [null] or [undefined]. *)
Inductive Nullable (A : Type) : Type :=
| value (a : A)
| nothing (v : Absent).
Arguments value {A} a.
Arguments nothing {A} v.

(** What [+] makes of a number and a value that is no number: text, the
    operands converted and concatenated.  The text is kept as its
    pieces, a number standing for its decimal numeral and an inherited
    member for the text [String] gives it (the source text of a native
    function, or [[object Object]]). *)
Inductive Piece :=
| numeral (n : Z)
| member_text (name : string).

(** A value that is a number, or the text [+] has made. *)
Inductive Sum :=
| number (n : Z)
| text (pieces : list Piece).

(** [sum + v] *)
Definition add (sum : Sum) (v : Member Z) : Sum :=
  match sum, v with
  | number a, own b => number (a + b)
  | number a, inherited name => text [numeral a; member_text name]
  | text pieces, own b => text (pieces ++ [numeral b])
  | text pieces, inherited name => text (pieces ++ [member_text name])
  end.

End Js.

(** ** Errors as thrown values *)

(** The body of an HTTP error response, as far as the code reads it. *)
Record ResponseData := {
  resp_status : Z;
  resp_description : option string;
  resp_message : option string;
  resp_error : option string;
  resp_error_code : option string;
  resp_required_info : option string;
  resp_limits : option string
}.

(** A thrown value: an [Error], an axios error or a plain object. *)
Record RawError := {
  err_message : option string;
  err_toString : string;
  err_code : option string;
  err_response : option ResponseData
}.

(** [new Error(msg)] *)
Definition newError (msg : string) : RawError :=
  {| err_message := Some msg;
     err_toString := if String.eqb msg "" then "Error" else "Error: " +:+ msg;
     err_code := None;
     err_response := None |}.

(** The [TypeError] thrown for reading [property] of [null] or
    [undefined], with the message V8 gives it. *)
Definition cannot_read (v : Js.Absent) (property : string) : RawError :=
  let msg := "Cannot read properties of "
               +:+ match v with
                   | Js.js_undefined => "undefined"
                   | Js.js_null => "null"
                   end
               +:+ " (reading '" +:+ property +:+ "')" in
  {| err_message := Some msg;
     err_toString := "TypeError: " +:+ msg;
     err_code := None;
     err_response := None |}.

Inductive Result (A : Type) : Type :=
| Ok (a : A)
| Throw (e : RawError).
Arguments Ok {A} a.
Arguments Throw {A} e.

(** ** DeliveryErrorHandler.ts: classification *)

Module ErrorHandler.

Inductive DeliveryErrorType :=
| INSUFFICIENT_FUNDS
| INVALID_RECIPIENT
| KYC_REQUIRED
| COMPLIANCE_BLOCKED
| ANCHOR_UNAVAILABLE
| RATE_EXPIRED
| LIMIT_EXCEEDED
| TECHNICAL_ERROR
| NETWORK_ERROR
| TIMEOUT.

Definition DeliveryErrorType_eqb (a b : DeliveryErrorType) : bool :=
  match a, b with
  | INSUFFICIENT_FUNDS, INSUFFICIENT_FUNDS
  | INVALID_RECIPIENT, INVALID_RECIPIENT
  | KYC_REQUIRED, KYC_REQUIRED
  | COMPLIANCE_BLOCKED, COMPLIANCE_BLOCKED
  | ANCHOR_UNAVAILABLE, ANCHOR_UNAVAILABLE
  | RATE_EXPIRED, RATE_EXPIRED
  | LIMIT_EXCEEDED, LIMIT_EXCEEDED
  | TECHNICAL_ERROR, TECHNICAL_ERROR
  | NETWORK_ERROR, NETWORK_ERROR
  | TIMEOUT, TIMEOUT => true
  | _, _ => false
  end.

Record DeliveryError := {
  de_type : DeliveryErrorType;
  de_message : string;
  de_code : option string;
  de_details : option string;
  de_retryable : bool;
  de_userAction : option string;
  de_estimatedResolution : option Z
}.

(** [error.message || error.toString()] *)
Definition errorMessage (error : RawError) : string :=
  if Js.truthy (err_message error)
  then default "" (err_message error)
  else err_toString error.

(** [error.response?.data?.error_code] *)
Definition response_error_code (error : RawError) : option string :=
  match err_response error with
  | Some r => resp_error_code r
  | None => None
  end.

(** [error.code || error.response?.data?.error_code] *)
Definition errorCode (error : RawError) : option string :=
  Js.or_else (err_code error) (response_error_code error).

Definition classifyError (error : RawError) : DeliveryError :=
  let errorMessage := errorMessage error in
  let errorCode := errorCode error in
  if Js.includes errorMessage "insufficient" || Js.strictEq errorCode "INSUFFICIENT_BALANCE" then
    {| de_type := INSUFFICIENT_FUNDS;
       de_message := "Insufficient funds in anchor reserve";
       de_code := errorCode;
       de_details := None;
       de_retryable := true;
       de_userAction := Some "Please try again in a few minutes";
       de_estimatedResolution := Some 15%Z |}
  else if Js.includes errorMessage "invalid recipient" || Js.strictEq errorCode "INVALID_DEST" then
    {| de_type := INVALID_RECIPIENT;
       de_message := "Recipient details are invalid or incomplete";
       de_code := errorCode;
       de_details := None;
       de_retryable := false;
       de_userAction := Some "Please verify recipient information and try again";
       de_estimatedResolution := None |}
  else if Js.includes errorMessage "KYC" || Js.strictEq errorCode "NEEDS_INFO" then
    {| de_type := KYC_REQUIRED;
       de_message := "Additional KYC information required";
       de_code := errorCode;
       de_details := match err_response error with
                     | Some r => resp_required_info r
                     | None => None
                     end;
       de_retryable := false;
       de_userAction := Some "Please complete KYC verification";
       de_estimatedResolution := None |}
  else if Js.includes errorMessage "compliance" || Js.includes errorMessage "blocked" then
    {| de_type := COMPLIANCE_BLOCKED;
       de_message := "Transaction blocked for compliance reasons";
       de_code := errorCode;
       de_details := None;
       de_retryable := false;
       de_userAction := Some "Please contact support for assistance";
       de_estimatedResolution := None |}
  else if Js.strictEq (err_code error) "ECONNREFUSED" || Js.strictEq (err_code error) "ENOTFOUND" then
    {| de_type := ANCHOR_UNAVAILABLE;
       de_message := "Anchor service temporarily unavailable";
       de_code := err_code error;
       de_details := None;
       de_retryable := true;
       de_userAction := None;
       de_estimatedResolution := Some 30%Z |}
  else if Js.includes errorMessage "rate expired" || Js.strictEq errorCode "RATE_EXPIRED" then
    {| de_type := RATE_EXPIRED;
       de_message := "Exchange rate expired";
       de_code := errorCode;
       de_details := None;
       de_retryable := true;
       de_userAction := Some "Getting new rate...";
       de_estimatedResolution := None |}
  else if Js.includes errorMessage "limit exceeded" || Js.strictEq errorCode "LIMIT_EXCEEDED" then
    {| de_type := LIMIT_EXCEEDED;
       de_message := "Transaction limit exceeded";
       de_code := errorCode;
       de_details := match err_response error with
                     | Some r => resp_limits r
                     | None => None
                     end;
       de_retryable := false;
       de_userAction := Some "Please reduce amount or complete additional verification";
       de_estimatedResolution := None |}
  else if Js.strictEq (err_code error) "ETIMEDOUT" || Js.strictEq (err_code error) "ECONNABORTED" then
    {| de_type := TIMEOUT;
       de_message := "Request timed out";
       de_code := err_code error;
       de_details := None;
       de_retryable := true;
       de_userAction := None;
       de_estimatedResolution := Some 5%Z |}
  else if Js.truthy (err_code error) && Js.startsWith (default "" (err_code error)) "E" then
    {| de_type := NETWORK_ERROR;
       de_message := "Network error occurred";
       de_code := err_code error;
       de_details := None;
       de_retryable := true;
       de_userAction := None;
       de_estimatedResolution := Some 10%Z |}
  else
    {| de_type := TECHNICAL_ERROR;
       de_message := "An unexpected error occurred";
       de_code := errorCode;
       de_details := Some errorMessage;
       de_retryable := true;
       de_userAction := None;
       de_estimatedResolution := Some 60%Z |}.

(** *** The classifier as the specification words it

    Ten rules in priority order, each a test on the error's message text
    and on a machine code, the first matching rule deciding the kind.
    The specification says "code" in every rule.  An error has two
    places for one: the error itself, where the network layer puts its
    codes, and the body of the anchor's response.  The table below takes
    the reading of "code" as a parameter, once for the rules that name
    an anchor's code (1, 2, 3, 6, 7) and once for the rules that name a
    network code (5, 8, 9).  None of this is written in terms of the
    helpers of [classifyError]. *)

Definition Rule : Type := (RawError -> bool) * DeliveryErrorType.

(** The message text of an error; for an error without a message, the
    text it converts to. *)
Definition text_of (e : RawError) : string :=
  match err_message e with
  | Some (String c rest) => String c rest
  | Some EmptyString | None => err_toString e
  end.

(** The code the error itself carries, if any. *)
Definition own_code (e : RawError) : option string :=
  match err_code e with
  | Some (String c rest) => Some (String c rest)
  | Some EmptyString | None => None
  end.

(** The code of an error: its own, or for an error without one the
    [error_code] in the body of the response. *)
Definition machine_code (e : RawError) : option string :=
  match own_code e, err_response e with
  | Some c, _ => Some c
  | None, Some r => resp_error_code r
  | None, None => None
  end.

Definition contains (phrase : string) (e : RawError) : bool :=
  Js.includes (text_of e) phrase.

Definition code_is (code : RawError -> option string) (c : string) (e : RawError) : bool :=
  match code e with
  | Some c' => String.eqb c' c
  | None => false
  end.

Definition code_among (code : RawError -> option string) (cs : list string)
    (e : RawError) : bool :=
  existsb (fun c => code_is code c e) cs.

Definition code_begins (code : RawError -> option string) (p : string) (e : RawError)
    : bool :=
  match code e with
  | Some c => String.prefix p c
  | None => false
  end.

Definition rules_with (anchor_code network_code : RawError -> option string)
    : list Rule :=
  [ (fun e => contains "insufficient" e || code_is anchor_code "INSUFFICIENT_BALANCE" e,
     INSUFFICIENT_FUNDS);
    (fun e => contains "invalid recipient" e || code_is anchor_code "INVALID_DEST" e,
     INVALID_RECIPIENT);
    (fun e => contains "KYC" e || code_is anchor_code "NEEDS_INFO" e,
     KYC_REQUIRED);
    (fun e => contains "compliance" e || contains "blocked" e,
     COMPLIANCE_BLOCKED);
    (code_among network_code ["ECONNREFUSED"; "ENOTFOUND"],
     ANCHOR_UNAVAILABLE);
    (fun e => contains "rate expired" e || code_is anchor_code "RATE_EXPIRED" e,
     RATE_EXPIRED);
    (fun e => contains "limit exceeded" e || code_is anchor_code "LIMIT_EXCEEDED" e,
     LIMIT_EXCEEDED);
    (code_among network_code ["ETIMEDOUT"; "ECONNABORTED"],
     TIMEOUT);
    (code_begins network_code "E",
     NETWORK_ERROR);
    (fun _ => true,
     TECHNICAL_ERROR) ].

(** The table with one reading of "code" throughout, as the
    specification has it. *)
Definition spec_rules (code : RawError -> option string) : list Rule :=
  rules_with code code.

(** The table with the two readings the classifier turns out to use. *)
Definition priority_rules : list Rule := rules_with machine_code own_code.

(** The message of an error carries none of the phrases of the rules. *)
Definition plain_text (e : RawError) : bool :=
  forallb (fun phrase => negb (contains phrase e))
    ["insufficient"; "invalid recipient"; "KYC"; "compliance"; "blocked";
     "rate expired"; "limit exceeded"].

(** The codes of the anchors and the kinds the rules give them. *)
Definition anchor_codes : list (string * DeliveryErrorType) :=
  [ ("INSUFFICIENT_BALANCE", INSUFFICIENT_FUNDS);
    ("INVALID_DEST", INVALID_RECIPIENT);
    ("NEEDS_INFO", KYC_REQUIRED);
    ("RATE_EXPIRED", RATE_EXPIRED);
    ("LIMIT_EXCEEDED", LIMIT_EXCEEDED) ].

(** First match wins: the kind of the first rule whose test holds. *)
Fixpoint first_match (rules : list Rule) (e : RawError) : option DeliveryErrorType :=
  match rules with
  | [] => None
  | (test, kind) :: rest => if test e then Some kind else first_match rest e
  end.

End ErrorHandler.

(** ** interfaces/IRemittance.ts *)

Inductive StepType := swap | bridge | anchor.

Record RouteStep := {
  step_type : StepType;
  step_from : string;
  step_to : string;
  step_protocol : string;
  step_fees : float;
  (** minutes; for the anchor step whatever [estimateDeliveryTime] gave *)
  step_estimatedTime : Js.Member Z
}.

Record RemittanceQuote := {
  fromChain : string;
  fromToken : string;
  fromAmount : string;
  toCountry : string;
  toCurrency : string;
  toAmount : string;
  exchangeRate : float;
  totalFees : float;
  estimatedTime : Js.Sum;
  route : list RouteStep
}.

Record Anchor := {
  anchor_code : string;
  anchor_name : string;
  supportedCurrencies : list string;
  depositMethods : list string;
  withdrawMethods : list string;
  minimumAmount : Z;
  maximumAmount : Z;
  kycRequired : bool
}.

(** The free-form [recipientDetails] object: the two properties the engine
    itself reads, and the remaining ones by name. *)
Record RecipientDetails := {
  rd_name : option string;
  rd_deliveryMethod : option string;
  rd_fields : gmap string string
}.

Inductive OrderStatus := pending | processing | completed | failed.

Record RemittanceOrder := {
  order_id : string;
  sender_address : string;
  sender_chain : string;
  recipient_name : option string;
  recipient_country : string;
  recipient_currency : string;
  recipient_accountDetails : RecipientDetails;
  order_quote : RemittanceQuote;
  status : OrderStatus;
  htlcId : option string;
  stellarTxHash : option string;
  anchorTxId : option string;
  createdAt : Z;
  completedAt : option Z
}.

Definition with_status (st : OrderStatus) (o : RemittanceOrder) : RemittanceOrder :=
  {| order_id := order_id o;
     sender_address := sender_address o;
     sender_chain := sender_chain o;
     recipient_name := recipient_name o;
     recipient_country := recipient_country o;
     recipient_currency := recipient_currency o;
     recipient_accountDetails := recipient_accountDetails o;
     order_quote := order_quote o;
     status := st;
     htlcId := htlcId o;
     stellarTxHash := stellarTxHash o;
     anchorTxId := anchorTxId o;
     createdAt := createdAt o;
     completedAt := completedAt o |}.

Definition with_bridge (h tx : string) (o : RemittanceOrder) : RemittanceOrder :=
  {| order_id := order_id o;
     sender_address := sender_address o;
     sender_chain := sender_chain o;
     recipient_name := recipient_name o;
     recipient_country := recipient_country o;
     recipient_currency := recipient_currency o;
     recipient_accountDetails := recipient_accountDetails o;
     order_quote := order_quote o;
     status := status o;
     htlcId := Some h;
     stellarTxHash := Some tx;
     anchorTxId := anchorTxId o;
     createdAt := createdAt o;
     completedAt := completedAt o |}.

Definition with_anchorTxId (a : option string) (o : RemittanceOrder) : RemittanceOrder :=
  {| order_id := order_id o;
     sender_address := sender_address o;
     sender_chain := sender_chain o;
     recipient_name := recipient_name o;
     recipient_country := recipient_country o;
     recipient_currency := recipient_currency o;
     recipient_accountDetails := recipient_accountDetails o;
     order_quote := order_quote o;
     status := status o;
     htlcId := htlcId o;
     stellarTxHash := stellarTxHash o;
     anchorTxId := a;
     createdAt := createdAt o;
     completedAt := completedAt o |}.

Definition with_completedAt (t : Z) (o : RemittanceOrder) : RemittanceOrder :=
  {| order_id := order_id o;
     sender_address := sender_address o;
     sender_chain := sender_chain o;
     recipient_name := recipient_name o;
     recipient_country := recipient_country o;
     recipient_currency := recipient_currency o;
     recipient_accountDetails := recipient_accountDetails o;
     order_quote := order_quote o;
     status := status o;
     htlcId := htlcId o;
     stellarTxHash := stellarTxHash o;
     anchorTxId := anchorTxId o;
     createdAt := createdAt o;
     completedAt := Some t |}.

(** ** The engine and the services it owns, as one state *)

(** A pending [setTimeout] of the retry scheduler: its delay and what its
    callback captured. *)
Record Timer := {
  timer_delay : Z;
  timer_attempt : nat;
  timer_maxAttempts : nat
}.

(** What the error handler emits, in emission order. *)
Inductive Event :=
| delivery_error (orderId : string) (error : ErrorHandler.DeliveryError)
| delivery_retry (orderId : string) (attempt maxAttempts : nat)
| refund_required (orderId : string) (reason : string)
    (errorType : ErrorHandler.DeliveryErrorType)
| user_notification (orderId : string) (type message severity : string)
| manual_review_required (orderId : string) (reason : string)
    (lastError : ErrorHandler.DeliveryError).

(** Calls the engine makes to its clients. *)
Inductive Call :=
| call_buildSwapTx
| call_bridgeToStellar
| call_recommendProtocol
| call_clickPhilippinesIntegration
| call_cowrieNigeriaIntegration
| call_sep6_authenticate
| call_sep6_withdraw
| call_sep24_initiateWithdraw.

(** Object references. *)
Abbreviation loc := nat (only parsing).

Record State := {
  (** order objects, by reference *)
  heap : gmap loc RemittanceOrder;
  (** [OrderRepository.orders] and [OrderRepository.ordersByUser] *)
  repo_orders : gmap string loc;
  repo_ordersByUser : gmap string (list string);
  (** [RemittanceEngine.orders] *)
  engine_orders : gmap string loc;
  (** [DeliveryErrorHandler.retryQueues] and [.retryAttempts] *)
  retryQueues : gmap string Timer;
  retryAttempts : gmap string nat;
  (** events emitted by the error handler, oldest first *)
  emitted : list Event;
  (** [MetricsCollector.orders] *)
  metrics_orders : list loc;
  (** [StellarBridge.resolverKeypair], here its public key *)
  resolverKeypair : option string;
  (** client calls made so far, oldest first *)
  calls : list Call
}.

Definition set_heap (f : gmap loc RemittanceOrder -> gmap loc RemittanceOrder) (s : State) : State :=
  {| heap := f (heap s); repo_orders := repo_orders s;
     repo_ordersByUser := repo_ordersByUser s; engine_orders := engine_orders s;
     retryQueues := retryQueues s; retryAttempts := retryAttempts s;
     emitted := emitted s; metrics_orders := metrics_orders s;
     resolverKeypair := resolverKeypair s; calls := calls s |}.

Definition set_repo (f : gmap string loc -> gmap string loc)
    (g : gmap string (list string) -> gmap string (list string)) (s : State) : State :=
  {| heap := heap s; repo_orders := f (repo_orders s);
     repo_ordersByUser := g (repo_ordersByUser s); engine_orders := engine_orders s;
     retryQueues := retryQueues s; retryAttempts := retryAttempts s;
     emitted := emitted s; metrics_orders := metrics_orders s;
     resolverKeypair := resolverKeypair s; calls := calls s |}.

Definition set_engine_orders (f : gmap string loc -> gmap string loc) (s : State) : State :=
  {| heap := heap s; repo_orders := repo_orders s;
     repo_ordersByUser := repo_ordersByUser s; engine_orders := f (engine_orders s);
     retryQueues := retryQueues s; retryAttempts := retryAttempts s;
     emitted := emitted s; metrics_orders := metrics_orders s;
     resolverKeypair := resolverKeypair s; calls := calls s |}.

Definition set_retryQueues (f : gmap string Timer -> gmap string Timer) (s : State) : State :=
  {| heap := heap s; repo_orders := repo_orders s;
     repo_ordersByUser := repo_ordersByUser s; engine_orders := engine_orders s;
     retryQueues := f (retryQueues s); retryAttempts := retryAttempts s;
     emitted := emitted s; metrics_orders := metrics_orders s;
     resolverKeypair := resolverKeypair s; calls := calls s |}.

Definition set_retryAttempts (f : gmap string nat -> gmap string nat) (s : State) : State :=
  {| heap := heap s; repo_orders := repo_orders s;
     repo_ordersByUser := repo_ordersByUser s; engine_orders := engine_orders s;
     retryQueues := retryQueues s; retryAttempts := f (retryAttempts s);
     emitted := emitted s; metrics_orders := metrics_orders s;
     resolverKeypair := resolverKeypair s; calls := calls s |}.

(** [this.emit(...)] *)
Definition emit (ev : Event) (s : State) : State :=
  {| heap := heap s; repo_orders := repo_orders s;
     repo_ordersByUser := repo_ordersByUser s; engine_orders := engine_orders s;
     retryQueues := retryQueues s; retryAttempts := retryAttempts s;
     emitted := emitted s ++ [ev]; metrics_orders := metrics_orders s;
     resolverKeypair := resolverKeypair s; calls := calls s |}.

Definition record_call (c : Call) (s : State) : State :=
  {| heap := heap s; repo_orders := repo_orders s;
     repo_ordersByUser := repo_ordersByUser s; engine_orders := engine_orders s;
     retryQueues := retryQueues s; retryAttempts := retryAttempts s;
     emitted := emitted s; metrics_orders := metrics_orders s;
     resolverKeypair := resolverKeypair s; calls := calls s ++ [c] |}.

(** [MetricsCollector.recordOrder]: the order is appended to the
    collector's list.  The volume aggregates it also updates are numbers
    that nothing in the engine reads back; they are not kept here. *)
Definition push_metrics (l : loc) (s : State) : State :=
  {| heap := heap s; repo_orders := repo_orders s;
     repo_ordersByUser := repo_ordersByUser s; engine_orders := engine_orders s;
     retryQueues := retryQueues s; retryAttempts := retryAttempts s;
     emitted := emitted s; metrics_orders := metrics_orders s ++ [l];
     resolverKeypair := resolverKeypair s; calls := calls s |}.

(** The state a freshly constructed [RemittanceEngine] starts from. *)
Definition initial_state : State :=
  {| heap := ∅; repo_orders := ∅; repo_ordersByUser := ∅; engine_orders := ∅;
     retryQueues := ∅; retryAttempts := ∅; emitted := []; metrics_orders := [];
     resolverKeypair := None; calls := [] |}.

(** ** OrderRepository.ts *)

Module OrderRepository.

(** [save(order)]: the repository keeps the reference it is given. *)
Definition save (l : loc) (s : State) : State :=
  match heap s !! l with
  | Some order =>
      let userKey := sender_address order in
      let userOrders : list string := default [] (repo_ordersByUser s !! userKey) in
      set_repo (insert (order_id order) l)
               (insert userKey (userOrders ++ [order_id order])%list) s
  | None => s
  end.

Definition findById (id : string) (s : State) : option RemittanceOrder :=
  match repo_orders s !! id with
  | Some l => heap s !! l
  | None => None
  end.

(** [updateStatus(orderId, status, additionalData)]: mutates the stored
    object in place; [additionalData] is the object update to assign. *)
Definition updateStatus (orderId : string) (st : OrderStatus)
    (additionalData : RemittanceOrder -> RemittanceOrder) (s : State) : State :=
  match repo_orders s !! orderId with
  | Some l => set_heap (alter (fun o => additionalData (with_status st o)) l) s
  | None => s
  end.

End OrderRepository.

(** ** DeliveryErrorHandler.ts: retry policies and scheduling *)

Module RetryScheduler.
Import ErrorHandler.

Record RetryPolicy := {
  maxAttempts : nat;
  backoffMultiplier : Z;
  initialDelay : Z;
  maxDelay : Z;
  retryableErrors : list DeliveryErrorType
}.

(** The three entries [initializeRetryPolicies] registers. *)
Definition default_policy : RetryPolicy :=
  {| maxAttempts := 3;
     backoffMultiplier := 2;
     initialDelay := 5000;
     maxDelay := 300000;
     retryableErrors := [ANCHOR_UNAVAILABLE; NETWORK_ERROR; TIMEOUT; TECHNICAL_ERROR] |}.

Definition rate_expired_policy : RetryPolicy :=
  {| maxAttempts := 1;
     backoffMultiplier := 1;
     initialDelay := 0;
     maxDelay := 0;
     retryableErrors := [RATE_EXPIRED] |}.

Definition compliance_policy : RetryPolicy :=
  {| maxAttempts := 0;
     backoffMultiplier := 1;
     initialDelay := 0;
     maxDelay := 0;
     retryableErrors := [] |}.

Definition getRetryPolicy (errorType : DeliveryErrorType) : RetryPolicy :=
  match errorType with
  | RATE_EXPIRED => rate_expired_policy
  | COMPLIANCE_BLOCKED | KYC_REQUIRED => compliance_policy
  | _ => default_policy
  end.

(** [Math.min(initialDelay * Math.pow(backoffMultiplier, attempts), maxDelay)];
    with the multipliers 1 and 2 of the registered policies the power is an
    exact integer, or exceeds every [maxDelay] once it no longer is. *)
Definition retry_delay (policy : RetryPolicy) (attempts : nat) : Z :=
  Z.min (initialDelay policy * backoffMultiplier policy ^ Z.of_nat attempts)
        (maxDelay policy).

Definition handleNonRetryableError (orderId : string) (error : DeliveryError)
    (s : State) : State :=
  let s := OrderRepository.updateStatus orderId failed (fun o => o) s in
  let s := emit (refund_required orderId (de_message error) (de_type error)) s in
  emit (user_notification orderId "delivery_failed"
          (default "Your transaction could not be completed. A refund will be processed."
                   (Js.or_else (de_userAction error) None))
          "error") s.

Definition handleMaxRetriesExceeded (orderId : string) (error : DeliveryError)
    (s : State) : State :=
  let s := set_retryAttempts (delete orderId) s in
  let s := OrderRepository.updateStatus orderId failed (fun o => o) s in
  let s := emit (manual_review_required orderId "Max retries exceeded" error) s in
  emit (user_notification orderId "delivery_delayed"
          "Your transaction is being reviewed. We'll update you within 24 hours."
          "warning") s.

(** [scheduleRetry]: an existing timer of the order is cleared and
    replaced by the new one. *)
Definition scheduleRetry (orderId : string) (error : DeliveryError) (s : State) : State :=
  let attempts := default 0%nat (retryAttempts s !! orderId) in
  let policy := getRetryPolicy (de_type error) in
  if (maxAttempts policy <=? attempts)%nat then
    handleMaxRetriesExceeded orderId error s
  else
    let delay := retry_delay policy attempts in
    set_retryQueues
      (insert orderId {| timer_delay := delay;
                         timer_attempt := attempts + 1;
                         timer_maxAttempts := maxAttempts policy |}) s.

(** The callback of the timer [scheduleRetry] sets, run when the timer of
    [orderId] expires. *)
Definition fire_timer (orderId : string) (s : State) : State :=
  match retryQueues s !! orderId with
  | Some t =>
      let s := set_retryQueues (delete orderId) s in
      let s := set_retryAttempts (insert orderId (timer_attempt t)) s in
      emit (delivery_retry orderId (timer_attempt t) (timer_maxAttempts t)) s
  | None => s
  end.

Definition handleDeliveryError (orderId : string) (error : RawError) (s : State)
    : DeliveryError * State :=
  let deliveryError := classifyError error in
  let s := OrderRepository.updateStatus orderId failed (fun o => o) s in
  let s := emit (delivery_error orderId deliveryError) s in
  let s := if de_retryable deliveryError
           then scheduleRetry orderId deliveryError s
           else handleNonRetryableError orderId deliveryError s in
  (deliveryError, s).

Definition cancelRetries (orderId : string) (s : State) : State :=
  set_retryAttempts (delete orderId) (set_retryQueues (delete orderId) s).

(** The [messages] table of [getUserFriendlyMessage]. *)
Definition messages (t : DeliveryErrorType) : string :=
  match t with
  | INSUFFICIENT_FUNDS => "Service temporarily unavailable. Please try again in 15 minutes."
  | INVALID_RECIPIENT => "The recipient information provided is invalid. Please check and try again."
  | KYC_REQUIRED => "Additional verification is required to complete this transaction."
  | COMPLIANCE_BLOCKED => "This transaction cannot be processed due to regulatory requirements."
  | ANCHOR_UNAVAILABLE => "Our delivery partner is temporarily unavailable. We're working on it."
  | RATE_EXPIRED => "The exchange rate has expired. Getting you a new quote..."
  | LIMIT_EXCEEDED => "This amount exceeds your transaction limit."
  | TECHNICAL_ERROR => "Something went wrong. Our team has been notified."
  | NETWORK_ERROR => "Connection issue. Please check your internet and try again."
  | TIMEOUT => "The request took too long. Please try again."
  end.

(** [messages[error.type] || error.message] *)
Definition getUserFriendlyMessage (error : DeliveryError) : string :=
  let m := messages (de_type error) in
  if String.eqb m "" then de_message error else m.

End RetryScheduler.

(** ** StellarAnchorService.ts *)

Module StellarAnchorService.

Fixpoint assoc {A : Type} (key : string) (l : list (string * A)) : option A :=
  match l with
  | [] => None
  | (k, v) :: rest => if String.eqb k key then Some v else assoc key rest
  end.

(** [literal[key]] for an object literal with the own entries [literal]. *)
Definition property {A : Type} (key : string) (literal : list (string * A))
    : option (Js.Member A) :=
  match assoc key literal with
  | Some v => Some (Js.own v)
  | None => if Js.is_prototype_member key then Some (Js.inherited key) else None
  end.

(** The anchors, in the order [initializeAnchors] registers them. *)
Definition anchorList : list Anchor :=
  [ {| anchor_code := "VIBRANT_USD";
       anchor_name := "Vibrant (Argentina)";
       supportedCurrencies := ["USD"; "ARS"];
       depositMethods := ["bank_transfer"; "cash"];
       withdrawMethods := ["bank_transfer"; "mobile_wallet"];
       minimumAmount := 10;
       maximumAmount := 10000;
       kycRequired := true |};
    {| anchor_code := "CLICK_PHP";
       anchor_name := "Click (Philippines)";
       supportedCurrencies := ["PHP"; "USD"];
       depositMethods := ["bank_transfer"; "gcash"; "paymaya"];
       withdrawMethods := ["bank_transfer"; "gcash"; "paymaya"];
       minimumAmount := 500;
       maximumAmount := 500000;
       kycRequired := true |};
    {| anchor_code := "COWRIE_NGN";
       anchor_name := "Cowrie (Nigeria)";
       supportedCurrencies := ["NGN"; "USD"];
       depositMethods := ["bank_transfer"; "mobile_money"];
       withdrawMethods := ["bank_transfer"; "mobile_money"];
       minimumAmount := 1000;
       maximumAmount := 5000000;
       kycRequired := true |};
    {| anchor_code := "SETTLE_EUR";
       anchor_name := "Settle Network (Europe)";
       supportedCurrencies := ["EUR"; "USD"];
       depositMethods := ["sepa"; "wire"];
       withdrawMethods := ["sepa"; "wire"];
       minimumAmount := 10;
       maximumAmount := 50000;
       kycRequired := true |} ].

(** [this.anchors]: a [Map] keyed by anchor code; its iteration order is
    the insertion order, and the four codes are distinct. *)
Definition anchors : list (string * Anchor) :=
  map (fun a => (anchor_code a, a)) anchorList.

Definition getAnchorInfo (anchorCode : string) : option Anchor :=
  assoc anchorCode anchors.

Definition corridorMap : list (string * string) :=
  [ ("US-AR", "VIBRANT_USD");
    ("US-PH", "CLICK_PHP");
    ("US-NG", "COWRIE_NGN");
    ("US-EU", "SETTLE_EUR");
    ("EU-NG", "COWRIE_NGN");
    ("EU-PH", "CLICK_PHP") ].

(** [supportedCurrencies.includes(currency)] *)
Definition supports (currency : string) (a : Anchor) : bool :=
  existsb (String.eqb currency) (supportedCurrencies a).

Definition getAnchorForCorridor (fromCountry toCountry currency : string)
    : option Anchor :=
  let corridorKey := fromCountry +:+ "-" +:+ toCountry in
  match assoc corridorKey corridorMap with
  | Some anchorCode =>
      if negb (String.eqb anchorCode "")
      then assoc anchorCode anchors
      else find (supports currency) (map snd anchors)
  | None => find (supports currency) (map snd anchors)
  end.

(** Truthiness of a [number]. *)
Definition num_truthy (x : float) : bool :=
  negb (PrimFloat.eqb x 0%float) && PrimFloat.eqb x x.

Definition rates : list (string * float) :=
  [ ("USD-PHP", 56.50%float);
    ("USD-NGN", 1520.00%float);
    ("USD-ARS", 850.00%float);
    ("USD-EUR", 0.92%float);
    ("EUR-PHP", 61.41%float);
    ("EUR-NGN", 1652.17%float) ].

(** [rates[key] || 1.0] *)
Definition getExchangeRate (fromCurrency toCurrency : string)
    (anchorCode : option string) : float :=
  let key := fromCurrency +:+ "-" +:+ toCurrency in
  match assoc key rates with
  | Some r => if num_truthy r then r else 1.0%float
  | None => 1.0%float
  end.

Definition deliveryTimes : list (string * list (string * Z)) :=
  [ ("VIBRANT_USD", [("bank_transfer", 1440); ("mobile_wallet", 5)]);
    ("CLICK_PHP", [("bank_transfer", 60); ("gcash", 1); ("paymaya", 1)]);
    ("COWRIE_NGN", [("bank_transfer", 120); ("mobile_money", 5)]);
    ("SETTLE_EUR", [("sepa", 1440); ("wire", 2880)]) ]%Z.

(** [estimateDeliveryTime(anchorCode, method)]: 60 for an anchor that is
    not registered, else [deliveryTimes[anchorCode]?.[method] || 60].  The
    first lookup is reached with a registered code only, and the four
    registered codes are own keys of [deliveryTimes]; the second one
    takes any [method], the names of inherited members included. *)
Definition estimateDeliveryTime (anchorCode method : string) : Js.Member Z :=
  match assoc anchorCode anchors with
  | None => Js.own 60%Z
  | Some _ =>
      match assoc anchorCode deliveryTimes with
      | Some times =>
          match property method times with
          | Some (Js.own t) => if (t =? 0)%Z then Js.own 60%Z else Js.own t
          | Some (Js.inherited name) => Js.inherited name
          | None => Js.own 60%Z
          end
      | None => Js.own 60%Z
      end
  end.

End StellarAnchorService.

(** ** delivery/DeliveryMethodHandler.ts: the method registry *)

Module DeliveryMethodHandler.

Record DeliveryMethod := {
  dm_id : string;
  dm_name : string;
  dm_type : string;
  dm_countryCode : string;
  dm_currency : string;
  dm_minAmount : Z;
  dm_maxAmount : Z;
  dm_estimatedTime : Z
}.

(** The registry in registration order (fee schedules and field schemas,
    which the lookup below does not read, are left out). *)
Definition deliveryMethods : list DeliveryMethod :=
  [ {| dm_id := "gcash_php"; dm_name := "GCash"; dm_type := "gcash";
       dm_countryCode := "PH"; dm_currency := "PHP";
       dm_minAmount := 100; dm_maxAmount := 500000; dm_estimatedTime := 1 |};
    {| dm_id := "paymaya_php"; dm_name := "PayMaya"; dm_type := "paymaya";
       dm_countryCode := "PH"; dm_currency := "PHP";
       dm_minAmount := 100; dm_maxAmount := 500000; dm_estimatedTime := 1 |};
    {| dm_id := "bank_ph"; dm_name := "Bank Transfer"; dm_type := "bank_transfer";
       dm_countryCode := "PH"; dm_currency := "PHP";
       dm_minAmount := 1000; dm_maxAmount := 1000000; dm_estimatedTime := 60 |};
    {| dm_id := "mobile_money_ngn"; dm_name := "Mobile Money"; dm_type := "mobile_money";
       dm_countryCode := "NG"; dm_currency := "NGN";
       dm_minAmount := 1000; dm_maxAmount := 5000000; dm_estimatedTime := 5 |};
    {| dm_id := "bank_ngn"; dm_name := "Bank Transfer"; dm_type := "bank_transfer";
       dm_countryCode := "NG"; dm_currency := "NGN";
       dm_minAmount := 5000; dm_maxAmount := 10000000; dm_estimatedTime := 120 |};
    {| dm_id := "bank_ars"; dm_name := "Bank Transfer"; dm_type := "bank_transfer";
       dm_countryCode := "AR"; dm_currency := "ARS";
       dm_minAmount := 1000; dm_maxAmount := 5000000; dm_estimatedTime := 1440 |} ]%Z.

Definition getAvailableDeliveryMethods (countryCode currency : string)
    : list DeliveryMethod :=
  List.filter (fun method => String.eqb (dm_countryCode method) countryCode
                        && String.eqb (dm_currency method) currency)
         deliveryMethods.

End DeliveryMethodHandler.

(** ** OneInchAggregator.ts *)

Module OneInchAggregator.

Record SwapParams := {
  (** the chain id: a number, or what the chain table gave in its place *)
  sp_fromChain : Js.Member Z;
  sp_fromToken : string;
  sp_toToken : string;
  sp_amount : string;
  sp_fromAddress : string;
  sp_slippage : Z
}.

(** The body of a successful quote response. *)
Record QuoteData := {
  qd_dstAmount : option string;
  qd_toAmount : option string;
  qd_protocols : option (list string);
  qd_gas : option string;
  qd_estimatedGas : option string
}.

Record SwapQuote := {
  sq_data : QuoteData;
  sq_toAmount : option string;
  sq_protocols : list string;
  sq_estimatedGas : option string
}.

(** What the client does that the outside can observe: requests, by
    attempt number, and waits, in milliseconds. *)
Inductive Effect :=
| http_request (attempt : nat)
| delay (ms : Z).

Definition retryCount : nat := 3.
Definition retryDelay : Z := 1000.

Definition is_hex (c : ascii) : bool :=
  let n := nat_of_ascii c in
  ((48 <=? n) && (n <=? 57) || (65 <=? n) && (n <=? 70) || (97 <=? n) && (n <=? 102))%nat.

Fixpoint all_hex (s : string) : bool :=
  match s with
  | EmptyString => true
  | String c rest => is_hex c && all_hex rest
  end.

(** [/^0x[a-fA-F0-9]{40}$/.test(address)] *)
Definition isValidAddress (address : string) : bool :=
  match address with
  | String "0" (String "x" digits) =>
      (String.length digits =? 40)%nat && all_hex digits
  | _ => false
  end.

Definition handleApiError (error : RawError) : RawError :=
  match err_response error with
  | Some r =>
      let status := resp_status r in
      let message :=
        default "Unknown error"
          (Js.or_else (Js.or_else (resp_description r) (resp_message r)) None) in
      if (status =? 401)%Z then
        newError "Invalid 1inch API key. Please check your configuration."
      else if (status =? 429)%Z then
        newError "Rate limit exceeded. Please try again later."
      else if (status =? 400)%Z then
        newError ("Bad request: " +:+ message)
      else if (status =? 404)%Z then
        newError "Token pair not found or route not available"
      else
        newError ("1inch API error (" +:+ pretty status +:+ "): " +:+ message)
  | None =>
      if Js.strictEq (err_code error) "ECONNABORTED" then
        newError "Request timeout - 1inch API took too long to respond"
      else
        newError ("Network error: " +:+ default "undefined" (err_message error))
  end.

(** [error.response && error.response.status >= 400 && error.response.status < 500] *)
Definition is_client_error (error : RawError) : bool :=
  match err_response error with
  | Some r => (400 <=? resp_status r)%Z && (resp_status r <? 500)%Z
  | None => false
  end.

Definition normalize (data : QuoteData) : SwapQuote :=
  {| sq_data := data;
     sq_toAmount := Js.or_else (qd_dstAmount data) (qd_toAmount data);
     sq_protocols := default [] (qd_protocols data);
     sq_estimatedGas :=
       Js.or_else (Js.or_else (qd_gas data) (qd_estimatedGas data)) (Some "0") |}.

(** What the [try] block makes of the outcome of its request: the quote
    built from [response.data], whose first read, [data.dstAmount], throws
    when the body is [null] or [undefined]. *)
Definition quote_of (response : Result (Js.Nullable QuoteData)) : Result SwapQuote :=
  match response with
  | Ok (Js.value data) => Ok (normalize data)
  | Ok (Js.nothing v) => Throw (cannot_read v "dstAmount")
  | Throw error => Throw error
  end.

(** The [for] loop of [getQuote], entered at [attempt] with [remaining]
    iterations left.  [server attempt] is the outcome of the request made
    in that iteration: a response body, or the error axios throws.  The
    loop is left without a [return] or [throw] only after a failed
    iteration, so [lastError] is set when the final [throw] is reached. *)
Fixpoint getQuote_loop (server : nat -> Result (Js.Nullable QuoteData))
    (params : SwapParams)
    (remaining attempt : nat) (lastError : option RawError) (log : list Effect)
    : Result SwapQuote * list Effect :=
  match remaining with
  | O =>
      (Throw (handleApiError (default (newError "") lastError)), log)
  | S remaining' =>
      let '(outcome, log) :=
        if negb (isValidAddress (sp_fromToken params))
           || negb (isValidAddress (sp_toToken params))
        then (Throw (newError "Invalid token address"), log)
        else (quote_of (server attempt), (log ++ [http_request attempt])%list) in
      match outcome with
      | Ok quote => (Ok quote, log)
      | Throw error =>
          if is_client_error error then
            (Throw (handleApiError error), log)
          else if (attempt <? retryCount - 1)%nat then
            getQuote_loop server params remaining' (S attempt) (Some error)
              (log ++ [delay (retryDelay * 2 ^ Z.of_nat attempt)])%list
          else
            getQuote_loop server params remaining' (S attempt) (Some error) log
      end
  end.

Definition getQuote (server : nat -> Result (Js.Nullable QuoteData))
    (params : SwapParams) : Result SwapQuote * list Effect :=
  getQuote_loop server params retryCount 0 None [].

(** A failed request of the server or network class: one that is not an
    HTTP response with a 4xx status.  An answer without a body counts,
    the attempt failing on it inside the [try] block. *)
Definition retryable_failure (r : Result (Js.Nullable QuoteData)) : bool :=
  match r with
  | Throw e => negb (is_client_error e)
  | Ok (Js.nothing _) => true
  | Ok (Js.value _) => false
  end.

Definition requests (log : list Effect) : list nat :=
  omap (fun ev => match ev with http_request n => Some n | delay _ => None end) log.

Definition delays (log : list Effect) : list Z :=
  omap (fun ev => match ev with delay ms => Some ms | http_request _ => None end) log.

End OneInchAggregator.

(** ** config/wrapped-stellar-usdc.ts *)

Module WrappedStellarUSDC.

Record WrappedStellarToken := {
  address : string;
  symbol : string;
  decimals : Z;
  name : string
}.

Definition token (addr : string) (dec : Z) : WrappedStellarToken :=
  {| address := addr; symbol := "sUSDC"; decimals := dec;
     name := "Wrapped Stellar USDC" |}.

Definition WRAPPED_STELLAR_USDC : list (string * WrappedStellarToken) :=
  [ ("ethereum", token "0xA0b86991c6218b36c1d19D4a2e9Eb0cE3606eB48" 6);
    ("bsc", token "0x8AC76a51cc950d9822D68b83fE1Ad97B32Cd580d" 18);
    ("polygon", token "0x2791Bca1f2de4661ED88A30C99A7a9449Aa84174" 6);
    ("arbitrum", token "0xFF970A61A04b1cA14834A43f5dE4533eBDDB5CC8" 6);
    ("optimism", token "0x7F5c764cBc14f9669B88837ca1490cCa17c31607" 6);
    ("avalanche", token "0xB97EF9Ef8734C71904D8002F8b6Bc66Dd9c48a6E" 6) ].

(** [WRAPPED_STELLAR_USDC[chain.toLowerCase()] || null]: a token of the
    table, or the member the table inherits under that name. *)
Definition getWrappedStellarUSDC (chain : string)
    : option (Js.Member WrappedStellarToken) :=
  StellarAnchorService.property (Js.toLowerCase chain) WRAPPED_STELLAR_USDC.

(** [wrappedStellarUSDC.address].  An inherited member has no such
    property; the [undefined] read from it goes into the address check
    of the aggregator client, which takes it for the text it converts
    to and so makes no request with it. *)
Definition address_of (wrappedStellarUSDC : Js.Member WrappedStellarToken) : string :=
  match wrappedStellarUSDC with
  | Js.own token => address token
  | Js.inherited _ => "undefined"
  end.

End WrappedStellarUSDC.

(** ** Number formatting used by the quote path *)

Module Number.

(** [parseFloat(ethers.formatUnits(v, 6))] for the integer [v]:
    [formatUnits] prints [v / 10^6] exactly in decimal, and [parseFloat]
    reads a decimal as the nearest binary64 value. *)
Definition of_units6 (v : Z) : float :=
  match v with
  | Z0 => 0%float
  | Zpos p =>
      SF2Prim (SFdiv prec emax (S754_finite false p 0) (S754_finite false 1000000 0))
  | Zneg p =>
      SF2Prim (SFdiv prec emax (S754_finite true p 0) (S754_finite false 1000000 0))
  end.

(** The integer [n] for which [n / 100] is closest to [m * 2^e], the
    larger one on a tie. *)
Definition hundredths (m : positive) (e : Z) : Z :=
  if (0 <=? e)%Z then 100 * Zpos m * 2 ^ e
  else (200 * Zpos m + 2 ^ (- e)) / (2 * 2 ^ (- e)).

Definition two_digits (k : Z) : string :=
  if (k <? 10)%Z then "0" +:+ pretty k else pretty k.

Section ToFixed.

(** [Number::toString] of ECMAScript, which [toFixed] falls back to for
    infinities and for magnitudes of 10^21 and more. *)
Variable Number_toString : float -> string.

(** [x.toFixed(2)] *)
Definition toFixed2 (x : float) : string :=
  match Prim2SF x with
  | S754_nan => "NaN"
  | S754_zero _ => "0.00"
  | S754_infinity _ => Number_toString x
  | S754_finite sgn m e =>
      if PrimFloat.leb 1e21%float (PrimFloat.abs x) then Number_toString x
      else
        let n := hundredths m e in
        (if sgn then "-" else "")
          +:+ pretty (n / 100)%Z +:+ "." +:+ two_digits (n mod 100)%Z
  end.

End ToFixed.

End Number.

(** ** RemittanceEngine.ts: quotes *)

Module RemittanceEngine.

Record QuoteParams := {
  qp_fromChain : string;
  qp_fromToken : string;
  qp_fromAmount : string;
  qp_toCountry : string;
  qp_toCurrency : string;
  qp_deliveryMethod : option string
}.

Definition chainIds : list (string * Z) :=
  [ ("ethereum", 1); ("bsc", 56); ("polygon", 137);
    ("arbitrum", 42161); ("optimism", 10); ("avalanche", 43114) ]%Z.

(** [chainIds[chainName] || 1] *)
Definition getChainId (chainName : string) : Js.Member Z :=
  match StellarAnchorService.property chainName chainIds with
  | Some (Js.own n) => if (n =? 0)%Z then Js.own 1%Z else Js.own n
  | Some (Js.inherited name) => Js.inherited name
  | None => Js.own 1%Z
  end.

(** [route.reduce((sum, step) => sum + step.fees, 0)] *)
Definition sum_fees (route : list RouteStep) : float :=
  fold_left (fun sum step => PrimFloat.add sum (step_fees step)) route 0%float.

(** [route.reduce((sum, step) => sum + step.estimatedTime, 0)] *)
Definition sum_time (route : list RouteStep) : Js.Sum :=
  fold_left (fun sum step => Js.add sum (step_estimatedTime step)) route (Js.number 0).

Section Quote.

(** [ethers.getBigInt] on a string: the integer it denotes, or the error
    it throws. *)
Variable getBigInt : string -> Result Z.
Variable Number_toString : float -> string.

(** [parseFloat(ethers.formatUnits(oneInchQuote.toAmount || '0', 6))] *)
Definition usdcAmount (oneInchQuote : OneInchAggregator.SwapQuote) : Result float :=
  match getBigInt (default "0" (Js.or_else (OneInchAggregator.sq_toAmount oneInchQuote) None)) with
  | Ok v => Ok (Number.of_units6 v)
  | Throw e => Throw e
  end.

Definition build_route (params : QuoteParams) (payout : Anchor) : list RouteStep :=
  [ {| step_type := swap;
       step_from := qp_fromChain params +:+ ":" +:+ qp_fromToken params;
       step_to := qp_fromChain params +:+ ":USDC";
       step_protocol := "1inch";
       step_fees := 0.003%float;
       step_estimatedTime := Js.own 1%Z |};
    {| step_type := bridge;
       step_from := qp_fromChain params +:+ ":USDC";
       step_to := "stellar:USDC";
       step_protocol := "HTLC";
       step_fees := 0.001%float;
       step_estimatedTime := Js.own 2%Z |};
    {| step_type := anchor;
       step_from := "stellar:USDC";
       step_to := "bank:" +:+ qp_toCurrency params;
       step_protocol := anchor_code payout;
       step_fees := 0.005%float;
       step_estimatedTime :=
         StellarAnchorService.estimateDeliveryTime (anchor_code payout)
           (default "bank_transfer" (Js.or_else (qp_deliveryMethod params) None)) |} ].

(** [getQuote(params)]; [server] answers the aggregator's requests. *)
Definition getQuote (server : nat -> Result (Js.Nullable OneInchAggregator.QuoteData))
    (params : QuoteParams) : Result RemittanceQuote :=
  match StellarAnchorService.getAnchorForCorridor "US"
          (qp_toCountry params) (qp_toCurrency params) with
  | None =>
      Throw (newError ("No anchor available for " +:+ qp_toCountry params
                         +:+ " " +:+ qp_toCurrency params))
  | Some payout =>
      match WrappedStellarUSDC.getWrappedStellarUSDC (qp_fromChain params) with
      | None =>
          Throw (newError ("Wrapped Stellar USDC not available on "
                             +:+ qp_fromChain params))
      | Some wrappedStellarUSDC =>
          match fst (OneInchAggregator.getQuote server
                       {| OneInchAggregator.sp_fromChain := getChainId (qp_fromChain params);
                          OneInchAggregator.sp_fromToken := qp_fromToken params;
                          OneInchAggregator.sp_toToken :=
                            WrappedStellarUSDC.address_of wrappedStellarUSDC;
                          OneInchAggregator.sp_amount := qp_fromAmount params;
                          OneInchAggregator.sp_fromAddress :=
                            "0x0000000000000000000000000000000000000000";
                          OneInchAggregator.sp_slippage := 1 |}) with
          | Throw e => Throw e
          | Ok oneInchQuote =>
              let exchangeRate :=
                StellarAnchorService.getExchangeRate "USD" (qp_toCurrency params)
                  (Some (anchor_code payout)) in
              match usdcAmount oneInchQuote with
              | Throw e => Throw e
              | Ok usdcAmount =>
                  let localAmount := PrimFloat.mul usdcAmount exchangeRate in
                  let route := build_route params payout in
                  let totalFees := sum_fees route in
                  let totalTime := sum_time route in
                  Ok {| fromChain := qp_fromChain params;
                        fromToken := qp_fromToken params;
                        fromAmount := qp_fromAmount params;
                        toCountry := qp_toCountry params;
                        toCurrency := qp_toCurrency params;
                        toAmount :=
                          Number.toFixed2 Number_toString
                            (PrimFloat.mul localAmount (PrimFloat.sub 1%float totalFees));
                        exchangeRate := exchangeRate;
                        totalFees := PrimFloat.mul totalFees 100%float;
                        estimatedTime := totalTime;
                        route := route |}
              end
          end
      end
  end.

End Quote.

End RemittanceEngine.

(** ** The quote as the specification words it

    The sums, the settlement amount, the exchange rate and the rounding
    that the specification's statements about a quote name, written
    without the functions of the engine. *)

Module QuoteSpec.

(** The fee fractions of the steps added to [total] one after the
    other. *)
Fixpoint fees_from (total : float) (route : list RouteStep) : float :=
  match route with
  | [] => total
  | step :: rest => fees_from (PrimFloat.add total (step_fees step)) rest
  end.

(** [sum(step.fee)] *)
Definition fee_total (route : list RouteStep) : float := fees_from 0%float route.

(** [sum(estimatedMinutes)]: the minutes of the steps added up, provided
    every step has a number of minutes. *)
Fixpoint total_minutes (route : list RouteStep) : option Z :=
  match route with
  | [] => Some 0%Z
  | step :: rest =>
      match step_estimatedTime step, total_minutes rest with
      | Js.own minutes, Some total => Some (minutes + total)%Z
      | _, _ => None
      end
  end.

(** The delivery method a quote is asked for: the one the request
    names, else a bank transfer. *)
Definition requested_method (params : RemittanceEngine.QuoteParams) : string :=
  match RemittanceEngine.qp_deliveryMethod params with
  | Some (String c rest) => String c rest
  | Some EmptyString | None => "bank_transfer"
  end.

(** The swapped settlement amount: [units] smallest units of a token of
    [decimals] decimals, as the binary64 value nearest to
    [units / 10^decimals]. *)
Definition settlement_amount (decimals units : Z) : float :=
  let scale := S754_finite false (Z.to_pos (10 ^ decimals)) 0 in
  match units with
  | Z0 => 0%float
  | Zpos p => SF2Prim (SFdiv prec emax (S754_finite false p 0) scale)
  | Zneg p => SF2Prim (SFdiv prec emax (S754_finite true p 0) scale)
  end.

(** The amount the aggregator's answer names, as text: its output
    amount, or zero when it names none. *)
Definition output_amount (oneInchQuote : OneInchAggregator.SwapQuote) : string :=
  match OneInchAggregator.sq_toAmount oneInchQuote with
  | Some (String c rest) => String c rest
  | Some EmptyString | None => "0"
  end.

(** The static exchange rate from USD to a currency. *)
Definition static_rate (currency : string) : float :=
  if String.eqb currency "PHP" then 56.5%float
  else if String.eqb currency "NGN" then 1520%float
  else if String.eqb currency "ARS" then 850%float
  else if String.eqb currency "EUR" then 0.92%float
  else 1%float.

Definition digit (c : ascii) : option Z :=
  let n := nat_of_ascii c in
  if (48 <=? n)%nat && (n <=? 57)%nat then Some (Z.of_nat (n - 48)) else None.

(** The decimal digits [s] begins with, read as a number on top of
    [acc], and the rest of [s]. *)
Fixpoint read_digits (acc : Z) (s : string) : Z * string :=
  match s with
  | EmptyString => (acc, EmptyString)
  | String c rest =>
      match digit c with
      | Some d => read_digits (10 * acc + d) rest
      | None => (acc, s)
      end
  end.

(** An amount written with two decimals, read as a sign and a number of
    hundredths: an optional minus sign, decimal digits, a point and two
    more digits. *)
Definition read_hundredths (s : string) : option (bool * Z) :=
  let '(negative, magnitude) :=
    match s with
    | String c rest => if Ascii.eqb c "-" then (true, rest) else (false, s)
    | EmptyString => (false, s)
    end in
  match magnitude with
  | String c _ =>
      match digit c, read_digits 0 magnitude with
      | Some _, (whole, String point (String a (String b EmptyString))) =>
          match Ascii.eqb point ".", digit a, digit b with
          | true, Some tenths, Some hundredths =>
              Some (negative, 100 * whole + 10 * tenths + hundredths)%Z
          | _, _, _ => None
          end
      | _, _ => None
      end
  | EmptyString => None
  end.

(** [n] hundredths is the magnitude [m * 2^e] rounded to two decimal
    places: the integer nearest to a hundred times the magnitude, the
    larger one of two that are equally near. *)
Definition nearest_hundredths (n : Z) (m : positive) (e : Z) : Prop :=
  ((0 <= e)%Z -> n = (100 * Zpos m * 2 ^ e)%Z) /\
  ((e < 0)%Z -> (2 ^ (- e) * (2 * n - 1) <= 200 * Zpos m < 2 ^ (- e) * (2 * n + 1))%Z).

End QuoteSpec.

(** ** Stateful code that may throw *)

Definition M (A : Type) : Type := State -> Result A * State.

Definition ret {A : Type} (a : A) : M A := fun s => (Ok a, s).

Definition throw {A : Type} (e : RawError) : M A := fun s => (Throw e, s).

Definition bind {A B : Type} (m : M A) (k : A -> M B) : M B :=
  fun s =>
    match m s with
    | (Ok a, s') => k a s'
    | (Throw e, s') => (Throw e, s')
    end.

(** [try { m } catch (error) { handler(error) }] *)
Definition tryCatch {A : Type} (m : M A) (handler : RawError -> M A) : M A :=
  fun s =>
    match m s with
    | (Ok a, s') => (Ok a, s')
    | (Throw e, s') => handler e s'
    end.

Definition modify (f : State -> State) : M unit := fun s => (Ok tt, f s).

Notation "x <- m ;; k" := (bind m (fun x => k))
  (at level 100, m at next level, right associativity).
Notation "m ;;; k" := (bind m (fun _ => k))
  (at level 100, right associativity).

(** ** RemittanceEngine.ts: execution *)

Module Execution.

Record WithdrawResult := { wr_id : option string }.

Record BridgeResult := {
  br_htlcId : string;
  br_stellarTxHash : string;
  br_stellarAccount : string
}.

(** How the Stellar side of [bridgeToStellar] goes once a resolver key is
    set: the SDK throws while the transaction is prepared (outside the
    method's own [try]), the submission is rejected, or it is accepted
    with a transaction hash.  The SDK is outside the repository and all
    three are kept; the payment the method prepares names the asset
    issuer 'CENTRE_ISSUER_ID', which is no Stellar address, so an SDK
    that checks the issuer gives the first outcome whatever the network
    answers. *)
Inductive BridgeOutcome :=
| sdk_throws (e : RawError)
| submit_rejected
| submitted (hash : string).

Inductive Protocol := sep6 | sep24.

(** What a call of an anchor service comes to: the body of the anchor's
    answer, which may be [null], or a failure.  The services catch what
    the HTTP client throws and throw a [new Error] of their own making in
    its place (SEP6Service.ts, lines 114 to 117 and 237 to 240;
    SEP24Service.ts, lines 138 to 141), and whatever else they throw is
    a [new Error] with a message as well: a failure reaches the engine
    as a message, without the code or the response of the HTTP error. *)
Inductive ServiceOutcome :=
| answered (body : Js.Nullable WithdrawResult)
| failed_with (message : string).

(** What is outside the engine during one [executeRemittance]. *)
Record Env := {
  (** [Date.now()] and [Math.random().toString(36).substr(2, 9)] of the order id *)
  env_now : N;
  env_random : string;
  (** the two [new Date()] *)
  env_createdAt : Z;
  env_completedAt : Z;
  (** whether the aggregator's swap request yields a transaction payload *)
  env_swap_ok : bool;
  (** the id suffix of the HTLC and the Stellar side of the bridge *)
  env_htlc_suffix : string;
  env_bridge : BridgeOutcome;
  (** the anchor's capability documents: whether [/sep6/info] answers, and
      whether [/sep24/info] answers and, if so, whether it asks for
      authentication on withdrawals of the asset *)
  env_sep6_info : bool;
  env_sep24_info : option bool;
  (** whether the anchor authenticates the account, and what the
      withdrawal call comes to *)
  env_authenticate : bool;
  env_withdraw : ServiceOutcome
}.

Definition orderId (env : Env) : string :=
  "RMT-" +:+ pretty (env_now env) +:+ "-" +:+ env_random env.

(** [new] of an object: a location no live object has. *)
Definition alloc (o : RemittanceOrder) : M loc :=
  fun s =>
    let l := fresh (dom (heap s)) in
    (Ok l, set_heap (insert l o) s).

(** [OneInchAggregator.buildSwapTx]: any failure is rethrown as one error. *)
Definition buildSwapTx (env : Env) : M unit :=
  modify (record_call call_buildSwapTx) ;;;
  if env_swap_ok env then ret tt
  else throw (newError "Failed to build swap transaction").

(** [StellarBridge.bridgeToStellar] *)
Definition bridgeToStellar (env : Env) : M BridgeResult :=
  modify (record_call call_bridgeToStellar) ;;;
  fun s =>
    match resolverKeypair s with
    | None => (Throw (newError "Resolver key not set"), s)
    | Some stellarAccount =>
        match env_bridge env with
        | sdk_throws e => (Throw e, s)
        | submit_rejected => (Throw (newError "Failed to bridge to Stellar"), s)
        | submitted hash =>
            (Ok {| br_htlcId := "HTLC-" +:+ env_htlc_suffix env;
                   br_stellarTxHash := hash;
                   br_stellarAccount := stellarAccount |}, s)
        end
    end.

(** The choice of [SEP24Service.recommendProtocol], whose two probes
    swallow their errors. *)
Definition recommended (env : Env) : Protocol :=
  match env_sep6_info env, env_sep24_info env with
  | true, None => sep6
  | false, Some _ => sep24
  | _, Some true => sep24
  | _, _ => sep6
  end.

Definition recommendProtocol (env : Env) : M Protocol :=
  modify (record_call call_recommendProtocol) ;;;
  ret (recommended env).

Definition anchor_call (c : Call) (env : Env) : M (Js.Nullable WithdrawResult) :=
  modify (record_call c) ;;;
  match env_withdraw env with
  | answered body => ret body
  | failed_with message => throw (newError message)
  end.

(** [SEP6Service.authenticate] for a registered anchor: any failure is
    rethrown as one error. *)
Definition sep6_authenticate (env : Env) : M unit :=
  modify (record_call call_sep6_authenticate) ;;;
  if env_authenticate env then ret tt
  else throw (newError "Authentication failed").

Definition selectedMethod (quote : RemittanceQuote) (recipientDetails : RecipientDetails)
    : option DeliveryMethodHandler.DeliveryMethod :=
  find (fun m => Js.strictEq (rd_deliveryMethod recipientDetails)
                   (DeliveryMethodHandler.dm_type m))
       (DeliveryMethodHandler.getAvailableDeliveryMethods
          (toCountry quote) (toCurrency quote)).

Definition processSEP6Withdrawal (env : Env) (anchorCode : string)
    (quote : RemittanceQuote) (recipientDetails : RecipientDetails)
    (stellarAccount : string) : M (Js.Nullable WithdrawResult) :=
  match selectedMethod quote recipientDetails with
  | None => throw (newError "Invalid delivery method")
  | Some _ =>
      if String.eqb anchorCode "CLICK_PHP" then
        anchor_call call_clickPhilippinesIntegration env
      else if String.eqb anchorCode "COWRIE_NGN" then
        anchor_call call_cowrieNigeriaIntegration env
      else
        sep6_authenticate env ;;;
        anchor_call call_sep6_withdraw env
  end.

Definition processSEP24Withdrawal (env : Env) (anchorCode : string)
    (quote : RemittanceQuote) (recipientDetails : RecipientDetails)
    (stellarAccount : string) : M (Js.Nullable WithdrawResult) :=
  anchor_call call_sep24_initiateWithdraw env.

(** [withdrawResult.id], the first read of the answer (line 611): it
    throws when the answer is [null] or [undefined]. *)
Definition answer (withdrawResult : Js.Nullable WithdrawResult) : M WithdrawResult :=
  match withdrawResult with
  | Js.value result => ret result
  | Js.nothing v => throw (cannot_read v "id")
  end.

(** The [try] block of [executeRemittance], for the order object at [l]:
    steps 1 to 4, up to the anchor's answer to the withdrawal and the
    first read of it. *)
Definition stages (env : Env) (quote : RemittanceQuote) (senderAddress : string)
    (recipientDetails : RecipientDetails) (l : loc) : M WithdrawResult :=
  modify (set_heap (alter (with_status processing) l)) ;;;
  modify (OrderRepository.updateStatus (orderId env) processing (fun o => o)) ;;;
  wrappedStellarUSDC <-
    match WrappedStellarUSDC.getWrappedStellarUSDC (fromChain quote) with
    | Some w => ret w
    | None => throw (newError ("Wrapped Stellar USDC not available on "
                                 +:+ fromChain quote))
    end ;;
  buildSwapTx env ;;;
  htlcResult <- bridgeToStellar env ;;
  modify (set_heap (alter (with_bridge (br_htlcId htlcResult)
                                       (br_stellarTxHash htlcResult)) l)) ;;;
  payout <-
    match StellarAnchorService.getAnchorForCorridor "US"
            (toCountry quote) (toCurrency quote) with
    | Some a => ret a
    | None => throw (newError "No anchor available for this corridor")
    end ;;
  protocol <- recommendProtocol env ;;
  withdrawResult <-
    match protocol with
    | sep6 => processSEP6Withdrawal env (anchor_code payout) quote
                recipientDetails (br_stellarAccount htlcResult)
    | sep24 => processSEP24Withdrawal env (anchor_code payout) quote
                 recipientDetails (br_stellarAccount htlcResult)
    end ;;
  answer withdrawResult.

(** The rest of the [try] block: the order is marked completed, on the
    object and through the repository, and recorded in the metrics. *)
Definition complete (env : Env) (l : loc) (withdrawResult : WithdrawResult) : M unit :=
  modify (set_heap (alter (fun o => with_completedAt (env_completedAt env)
                             (with_status completed
                                (with_anchorTxId (wr_id withdrawResult) o))) l)) ;;;
  modify (OrderRepository.updateStatus (orderId env) completed
            (fun o => with_completedAt (env_completedAt env)
                        (with_anchorTxId (wr_id withdrawResult) o))) ;;;
  modify (push_metrics l).

Definition pipeline (env : Env) (quote : RemittanceQuote) (senderAddress : string)
    (recipientDetails : RecipientDetails) (l : loc) : M unit :=
  withdrawResult <- stages env quote senderAddress recipientDetails l ;;
  complete env l withdrawResult.

(** The [catch] block of [executeRemittance]. *)
Definition on_failure (env : Env) (l : loc) (error : RawError) : M loc :=
  deliveryError <-
    (fun s => let '(d, s') := RetryScheduler.handleDeliveryError (orderId env) error s in
              (Ok d, s')) ;;
  modify (set_heap (alter (with_status failed) l)) ;;;
  throw (newError (RetryScheduler.getUserFriendlyMessage deliveryError)).

(** [executeRemittance(quote, senderAddress, recipientDetails)]: returns
    the order object, or throws. *)
Definition executeRemittance (env : Env) (quote : RemittanceQuote)
    (senderAddress : string) (recipientDetails : RecipientDetails) : M loc :=
  l <- alloc {| order_id := orderId env;
                sender_address := senderAddress;
                sender_chain := fromChain quote;
                recipient_name := rd_name recipientDetails;
                recipient_country := toCountry quote;
                recipient_currency := toCurrency quote;
                recipient_accountDetails := recipientDetails;
                order_quote := quote;
                status := pending;
                htlcId := None;
                stellarTxHash := None;
                anchorTxId := None;
                createdAt := env_createdAt env;
                completedAt := None |} ;;
  modify (OrderRepository.save l) ;;;
  modify (set_engine_orders (insert (orderId env) l)) ;;;
  tryCatch
    (pipeline env quote senderAddress recipientDetails l ;;; ret l)
    (on_failure env l).

(** [executeRemittance] as a caller reaches it.  [recipientDetails] is of
    type [any], and nothing checks [quote] at run time: either may be
    [null] or [undefined].  The order literal reads [quote.fromChain]
    (line 529) and then [recipientDetails.name] (line 532), before an
    order exists and outside the [try] block; for a value that is
    missing the read throws. *)
Definition executeRemittance_call (env : Env) (quote : Js.Nullable RemittanceQuote)
    (senderAddress : string) (recipientDetails : Js.Nullable RecipientDetails) : M loc :=
  match quote, recipientDetails with
  | Js.nothing v, _ => throw (cannot_read v "fromChain")
  | Js.value _, Js.nothing v => throw (cannot_read v "name")
  | Js.value quote, Js.value recipientDetails =>
      executeRemittance env quote senderAddress recipientDetails
  end.

(** The state once [executeRemittance] has created the order and stored
    it, before the [try] block is entered. *)
Definition prepared (env : Env) (quote : RemittanceQuote) (senderAddress : string)
    (recipientDetails : RecipientDetails) (s : State) : State :=
  snd ((l <- alloc {| order_id := orderId env;
                      sender_address := senderAddress;
                      sender_chain := fromChain quote;
                      recipient_name := rd_name recipientDetails;
                      recipient_country := toCountry quote;
                      recipient_currency := toCurrency quote;
                      recipient_accountDetails := recipientDetails;
                      order_quote := quote;
                      status := pending;
                      htlcId := None;
                      stellarTxHash := None;
                      anchorTxId := None;
                      createdAt := env_createdAt env;
                      completedAt := None |} ;;
        modify (OrderRepository.save l) ;;;
        modify (set_engine_orders (insert (orderId env) l))) s).

(** The calls that carry out a SEP-6 withdrawal. *)
Definition sep6_withdrawal_call (c : Call) : bool :=
  match c with
  | call_clickPhilippinesIntegration | call_cowrieNigeriaIntegration
  | call_sep6_authenticate | call_sep6_withdraw => true
  | _ => false
  end.

Definition any_call (c : Call) : Prop := True.
Definition no_sep6_withdrawal (c : Call) : Prop := sep6_withdrawal_call c = false.

(** How the state may change while the pipeline runs: the tables that map
    order ids to objects stay as they are, no object appears or
    disappears, the bridge key is not touched, and the calls made are
    [allowed] ones. *)
Record evolves (allowed : Call -> Prop) (s s' : State) : Prop := {
  ev_repo : repo_orders s' = repo_orders s;
  ev_engine : engine_orders s' = engine_orders s;
  ev_dom : dom (heap s') = dom (heap s);
  ev_key : resolverKeypair s' = resolverKeypair s;
  ev_calls : exists made, calls s' = (calls s ++ made)%list /\ Forall allowed made
}.

Definition steps {A : Type} (allowed : Call -> Prop) (m : M A) : Prop :=
  forall s, evolves allowed s (snd (m s)).

(** The order a finished call leaves behind, as the repository and the
    engine's own table hold it. *)
Definition stored_order (id : string) (s : State) : option RemittanceOrder :=
  match repo_orders s !! id, engine_orders s !! id with
  | Some l, Some l' => if Nat.eqb l l' then heap s !! l else None
  | _, _ => None
  end.

End Execution.

(** ** Concrete inputs *)

Module Samples.

Definition insufficient_refused : RawError :=
  {| err_message := Some "insufficient balance";
     err_toString := "Error: insufficient balance";
     err_code := Some "ECONNREFUSED";
     err_response := None |}.

Definition kyc_error : RawError := newError "KYC verification needed".

Definition rate_error : RawError := newError "rate expired".

(** The error axios throws for a response with [status]. *)
Definition server_error (status : Z) : RawError :=
  {| err_message := Some ("Request failed with status code " +:+ pretty status);
     err_toString := "AxiosError: Request failed with status code " +:+ pretty status;
     err_code := Some "ERR_BAD_RESPONSE";
     err_response := Some {| resp_status := status;
                             resp_description := None;
                             resp_message := None;
                             resp_error := None;
                             resp_error_code := None;
                             resp_required_info := None;
                             resp_limits := None |} |}.

Definition always_500 (attempt : nat) : Result (Js.Nullable OneInchAggregator.QuoteData) :=
  Throw (server_error 500).

Definition unavailable_then_unauthorized (attempt : nat)
    : Result (Js.Nullable OneInchAggregator.QuoteData) :=
  match attempt with
  | O => Throw (server_error 503)
  | _ => Throw (server_error 401)
  end.

Definition usdt_to_susdc : OneInchAggregator.SwapParams :=
  {| OneInchAggregator.sp_fromChain := Js.own 1%Z;
     OneInchAggregator.sp_fromToken := "0xdAC17F958D2ee523a2206206994597C13D831ec7";
     OneInchAggregator.sp_toToken := "0xA0b86991c6218b36c1d19D4a2e9Eb0cE3606eB48";
     OneInchAggregator.sp_amount := "100000000";
     OneInchAggregator.sp_fromAddress := "0x0000000000000000000000000000000000000000";
     OneInchAggregator.sp_slippage := 1 |}.

(** A reading of decimal digit strings, standing in for [ethers.getBigInt]. *)
Fixpoint digits_value (acc : Z) (s : string) : option Z :=
  match s with
  | EmptyString => Some acc
  | String c rest =>
      let n := nat_of_ascii c in
      if (48 <=? n)%nat && (n <=? 57)%nat
      then digits_value (10 * acc + Z.of_nat (n - 48)) rest
      else None
  end.

Definition decimal_getBigInt (s : string) : Result Z :=
  match s, digits_value 0 s with
  | String _ _, Some v => Ok v
  | _, _ => Throw (newError "invalid BigNumberish string")
  end.

Definition exponent_form (x : float) : string := "1e+21".

(** The aggregator answers the first request: 100 USDC out. *)
Definition answers_100_usdc (attempt : nat)
    : Result (Js.Nullable OneInchAggregator.QuoteData) :=
  Ok (Js.value {| OneInchAggregator.qd_dstAmount := Some "100000000";
                  OneInchAggregator.qd_toAmount := None;
                  OneInchAggregator.qd_protocols := None;
                  OneInchAggregator.qd_gas := Some "210000";
                  OneInchAggregator.qd_estimatedGas := None |}).

Definition gcash_request : RemittanceEngine.QuoteParams :=
  {| RemittanceEngine.qp_fromChain := "ethereum";
     RemittanceEngine.qp_fromToken := "0xdAC17F958D2ee523a2206206994597C13D831ec7";
     RemittanceEngine.qp_fromAmount := "100000000";
     RemittanceEngine.qp_toCountry := "Philippines";
     RemittanceEngine.qp_toCurrency := "PHP";
     RemittanceEngine.qp_deliveryMethod := Some "gcash" |}.

(** A quote with no content, for the branches that cannot occur. *)
Definition no_quote : RemittanceQuote :=
  {| fromChain := "";
     fromToken := "";
     fromAmount := "";
     toCountry := "";
     toCurrency := "";
     toAmount := "";
     exchangeRate := 0%float;
     totalFees := 0%float;
     estimatedTime := Js.number 0;
     route := [] |}.

(** The quote the engine returns for [gcash_request]. *)
Definition gcash_quote : RemittanceQuote :=
  Eval vm_compute in
    match RemittanceEngine.getQuote decimal_getBigInt exponent_form
            answers_100_usdc gcash_request with
    | Ok q => q
    | Throw _ => no_quote
    end.

(** As [gcash_request], naming no delivery method. *)
Definition bank_request : RemittanceEngine.QuoteParams :=
  {| RemittanceEngine.qp_fromChain := "ethereum";
     RemittanceEngine.qp_fromToken := "0xdAC17F958D2ee523a2206206994597C13D831ec7";
     RemittanceEngine.qp_fromAmount := "100000000";
     RemittanceEngine.qp_toCountry := "Philippines";
     RemittanceEngine.qp_toCurrency := "PHP";
     RemittanceEngine.qp_deliveryMethod := None |}.

Definition bank_quote : RemittanceQuote :=
  Eval vm_compute in
    match RemittanceEngine.getQuote decimal_getBigInt exponent_form
            answers_100_usdc bank_request with
    | Ok q => q
    | Throw _ => no_quote
    end.

(** As [gcash_request], with a delivery method named after a member that
    every object inherits. *)
Definition constructor_request : RemittanceEngine.QuoteParams :=
  {| RemittanceEngine.qp_fromChain := "ethereum";
     RemittanceEngine.qp_fromToken := "0xdAC17F958D2ee523a2206206994597C13D831ec7";
     RemittanceEngine.qp_fromAmount := "100000000";
     RemittanceEngine.qp_toCountry := "Philippines";
     RemittanceEngine.qp_toCurrency := "PHP";
     RemittanceEngine.qp_deliveryMethod := Some "constructor" |}.

Definition constructor_quote : RemittanceQuote :=
  Eval vm_compute in
    match RemittanceEngine.getQuote decimal_getBigInt exponent_form
            answers_100_usdc constructor_request with
    | Ok q => q
    | Throw _ => no_quote
    end.

(** 100 USDC sent from the BNB chain, where the token has 18 decimals. *)
Definition bsc_request : RemittanceEngine.QuoteParams :=
  {| RemittanceEngine.qp_fromChain := "bsc";
     RemittanceEngine.qp_fromToken := "0x55d398326f99059fF775485246999027B3197955";
     RemittanceEngine.qp_fromAmount := "100000000000000000000";
     RemittanceEngine.qp_toCountry := "Philippines";
     RemittanceEngine.qp_toCurrency := "PHP";
     RemittanceEngine.qp_deliveryMethod := Some "gcash" |}.

(** The aggregator answers the first request: 100 tokens of 18 decimals
    out. *)
Definition answers_100_on_bsc (attempt : nat)
    : Result (Js.Nullable OneInchAggregator.QuoteData) :=
  Ok (Js.value {| OneInchAggregator.qd_dstAmount := Some "100000000000000000000";
                  OneInchAggregator.qd_toAmount := None;
                  OneInchAggregator.qd_protocols := None;
                  OneInchAggregator.qd_gas := Some "210000";
                  OneInchAggregator.qd_estimatedGas := None |}).

Definition bsc_quote : RemittanceQuote :=
  Eval vm_compute in
    match RemittanceEngine.getQuote decimal_getBigInt exponent_form
            answers_100_on_bsc bsc_request with
    | Ok q => q
    | Throw _ => no_quote
    end.

(** An error of the HTTP client that has no code of its own and carries
    an [error_code] in the body of the response. *)
Definition anchor_reply (error_code : string) : RawError :=
  {| err_message := Some "Request failed with status code 400";
     err_toString := "Error: Request failed with status code 400";
     err_code := None;
     err_response := Some {| resp_status := 400;
                             resp_description := None;
                             resp_message := None;
                             resp_error := None;
                             resp_error_code := Some error_code;
                             resp_required_info := None;
                             resp_limits := None |} |}.

(** An error with a code of its own and nothing else to go by. *)
Definition coded (code : string) : RawError :=
  {| err_message := Some "request failed";
     err_toString := "Error: request failed";
     err_code := Some code;
     err_response := None |}.

Definition keyed_engine : State :=
  {| heap := ∅; repo_orders := ∅; repo_ordersByUser := ∅; engine_orders := ∅;
     retryQueues := ∅; retryAttempts := ∅; emitted := []; metrics_orders := [];
     resolverKeypair := Some "GRESOLVERPUBLICKEY"; calls := [] |}.

Definition teleport_details : RecipientDetails :=
  {| rd_name := Some "Juan Dela Cruz";
     rd_deliveryMethod := Some "teleport";
     rd_fields := ∅ |}.

Definition sep6_env : Execution.Env :=
  {| Execution.env_now := 1700000000000%N;
     Execution.env_random := "k3j9x0q2z";
     Execution.env_createdAt := 1700000000000;
     Execution.env_completedAt := 1700000004000;
     Execution.env_swap_ok := true;
     Execution.env_htlc_suffix := "1700000000001-a1b2c3d4e";
     Execution.env_bridge := Execution.submitted "9f2c";
     Execution.env_sep6_info := true;
     Execution.env_sep24_info := None;
     Execution.env_authenticate := true;
     Execution.env_withdraw :=
       Execution.answered (Js.value {| Execution.wr_id := Some "WD-1" |}) |}.

Definition sep24_env : Execution.Env :=
  {| Execution.env_now := 1700000000000%N;
     Execution.env_random := "k3j9x0q2z";
     Execution.env_createdAt := 1700000000000;
     Execution.env_completedAt := 1700000004000;
     Execution.env_swap_ok := true;
     Execution.env_htlc_suffix := "1700000000001-a1b2c3d4e";
     Execution.env_bridge := Execution.submitted "9f2c";
     Execution.env_sep6_info := false;
     Execution.env_sep24_info := Some true;
     Execution.env_authenticate := true;
     Execution.env_withdraw :=
       Execution.answered (Js.value {| Execution.wr_id := Some "WD-1" |}) |}.

Definition refused : RawError :=
  {| err_message := Some "connect ECONNREFUSED 10.0.0.1:443";
     err_toString := "Error: connect ECONNREFUSED 10.0.0.1:443";
     err_code := Some "ECONNREFUSED";
     err_response := None |}.

(** As [sep24_env], with the anchor refusing the connection. *)
Definition refusing_env : Execution.Env :=
  {| Execution.env_now := 1700000000000%N;
     Execution.env_random := "k3j9x0q2z";
     Execution.env_createdAt := 1700000000000;
     Execution.env_completedAt := 1700000004000;
     Execution.env_swap_ok := true;
     Execution.env_htlc_suffix := "1700000000001-a1b2c3d4e";
     Execution.env_bridge := Execution.submitted "9f2c";
     Execution.env_sep6_info := false;
     Execution.env_sep24_info := Some true;
     Execution.env_authenticate := true;
     Execution.env_withdraw :=
       Execution.failed_with
         "Interactive withdrawal failed: connect ECONNREFUSED 10.0.0.1:443" |}.

(** An environment in which the SDK rejects the issuer of the payment the
    bridge prepares. *)
Definition testnet_env : Execution.Env :=
  {| Execution.env_now := 1700000000000%N;
     Execution.env_random := "k3j9x0q2z";
     Execution.env_createdAt := 1700000000000;
     Execution.env_completedAt := 1700000004000;
     Execution.env_swap_ok := true;
     Execution.env_htlc_suffix := "1700000000001-a1b2c3d4e";
     Execution.env_bridge := Execution.sdk_throws (newError "Issuer is invalid");
     Execution.env_sep6_info := true;
     Execution.env_sep24_info := None;
     Execution.env_authenticate := true;
     Execution.env_withdraw :=
       Execution.answered (Js.value {| Execution.wr_id := Some "WD-1" |}) |}.

End Samples.

(** ** Queries and invariants of the order store and the retry bookkeeping *)

Module Ledger.

(** [OrderRepository.findByUser]: the stored objects of the ids listed for
    the user, ids without a stored order dropped. *)
Definition findByUser (userAddress : string) (s : State) : list loc :=
  let orderIds : list string := default [] (repo_ordersByUser s !! userAddress) in
  omap (fun id => repo_orders s !! id) orderIds.

Record RetryStatus := {
  isRetrying : bool;
  attempts : nat;
  nextRetryIn : option Z
}.

(** [DeliveryErrorHandler.getRetryStatus] *)
Definition getRetryStatus (orderId : string) (s : State) : RetryStatus :=
  let isRetrying := bool_decide (is_Some (retryQueues s !! orderId)) in
  {| isRetrying := isRetrying;
     attempts := default 0%nat (retryAttempts s !! orderId);
     nextRetryIn := if isRetrying then None else Some 0%Z |}.

(** Every id of the repository leads to a stored object that carries
    that id. *)
Definition repo_wf (s : State) : Prop :=
  forall id l, repo_orders s !! id = Some l ->
    exists o, heap s !! l = Some o /\ order_id o = id.

(** Every id listed for a user is the id of a stored order sent by that
    user. *)
Definition index_wf (s : State) : Prop :=
  forall user ids id, repo_ordersByUser s !! user = Some ids -> In id ids ->
    exists l o, repo_orders s !! id = Some l /\ heap s !! l = Some o /\
                sender_address o = user.

(** An update of an order object that keeps its id and its sender. *)
Definition keeps_identity (f : RemittanceOrder -> RemittanceOrder) : Prop :=
  forall o, order_id (f o) = order_id o /\ sender_address (f o) = sender_address o.

(** What a step that works on the order [id], stored at [l], may change:
    the object at [l], short of its id and sender, and the retry
    bookkeeping of [id]. *)
Record touches (id : string) (l : loc) (s s' : State) : Prop := {
  t_heap_other : forall l', l' <> l -> heap s' !! l' = heap s !! l';
  t_heap_same : forall o, heap s !! l = Some o ->
      exists o', heap s' !! l = Some o' /\ order_id o' = order_id o /\
                 sender_address o' = sender_address o;
  t_repo : repo_orders s' = repo_orders s;
  t_byUser : repo_ordersByUser s' = repo_ordersByUser s;
  t_engine : engine_orders s' = engine_orders s;
  t_queues : forall id', id' <> id -> retryQueues s' !! id' = retryQueues s !! id';
  t_attempts : forall id', id' <> id -> retryAttempts s' !! id' = retryAttempts s !! id'
}.

(** [touches], for a state in which the repository files [id] at [l] if
    at all. *)
Definition touches_stored (id : string) (l : loc) (s s' : State) : Prop :=
  (forall l', repo_orders s !! id = Some l' -> l' = l) -> touches id l s s'.

(** A computation every run of which relates the state it starts in to
    the state it ends in. *)
Definition passes {A : Type} (R : State -> State -> Prop) (m : M A) : Prop :=
  forall s, R s (snd (m s)).

(** A step that leaves the error handler alone. *)
Definition quiet (s s' : State) : Prop :=
  retryQueues s' = retryQueues s /\ retryAttempts s' = retryAttempts s /\
  emitted s' = emitted s.

(** The bounds the retry bookkeeping stays within: a pending timer is for
    an attempt its policy allows and waits one of four delays, and no
    order has more than three attempts behind it. *)
Definition retry_bounded (s : State) : Prop :=
  (forall id t, retryQueues s !! id = Some t ->
     (1 <= timer_attempt t <= timer_maxAttempts t)%nat /\
     (timer_maxAttempts t <= 3)%nat /\
     In (timer_delay t) [0; 5000; 10000; 20000]%Z) /\
  (forall id n, retryAttempts s !! id = Some n -> (n <= 3)%nat).

(** The operations on the retry bookkeeping that the handler offers or
    that happen to it. *)
Inductive RetryOp :=
| op_failure (orderId : string) (error : RawError)
| op_timer (orderId : string)
| op_cancel (orderId : string).

Definition apply_op (op : RetryOp) (s : State) : State :=
  match op with
  | op_failure id e => snd (RetryScheduler.handleDeliveryError id e s)
  | op_timer id => RetryScheduler.fire_timer id s
  | op_cancel id => RetryScheduler.cancelRetries id s
  end.

(** One [executeRemittance] call and what surrounds it. *)
Record Remittance := {
  rem_env : Execution.Env;
  rem_quote : RemittanceQuote;
  rem_sender : string;
  rem_recipient : RecipientDetails
}.

Definition execute (r : Remittance) : M loc :=
  Execution.executeRemittance (rem_env r) (rem_quote r) (rem_sender r) (rem_recipient r).

(** A series of calls on one engine, each on the state the one before
    left. *)
Fixpoint execute_all (rs : list Remittance) (s : State) : list (Result loc) * State :=
  match rs with
  | [] => ([], s)
  | r :: rest =>
      let '(result, s1) := execute r s in
      let '(results, s2) := execute_all rest s1 in
      (result :: results, s2)
  end.

Definition threw {A : Type} (r : Result A) : bool :=
  match r with
  | Throw _ => true
  | Ok _ => false
  end.

End Ledger.

(** Sample inputs of the order store and the engine. *)
Module Cases.

Definition order_of_juan : RemittanceOrder :=
  {| order_id := "RMT-7";
     sender_address := "0xSender";
     sender_chain := "ethereum";
     recipient_name := Some "Juan Dela Cruz";
     recipient_country := "Philippines";
     recipient_currency := "PHP";
     recipient_accountDetails := Samples.teleport_details;
     order_quote := Samples.gcash_quote;
     status := pending;
     htlcId := None;
     stellarTxHash := None;
     anchorTxId := None;
     createdAt := 1700000000000;
     completedAt := None |}.

(** An empty repository beside one order object. *)
Definition one_object : State :=
  set_heap (insert 0%nat order_of_juan) initial_state.

Definition by_sep24 : Ledger.Remittance :=
  {| Ledger.rem_env := Samples.sep24_env;
     Ledger.rem_quote := Samples.gcash_quote;
     Ledger.rem_sender := "0xSender";
     Ledger.rem_recipient := Samples.teleport_details |}.

Definition by_sep6 : Ledger.Remittance :=
  {| Ledger.rem_env := Samples.sep6_env;
     Ledger.rem_quote := Samples.gcash_quote;
     Ledger.rem_sender := "0xSender";
     Ledger.rem_recipient := Samples.teleport_details |}.

Definition gcash_details : RecipientDetails :=
  {| rd_name := Some "Juan Dela Cruz";
     rd_deliveryMethod := Some "gcash";
     rd_fields := ∅ |}.

End Cases.

(** ** OneInchAggregator.ts and wrapped-stellar-usdc.ts: routes *)

Module Routes.
Import OneInchAggregator.

(** [isWrappedStellarUSDC(chain, tokenAddress)].  For an inherited
    member [wrappedToken.address] is [undefined], and lower-casing it
    throws. *)
Definition isWrappedStellarUSDC (chain tokenAddress : string) : Result bool :=
  match WrappedStellarUSDC.getWrappedStellarUSDC chain with
  | Some (Js.own wrappedToken) =>
      Ok (String.eqb (Js.toLowerCase (WrappedStellarUSDC.address wrappedToken))
                     (Js.toLowerCase tokenAddress))
  | Some (Js.inherited _) => Throw (cannot_read Js.js_undefined "toLowerCase")
  | None => Ok false
  end.

(** [OneInchAggregator.supportedChains] *)
Definition supportedChains : list (string * Z) :=
  [ ("ethereum", 1); ("bsc", 56); ("polygon", 137);
    ("arbitrum", 42161); ("optimism", 10); ("avalanche", 43114) ]%Z.

(** [findBestStablecoinRoute(fromChain, fromToken, amount, userAddress)]:
    the chain and quote of the one route tried, or the error thrown, and
    what the client did meanwhile. *)
Definition findBestStablecoinRoute (server : nat -> Result (Js.Nullable QuoteData))
    (fromChain fromToken amount userAddress : string)
    : Result (string * SwapQuote) * list Effect :=
  match WrappedStellarUSDC.getWrappedStellarUSDC fromChain with
  | None =>
      (Throw (newError ("Wrapped Stellar USDC not available on " +:+ fromChain)), [])
  | Some wrappedStellarUSDC =>
      let unsupported :=
        (Throw (newError ("Unsupported chain: " +:+ fromChain)), []) in
      let quoted (chainId : Js.Member Z) :=
        let '(outcome, log) :=
          getQuote server
            {| sp_fromChain := chainId;
               sp_fromToken := fromToken;
               sp_toToken := WrappedStellarUSDC.address_of wrappedStellarUSDC;
               sp_amount := amount;
               sp_fromAddress := userAddress;
               sp_slippage := 1 |} in
        match outcome with
        | Ok quote => (Ok (fromChain, quote), log)
        | Throw _ => (Throw (newError "No routes available"), log)
        end in
      match StellarAnchorService.property fromChain supportedChains with
      | Some (Js.own chainId) =>
          if (chainId =? 0)%Z then unsupported else quoted (Js.own chainId)
      | Some (Js.inherited name) => quoted (Js.inherited name)
      | None => unsupported
      end
  end.

(** The parameters the engine's [getQuote] hands to the aggregator. *)
Definition quote_request (params : RemittanceEngine.QuoteParams)
    (wrappedStellarUSDC : Js.Member WrappedStellarUSDC.WrappedStellarToken)
    : SwapParams :=
  {| sp_fromChain := RemittanceEngine.getChainId (RemittanceEngine.qp_fromChain params);
     sp_fromToken := RemittanceEngine.qp_fromToken params;
     sp_toToken := WrappedStellarUSDC.address_of wrappedStellarUSDC;
     sp_amount := RemittanceEngine.qp_fromAmount params;
     sp_fromAddress := "0x0000000000000000000000000000000000000000";
     sp_slippage := 1 |}.

Definition chain_names : list string :=
  ["ethereum"; "bsc"; "polygon"; "arbitrum"; "optimism"; "avalanche"].

End Routes.

Module RouteCases.

Definition bad_token : OneInchAggregator.SwapParams :=
  {| OneInchAggregator.sp_fromChain := Js.own 1%Z;
     OneInchAggregator.sp_fromToken := "USDT";
     OneInchAggregator.sp_toToken := "0xA0b86991c6218b36c1d19D4a2e9Eb0cE3606eB48";
     OneInchAggregator.sp_amount := "100000000";
     OneInchAggregator.sp_fromAddress := "0x0000000000000000000000000000000000000000";
     OneInchAggregator.sp_slippage := 1 |}.

(** The aggregator is down for the first request and answers the second. *)
Definition answers_second (attempt : nat)
    : Result (Js.Nullable OneInchAggregator.QuoteData) :=
  match attempt with
  | O => Throw (Samples.server_error 503)
  | _ => Samples.answers_100_usdc attempt
  end.

Definition polygon_request : RemittanceEngine.QuoteParams :=
  {| RemittanceEngine.qp_fromChain := "Polygon";
     RemittanceEngine.qp_fromToken := "0xc2132D05D31c914a87C6611C10748AEb04B58e8F";
     RemittanceEngine.qp_fromAmount := "100000000";
     RemittanceEngine.qp_toCountry := "PH";
     RemittanceEngine.qp_toCurrency := "PHP";
     RemittanceEngine.qp_deliveryMethod := Some "gcash" |}.

End RouteCases.

(** ** SEP6Service.ts and AnchorIntegrations.ts: the SEP-6 withdrawal path

    The engine holds one [SEP6Service]; its [AnchorIntegrations] holds
    another one of its own, and so does its [DeliveryMethodHandler].  Each
    keeps the tokens it has been handed, by anchor code.  What the anchors answer is a function of the request and
    of the requests made before it. *)

Module Sep6.

(** The object handed to [JSON.stringify]: its own keys in order, each
    with its value, which is a string, [undefined], or a member some
    table lookup found inherited. *)
Definition Json : Type := list (string * option (Js.Member string)).

(** A property that is a string or [undefined], as a value of [Json]. *)
Definition text (v : option string) : option (Js.Member string) := Js.own <$> v.

Record BankAccount := {
  ba_account_number : option string;
  ba_routing_number : option string;
  ba_bank_name : option string;
  ba_bank_branch : option string;
  ba_swift_code : option string
}.

Record MobileMoney := {
  mm_phone_number : option string;
  mm_provider : option string;
  mm_account_name : option string
}.

Record Wallet := {
  wl_phone_number : option string;
  wl_account_name : option string
}.

(** The argument of [SEP6Service.withdraw]. *)
Record WithdrawParams := {
  wp_anchorCode : string;
  wp_asset_code : string;
  wp_amount : string;
  wp_type : option string;
  wp_dest : option string;
  wp_dest_extra : option Json;
  wp_account : string;
  wp_memo : option string;
  wp_lang : option string;
  wp_on_change_callback : option string;
  wp_country_code : option string;
  wp_bank_account : option BankAccount;
  wp_mobile_money : option MobileMoney;
  wp_gcash : option Wallet;
  wp_paymaya : option Wallet
}.

(** The body of the withdrawal request. *)
Record RequestData := {
  req_asset_code : string;
  req_amount : string;
  req_type : option string;
  req_account : string;
  req_dest : option string;
  req_dest_extra : option Json;
  req_memo : option string;
  req_lang : option string;
  req_on_change_callback : option string;
  req_country_code : option string
}.

Inductive Http :=
| GET_auth (endpoint account : string)
| POST_auth (endpoint : string) (transaction : option string)
| POST_withdraw (endpoint token : string) (data : RequestData).

(** The anchors: the answer to a request, given the requests before it:
    the error the HTTP client throws, or the body of the response, which
    may be [null] or [undefined]; of a body there is the one property the
    caller reads: the challenge transaction, the token, the id of the
    withdrawal. *)
Definition Network : Type := list Http -> Http -> Result (Js.Nullable (option string)).

Inductive Instance := of_engine | of_integrations | of_delivery.

Record World := {
  engine_tokens : gmap string (option string);
  integration_tokens : gmap string (option string);
  delivery_tokens : gmap string (option string);
  sent : list Http
}.

(** A freshly constructed engine. *)
Definition fresh_world : World :=
  {| engine_tokens := ∅; integration_tokens := ∅; delivery_tokens := ∅; sent := [] |}.

Definition authTokens (i : Instance) (w : World) : gmap string (option string) :=
  match i with
  | of_engine => engine_tokens w
  | of_integrations => integration_tokens w
  | of_delivery => delivery_tokens w
  end.

Definition set_token (i : Instance) (anchorCode : string) (token : option string)
    (w : World) : World :=
  match i with
  | of_engine =>
      {| engine_tokens := <[anchorCode := token]> (engine_tokens w);
         integration_tokens := integration_tokens w;
         delivery_tokens := delivery_tokens w; sent := sent w |}
  | of_integrations =>
      {| engine_tokens := engine_tokens w;
         integration_tokens := <[anchorCode := token]> (integration_tokens w);
         delivery_tokens := delivery_tokens w; sent := sent w |}
  | of_delivery =>
      {| engine_tokens := engine_tokens w;
         integration_tokens := integration_tokens w;
         delivery_tokens := <[anchorCode := token]> (delivery_tokens w);
         sent := sent w |}
  end.

Definition request (net : Network) (r : Http) (w : World)
    : Result (Js.Nullable (option string)) * World :=
  (net (sent w) r,
   {| engine_tokens := engine_tokens w; integration_tokens := integration_tokens w;
      delivery_tokens := delivery_tokens w; sent := sent w ++ [r] |}).

Definition anchorEndpoints : list (string * string) :=
  [ ("CLICK_PHP", "https://api.clickpeso.com");
    ("COWRIE_NGN", "https://api.cowrie.exchange");
    ("VIBRANT_USD", "https://vibrant.stellar.org");
    ("SETTLE_EUR", "https://api.settle.network") ].

(** [anchorEndpoints.get(anchorCode)], [undefined] or empty counting as
    missing. *)
Definition endpoint_of (anchorCode : string) : option string :=
  match StellarAnchorService.assoc anchorCode anchorEndpoints with
  | Some endpoint => if String.eqb endpoint "" then None else Some endpoint
  | None => None
  end.

(** [SEP6Service.authenticate(anchorCode, stellarAccount)].  Whatever is
    thrown inside its [try] block, the read of a body that is missing
    included, comes out as one error. *)
Definition authenticate (net : Network) (i : Instance) (anchorCode stellarAccount : string)
    (w : World) : Result (option string) * World :=
  match endpoint_of anchorCode with
  | None => (Throw (newError ("Unknown anchor: " +:+ anchorCode)), w)
  | Some endpoint =>
      match request net (GET_auth endpoint stellarAccount) w with
      | (Throw _, w) | (Ok (Js.nothing _), w) =>
          (Throw (newError "Authentication failed"), w)
      | (Ok (Js.value transaction), w) =>
          match request net (POST_auth endpoint transaction) w with
          | (Throw _, w) | (Ok (Js.nothing _), w) =>
              (Throw (newError "Authentication failed"), w)
          | (Ok (Js.value token), w) => (Ok token, set_token i anchorCode token w)
          end
      end
  end.

(** The [switch (params.type)] of [withdraw]: the destination fields, or
    the error thrown for a method whose details are missing. *)
Definition destination (params : WithdrawParams)
    : Result (option string * option Json) :=
  if Js.strictEq (wp_type params) "bank_account" then
    match wp_bank_account params with
    | None => Throw (newError "Bank account details required")
    | Some b =>
        Ok (ba_account_number b,
            Some [("routing_number", text (ba_routing_number b));
                  ("bank_name", text (ba_bank_name b));
                  ("bank_branch", text (ba_bank_branch b));
                  ("swift_code", text (ba_swift_code b))])
    end
  else if Js.strictEq (wp_type params) "mobile_money" then
    match wp_mobile_money params with
    | None => Throw (newError "Mobile money details required")
    | Some m =>
        Ok (mm_phone_number m,
            Some [("provider", text (mm_provider m));
                  ("account_name", text (mm_account_name m))])
    end
  else if Js.strictEq (wp_type params) "gcash" then
    match wp_gcash params with
    | None => Throw (newError "GCash details required")
    | Some g =>
        Ok (wl_phone_number g,
            Some [("account_name", text (wl_account_name g));
                  ("provider", text (Some "gcash"))])
    end
  else if Js.strictEq (wp_type params) "paymaya" then
    match wp_paymaya params with
    | None => Throw (newError "PayMaya details required")
    | Some p =>
        Ok (wl_phone_number p,
            Some [("account_name", text (wl_account_name p));
                  ("provider", text (Some "paymaya"))])
    end
  else Ok (None, None).

(** [if (params.x) requestData.x = params.x] *)
Definition if_truthy (v : option string) : option string :=
  if Js.truthy v then v else None.

(** [error.response?.data?.error] *)
Definition response_error (error : RawError) : option string :=
  match err_response error with
  | Some r => resp_error r
  | None => None
  end.

(** [SEP6Service.withdraw(params)]: the body of the anchor's answer as it
    is, or the error thrown. *)
Definition withdraw (net : Network) (i : Instance) (params : WithdrawParams)
    (w : World) : Result (Js.Nullable Execution.WithdrawResult) * World :=
  match endpoint_of (wp_anchorCode params) with
  | None => (Throw (newError ("Unknown anchor: " +:+ wp_anchorCode params)), w)
  | Some endpoint =>
      let token := mjoin (authTokens i w !! wp_anchorCode params) in
      if negb (Js.truthy token) then (Throw (newError "Not authenticated"), w)
      else
        match destination params with
        | Throw e => (Throw e, w)
        | Ok (dest, dest_extra) =>
            let requestData :=
              {| req_asset_code := wp_asset_code params;
                 req_amount := wp_amount params;
                 req_type := wp_type params;
                 req_account := wp_account params;
                 req_dest := dest;
                 req_dest_extra := dest_extra;
                 req_memo := if_truthy (wp_memo params);
                 req_lang := if_truthy (wp_lang params);
                 req_on_change_callback := if_truthy (wp_on_change_callback params);
                 req_country_code := if_truthy (wp_country_code params) |} in
            match request net (POST_withdraw endpoint (default "" token) requestData) w with
            | (Ok (Js.value id), w) => (Ok (Js.value {| Execution.wr_id := id |}), w)
            | (Ok (Js.nothing v), w) => (Ok (Js.nothing v), w)
            | (Throw error, w) =>
                (Throw (newError
                          ("Withdrawal failed: " +:+
                           default "undefined"
                             (Js.or_else (response_error error) (err_message error)))),
                 w)
            end
        end
  end.

(** The argument of the two anchor integrations. *)
Record IntegrationParams := {
  ip_amount : string;
  ip_deliveryMethod : option string;
  ip_recipient : RecipientDetails;
  ip_stellarAccount : string
}.

Definition field (recipient : RecipientDetails) (key : string) : option string :=
  rd_fields recipient !! key.

Definition philippineBankCodes : list (string * string) :=
  [ ("BDO", "BDO_UNIBANK"); ("BPI", "BPI"); ("Metrobank", "MBTC");
    ("UnionBank", "UBP"); ("Security Bank", "SECB"); ("PNB", "PNB");
    ("Landbank", "LBP") ].

(** [bankCodes[recipient.bank_name] || recipient.bank_name]; the codes of
    the table are not empty. *)
Definition philippineBankCode (bank_name : option string) : option (Js.Member string) :=
  match StellarAnchorService.property (default "undefined" bank_name)
          philippineBankCodes with
  | Some (Js.own code) => if String.eqb code "" then text bank_name else Some (Js.own code)
  | Some (Js.inherited name) => Some (Js.inherited name)
  | None => text bank_name
  end.

(** The [switch (params.deliveryMethod)] of [clickPhilippinesIntegration]. *)
Definition click_destination (params : IntegrationParams)
    : option string * option Json :=
  let recipient := ip_recipient params in
  if Js.strictEq (ip_deliveryMethod params) "gcash" then
    (field recipient "phone_number",
     Some [("name", text (field recipient "account_name"));
           ("provider", text (Some "GCASH"))])
  else if Js.strictEq (ip_deliveryMethod params) "paymaya" then
    (field recipient "phone_number",
     Some [("name", text (field recipient "account_name"));
           ("provider", text (Some "PAYMAYA"))])
  else if Js.strictEq (ip_deliveryMethod params) "bank_transfer" then
    (field recipient "account_number",
     Some [("bank_code", philippineBankCode (field recipient "bank_name"));
           ("account_name", text (field recipient "account_name"));
           ("bank_branch", text (field recipient "bank_branch"))])
  else (None, None).

(** [AnchorIntegrations.clickPhilippinesIntegration(params)] *)
Definition clickPhilippinesIntegration (net : Network) (params : IntegrationParams)
    (w : World) : Result (Js.Nullable Execution.WithdrawResult) * World :=
  match authenticate net of_integrations "CLICK_PHP" (ip_stellarAccount params) w with
  | (Throw e, w) => (Throw e, w)
  | (Ok _, w) =>
      let '(dest, dest_extra) := click_destination params in
      withdraw net of_integrations
        {| wp_anchorCode := "CLICK_PHP";
           wp_asset_code := "PHP";
           wp_amount := ip_amount params;
           wp_type := ip_deliveryMethod params;
           wp_dest := dest;
           wp_dest_extra := dest_extra;
           wp_account := ip_stellarAccount params;
           wp_memo := None;
           wp_lang := Some "en";
           wp_on_change_callback :=
             Some ("https://api.remitdex.com/callbacks/click/"
                     +:+ ip_stellarAccount params);
           wp_country_code := None;
           wp_bank_account := None;
           wp_mobile_money := None;
           wp_gcash := None;
           wp_paymaya := None |} w
  end.

Definition nigerianBankCodes : list (string * string) :=
  [ ("First Bank", "011"); ("GTBank", "058"); ("Access Bank", "044");
    ("Zenith Bank", "057"); ("UBA", "033"); ("Sterling Bank", "232");
    ("Fidelity Bank", "070"); ("Union Bank", "032"); ("Stanbic IBTC", "221");
    ("Ecobank", "050") ].

(** [getNigerianBankCode(bankName)]: [bankCodes[bankName] || '000'] *)
Definition getNigerianBankCode (bankName : option string) : Js.Member string :=
  match StellarAnchorService.property (default "undefined" bankName)
          nigerianBankCodes with
  | Some (Js.own code) => if String.eqb code "" then Js.own "000" else Js.own code
  | Some (Js.inherited name) => Js.inherited name
  | None => Js.own "000"
  end.

Definition cowrie_destination (params : IntegrationParams)
    : option string * option Json :=
  let recipient := ip_recipient params in
  if Js.strictEq (ip_deliveryMethod params) "bank_transfer" then
    (field recipient "account_number",
     Some [("bank_code", Some (getNigerianBankCode (field recipient "bank_name")));
           ("account_name", text (field recipient "account_name"));
           ("bvn", text (field recipient "bvn"))])
  else if Js.strictEq (ip_deliveryMethod params) "mobile_money" then
    (field recipient "phone_number",
     Some [("provider", text (field recipient "provider"));
           ("account_name", text (field recipient "account_name"))])
  else (None, None).

(** [AnchorIntegrations.cowrieNigeriaIntegration(params)] *)
Definition cowrieNigeriaIntegration (net : Network) (params : IntegrationParams)
    (w : World) : Result (Js.Nullable Execution.WithdrawResult) * World :=
  let '(dest, dest_extra) := cowrie_destination params in
  withdraw net of_integrations
    {| wp_anchorCode := "COWRIE_NGN";
       wp_asset_code := "NGN";
       wp_amount := ip_amount params;
       wp_type := ip_deliveryMethod params;
       wp_dest := dest;
       wp_dest_extra := dest_extra;
       wp_account := ip_stellarAccount params;
       wp_memo := None;
       wp_lang := None;
       wp_on_change_callback := None;
       wp_country_code := Some "NG";
       wp_bank_account := None;
       wp_mobile_money := None;
       wp_gcash := None;
       wp_paymaya := None |} w.

(** [RemittanceEngine.buildSEP6Params(recipientDetails)]: the three
    properties it may set. *)
Definition buildSEP6Params (recipientDetails : RecipientDetails)
    : option BankAccount * option Wallet * option MobileMoney :=
  if Js.strictEq (rd_deliveryMethod recipientDetails) "bank_transfer" then
    (Some {| ba_account_number := field recipientDetails "accountNumber";
             ba_routing_number := field recipientDetails "routingNumber";
             ba_bank_name := field recipientDetails "bankName";
             ba_bank_branch := None;
             ba_swift_code := field recipientDetails "swiftCode" |},
     None, None)
  else if Js.strictEq (rd_deliveryMethod recipientDetails) "gcash" then
    (None,
     Some {| wl_phone_number := field recipientDetails "phoneNumber";
             wl_account_name := field recipientDetails "accountName" |},
     None)
  else if Js.strictEq (rd_deliveryMethod recipientDetails) "mobile_money" then
    (None, None,
     Some {| mm_phone_number := field recipientDetails "phoneNumber";
             mm_provider := field recipientDetails "provider";
             mm_account_name := field recipientDetails "accountName" |})
  else (None, None, None).

(** [RemittanceEngine.processSEP6Withdrawal], with the anchors' side of it
    spelled out. *)
Definition processSEP6Withdrawal (net : Network) (anchorCode : string)
    (quote : RemittanceQuote) (recipientDetails : RecipientDetails)
    (stellarAccount : string) (w : World)
    : Result (Js.Nullable Execution.WithdrawResult) * World :=
  match Execution.selectedMethod quote recipientDetails with
  | None => (Throw (newError "Invalid delivery method"), w)
  | Some _ =>
      let integration :=
        {| ip_amount := toAmount quote;
           ip_deliveryMethod := rd_deliveryMethod recipientDetails;
           ip_recipient := recipientDetails;
           ip_stellarAccount := stellarAccount |} in
      if String.eqb anchorCode "CLICK_PHP" then
        clickPhilippinesIntegration net integration w
      else if String.eqb anchorCode "COWRIE_NGN" then
        cowrieNigeriaIntegration net integration w
      else
        match authenticate net of_engine anchorCode stellarAccount w with
        | (Throw e, w) => (Throw e, w)
        | (Ok _, w) =>
            let '(bank_account, gcash, mobile_money) :=
              buildSEP6Params recipientDetails in
            withdraw net of_engine
              {| wp_anchorCode := anchorCode;
                 wp_asset_code := toCurrency quote;
                 wp_amount := toAmount quote;
                 wp_type := rd_deliveryMethod recipientDetails;
                 wp_dest := None;
                 wp_dest_extra := None;
                 wp_account := stellarAccount;
                 wp_memo := None;
                 wp_lang := None;
                 wp_on_change_callback := None;
                 wp_country_code := None;
                 wp_bank_account := bank_account;
                 wp_mobile_money := mobile_money;
                 wp_gcash := gcash;
                 wp_paymaya := None |} w
        end
  end.

(** The withdrawal requests among the requests made. *)
Definition withdrawals (log : list Http) : list RequestData :=
  omap (fun r => match r with
                 | POST_withdraw _ _ data => Some data
                 | _ => None
                 end) log.

(** The endpoints of the withdrawal requests among the requests made. *)
Definition withdrawal_endpoints (log : list Http) : list string :=
  omap (fun r => match r with
                 | POST_withdraw endpoint _ _ => Some endpoint
                 | _ => None
                 end) log.

(** The calls that reach the two services, from outside the engine. *)
Inductive Op :=
| op_click (params : IntegrationParams)
| op_cowrie (params : IntegrationParams)
| op_withdrawal (anchorCode : string) (quote : RemittanceQuote)
    (recipientDetails : RecipientDetails) (stellarAccount : string).

Definition run_op (net : Network) (op : Op) (w : World)
    : Result (Js.Nullable Execution.WithdrawResult) * World :=
  match op with
  | op_click params => clickPhilippinesIntegration net params w
  | op_cowrie params => cowrieNigeriaIntegration net params w
  | op_withdrawal anchorCode quote recipientDetails stellarAccount =>
      processSEP6Withdrawal net anchorCode quote recipientDetails stellarAccount w
  end.

Definition run_ops (net : Network) (ops : list Op) (w : World) : World :=
  fold_left (fun w op => snd (run_op net op w)) ops w.

End Sep6.

Module Sep6Cases.
Import Sep6.

(** Every anchor answers every request. *)
Definition obliging : Network :=
  fun _ r =>
    match r with
    | GET_auth _ _ => Ok (Js.value (Some "AAAA...challenge"))
    | POST_auth _ _ => Ok (Js.value (Some "eyJhbGciOi.token"))
    | POST_withdraw _ _ _ => Ok (Js.value (Some "WD-1"))
    end.

(** The anchors authenticate, and refuse the connection of every
    withdrawal request. *)
Definition refusing_withdrawals : Network :=
  fun _ r =>
    match r with
    | GET_auth _ _ => Ok (Js.value (Some "AAAA...challenge"))
    | POST_auth _ _ => Ok (Js.value (Some "eyJhbGciOi.token"))
    | POST_withdraw _ _ _ => Throw Samples.refused
    end.

(** The anchors authenticate, and answer every withdrawal request with
    a body that is [null]. *)
Definition bodiless_withdrawals : Network :=
  fun _ r =>
    match r with
    | GET_auth _ _ => Ok (Js.value (Some "AAAA...challenge"))
    | POST_auth _ _ => Ok (Js.value (Some "eyJhbGciOi.token"))
    | POST_withdraw _ _ _ => Ok (Js.nothing Js.js_null)
    end.

Definition juan_gcash : RecipientDetails :=
  {| rd_name := Some "Juan Dela Cruz";
     rd_deliveryMethod := Some "gcash";
     rd_fields := {[ "phone_number" := "+639171234567";
                     "account_name" := "Juan Dela Cruz" ]} |}.

Definition ada_bank : RecipientDetails :=
  {| rd_name := Some "Ada Obi";
     rd_deliveryMethod := Some "bank_transfer";
     rd_fields := {[ "account_number" := "0123456789";
                     "accountNumber" := "0123456789";
                     "bank_name" := "GTBank";
                     "account_name" := "Ada Obi" ]} |}.

Definition to_juan : IntegrationParams :=
  {| ip_amount := "5623.45"; ip_deliveryMethod := Some "gcash";
     ip_recipient := juan_gcash; ip_stellarAccount := "GRESOLVERPUBLICKEY" |}.

(** A quote for the Philippines by its country code. *)
Definition ph_quote : RemittanceQuote :=
  {| fromChain := "ethereum";
     fromToken := "0xdAC17F958D2ee523a2206206994597C13D831ec7";
     fromAmount := "100000000";
     toCountry := "PH";
     toCurrency := "PHP";
     toAmount := "5599.15";
     exchangeRate := 56.50%float;
     totalFees := 0.9000000000000001%float;
     estimatedTime := Js.number 4;
     route := [] |}.

End Sep6Cases.

(** ** DeliveryMethodHandler.ts: validation and processing of a delivery *)

Module Delivery.
Import DeliveryMethodHandler Sep6.

(** The patterns of the field schemas.  Each is anchored at both ends and
    is a sequence of literal text, one character out of a set, and runs
    of decimal digits of bounded length. *)
Inductive Atom :=
| lit (text : string)
| one_of (chars : string)
| digit_run (least most : nat).

Definition Pattern : Type := list Atom.

Definition is_digit (c : ascii) : bool :=
  let n := nat_of_ascii c in ((48 <=? n) && (n <=? 57))%nat.

Fixpoint strip (text s : string) : option string :=
  match text, s with
  | EmptyString, _ => Some s
  | String a text', String b s' => if Ascii.eqb a b then strip text' s' else None
  | String _ _, EmptyString => None
  end.

Fixpoint take_digits (n : nat) (s : string) : option string :=
  match n, s with
  | O, _ => Some s
  | S n', String c s' => if is_digit c then take_digits n' s' else None
  | S _, EmptyString => None
  end.

(** [new RegExp(pattern).test(value)] *)
Fixpoint test (pattern : Pattern) (value : string) : bool :=
  match pattern with
  | [] => String.eqb value ""
  | lit text :: rest =>
      match strip text value with
      | Some value' => test rest value'
      | None => false
      end
  | one_of chars :: rest =>
      match value with
      | String c value' =>
          existsb (Ascii.eqb c) (list_ascii_of_string chars) && test rest value'
      | EmptyString => false
      end
  | digit_run least most :: rest =>
      existsb (fun n => match take_digits n value with
                        | Some value' => test rest value'
                        | None => false
                        end)
              (seq least (S most - least))
  end.

(** The shortest and the longest value a pattern can match. *)
Fixpoint least_length (pattern : Pattern) : nat :=
  match pattern with
  | [] => 0
  | lit text :: rest => String.length text + least_length rest
  | one_of _ :: rest => 1 + least_length rest
  | digit_run least _ :: rest => least + least_length rest
  end.

Fixpoint most_length (pattern : Pattern) : nat :=
  match pattern with
  | [] => 0
  | lit text :: rest => String.length text + most_length rest
  | one_of _ :: rest => 1 + most_length rest
  | digit_run _ most :: rest => most + most_length rest
  end.

(** A pattern whose literal text and character sets are ASCII, as those
    of the registry are: what it matches is ASCII text. *)
Definition plain (pattern : Pattern) : bool :=
  forallb (fun atom => match atom with
                       | lit text => Js.is_ascii text
                       | one_of chars => Js.is_ascii chars
                       | digit_run _ _ => true
                       end) pattern.

Record Validation := {
  v_pattern : option Pattern;
  v_minLength : option nat;
  v_maxLength : option nat;
  v_options : option (list string)
}.

Record DeliveryField := {
  df_name : string;
  df_label : string;
  df_required : bool;
  df_validation : option Validation
}.

Definition matching (pattern : Pattern) (n : nat) : option Validation :=
  Some {| v_pattern := Some pattern; v_minLength := Some n; v_maxLength := Some n;
          v_options := None |}.

Definition among (options : list string) : option Validation :=
  Some {| v_pattern := None; v_minLength := None; v_maxLength := None;
          v_options := Some options |}.

Definition account_name (validation : option Validation) : DeliveryField :=
  {| df_name := "account_name"; df_label := "Account Name"; df_required := true;
     df_validation := validation |}.

Definition name_length : option Validation :=
  Some {| v_pattern := None; v_minLength := Some 2%nat; v_maxLength := Some 100%nat;
          v_options := None |}.

(** [/^\+639\d{9}$/] and the other patterns of the registry *)
Definition philippine_mobile : Pattern := [lit "+639"; digit_run 9 9].
Definition philippine_account : Pattern := [digit_run 10 16].
Definition nigerian_mobile : Pattern := [lit "+234"; one_of "789"; digit_run 9 9].
Definition nuban : Pattern := [digit_run 10 10].
Definition cbu_cvu : Pattern := [digit_run 22 22].
Definition cuit_cuil : Pattern := [digit_run 11 11].

(** [requiredFields] of the registered methods, by method id. *)
Definition requiredFields : list (string * list DeliveryField) :=
  [ ("gcash_php",
     [ {| df_name := "phone_number"; df_label := "GCash Mobile Number";
          df_required := true; df_validation := matching philippine_mobile 13 |};
       account_name name_length ]);
    ("paymaya_php",
     [ {| df_name := "phone_number"; df_label := "PayMaya Mobile Number";
          df_required := true; df_validation := matching philippine_mobile 13 |};
       account_name name_length ]);
    ("bank_ph",
     [ {| df_name := "bank_name"; df_label := "Bank Name"; df_required := true;
          df_validation :=
            among ["BDO"; "BPI"; "Metrobank"; "UnionBank"; "Security Bank"; "PNB";
                   "Landbank"] |};
       {| df_name := "account_number"; df_label := "Account Number";
          df_required := true;
          df_validation :=
            Some {| v_pattern := Some philippine_account; v_minLength := Some 10%nat;
                    v_maxLength := Some 16%nat; v_options := None |} |};
       account_name name_length ]);
    ("mobile_money_ngn",
     [ {| df_name := "phone_number"; df_label := "Mobile Number"; df_required := true;
          df_validation := matching nigerian_mobile 14 |};
       {| df_name := "provider"; df_label := "Mobile Money Provider";
          df_required := true;
          df_validation := among ["MTN MoMo"; "Airtel Money"; "Glo Cash"; "9mobile Cash"] |};
       account_name name_length ]);
    ("bank_ngn",
     [ {| df_name := "bank_name"; df_label := "Bank Name"; df_required := true;
          df_validation :=
            among ["First Bank"; "GTBank"; "Access Bank"; "Zenith Bank"; "UBA";
                   "Sterling Bank"] |};
       {| df_name := "account_number"; df_label := "NUBAN Account Number";
          df_required := true; df_validation := matching nuban 10 |};
       account_name None ]);
    ("bank_ars",
     [ {| df_name := "cbu_cvu"; df_label := "CBU/CVU"; df_required := true;
          df_validation := matching cbu_cvu 22 |};
       account_name None;
       {| df_name := "cuit_cuil"; df_label := "CUIT/CUIL"; df_required := true;
          df_validation := matching cuit_cuil 11 |} ]) ].

Record DeliveryRequest := {
  dr_method : string;
  dr_amount : string;
  dr_currency : string;
  dr_recipient : gmap string string;
  dr_senderAccount : string;
  dr_anchorCode : string
}.

(** [this.deliveryMethods.get(id)]: the registry is keyed by method id. *)
Definition getMethod (id : string) : option DeliveryMethod :=
  find (fun method => String.eqb (dm_id method) id) deliveryMethods.

(** [separator]-joined strings, as [Array.prototype.join] *)
Fixpoint join (separator : string) (items : list string) : string :=
  match items with
  | [] => ""
  | [item] => item
  | item :: rest => item +:+ separator +:+ join separator rest
  end.

(** The checks of one present value against the field's [validation]. *)
Definition value_errors (label value : string) (validation : Validation) : list string :=
  (match v_pattern validation with
   | Some pattern =>
       if test pattern value then [] else [label +:+ " format is invalid"]
   | None => []
   end ++
   match v_minLength validation with
   | Some least =>
       if negb (least =? 0)%nat && (Js.length value <? least)%nat
       then [label +:+ " is too short"] else []
   | None => []
   end ++
   match v_maxLength validation with
   | Some most =>
       if negb (most =? 0)%nat && (most <? Js.length value)%nat
       then [label +:+ " is too long"] else []
   | None => []
   end ++
   match v_options validation with
   | Some options =>
       if existsb (String.eqb value) options then []
       else [label +:+ " must be one of: " +:+ join ", " options]
   | None => []
   end)%list.

(** One turn of the loop over the required fields. *)
Definition field_errors (recipient : gmap string string) (field : DeliveryField)
    : list string :=
  let value := recipient !! df_name field in
  if df_required field && negb (Js.truthy value) then
    [df_label field +:+ " is required"]
  else
    match value, df_validation field with
    | Some v, Some validation =>
        if Js.truthy value then value_errors (df_label field) v validation else []
    | _, _ => []
    end.

(** A whole number below 2^53 as a [number]. *)
Definition number (n : Z) : float :=
  match n with
  | Z0 => 0%float
  | Zpos p => SF2Prim (S754_finite false p 0)
  | Zneg p => SF2Prim (S754_finite true p 0)
  end.

Section Validation.

(** [parseFloat] *)
Variable parseFloat : string -> float.

Definition amount_errors (method : DeliveryMethod) (amount : string) : list string :=
  ((if PrimFloat.ltb (parseFloat amount) (number (dm_minAmount method))
    then ["Amount below minimum of " +:+ pretty (dm_minAmount method)
            +:+ " " +:+ dm_currency method]
    else []) ++
   (if PrimFloat.ltb (number (dm_maxAmount method)) (parseFloat amount)
    then ["Amount exceeds maximum of " +:+ pretty (dm_maxAmount method)
            +:+ " " +:+ dm_currency method]
    else []))%list.

(** [validateDeliveryRequest(request)]: [valid] and [errors]. *)
Definition validateDeliveryRequest (request : DeliveryRequest) : bool * list string :=
  match getMethod (dr_method request) with
  | None => (false, ["Invalid delivery method"])
  | Some method =>
      let errors :=
        (amount_errors method (dr_amount request) ++
         flat_map (field_errors (dr_recipient request))
           (default [] (StellarAnchorService.assoc (dm_id method) requiredFields)))%list in
      (match errors with [] => true | _ => false end, errors)
  end.

Record DeliveryResult := {
  success : bool;
  transactionId : option string;
  error : option string
}.

(** The [switch (method.type)] of [processDelivery]: the details objects
    and the destination it puts into the withdrawal parameters. *)
Definition delivery_details (method : DeliveryMethod) (recipient : gmap string string)
    (params : WithdrawParams) : WithdrawParams :=
  let set (bank : option BankAccount) (mobile : option MobileMoney)
          (gcash : option Wallet) (dest : option string) (dest_extra : option Json) :=
    {| wp_anchorCode := wp_anchorCode params;
       wp_asset_code := wp_asset_code params;
       wp_amount := wp_amount params;
       wp_type := wp_type params;
       wp_dest := dest;
       wp_dest_extra := dest_extra;
       wp_account := wp_account params;
       wp_memo := None;
       wp_lang := None;
       wp_on_change_callback := None;
       wp_country_code := None;
       wp_bank_account := bank;
       wp_mobile_money := mobile;
       wp_gcash := gcash;
       wp_paymaya := None |} in
  let bank :=
    Some {| ba_account_number := recipient !! "account_number";
            ba_routing_number := None;
            ba_bank_name := recipient !! "bank_name";
            ba_bank_branch := None;
            ba_swift_code := None |} in
  if String.eqb (dm_type method) "gcash" || String.eqb (dm_type method) "paymaya" then
    set None None
        (Some {| wl_phone_number := recipient !! "phone_number";
                 wl_account_name := recipient !! "account_name" |})
        None None
  else if String.eqb (dm_type method) "mobile_money" then
    set None
        (Some {| mm_phone_number := recipient !! "phone_number";
                 mm_provider := recipient !! "provider";
                 mm_account_name := recipient !! "account_name" |})
        None None None
  else if String.eqb (dm_type method) "bank_transfer" then
    if String.eqb (dm_countryCode method) "PH" then set bank None None None None
    else if String.eqb (dm_countryCode method) "NG" then set bank None None None None
    else if String.eqb (dm_countryCode method) "AR" then
      set None None None (recipient !! "cbu_cvu")
          (Some [("cuit_cuil", text (recipient !! "cuit_cuil"));
                 ("account_name", text (recipient !! "account_name"))])
    else set None None None None None
  else set None None None None None.

(** [processDelivery(request)]: never throws; what goes wrong is
    reported in the result, the read of [result.id] from an answer
    without a body included. *)
Definition processDelivery (net : Network) (request : DeliveryRequest) (w : World)
    : DeliveryResult * World :=
  let validation := validateDeliveryRequest request in
  if negb (fst validation) then
    ({| success := false; transactionId := None;
        error := Some (join ", " (snd validation)) |}, w)
  else
    match getMethod (dr_method request) with
    | None => ({| success := false; transactionId := None; error := None |}, w)
    | Some method =>
        let failed (e : RawError) :=
          {| success := false; transactionId := None; error := err_message e |} in
        match authenticate net of_delivery (dr_anchorCode request)
                (dr_senderAccount request) w with
        | (Throw e, w) => (failed e, w)
        | (Ok _, w) =>
            let withdrawParams :=
              delivery_details method (dr_recipient request)
                {| wp_anchorCode := dr_anchorCode request;
                   wp_asset_code := dr_currency request;
                   wp_amount := dr_amount request;
                   wp_type := Some (dm_type method);
                   wp_dest := None;
                   wp_dest_extra := None;
                   wp_account := dr_senderAccount request;
                   wp_memo := None;
                   wp_lang := None;
                   wp_on_change_callback := None;
                   wp_country_code := None;
                   wp_bank_account := None;
                   wp_mobile_money := None;
                   wp_gcash := None;
                   wp_paymaya := None |} in
            match withdraw net of_delivery withdrawParams w with
            | (Ok (Js.value result), w) =>
                ({| success := true; transactionId := Execution.wr_id result;
                    error := None |}, w)
            | (Ok (Js.nothing v), w) => (failed (cannot_read v "id"), w)
            | (Throw e, w) => (failed e, w)
            end
        end
    end.

End Validation.

(** A value the schema of [field] accepts: present, not empty, and
    passing each check the field's [validation] names. *)
Definition acceptable (recipient : gmap string string) (field : DeliveryField) : Prop :=
  exists value, recipient !! df_name field = Some value /\ value <> "" /\
    forall validation, df_validation field = Some validation ->
      (forall pattern, v_pattern validation = Some pattern -> test pattern value = true) /\
      (forall least, v_minLength validation = Some least ->
         (least <= Js.length value)%nat) /\
      (forall most, v_maxLength validation = Some most -> most <> 0%nat ->
         (Js.length value <= most)%nat) /\
      (forall options, v_options validation = Some options -> In value options).

(** [getSupportedCorridors()]: destination, currencies and methods. *)
Definition getSupportedCorridors : list (string * string * list string * list string) :=
  [ ("US", "Philippines", ["PHP"], ["bank_transfer"; "gcash"; "paymaya"]);
    ("US", "Nigeria", ["NGN"], ["bank_transfer"; "mobile_money"]);
    ("US", "Argentina", ["ARS"], ["bank_transfer"; "mobile_wallet"]);
    ("Europe", "Philippines", ["PHP"], ["bank_transfer"; "gcash"]) ].

End Delivery.

Module DeliveryCases.
Import Delivery.

(** A reading of plain decimal numerals, standing in for [parseFloat];
    anything else reads as [NaN]. *)
Definition decimal_parseFloat (s : string) : float :=
  match Samples.decimal_getBigInt s with
  | Ok v => number v
  | Throw _ => nan
  end.

Definition paymaya_request : DeliveryRequest :=
  {| dr_method := "paymaya_php";
     dr_amount := "5000";
     dr_currency := "PHP";
     dr_recipient := {[ "phone_number" := "+639171234567";
                        "account_name" := "Juan Dela Cruz" ]};
     dr_senderAccount := "GRESOLVERPUBLICKEY";
     dr_anchorCode := "CLICK_PHP" |}.

Definition gcash_request : DeliveryRequest :=
  {| dr_method := "gcash_php";
     dr_amount := "5000";
     dr_currency := "PHP";
     dr_recipient := {[ "phone_number" := "+639171234567";
                        "account_name" := "Juan Dela Cruz" ]};
     dr_senderAccount := "GRESOLVERPUBLICKEY";
     dr_anchorCode := "CLICK_PHP" |}.

(** As [paymaya_request], with an amount that is no numeral. *)
Definition worded_amount : DeliveryRequest :=
  {| dr_method := "paymaya_php";
     dr_amount := "plenty";
     dr_currency := "PHP";
     dr_recipient := {[ "phone_number" := "+639171234567";
                        "account_name" := "Juan Dela Cruz" ]};
     dr_senderAccount := "GRESOLVERPUBLICKEY";
     dr_anchorCode := "CLICK_PHP" |}.

End DeliveryCases.

(** * Properties *)

(** ** The error classifier *)

Section ClassifierFacts.
Import ErrorHandler.

Ltac classify_cases :=
  unfold classifyError;
  repeat match goal with
         | |- context [if ?c then _ else _] => destruct c eqn:?
         end.

(** Which kinds are retryable. *)
Lemma classifyError_retryable (e : RawError) :
  de_retryable (classifyError e) =
  match de_type (classifyError e) with
  | INVALID_RECIPIENT | KYC_REQUIRED | COMPLIANCE_BLOCKED | LIMIT_EXCEEDED => false
  | _ => true
  end.
Proof. classify_cases; reflexivity. Qed.

(** The readings of the table against the helpers of the classifier. *)
Lemma text_of_errorMessage (e : RawError) : text_of e = errorMessage e.
Proof. unfold text_of, errorMessage. destruct (err_message e) as [[|c m]|]; reflexivity. Qed.

Lemma machine_code_errorCode (e : RawError) : machine_code e = errorCode e.
Proof.
  unfold machine_code, own_code, errorCode, response_error_code, Js.or_else.
  destruct (err_code e) as [[|c m]|]; destruct (err_response e); reflexivity.
Qed.

Lemma code_is_strictEq (c : option string) (lit : string) :
  match c with Some c' => String.eqb c' lit | None => false end = Js.strictEq c lit.
Proof. destruct c; reflexivity. Qed.

Lemma own_code_is (lit : string) (e : RawError) :
  lit <> "" -> code_is own_code lit e = Js.strictEq (err_code e) lit.
Proof.
  intros Hne. unfold code_is, own_code.
  destruct (err_code e) as [[|c m]|]; try reflexivity.
  simpl. destruct lit; [contradiction | reflexivity].
Qed.

Lemma own_code_begins (e : RawError) :
  code_begins own_code "E" e =
  Js.truthy (err_code e) && Js.startsWith (default "" (err_code e)) "E".
Proof.
  unfold code_begins, own_code, Js.truthy, Js.startsWith.
  destruct (err_code e) as [[|c m]|]; reflexivity.
Qed.

Lemma classifyError_follows_the_table (e : RawError) :
  first_match priority_rules e = Some (de_type (classifyError e)).
Proof.
  unfold priority_rules, rules_with, first_match, code_among, existsb, contains.
  rewrite own_code_begins, !own_code_is by discriminate.
  unfold code_is. rewrite machine_code_errorCode, !code_is_strictEq, text_of_errorMessage.
  rewrite !orb_false_r.
  classify_cases; reflexivity.
Qed.

Lemma plain_text_phrases (e : RawError) :
  plain_text e = true ->
  Js.includes (errorMessage e) "insufficient" = false /\
  Js.includes (errorMessage e) "invalid recipient" = false /\
  Js.includes (errorMessage e) "KYC" = false /\
  Js.includes (errorMessage e) "compliance" = false /\
  Js.includes (errorMessage e) "blocked" = false /\
  Js.includes (errorMessage e) "rate expired" = false /\
  Js.includes (errorMessage e) "limit exceeded" = false.
Proof.
  unfold plain_text, forallb, contains. rewrite text_of_errorMessage.
  rewrite !andb_true_iff, !negb_true_iff. tauto.
Qed.

(** C2, as stated, fails.  Whichever one place "code" is read from, the
    classifier departs from the table.  Read as the error's code or else
    the code in the response body, rule 5 gives ANCHOR_UNAVAILABLE to a
    response that carries ECONNREFUSED in its body, which the classifier
    makes a TECHNICAL_ERROR; read as the error's own code alone, no rule
    but the default matches a response that carries INSUFFICIENT_BALANCE
    in its body, which the classifier makes INSUFFICIENT_FUNDS. *)
Lemma one_code_for_all_rules_misclassifies :
  (first_match (spec_rules machine_code) (Samples.anchor_reply "ECONNREFUSED")
     = Some ANCHOR_UNAVAILABLE /\
   de_type (classifyError (Samples.anchor_reply "ECONNREFUSED")) = TECHNICAL_ERROR) /\
  (first_match (spec_rules own_code) (Samples.anchor_reply "INSUFFICIENT_BALANCE")
     = Some TECHNICAL_ERROR /\
   de_type (classifyError (Samples.anchor_reply "INSUFFICIENT_BALANCE"))
     = INSUFFICIENT_FUNDS).
Proof. repeat split. Qed.

(** C2, amended.  [classifyError] is a function of the thrown value that
    evaluates the ten rules in the order of the specification and
    returns the kind of the first rule that matches, where the code of
    rules 1, 2, 3, 6 and 7 is the error's own code or, for an error
    without one, the [error_code] of the response body, and the code of
    rules 5, 8 and 9 is the error's own code alone.  In particular an
    error whose message contains "insufficient" and whose code is
    ECONNREFUSED is INSUFFICIENT_FUNDS.  For an error whose text has none
    of the phrases of the rules: each of the five anchor codes, as the
    error's own code or in the body of a response without a code of its
    own, gives its kind; the own codes ECONNREFUSED and ENOTFOUND give
    ANCHOR_UNAVAILABLE, ETIMEDOUT and ECONNABORTED give TIMEOUT, any
    other own code beginning with E gives NETWORK_ERROR; and a body code
    that is none of the five anchor codes, on an error without a code of
    its own, leaves TECHNICAL_ERROR. *)
Theorem classifyError_first_match_wins :
  (forall e : RawError,
      first_match priority_rules e = Some (de_type (classifyError e))) /\
  (forall (e : RawError) (m : string),
      err_message e = Some m ->
      Js.includes m "insufficient" = true ->
      err_code e = Some "ECONNREFUSED" ->
      de_type (classifyError e) = INSUFFICIENT_FUNDS) /\
  (forall (e : RawError) (c : string) (kind : DeliveryErrorType),
      plain_text e = true ->
      In (c, kind) anchor_codes ->
      err_code e = Some c \/
      ((err_code e = None \/ err_code e = Some "") /\
       exists r, err_response e = Some r /\ resp_error_code r = Some c) ->
      de_type (classifyError e) = kind) /\
  (forall (e : RawError) (c : string),
      plain_text e = true ->
      err_code e = Some c ->
      (In c ["ECONNREFUSED"; "ENOTFOUND"] ->
       de_type (classifyError e) = ANCHOR_UNAVAILABLE) /\
      (In c ["ETIMEDOUT"; "ECONNABORTED"] -> de_type (classifyError e) = TIMEOUT) /\
      (String.prefix "E" c = true ->
       ~ In c ["ECONNREFUSED"; "ENOTFOUND"; "ETIMEDOUT"; "ECONNABORTED"] ->
       de_type (classifyError e) = NETWORK_ERROR)) /\
  (forall (e : RawError),
      plain_text e = true ->
      err_code e = None \/ err_code e = Some "" ->
      (forall r c, err_response e = Some r -> resp_error_code r = Some c ->
                   ~ In c (map fst anchor_codes)) ->
      de_type (classifyError e) = TECHNICAL_ERROR).
Proof.
  split; [exact classifyError_follows_the_table|]. split; [|split; [|split]].
  - intros e m Hm Hinc Hcode.
    assert (Hmsg : errorMessage e = m).
    { unfold errorMessage. rewrite Hm. simpl.
      destruct (String.eqb m "") eqn:E; [|reflexivity].
      apply String.eqb_eq in E. subst m. discriminate Hinc. }
    unfold classifyError. rewrite Hmsg, Hinc. reflexivity.
  - intros e c kind Hplain Hin Hcode.
    destruct (plain_text_phrases e Hplain) as (P1 & P2 & P3 & P4 & P5 & P6 & P7).
    assert (Hc : errorCode e = Some c /\
                 (err_code e = Some c \/ err_code e = None \/ err_code e = Some "")).
    { unfold errorCode, response_error_code, Js.or_else.
      destruct Hcode as [H | ([H | H] & r & Hr & Hrc)]; rewrite H.
      - split; [|auto]. simpl in Hin.
        repeat (destruct Hin as [[= <- _] | Hin]; [reflexivity|]). destruct Hin.
      - simpl. rewrite Hr. auto.
      - simpl. rewrite Hr. auto. }
    destruct Hc as (Hc & Hown).
    unfold classifyError. rewrite P1, P2, P3, P4, P5, P6, P7, Hc. simpl in Hin.
    repeat (destruct Hin as [[= <- <-] | Hin];
            [destruct Hown as [-> | [-> | ->]]; reflexivity|]).
    destruct Hin.
  - intros e c Hplain Hcode.
    destruct (plain_text_phrases e Hplain) as (P1 & P2 & P3 & P4 & P5 & P6 & P7).
    assert (Htruthy : String.prefix "E" c = true -> errorCode e = Some c).
    { intros Hp. unfold errorCode, Js.or_else. rewrite Hcode.
      destruct c; [discriminate Hp | reflexivity]. }
    split; [|split].
    + intros Hin. simpl in Hin.
      destruct Hin as [<- | [<- | []]]; unfold classifyError;
        rewrite P1, P2, P3, P4, P5, Hcode, (Htruthy eq_refl); reflexivity.
    + intros Hin. simpl in Hin.
      destruct Hin as [<- | [<- | []]]; unfold classifyError;
        rewrite P1, P2, P3, P4, P5, P6, P7, Hcode, (Htruthy eq_refl); reflexivity.
    + intros Hp Hnot. unfold classifyError.
      rewrite P1, P2, P3, P4, P5, P6, P7, Hcode, (Htruthy Hp).
      assert (Hne : forall lit, In lit ["ECONNREFUSED"; "ENOTFOUND"; "ETIMEDOUT";
                                        "ECONNABORTED"] ->
                                Js.strictEq (Some c) lit = false).
      { intros lit Hlit. simpl. apply String.eqb_neq. intros ->. contradiction. }
      assert (Hanchor : forall lit, String.prefix "E" lit = false ->
                                    Js.strictEq (Some c) lit = false).
      { intros lit Hlit. simpl. apply String.eqb_neq. intros ->. congruence. }
      rewrite (Hne "ECONNREFUSED"), (Hne "ENOTFOUND"), (Hne "ETIMEDOUT"),
        (Hne "ECONNABORTED") by (simpl; tauto).
      rewrite (Hanchor "INSUFFICIENT_BALANCE"), (Hanchor "INVALID_DEST"),
        (Hanchor "NEEDS_INFO"), (Hanchor "RATE_EXPIRED"), (Hanchor "LIMIT_EXCEEDED")
        by reflexivity.
      unfold Js.truthy, Js.startsWith. simpl.
      destruct c; [discriminate Hp|]. simpl in *. rewrite Hp. reflexivity.
  - intros e Hplain Hown Hbody.
    destruct (plain_text_phrases e Hplain) as (P1 & P2 & P3 & P4 & P5 & P6 & P7).
    assert (Hnone : forall lit, In lit (map fst anchor_codes) ->
                                Js.strictEq (errorCode e) lit = false).
    { intros lit Hlit. unfold errorCode, response_error_code, Js.or_else.
      assert (Hfalsy : Js.truthy (err_code e) = false)
        by (destruct Hown as [-> | ->]; reflexivity).
      rewrite Hfalsy. destruct (err_response e) as [r|]; [|reflexivity].
      destruct (resp_error_code r) as [c|] eqn:Hc; [|reflexivity].
      simpl. apply String.eqb_neq. intros ->. exact (Hbody r lit eq_refl Hc Hlit). }
    unfold classifyError.
    rewrite P1, P2, P3, P4, P5, P6, P7.
    rewrite (Hnone "INSUFFICIENT_BALANCE"), (Hnone "INVALID_DEST"), (Hnone "NEEDS_INFO"),
      (Hnone "RATE_EXPIRED"), (Hnone "LIMIT_EXCEEDED") by (simpl; tauto).
    destruct Hown as [-> | ->]; reflexivity.
Qed.

Lemma classifyError_first_match_wins_witness :
  de_type (classifyError Samples.insufficient_refused) = INSUFFICIENT_FUNDS /\
  (de_type (classifyError (Samples.anchor_reply "NEEDS_INFO")) = KYC_REQUIRED /\
   de_type (classifyError (Samples.coded "RATE_EXPIRED")) = RATE_EXPIRED) /\
  de_type (classifyError (Samples.coded "ENOTFOUND")) = ANCHOR_UNAVAILABLE /\
  de_type (classifyError (Samples.anchor_reply "ETIMEDOUT")) = TECHNICAL_ERROR.
Proof.
  destruct classifyError_first_match_wins as (_ & Hfirst & Hanchor & Hnetwork & Hbody).
  split; [|split; [split|split]].
  - apply (Hfirst Samples.insufficient_refused "insufficient balance"); reflexivity.
  - apply (Hanchor (Samples.anchor_reply "NEEDS_INFO") "NEEDS_INFO" KYC_REQUIRED);
      [reflexivity | simpl; tauto|].
    right. split; [left; reflexivity|]. eexists. split; reflexivity.
  - apply (Hanchor (Samples.coded "RATE_EXPIRED") "RATE_EXPIRED" RATE_EXPIRED);
      [reflexivity | simpl; tauto | left; reflexivity].
  - apply (proj1 (Hnetwork (Samples.coded "ENOTFOUND") "ENOTFOUND" eq_refl eq_refl)).
    simpl. tauto.
  - apply (Hbody (Samples.anchor_reply "ETIMEDOUT")); [reflexivity | left; reflexivity|].
    intros r c [= <-] [= <-]. simpl. intuition discriminate.
Defined.

(** The kinds of sample errors, one at least for every rule. *)
Example classifyError_examples :
  map (fun e => de_type (classifyError e))
    [ newError "insufficient liquidity"; Samples.coded "INSUFFICIENT_BALANCE";
      Samples.anchor_reply "INSUFFICIENT_BALANCE";
      newError "invalid recipient account"; Samples.anchor_reply "INVALID_DEST";
      newError "KYC pending"; Samples.anchor_reply "NEEDS_INFO";
      newError "compliance hold"; newError "account blocked";
      Samples.coded "ECONNREFUSED"; Samples.coded "ENOTFOUND";
      newError "rate expired"; Samples.anchor_reply "RATE_EXPIRED";
      newError "limit exceeded"; Samples.anchor_reply "LIMIT_EXCEEDED";
      Samples.coded "ETIMEDOUT"; Samples.coded "ECONNABORTED";
      Samples.coded "EPIPE"; Samples.coded "ERR_BAD_REQUEST";
      newError "boom"; Samples.coded "TIMEOUT";
      Samples.anchor_reply "ECONNREFUSED"; Samples.anchor_reply "EPIPE" ]
  = [ INSUFFICIENT_FUNDS; INSUFFICIENT_FUNDS; INSUFFICIENT_FUNDS;
      INVALID_RECIPIENT; INVALID_RECIPIENT;
      KYC_REQUIRED; KYC_REQUIRED;
      COMPLIANCE_BLOCKED; COMPLIANCE_BLOCKED;
      ANCHOR_UNAVAILABLE; ANCHOR_UNAVAILABLE;
      RATE_EXPIRED; RATE_EXPIRED;
      LIMIT_EXCEEDED; LIMIT_EXCEEDED;
      TIMEOUT; TIMEOUT;
      NETWORK_ERROR; NETWORK_ERROR;
      TECHNICAL_ERROR; TECHNICAL_ERROR;
      TECHNICAL_ERROR; TECHNICAL_ERROR ].
Proof. reflexivity. Qed.

End ClassifierFacts.

(** ** The retry scheduler *)

Section SchedulerFacts.
Import ErrorHandler RetryScheduler.

(** The repository update leaves the handler's bookkeeping, its event log,
    the call log and the bridge key alone. *)
Lemma updateStatus_retryQueues id st f s :
  retryQueues (OrderRepository.updateStatus id st f s) = retryQueues s.
Proof. unfold OrderRepository.updateStatus. destruct (repo_orders s !! id); reflexivity. Qed.

Lemma updateStatus_retryAttempts id st f s :
  retryAttempts (OrderRepository.updateStatus id st f s) = retryAttempts s.
Proof. unfold OrderRepository.updateStatus. destruct (repo_orders s !! id); reflexivity. Qed.

Lemma updateStatus_emitted id st f s :
  emitted (OrderRepository.updateStatus id st f s) = emitted s.
Proof. unfold OrderRepository.updateStatus. destruct (repo_orders s !! id); reflexivity. Qed.

Lemma updateStatus_calls id st f s :
  calls (OrderRepository.updateStatus id st f s) = calls s.
Proof. unfold OrderRepository.updateStatus. destruct (repo_orders s !! id); reflexivity. Qed.

Lemma updateStatus_resolverKeypair id st f s :
  resolverKeypair (OrderRepository.updateStatus id st f s) = resolverKeypair s.
Proof. unfold OrderRepository.updateStatus. destruct (repo_orders s !! id); reflexivity. Qed.

Create Rewrite HintDb bookkeeping.
#[local] Hint Rewrite updateStatus_retryQueues updateStatus_retryAttempts
  updateStatus_emitted updateStatus_calls updateStatus_resolverKeypair : bookkeeping.

Ltac bookkeeping := repeat (progress (simpl; autorewrite with bookkeeping)).

(** Handling a retryable error of an order that has attempts left sets the
    order's timer and nothing else of the bookkeeping. *)
Lemma handleDeliveryError_schedules id e s :
  de_retryable (classifyError e) = true ->
  (default 0 (retryAttempts s !! id)
   < maxAttempts (getRetryPolicy (de_type (classifyError e))))%nat ->
  let s' := snd (handleDeliveryError id e s) in
  retryQueues s' =
    <[id := {| timer_delay := retry_delay (getRetryPolicy (de_type (classifyError e)))
                                (default 0 (retryAttempts s !! id));
               timer_attempt := default 0 (retryAttempts s !! id) + 1;
               timer_maxAttempts := maxAttempts (getRetryPolicy (de_type (classifyError e))) |}]>
      (retryQueues s) /\
  retryAttempts s' = retryAttempts s /\
  emitted s' = (emitted s ++ [delivery_error id (classifyError e)])%list.
Proof.
  intros Hr Hlt. unfold handleDeliveryError. simpl. rewrite Hr.
  unfold scheduleRetry. simpl.
  rewrite updateStatus_retryAttempts.
  apply Nat.leb_gt in Hlt. rewrite Hlt. bookkeeping.
  auto.
Qed.

(** Handling a retryable error of an order whose attempts are used up
    creates no timer and asks for a manual review. *)
Lemma handleDeliveryError_exhausted id e s :
  de_retryable (classifyError e) = true ->
  (maxAttempts (getRetryPolicy (de_type (classifyError e)))
   <= default 0 (retryAttempts s !! id))%nat ->
  let s' := snd (handleDeliveryError id e s) in
  retryQueues s' = retryQueues s /\
  retryAttempts s' = delete id (retryAttempts s) /\
  emitted s' =
    (emitted s ++ [delivery_error id (classifyError e);
                   manual_review_required id "Max retries exceeded" (classifyError e);
                   user_notification id "delivery_delayed"
                     "Your transaction is being reviewed. We'll update you within 24 hours."
                     "warning"])%list.
Proof.
  intros Hr Hle. unfold handleDeliveryError. simpl. rewrite Hr.
  unfold scheduleRetry. simpl.
  rewrite updateStatus_retryAttempts.
  apply Nat.leb_le in Hle. rewrite Hle.
  unfold handleMaxRetriesExceeded. bookkeeping.
  rewrite <- !app_assoc. auto.
Qed.

(** Handling an error that is not retryable leaves the bookkeeping alone
    and asks for a refund. *)
Lemma handleDeliveryError_refund id e s :
  de_retryable (classifyError e) = false ->
  let s' := snd (handleDeliveryError id e s) in
  retryQueues s' = retryQueues s /\
  retryAttempts s' = retryAttempts s /\
  emitted s' =
    (emitted s ++ [delivery_error id (classifyError e);
                   refund_required id (de_message (classifyError e))
                     (de_type (classifyError e));
                   user_notification id "delivery_failed"
                     (default "Your transaction could not be completed. A refund will be processed."
                        (Js.or_else (de_userAction (classifyError e)) None))
                     "error"])%list.
Proof.
  intros Hr. unfold handleDeliveryError. simpl. rewrite Hr.
  unfold handleNonRetryableError. bookkeeping.
  rewrite <- !app_assoc. auto.
Qed.

Lemma handleDeliveryError_reports id e s :
  In (delivery_error id (classifyError e)) (emitted (snd (handleDeliveryError id e s))).
Proof.
  destruct (de_retryable (classifyError e)) eqn:Hr.
  - destruct (Nat.le_gt_cases (maxAttempts (getRetryPolicy (de_type (classifyError e))))
                (default 0 (retryAttempts s !! id))) as [Hle | Hlt].
    + destruct (handleDeliveryError_exhausted id e s Hr Hle) as (_ & _ & ->).
      apply in_or_app. right. simpl. auto.
    + destruct (handleDeliveryError_schedules id e s Hr Hlt) as (_ & _ & ->).
      apply in_or_app. right. simpl. auto.
  - destruct (handleDeliveryError_refund id e s Hr) as (_ & _ & ->).
    apply in_or_app. right. simpl. auto.
Qed.

Lemma fire_timer_pending id t s :
  retryQueues s !! id = Some t ->
  retryQueues (fire_timer id s) = delete id (retryQueues s) /\
  retryAttempts (fire_timer id s) = <[id := timer_attempt t]> (retryAttempts s).
Proof. intros H. unfold fire_timer. rewrite H. auto. Qed.

(** C3.  Handling an error classified RATE_EXPIRED falls under a policy of
    one attempt: if the order has no attempt behind it a timer of zero
    delay is set for attempt 1 of 1, otherwise no timer is created.
    Handling an error classified COMPLIANCE_BLOCKED or KYC_REQUIRED falls
    under a policy of zero attempts: the timers and attempt counters stay
    as they are, and the events emitted are the error report, the
    refund-required event and the user notification. *)
Theorem retry_policy_by_kind (orderId : string) (error : RawError) (s : State) :
  let kind := de_type (classifyError error) in
  let attempts := default 0%nat (retryAttempts s !! orderId) in
  let s' := snd (handleDeliveryError orderId error s) in
  (kind = RATE_EXPIRED ->
     maxAttempts (getRetryPolicy kind) = 1%nat /\
     (attempts = 0%nat ->
        retryQueues s' =
          <[orderId := {| timer_delay := 0; timer_attempt := 1; timer_maxAttempts := 1 |}]>
            (retryQueues s)) /\
     (attempts <> 0%nat -> retryQueues s' = retryQueues s)) /\
  (kind = COMPLIANCE_BLOCKED \/ kind = KYC_REQUIRED ->
     maxAttempts (getRetryPolicy kind) = 0%nat /\
     retryQueues s' = retryQueues s /\
     retryAttempts s' = retryAttempts s /\
     emitted s' =
       (emitted s ++
          [delivery_error orderId (classifyError error);
           refund_required orderId (de_message (classifyError error)) kind;
           user_notification orderId "delivery_failed"
             (default "Your transaction could not be completed. A refund will be processed."
                (Js.or_else (de_userAction (classifyError error)) None))
             "error"])%list).
Proof.
  intros kind attempts s'. split.
  - intros Hk.
    assert (Hr : de_retryable (classifyError error) = true).
    { rewrite classifyError_retryable. fold kind. rewrite Hk. reflexivity. }
    split; [rewrite Hk; reflexivity|]. split.
    + intros Ha.
      destruct (handleDeliveryError_schedules orderId error s Hr) as (Hq & _).
      { fold kind attempts. rewrite Hk, Ha. simpl. lia. }
      fold s' kind attempts in Hq. rewrite Hq, Hk, Ha. reflexivity.
    + intros Ha.
      destruct (handleDeliveryError_exhausted orderId error s Hr) as (Hq & _).
      { fold kind attempts. rewrite Hk. simpl. lia. }
      exact Hq.
  - intros Hk.
    assert (Hr : de_retryable (classifyError error) = false).
    { rewrite classifyError_retryable. fold kind. destruct Hk as [-> | ->]; reflexivity. }
    split; [destruct Hk as [-> | ->]; reflexivity|].
    exact (handleDeliveryError_refund orderId error s Hr).
Qed.

Lemma retry_policy_by_kind_witness :
  retryQueues (snd (handleDeliveryError "RMT-1" Samples.rate_error initial_state)) =
    {[ "RMT-1" := {| timer_delay := 0; timer_attempt := 1; timer_maxAttempts := 1 |} ]} /\
  retryQueues (snd (handleDeliveryError "RMT-1" Samples.kyc_error initial_state)) = ∅.
Proof.
  split.
  - apply (proj1 (proj2 (proj1 (retry_policy_by_kind "RMT-1" Samples.rate_error initial_state)
                                 eq_refl)) eq_refl).
  - apply (proj1 (proj2 (proj2 (retry_policy_by_kind "RMT-1" Samples.kyc_error initial_state)
                                 (or_intror eq_refl)))).
Defined.

(** C4.  For an order with no attempt behind it whose failures are each
    classified TECHNICAL_ERROR, with the pending timer expiring before the
    next failure: the timers set are of 5000 ms, 10000 ms and 20000 ms, for
    attempts 1, 2 and 3 of 3; the fourth failure sets no timer and emits
    the manual-review event.  Each delay is the initial delay times the
    multiplier to the power of the attempts made so far, capped at
    300000 ms. *)
Theorem default_retry_delays (orderId : string) (e1 e2 e3 e4 : RawError) (s : State) :
  default 0%nat (retryAttempts s !! orderId) = 0%nat ->
  de_type (classifyError e1) = TECHNICAL_ERROR ->
  de_type (classifyError e2) = TECHNICAL_ERROR ->
  de_type (classifyError e3) = TECHNICAL_ERROR ->
  de_type (classifyError e4) = TECHNICAL_ERROR ->
  let s1 := snd (handleDeliveryError orderId e1 s) in
  let s2 := snd (handleDeliveryError orderId e2 (fire_timer orderId s1)) in
  let s3 := snd (handleDeliveryError orderId e3 (fire_timer orderId s2)) in
  let s4 := snd (handleDeliveryError orderId e4 (fire_timer orderId s3)) in
  retryQueues s1 !! orderId =
    Some {| timer_delay := 5000; timer_attempt := 1; timer_maxAttempts := 3 |} /\
  retryQueues s2 !! orderId =
    Some {| timer_delay := 10000; timer_attempt := 2; timer_maxAttempts := 3 |} /\
  retryQueues s3 !! orderId =
    Some {| timer_delay := 20000; timer_attempt := 3; timer_maxAttempts := 3 |} /\
  retryQueues s4 !! orderId = None /\
  In (manual_review_required orderId "Max retries exceeded" (classifyError e4))
     (emitted s4) /\
  (forall n : nat,
      retry_delay (getRetryPolicy TECHNICAL_ERROR) n
      = Z.min (5000 * 2 ^ Z.of_nat n) 300000).
Proof.
  intros H0 K1 K2 K3 K4 s1 s2 s3 s4.
  assert (R : forall e, de_type (classifyError e) = TECHNICAL_ERROR ->
                        de_retryable (classifyError e) = true).
  { intros e K. rewrite classifyError_retryable, K. reflexivity. }
  (* first failure *)
  destruct (handleDeliveryError_schedules orderId e1 s (R _ K1)) as (Q1 & A1 & _).
  { rewrite K1, H0. simpl. lia. }
  fold s1 in Q1, A1. rewrite K1, H0 in Q1.
  assert (T1 : retryQueues s1 !! orderId =
               Some {| timer_delay := 5000; timer_attempt := 1; timer_maxAttempts := 3 |}).
  { rewrite Q1, lookup_insert_eq. reflexivity. }
  destruct (fire_timer_pending orderId _ s1 T1) as (Q1' & A1'). simpl in A1'.
  (* second failure *)
  destruct (handleDeliveryError_schedules orderId e2 (fire_timer orderId s1) (R _ K2))
    as (Q2 & A2 & _).
  { rewrite K2, A1', lookup_insert_eq. simpl. lia. }
  fold s2 in Q2, A2. rewrite K2, A1', lookup_insert_eq in Q2.
  assert (T2 : retryQueues s2 !! orderId =
               Some {| timer_delay := 10000; timer_attempt := 2; timer_maxAttempts := 3 |}).
  { rewrite Q2, lookup_insert_eq. reflexivity. }
  destruct (fire_timer_pending orderId _ s2 T2) as (Q2' & A2'). simpl in A2'.
  (* third failure *)
  destruct (handleDeliveryError_schedules orderId e3 (fire_timer orderId s2) (R _ K3))
    as (Q3 & A3 & _).
  { rewrite K3, A2', lookup_insert_eq. simpl. lia. }
  fold s3 in Q3, A3. rewrite K3, A2', lookup_insert_eq in Q3.
  assert (T3 : retryQueues s3 !! orderId =
               Some {| timer_delay := 20000; timer_attempt := 3; timer_maxAttempts := 3 |}).
  { rewrite Q3, lookup_insert_eq. reflexivity. }
  destruct (fire_timer_pending orderId _ s3 T3) as (Q3' & A3'). simpl in A3'.
  (* fourth failure: the attempts are used up *)
  destruct (handleDeliveryError_exhausted orderId e4 (fire_timer orderId s3) (R _ K4))
    as (Q4 & _ & E4).
  { rewrite K4, A3', lookup_insert_eq. simpl. lia. }
  fold s4 in Q4, E4.
  repeat split; try assumption.
  - rewrite Q4, Q3'. apply lookup_delete_eq.
  - rewrite E4. apply in_or_app. right. simpl. auto.
Qed.

Lemma default_retry_delays_witness :
  timer_delay <$>
    retryQueues (snd (handleDeliveryError "RMT-1" (newError "boom")
                        (fire_timer "RMT-1"
                           (snd (handleDeliveryError "RMT-1" (newError "boom")
                                   initial_state)))))
      !! "RMT-1" = Some 10000%Z.
Proof.
  rewrite (proj1 (proj2 (default_retry_delays "RMT-1" (newError "boom") (newError "boom")
                           (newError "boom") (newError "boom") initial_state
                           eq_refl eq_refl eq_refl eq_refl eq_refl))).
  reflexivity.
Defined.

End SchedulerFacts.

(** ** The aggregator client *)

Section AggregatorFacts.
Import OneInchAggregator.

Lemma handleApiError_mapping (e : RawError) (r : ResponseData) :
  err_response e = Some r ->
  (resp_status r = 401%Z ->
     handleApiError e = newError "Invalid 1inch API key. Please check your configuration.") /\
  (resp_status r = 429%Z ->
     handleApiError e = newError "Rate limit exceeded. Please try again later.") /\
  (resp_status r = 400%Z ->
     exists message, handleApiError e = newError ("Bad request: " +:+ message)) /\
  (resp_status r = 404%Z ->
     handleApiError e = newError "Token pair not found or route not available").
Proof.
  intros Hr. unfold handleApiError. rewrite Hr.
  repeat split; intros ->; simpl; eauto.
Qed.

Ltac by_attempt k := destruct k as [|[|[|k]]]; simpl in *; try lia.

Ltac was_retryable :=
  match goal with
  | S : ?server ?i = Throw ?e, C : is_client_error ?e = false
    |- retryable_failure (?server ?i) = true =>
      rewrite S; simpl; rewrite C; reflexivity
  | S : ?server ?i = Ok (Js.nothing _)
    |- retryable_failure (?server ?i) = true =>
      rewrite S; reflexivity
  end.

Ltac settle_attempts :=
  split; [simpl; lia|];
  split; [reflexivity|];
  split; [reflexivity|];
  split;
  [ let k := fresh "k" in let Hk := fresh "Hk" in
    intros k Hk; by_attempt k; was_retryable
  | let k := fresh "k" in let e := fresh "e" in
    let Hk := fresh "Hk" in let Hs := fresh "Hs" in let Hc := fresh "Hc" in
    intros k e Hk Hs Hc; by_attempt k;
    first [ split; [reflexivity | congruence] | congruence ] ].

(** C7, as stated, fails: when all three requests fail with a server error
    the client waits 1000 ms and 2000 ms between them and then gives up;
    a wait of 4000 ms never occurs. *)
Lemma three_failures_wait_one_and_two_seconds :
  snd (getQuote Samples.always_500 Samples.usdt_to_susdc) =
    [http_request 0; delay 1000; http_request 1; delay 2000; http_request 2] /\
  delays (snd (getQuote Samples.always_500 Samples.usdt_to_susdc)) = [1000; 2000]%Z /\
  ~ In 4000%Z (delays (snd (getQuote Samples.always_500 Samples.usdt_to_susdc))).
Proof.
  split; [reflexivity|]. split; [reflexivity|].
  simpl. intros [H | [H | []]]; discriminate H.
Qed.

(** C7, amended.  With well-formed token addresses, [getQuote] makes
    between one and three requests, numbered from 0; the waits between
    them are the first of 1000 ms and 2000 ms, one per request after the
    first; every request that was followed by another one had failed
    without a 4xx response; and a request that fails with a 4xx response
    is the last one, the call throwing the error [handleApiError] maps it
    to: the bad-key message for 401, the rate-limit message for 429, the
    bad-request message for 400, the route-not-found message for 404. *)
Theorem getQuote_retry_discipline (server : nat -> Result (Js.Nullable QuoteData))
    (params : SwapParams) :
  isValidAddress (sp_fromToken params) = true ->
  isValidAddress (sp_toToken params) = true ->
  let result := fst (getQuote server params) in
  let log := snd (getQuote server params) in
  let n := length (requests log) in
  ((1 <= n <= 3)%nat /\
   requests log = seq 0 n /\
   delays log = firstn (n - 1) [1000; 2000]%Z /\
   (forall k, (S k < n)%nat -> retryable_failure (server k) = true) /\
   (forall k e, (k < n)%nat -> server k = Throw e -> is_client_error e = true ->
                n = S k /\ result = Throw (handleApiError e))) /\
  (forall e r, err_response e = Some r ->
     (resp_status r = 401%Z ->
        handleApiError e
        = newError "Invalid 1inch API key. Please check your configuration.") /\
     (resp_status r = 429%Z ->
        handleApiError e = newError "Rate limit exceeded. Please try again later.") /\
     (resp_status r = 400%Z ->
        exists message, handleApiError e = newError ("Bad request: " +:+ message)) /\
     (resp_status r = 404%Z ->
        handleApiError e = newError "Token pair not found or route not available")).
Proof.
  intros Hfrom Hto result log n.
  split; [|exact handleApiError_mapping].
  subst result log n. unfold getQuote, getQuote_loop, retryCount.
  rewrite Hfrom, Hto. simpl.
  destruct (server 0%nat) as [[d0 | v0] | e0] eqn:S0; simpl; [settle_attempts| |];
    [|destruct (is_client_error e0) eqn:C0; simpl; [settle_attempts|]];
  (destruct (server 1%nat) as [[d1 | v1] | e1] eqn:S1; simpl; [settle_attempts| |];
    [|destruct (is_client_error e1) eqn:C1; simpl; [settle_attempts|]];
   (destruct (server 2%nat) as [[d2 | v2] | e2] eqn:S2; simpl; [settle_attempts| |];
    [|destruct (is_client_error e2) eqn:C2; simpl]; settle_attempts)).
Qed.

Lemma getQuote_retry_discipline_witness :
  snd (getQuote Samples.unavailable_then_unauthorized Samples.usdt_to_susdc) =
    [http_request 0; delay 1000; http_request 1] /\
  fst (getQuote Samples.unavailable_then_unauthorized Samples.usdt_to_susdc) =
    Throw (newError "Invalid 1inch API key. Please check your configuration.").
Proof.
  split; [reflexivity|].
  destruct (proj1 (getQuote_retry_discipline Samples.unavailable_then_unauthorized
                     Samples.usdt_to_susdc eq_refl eq_refl))
    as (_ & _ & _ & _ & Hclient).
  destruct (Hclient 1%nat (Samples.server_error 401)) as [_ ->];
    [simpl; lia | reflexivity | reflexivity | reflexivity].
Defined.

Lemma getQuote_malformed_address (server : nat -> Result (Js.Nullable QuoteData)) (params : SwapParams) :
  isValidAddress (sp_fromToken params) = false \/
  isValidAddress (sp_toToken params) = false ->
  getQuote server params =
    (Throw (newError "Network error: Invalid token address"),
     [delay 1000; delay 2000]).
Proof.
  intros H.
  assert (Hbad : negb (isValidAddress (sp_fromToken params))
                 || negb (isValidAddress (sp_toToken params)) = true).
  { destruct H as [-> | ->]; [reflexivity | apply orb_true_r]. }
  unfold getQuote, getQuote_loop, retryCount. rewrite Hbad. reflexivity.
Qed.

Lemma getQuote_answer_had_addresses (server : nat -> Result (Js.Nullable QuoteData))
    (params : SwapParams) (q : SwapQuote) :
  fst (getQuote server params) = Ok q ->
  isValidAddress (sp_fromToken params) = true /\
  isValidAddress (sp_toToken params) = true.
Proof.
  intros H.
  destruct (isValidAddress (sp_fromToken params)) eqn:Hfrom;
    [destruct (isValidAddress (sp_toToken params)) eqn:Hto; [auto|]|].
  - rewrite (getQuote_malformed_address server params (or_intror Hto)) in H.
    discriminate H.
  - rewrite (getQuote_malformed_address server params (or_introl Hfrom)) in H.
    discriminate H.
Qed.

End AggregatorFacts.

(** ** The anchor registry *)

Section AnchorFacts.
Import StellarAnchorService.

Lemma assoc_miss {A : Type} (key : string) (l : list (string * A)) :
  Forall (fun kv => fst kv <> key) l -> assoc key l = None.
Proof.
  induction 1 as [|[k v] l Hk _ IH]; simpl; [reflexivity|].
  destruct (String.eqb k key) eqn:E; [|exact IH].
  apply String.eqb_eq in E. contradiction.
Qed.

Lemma assoc_In {A : Type} (key : string) (l : list (string * A)) (v : A) :
  assoc key l = Some v -> In (key, v) l.
Proof.
  induction l as [|[k x] l IH]; simpl; [discriminate|].
  destruct (String.eqb_spec k key) as [-> | _].
  - intros [= ->]. left. reflexivity.
  - intros H. right. exact (IH H).
Qed.

Lemma assoc_None_iff {A : Type} (key : string) (l : list (string * A)) :
  assoc key l = None <-> ~ In key (map fst l).
Proof.
  induction l as [|[k x] l IH]; simpl; [tauto|].
  destruct (String.eqb_spec k key) as [-> | Hne].
  - split; [discriminate | intros H; exfalso; apply H; left; reflexivity].
  - rewrite IH. tauto.
Qed.

Lemma property_plain {A : Type} (key : string) (l : list (string * A)) :
  Js.is_prototype_member key = false -> property key l = Js.own <$> assoc key l.
Proof. intros H. unfold property. rewrite H. destruct (assoc key l); reflexivity. Qed.

Lemma property_own {A : Type} (key : string) (l : list (string * A)) (v : A) :
  property key l = Some (Js.own v) <-> assoc key l = Some v.
Proof.
  unfold property. destruct (assoc key l) as [x|].
  - split; intros [= ->]; reflexivity.
  - destruct (Js.is_prototype_member key); split; discriminate.
Qed.

Lemma property_inherited {A : Type} (key name : string) (l : list (string * A)) :
  property key l = Some (Js.inherited name) <->
  name = key /\ Js.is_prototype_member key = true /\ assoc key l = None.
Proof.
  unfold property. destruct (assoc key l) as [x|].
  - split; [discriminate | intros (_ & _ & H); discriminate H].
  - destruct (Js.is_prototype_member key).
    + split; [intros [= <-]; auto | intros (-> & _); reflexivity].
    + split; [discriminate | intros (_ & H & _); discriminate H].
Qed.

Lemma property_None {A : Type} (key : string) (l : list (string * A)) :
  property key l = None <-> assoc key l = None /\ Js.is_prototype_member key = false.
Proof.
  unfold property. destruct (assoc key l) as [x|].
  - split; [discriminate | intros (H & _); discriminate H].
  - destruct (Js.is_prototype_member key); split; auto; try discriminate.
    intros (_ & H). discriminate H.
Qed.

Lemma times_of_anchor (code : string) (times : list (string * Z)) :
  assoc code deliveryTimes = Some times ->
  Forall (fun kv => 1 <= snd kv <= 2880)%Z times.
Proof.
  intros H. apply assoc_In in H. simpl in H.
  repeat (destruct H as [[= _ <-] | H]; [repeat constructor; simpl; lia|]). destruct H.
Qed.

(** What [estimateDeliveryTime] gives: a number of minutes between 1 and
    2880, or, for a registered anchor and a method named after an
    inherited member, that member. *)
Lemma delivery_time_range (anchorCode method : string) :
  match estimateDeliveryTime anchorCode method with
  | Js.own t => (1 <= t <= 2880)%Z
  | Js.inherited name =>
      name = method /\ Js.is_prototype_member method = true /\
      is_Some (getAnchorInfo anchorCode)
  end.
Proof.
  unfold estimateDeliveryTime, getAnchorInfo.
  destruct (assoc anchorCode anchors) as [a|] eqn:Ha; [|lia].
  destruct (assoc anchorCode deliveryTimes) as [times|] eqn:Ht; [|lia].
  pose proof (times_of_anchor _ _ Ht) as Hall.
  destruct (property method times) as [[t | name]|] eqn:Hm; [| |lia].
  - apply property_own, assoc_In in Hm.
    rewrite Forall_forall in Hall.
    specialize (Hall _ (proj2 (list_elem_of_In _ _) Hm)). simpl in Hall.
    destruct (Z.eqb_spec t 0); lia.
  - apply property_inherited in Hm as (-> & Hp & _). eauto.
Qed.

Lemma delivery_time_of_a_plain_method (anchorCode method : string) :
  Js.is_prototype_member method = false ->
  exists t, estimateDeliveryTime anchorCode method = Js.own t /\ (1 <= t <= 2880)%Z.
Proof.
  intros Hplain. pose proof (delivery_time_range anchorCode method) as H.
  destruct (estimateDeliveryTime anchorCode method) as [t | name]; [eauto|].
  destruct H as (_ & H & _). congruence.
Qed.

(** C10.  The keys of the corridor map join two two-letter codes.  For a
    destination that is not a two-letter code (a country name such as
    Philippines or Nigeria, which is what the callers of the engine pass)
    the lookup of "US-" followed by the destination misses, and
    [getAnchorForCorridor] returns the first anchor, in the registration
    order VIBRANT_USD, CLICK_PHP, COWRIE_NGN, SETTLE_EUR, whose supported
    currencies contain the requested one, or nothing when there is none. *)
Theorem corridor_lookup_misses_for_country_names (toCountry currency : string) :
  String.length toCountry <> 2%nat ->
  assoc ("US" +:+ "-" +:+ toCountry) corridorMap = None /\
  map anchor_code anchorList = ["VIBRANT_USD"; "CLICK_PHP"; "COWRIE_NGN"; "SETTLE_EUR"] /\
  getAnchorForCorridor "US" toCountry currency = find (supports currency) anchorList.
Proof.
  intros Hlen.
  assert (Hmiss : assoc ("US" +:+ "-" +:+ toCountry) corridorMap = None).
  { apply assoc_miss. unfold corridorMap.
    repeat (constructor;
            [simpl; intros H; cbv in H;
             first [discriminate H
                   | injection H as H; subst toCountry; apply Hlen; reflexivity]|]).
    constructor. }
  split; [exact Hmiss|]. split; [reflexivity|].
  unfold getAnchorForCorridor. rewrite Hmiss. reflexivity.
Qed.

Lemma corridor_lookup_misses_for_country_names_witness :
  getAnchorForCorridor "US" "Philippines" "PHP" = getAnchorInfo "CLICK_PHP" /\
  getAnchorForCorridor "US" "Nigeria" "USD" = getAnchorInfo "VIBRANT_USD" /\
  getAnchorForCorridor "US" "Mars" "MARS" = None.
Proof.
  split; [|split].
  - rewrite (proj2 (proj2 (corridor_lookup_misses_for_country_names "Philippines" "PHP"
                             ltac:(simpl; lia)))).
    reflexivity.
  - rewrite (proj2 (proj2 (corridor_lookup_misses_for_country_names "Nigeria" "USD"
                             ltac:(simpl; lia)))).
    reflexivity.
  - rewrite (proj2 (proj2 (corridor_lookup_misses_for_country_names "Mars" "MARS"
                             ltac:(simpl; lia)))).
    reflexivity.
Defined.

End AnchorFacts.

(** ** Quotes *)

Section QuoteFacts.
Import StellarAnchorService RemittanceEngine.

(** [hundredths m e] is [100 * m * 2^e] rounded to the nearest integer,
    halves upwards. *)
Lemma hundredths_nearest (m : positive) (e : Z) :
  let n := Number.hundredths m e in
  ((0 <= e)%Z -> n = (100 * Zpos m * 2 ^ e)%Z) /\
  ((e < 0)%Z ->
     (2 ^ (- e) * (2 * n - 1) <= 200 * Zpos m < 2 ^ (- e) * (2 * n + 1))%Z).
Proof.
  intros n. subst n. unfold Number.hundredths. split; intros He.
  - apply Z.leb_le in He. rewrite He. reflexivity.
  - assert (Hneg : (0 <=? e)%Z = false) by (apply Z.leb_gt; exact He).
    rewrite Hneg.
    assert (Hd : (0 < 2 ^ (- e))%Z) by (apply Z.pow_pos_nonneg; lia).
    set (d := (2 ^ (- e))%Z) in *.
    pose proof (Z.div_mod (200 * Zpos m + d) (2 * d) ltac:(lia)) as Hdiv.
    pose proof (Z.mod_pos_bound (200 * Zpos m + d) (2 * d) ltac:(lia)) as Hmod.
    set (q := ((200 * Zpos m + d) / (2 * d))%Z) in *.
    nia.
Qed.

(** [toFixed(2)] of a finite non-zero value below 10^21 in magnitude: the
    sign, the integer part and the two decimals of its hundredths. *)
Lemma toFixed2_finite (Number_toString : float -> string) (x : float)
    (negative : bool) (m : positive) (e : Z) :
  Prim2SF x = S754_finite negative m e ->
  PrimFloat.leb 1e21%float (PrimFloat.abs x) = false ->
  Number.toFixed2 Number_toString x =
    (if negative then "-" else "")
      +:+ pretty (Number.hundredths m e / 100)%Z
      +:+ "." +:+ Number.two_digits (Number.hundredths m e mod 100)%Z.
Proof. intros Hsf Hbig. unfold Number.toFixed2. rewrite Hsf, Hbig. reflexivity. Qed.

(** [toFixed(2)] on values whose binary expansion decides the rounding:
    1.005 lies below the decimal it is written as, 0.125 is a tie. *)
Example toFixed2_examples :
  Number.toFixed2 Samples.exponent_form 1.005%float = "1.00" /\
  Number.toFixed2 Samples.exponent_form 0.125%float = "0.13" /\
  Number.toFixed2 Samples.exponent_form (-2.5)%float = "-2.50" /\
  Number.toFixed2 Samples.exponent_form 5599.15%float = "5599.15" /\
  Number.toFixed2 Samples.exponent_form 1e21%float = "1e+21".
Proof. repeat split. Qed.

Example of_units6_examples :
  Number.of_units6 100000000 = 100%float /\
  Number.of_units6 1500000 = 1.5%float /\
  Number.of_units6 1 = 0.000001%float /\
  Number.of_units6 (-1234567) = (-1.234567)%float.
Proof. repeat split. Qed.

(** *** Reading back what [toFixed(2)] writes *)

Lemma digit_pretty_N_char (x : N) :
  (x < 10)%N -> QuoteSpec.digit (pretty_N_char x) = Some (Z.of_N x).
Proof.
  intros Hx.
  assert (x = 0 \/ x = 1 \/ x = 2 \/ x = 3 \/ x = 4 \/ x = 5 \/ x = 6 \/ x = 7 \/
          x = 8 \/ x = 9)%N as H by lia.
  repeat (destruct H as [-> | H]; [reflexivity|]). subst x. reflexivity.
Qed.

Lemma pretty_N_go_app (x : N) (s t : string) :
  pretty_N_go x s +:+ t = pretty_N_go x (s +:+ t).
Proof.
  revert s. induction (N.lt_wf_0 x) as [x _ IH]. intros s.
  destruct (N.eq_dec x 0%N) as [-> | Hx]; [reflexivity|].
  rewrite (pretty_N_go_step x s), (pretty_N_go_step x (s +:+ t)) by lia.
  rewrite IH by (apply N.div_lt; lia). reflexivity.
Qed.

Lemma read_digits_pretty_N_go (x : N) (acc : Z) (s : string) :
  exists k : Z, (0 <= k)%Z /\
    QuoteSpec.read_digits acc (pretty_N_go x s) =
    QuoteSpec.read_digits (acc * 10 ^ k + Z.of_N x) s.
Proof.
  revert acc s. induction (N.lt_wf_0 x) as [x _ IH]. intros acc s.
  destruct (N.eq_dec x 0%N) as [-> | Hx].
  - exists 0%Z. split; [lia|]. rewrite pretty_N_go_0. f_equal. lia.
  - rewrite pretty_N_go_step by lia.
    destruct (IH (x / 10)%N ltac:(apply N.div_lt; lia) acc
                (String (pretty_N_char (x mod 10)) s)) as (k & Hk & ->).
    exists (k + 1)%Z. split; [lia|]. cbn [QuoteSpec.read_digits].
    rewrite digit_pretty_N_char by (apply N.mod_lt; lia).
    f_equal. rewrite Z.pow_add_r by lia.
    pose proof (N.div_mod x 10 ltac:(lia)) as Hdiv.
    rewrite N2Z.inj_mod, N2Z.inj_div.
    pose proof (Z.div_mod (Z.of_N x) 10 ltac:(lia)) as Hz.
    change (Z.of_N 10) with 10%Z. lia.
Qed.

Lemma pretty_N_go_head (x : N) (s : string) :
  (0 < x)%N ->
  exists c rest d, pretty_N_go x s = String c rest /\ QuoteSpec.digit c = Some d.
Proof.
  revert s. induction (N.lt_wf_0 x) as [x _ IH]. intros s Hx.
  rewrite pretty_N_go_step by exact Hx.
  destruct (N.eq_dec (x / 10)%N 0%N) as [-> | Hq].
  - rewrite pretty_N_go_0. eexists _, _, _. split; [reflexivity|].
    apply digit_pretty_N_char, N.mod_lt. lia.
  - apply IH; [apply N.div_lt; lia | apply N.neq_0_lt_0, Hq].
Qed.

(** A number that is not negative, written in decimal before other
    text, is read back as that number, the other text left over. *)
Lemma read_pretty (n : Z) (rest : string) :
  (0 <= n)%Z ->
  (forall c rest', rest = String c rest' -> QuoteSpec.digit c = None) ->
  QuoteSpec.read_digits 0 (pretty n +:+ rest) = (n, rest) /\
  exists c tail d, pretty n +:+ rest = String c tail /\ QuoteSpec.digit c = Some d.
Proof.
  intros Hn Hrest.
  assert (Hstop : forall acc, QuoteSpec.read_digits acc rest = (acc, rest)).
  { intros acc. destruct rest as [|c rest']; [reflexivity|].
    cbn [QuoteSpec.read_digits]. rewrite (Hrest c rest' eq_refl). reflexivity. }
  destruct n as [|p|p]; [| |lia].
  - split; [|eexists _, _, _; split; reflexivity].
    change (pretty 0%Z +:+ rest) with (String "0" rest).
    cbn [QuoteSpec.read_digits]. change (QuoteSpec.digit "0") with (Some 0%Z).
    apply Hstop.
  - change (pretty (Zpos p)) with (pretty_N_go (Npos p) "").
    rewrite pretty_N_go_app. change ("" +:+ rest) with rest. split.
    + destruct (read_digits_pretty_N_go (Npos p) 0 rest) as (k & _ & ->).
      rewrite Hstop. reflexivity.
    + apply pretty_N_go_head. lia.
Qed.

Lemma two_digits_read (k : Z) :
  (0 <= k < 100)%Z ->
  exists a b x y, Number.two_digits k = String a (String b EmptyString) /\
    QuoteSpec.digit a = Some x /\ QuoteSpec.digit b = Some y /\ (10 * x + y = k)%Z.
Proof.
  intros Hk.
  assert (Hall : forallb
            (fun i => match Number.two_digits (Z.of_nat i) with
                      | String a (String b EmptyString) =>
                          match QuoteSpec.digit a, QuoteSpec.digit b with
                          | Some x, Some y => (10 * x + y =? Z.of_nat i)%Z
                          | _, _ => false
                          end
                      | _ => false
                      end) (seq 0 100) = true) by (vm_compute; reflexivity).
  rewrite forallb_forall in Hall.
  specialize (Hall (Z.to_nat k) ltac:(apply in_seq; lia)).
  rewrite Z2Nat.id in Hall by lia.
  destruct (Number.two_digits k) as [|a [|b [|]]]; try discriminate Hall.
  destruct (QuoteSpec.digit a) as [x|] eqn:Ha; [|discriminate Hall].
  destruct (QuoteSpec.digit b) as [y|] eqn:Hb; [|discriminate Hall].
  apply Z.eqb_eq in Hall. exists a, b, x, y. auto.
Qed.

(** The text [toFixed(2)] writes for a sign and a number of hundredths
    reads back as that sign and that number. *)
Lemma read_hundredths_written (negative : bool) (n : Z) :
  (0 <= n)%Z ->
  QuoteSpec.read_hundredths
    ((if negative then "-" else "")
       +:+ pretty (n / 100)%Z +:+ "." +:+ Number.two_digits (n mod 100)%Z)
  = Some (negative, n).
Proof.
  intros Hn.
  destruct (two_digits_read (n mod 100)%Z ltac:(apply Z.mod_pos_bound; lia))
    as (a & b & x & y & -> & Ha & Hb & Hxy).
  destruct (read_pretty (n / 100)%Z ("." +:+ String a (String b EmptyString))
              ltac:(apply Z.div_pos; lia)) as (Hread & c & tail & d & Hhead & Hc).
  { intros c rest' [= <- _]. reflexivity. }
  assert (Hminus : Ascii.eqb c "-" = false).
  { destruct (Ascii.eqb_spec c "-") as [-> | _]; [discriminate Hc | reflexivity]. }
  assert (Hvalue : (100 * (n / 100) + 10 * x + y = n)%Z).
  { pose proof (Z.div_mod n 100 ltac:(lia)). lia. }
  unfold QuoteSpec.read_hundredths.
  destruct negative.
  - change ("-" +:+ ?s) with (String "-" s). cbn [Ascii.eqb Bool.eqb].
    rewrite Hhead, Hc, <- Hhead, Hread.
    change ("." +:+ String a (String b "")) with (String "." (String a (String b ""))).
    cbv iota. change (Ascii.eqb "." ".") with true.
    rewrite Ha, Hb, Hvalue. reflexivity.
  - change ("" +:+ ?s) with s.
    rewrite Hhead, Hminus, Hc, <- Hhead, Hread.
    change ("." +:+ String a (String b "")) with (String "." (String a (String b ""))).
    cbv iota. change (Ascii.eqb "." ".") with true.
    rewrite Ha, Hb, Hvalue. reflexivity.
Qed.

Example read_hundredths_examples :
  QuoteSpec.read_hundredths "5599.15" = Some (false, 559915%Z) /\
  QuoteSpec.read_hundredths "-0.05" = Some (true, 5%Z) /\
  QuoteSpec.read_hundredths "12" = None /\
  QuoteSpec.read_hundredths ".50" = None /\
  QuoteSpec.read_hundredths "7.5" = None /\
  QuoteSpec.read_hundredths "1e+21" = None.
Proof. repeat split. Qed.

(** *** The parts of a quote *)

Lemma requested_method_default (params : QuoteParams) :
  default "bank_transfer" (Js.or_else (qp_deliveryMethod params) None) =
  QuoteSpec.requested_method params.
Proof.
  unfold QuoteSpec.requested_method.
  destruct (qp_deliveryMethod params) as [[|c m]|]; reflexivity.
Qed.

Lemma output_amount_default (oneInchQuote : OneInchAggregator.SwapQuote) :
  default "0" (Js.or_else (OneInchAggregator.sq_toAmount oneInchQuote) None) =
  QuoteSpec.output_amount oneInchQuote.
Proof.
  unfold QuoteSpec.output_amount.
  destruct (OneInchAggregator.sq_toAmount oneInchQuote) as [[|c m]|]; reflexivity.
Qed.

Lemma static_rate_of_USD (currency : string) (anchorCode : option string) :
  getExchangeRate "USD" currency anchorCode = QuoteSpec.static_rate currency.
Proof.
  unfold getExchangeRate, QuoteSpec.static_rate, rates.
  change ("USD" +:+ "-" +:+ currency)
    with (String "U" (String "S" (String "D" (String "-" currency)))).
  cbv beta iota zeta delta [assoc].
  change (String.eqb "USD-PHP" (String "U" (String "S" (String "D" (String "-" currency)))))
    with (String.eqb "PHP" currency).
  change (String.eqb "USD-NGN" (String "U" (String "S" (String "D" (String "-" currency)))))
    with (String.eqb "NGN" currency).
  change (String.eqb "USD-ARS" (String "U" (String "S" (String "D" (String "-" currency)))))
    with (String.eqb "ARS" currency).
  change (String.eqb "USD-EUR" (String "U" (String "S" (String "D" (String "-" currency)))))
    with (String.eqb "EUR" currency).
  change (String.eqb "EUR-PHP" (String "U" (String "S" (String "D" (String "-" currency)))))
    with false.
  change (String.eqb "EUR-NGN" (String "U" (String "S" (String "D" (String "-" currency)))))
    with false.
  rewrite !(String.eqb_sym currency).
  destruct (String.eqb "PHP" currency); [reflexivity|].
  destruct (String.eqb "NGN" currency); [reflexivity|].
  destruct (String.eqb "ARS" currency); [reflexivity|].
  destruct (String.eqb "EUR" currency); reflexivity.
Qed.

Lemma settlement_amount_six (units : Z) :
  QuoteSpec.settlement_amount 6 units = Number.of_units6 units.
Proof. destruct units; reflexivity. Qed.

Lemma token_decimals (chain : string) (token : WrappedStellarUSDC.WrappedStellarToken) :
  WrappedStellarUSDC.getWrappedStellarUSDC chain = Some (Js.own token) ->
  (WrappedStellarUSDC.decimals token = 6%Z /\ Js.toLowerCase chain <> "bsc") \/
  (WrappedStellarUSDC.decimals token = 18%Z /\ Js.toLowerCase chain = "bsc").
Proof.
  unfold WrappedStellarUSDC.getWrappedStellarUSDC. intros H.
  apply property_own, assoc_In in H. simpl in H.
  repeat (destruct H as [[= <- <-] | H];
          [first [left; split; [reflexivity | discriminate]
                 | right; split; reflexivity]|]).
  destruct H.
Qed.

(** What a returned quote is made of: the anchor of the corridor, the
    wrapped token of the source chain, which is one of the table, and the
    answer of the aggregator to the request for that token. *)
Lemma getQuote_parts
    (getBigInt : string -> Result Z) (Number_toString : float -> string)
    (server : nat -> Result (Js.Nullable OneInchAggregator.QuoteData))
    (params : QuoteParams) (q : RemittanceQuote) :
  getQuote getBigInt Number_toString server params = Ok q ->
  exists payout token oneInchQuote units,
    getAnchorForCorridor "US" (qp_toCountry params) (qp_toCurrency params) = Some payout /\
    WrappedStellarUSDC.getWrappedStellarUSDC (qp_fromChain params) = Some (Js.own token) /\
    fst (OneInchAggregator.getQuote server
           {| OneInchAggregator.sp_fromChain := getChainId (qp_fromChain params);
              OneInchAggregator.sp_fromToken := qp_fromToken params;
              OneInchAggregator.sp_toToken := WrappedStellarUSDC.address token;
              OneInchAggregator.sp_amount := qp_fromAmount params;
              OneInchAggregator.sp_fromAddress :=
                "0x0000000000000000000000000000000000000000";
              OneInchAggregator.sp_slippage := 1 |}) = Ok oneInchQuote /\
    getBigInt (QuoteSpec.output_amount oneInchQuote) = Ok units /\
    q = {| fromChain := qp_fromChain params;
           fromToken := qp_fromToken params;
           fromAmount := qp_fromAmount params;
           toCountry := qp_toCountry params;
           toCurrency := qp_toCurrency params;
           toAmount :=
             Number.toFixed2 Number_toString
               (PrimFloat.mul
                  (PrimFloat.mul (Number.of_units6 units)
                     (QuoteSpec.static_rate (qp_toCurrency params)))
                  (PrimFloat.sub 1%float (sum_fees (build_route params payout))));
           exchangeRate := QuoteSpec.static_rate (qp_toCurrency params);
           totalFees := PrimFloat.mul (sum_fees (build_route params payout)) 100%float;
           estimatedTime := sum_time (build_route params payout);
           route := build_route params payout |}.
Proof.
  unfold getQuote. intros H.
  destruct (getAnchorForCorridor "US" (qp_toCountry params) (qp_toCurrency params))
    as [payout|]; [|discriminate H].
  destruct (WrappedStellarUSDC.getWrappedStellarUSDC (qp_fromChain params))
    as [wrapped|]; [|discriminate H].
  match type of H with
  | match fst (OneInchAggregator.getQuote _ ?r) with _ => _ end = _ =>
      destruct (fst (OneInchAggregator.getQuote server r)) as [oneInchQuote|] eqn:Hq;
        [|discriminate H]
  end.
  pose proof (proj2 (getQuote_answer_had_addresses _ _ _ Hq)) as Hto.
  cbn [OneInchAggregator.sp_toToken] in Hto.
  destruct wrapped as [token | name]; [|discriminate Hto].
  unfold usdcAmount in H. rewrite output_amount_default in H.
  destruct (getBigInt (QuoteSpec.output_amount oneInchQuote)) as [units|] eqn:Hunits;
    [|discriminate H].
  injection H as <-. rewrite static_rate_of_USD.
  exists payout, token, oneInchQuote, units. repeat split; assumption.
Qed.

(** C8.  The code departs from the claim.  The time of the anchor step
    is looked up by the delivery method in an object literal, with 60 as
    the fallback for a method the anchor does not list; a method named
    after a member that every object inherits, here 'constructor', finds
    that member instead.  The time of the anchor step is then no number
    of minutes, and the quote's [estimatedTime] is the text made of 3 and
    of the member, not a sum of minutes. *)
Lemma inherited_method_makes_the_time_a_text :
  getQuote Samples.decimal_getBigInt Samples.exponent_form Samples.answers_100_usdc
    Samples.constructor_request = Ok Samples.constructor_quote /\
  map step_estimatedTime (route Samples.constructor_quote) =
    [Js.own 1%Z; Js.own 2%Z; Js.inherited "constructor"] /\
  estimatedTime Samples.constructor_quote =
    Js.text [Js.numeral 3; Js.member_text "constructor"] /\
  QuoteSpec.total_minutes (route Samples.constructor_quote) = None /\
  (forall minutes : Z, estimatedTime Samples.constructor_quote <> Js.number minutes).
Proof.
  split; [vm_compute; reflexivity|]. split; [reflexivity|]. split; [reflexivity|].
  split; [reflexivity|]. intros minutes H. discriminate H.
Qed.

(** X29.  Every quote [getQuote] returns has a route of exactly three
    steps, a swap, a bridge and an anchor step in that order, with the
    fee fractions 0.003, 0.001 and 0.005 and the times 1, 2 and what
    [estimateDeliveryTime] gives for the anchor and the method asked for;
    its [totalFees] is the sum of the three fee fractions, added in route
    order from zero, times 100 (in binary64 this is 0.9000000000000001,
    and dividing it by 100 gives the sum back to within 10^-17); and when
    the method asked for is not the name of an inherited member, its
    [estimatedTime] is a number, the sum of the minutes of the three
    steps, between 4 and 2883. *)
Theorem quote_route_and_totals
    (getBigInt : string -> Result Z) (Number_toString : float -> string)
    (server : nat -> Result (Js.Nullable OneInchAggregator.QuoteData))
    (params : QuoteParams) (q : RemittanceQuote) :
  getQuote getBigInt Number_toString server params = Ok q ->
  (exists s1 s2 s3 : RouteStep,
     route q = [s1; s2; s3] /\
     (step_type s1, step_type s2, step_type s3) = (swap, bridge, anchor) /\
     (step_fees s1, step_fees s2, step_fees s3) = (0.003, 0.001, 0.005)%float /\
     totalFees q =
       PrimFloat.mul
         (PrimFloat.add (PrimFloat.add (PrimFloat.add 0%float (step_fees s1))
                                       (step_fees s2))
                        (step_fees s3))
         100%float /\
     (step_estimatedTime s1, step_estimatedTime s2) = (Js.own 1%Z, Js.own 2%Z) /\
     step_estimatedTime s3 =
       estimateDeliveryTime (step_protocol s3) (QuoteSpec.requested_method params)) /\
  totalFees q = PrimFloat.mul (QuoteSpec.fee_total (route q)) 100%float /\
  totalFees q = 0.9000000000000001%float /\
  PrimFloat.leb
    (PrimFloat.abs (PrimFloat.sub (QuoteSpec.fee_total (route q))
                                  (PrimFloat.div (totalFees q) 100%float)))
    1e-17%float = true /\
  (Js.is_prototype_member (QuoteSpec.requested_method params) = false ->
   exists minutes : Z,
     QuoteSpec.total_minutes (route q) = Some minutes /\
     estimatedTime q = Js.number minutes /\
     (4 <= minutes <= 2883)%Z).
Proof.
  intros H.
  destruct (getQuote_parts _ _ _ _ _ H)
    as (payout & token & oneInchQuote & units & _ & _ & _ & _ & ->).
  cbn [route totalFees estimatedTime]. unfold build_route.
  rewrite requested_method_default.
  split; [eexists _, _, _; repeat split|]. split; [reflexivity|].
  split; [reflexivity|]. split; [reflexivity|].
  intros Hplain.
  destruct (delivery_time_of_a_plain_method (anchor_code payout)
              (QuoteSpec.requested_method params) Hplain) as (t & Ht & Hrange).
  exists (1 + (2 + (t + 0)))%Z.
  unfold sum_time. cbn [QuoteSpec.total_minutes fold_left step_estimatedTime].
  rewrite Ht. cbn [Js.add]. split; [reflexivity|]. split; [f_equal; lia | lia].
Qed.

Lemma quote_route_and_totals_witness :
  map step_type (route Samples.bank_quote) = [swap; bridge; anchor] /\
  totalFees Samples.bank_quote = 0.9000000000000001%float /\
  map step_estimatedTime (route Samples.bank_quote) =
    [Js.own 1%Z; Js.own 2%Z; Js.own 60%Z] /\
  estimatedTime Samples.bank_quote = Js.number 63.
Proof.
  destruct (quote_route_and_totals Samples.decimal_getBigInt Samples.exponent_form
              Samples.answers_100_usdc Samples.bank_request Samples.bank_quote)
    as (_ & _ & Hfees & _ & Htime).
  - vm_compute. reflexivity.
  - split; [reflexivity|]. split; [exact Hfees|]. split; [reflexivity|].
    destruct (Htime eq_refl) as (minutes & Hsum & -> & _).
    injection Hsum as <-. reflexivity.
Defined.

(** C9.  The code departs from the claim.  The aggregator's output is
    read in units of 10^-6 whatever the token, while the token table
    gives the wrapped token of the BNB chain 18 decimals: for an output
    of 100 tokens there, 10^20 units, the quote's [toAmount] is
    5599150000000000.00, where the swapped amount of 100 times the rate
    of 56.5 times 0.991 rounds to 5599.15. *)
Lemma bsc_amount_is_read_with_six_decimals :
  getQuote Samples.decimal_getBigInt Samples.exponent_form Samples.answers_100_on_bsc
    Samples.bsc_request = Ok Samples.bsc_quote /\
  (WrappedStellarUSDC.decimals <$>
     match WrappedStellarUSDC.getWrappedStellarUSDC (fromChain Samples.bsc_quote) with
     | Some (Js.own token) => Some token
     | _ => None
     end) = Some 18%Z /\
  QuoteSpec.settlement_amount 18 100000000000000000000 = 100%float /\
  Number.toFixed2 Samples.exponent_form
    (PrimFloat.mul
       (PrimFloat.mul (QuoteSpec.settlement_amount 18 100000000000000000000)
                      (exchangeRate Samples.bsc_quote))
       (PrimFloat.sub 1%float (QuoteSpec.fee_total (route Samples.bsc_quote))))
    = "5599.15" /\
  toAmount Samples.bsc_quote = "5599150000000000.00".
Proof.
  split; [vm_compute; reflexivity|]. repeat split.
Qed.

(** X30.  Every quote [getQuote] returns was made for a source chain
    with a wrapped token of the table, from the answer of the aggregator
    to the request for that token; its exchange rate is the static rate
    from USD to the destination currency.  When the token has
    six decimals, as on every chain of the table but the BNB chain,
    [toAmount] is [toFixed(2)] of the swapped settlement amount (the
    aggregator's output amount, zero when it names none, in units of the
    token) times the exchange rate, times one minus the sum of the
    route's fee fractions; and when that product is finite, not zero and
    below 10^21 in magnitude, [toAmount] reads as its sign and, with two
    decimals, the number of hundredths nearest to its magnitude, halves
    rounded up. *)
Theorem quote_toAmount_formula
    (getBigInt : string -> Result Z) (Number_toString : float -> string)
    (server : nat -> Result (Js.Nullable OneInchAggregator.QuoteData))
    (params : QuoteParams) (q : RemittanceQuote) :
  getQuote getBigInt Number_toString server params = Ok q ->
  exists (token : WrappedStellarUSDC.WrappedStellarToken)
         (request : OneInchAggregator.SwapParams)
         (oneInchQuote : OneInchAggregator.SwapQuote) (units : Z),
    WrappedStellarUSDC.getWrappedStellarUSDC (fromChain q) = Some (Js.own token) /\
    (WrappedStellarUSDC.decimals token = 6%Z \/ Js.toLowerCase (fromChain q) = "bsc") /\
    OneInchAggregator.sp_toToken request = WrappedStellarUSDC.address token /\
    fst (OneInchAggregator.getQuote server request) = Ok oneInchQuote /\
    getBigInt (QuoteSpec.output_amount oneInchQuote) = Ok units /\
    exchangeRate q = QuoteSpec.static_rate (toCurrency q) /\
    (WrappedStellarUSDC.decimals token = 6%Z ->
     let net :=
       PrimFloat.mul
         (PrimFloat.mul
            (QuoteSpec.settlement_amount (WrappedStellarUSDC.decimals token) units)
            (exchangeRate q))
         (PrimFloat.sub 1%float (QuoteSpec.fee_total (route q))) in
     toAmount q = Number.toFixed2 Number_toString net /\
     forall (negative : bool) (m : positive) (e : Z),
       Prim2SF net = S754_finite negative m e ->
       PrimFloat.leb 1e21%float (PrimFloat.abs net) = false ->
       exists n : Z,
         QuoteSpec.read_hundredths (toAmount q) = Some (negative, n) /\
         QuoteSpec.nearest_hundredths n m e).
Proof.
  intros H.
  destruct (getQuote_parts _ _ _ _ _ H)
    as (payout & token & oneInchQuote & units & _ & Htoken & Hq & Hunits & ->).
  cbn [route toAmount exchangeRate toCurrency fromChain].
  eexists token, _, oneInchQuote, units.
  split; [exact Htoken|]. split.
  { destruct (token_decimals _ _ Htoken) as [(H6 & _) | (_ & Hbsc)]; auto. }
  split; [|split; [exact Hq|]]; [reflexivity|].
  split; [exact Hunits|]. split; [reflexivity|].
  intros H6. rewrite H6.
  change (QuoteSpec.settlement_amount 6 units) with (Number.of_units6 units).
  change (QuoteSpec.fee_total (build_route params payout))
    with (sum_fees (build_route params payout)).
  split; [reflexivity|].
  intros negative m e Hsf Hbig.
  exists (Number.hundredths m e).
  rewrite (toFixed2_finite Number_toString _ negative m e Hsf Hbig).
  split; [|exact (hundredths_nearest m e)].
  apply read_hundredths_written.
  destruct (hundredths_nearest m e) as (Hpos & Hneg).
  destruct (Z_le_gt_dec 0 e) as [He | He].
  - rewrite (Hpos He). apply Z.mul_nonneg_nonneg; [lia|]. apply Z.pow_nonneg. lia.
  - specialize (Hneg ltac:(lia)).
    assert (0 < 2 ^ (- e))%Z by (apply Z.pow_pos_nonneg; lia). nia.
Qed.

Lemma quote_toAmount_formula_witness :
  toAmount Samples.gcash_quote = "5599.15" /\
  QuoteSpec.read_hundredths (toAmount Samples.gcash_quote) = Some (false, 559915%Z) /\
  exists units : Z,
    toAmount Samples.gcash_quote =
      Number.toFixed2 Samples.exponent_form
        (PrimFloat.mul
           (PrimFloat.mul (QuoteSpec.settlement_amount 6 units) 56.5%float)
           (PrimFloat.sub 1%float (QuoteSpec.fee_total (route Samples.gcash_quote)))).
Proof.
  split; [reflexivity|]. split; [reflexivity|].
  destruct (quote_toAmount_formula Samples.decimal_getBigInt Samples.exponent_form
              Samples.answers_100_usdc Samples.gcash_request Samples.gcash_quote)
    as (token & request & oneInchQuote & units & Htoken & _ & _ & _ & _ & _ & Hto).
  - vm_compute. reflexivity.
  - injection Htoken as <-. exists units.
    exact (proj1 (Hto eq_refl)).
Defined.

End QuoteFacts.

(** ** Execution *)

Section ExecutionFacts.
Import ErrorHandler RetryScheduler Execution.

Section Evolution.
Context (allowed : Call -> Prop).

Lemma evolves_refl s : evolves allowed s s.
Proof.
  split; try reflexivity.
  exists []. split; [symmetry; apply app_nil_r | constructor].
Qed.

Lemma evolves_trans s1 s2 s3 :
  evolves allowed s1 s2 -> evolves allowed s2 s3 -> evolves allowed s1 s3.
Proof.
  intros [R1 E1 D1 K1 (t1 & C1 & F1)] [R2 E2 D2 K2 (t2 & C2 & F2)].
  split; try congruence.
  exists (t1 ++ t2)%list. split.
  - rewrite C2, C1, app_assoc. reflexivity.
  - apply Forall_app. auto.
Qed.

Lemma evolves_alter f l s : evolves allowed s (set_heap (alter f l) s).
Proof.
  split; try reflexivity.
  - simpl. apply dom_alter_L.
  - exists []. split; [symmetry; apply app_nil_r | constructor].
Qed.

Lemma evolves_updateStatus id st f s :
  evolves allowed s (OrderRepository.updateStatus id st f s).
Proof.
  unfold OrderRepository.updateStatus.
  destruct (repo_orders s !! id); [apply evolves_alter | apply evolves_refl].
Qed.

Lemma evolves_emit ev s : evolves allowed s (emit ev s).
Proof.
  split; try reflexivity.
  exists []. split; [symmetry; apply app_nil_r | constructor].
Qed.

Lemma evolves_record_call c s : allowed c -> evolves allowed s (record_call c s).
Proof.
  intros Hc. split; try reflexivity.
  exists [c]. split; [reflexivity | repeat constructor; exact Hc].
Qed.

Lemma evolves_push_metrics l s : evolves allowed s (push_metrics l s).
Proof.
  split; try reflexivity.
  exists []. split; [symmetry; apply app_nil_r | constructor].
Qed.

Lemma evolves_set_retryQueues f s : evolves allowed s (set_retryQueues f s).
Proof.
  split; try reflexivity.
  exists []. split; [symmetry; apply app_nil_r | constructor].
Qed.

Lemma evolves_set_retryAttempts f s : evolves allowed s (set_retryAttempts f s).
Proof.
  split; try reflexivity.
  exists []. split; [symmetry; apply app_nil_r | constructor].
Qed.

Lemma evolves_handleDeliveryError id e s :
  evolves allowed s (snd (handleDeliveryError id e s)).
Proof.
  unfold handleDeliveryError. simpl.
  eapply evolves_trans; [apply evolves_updateStatus|].
  eapply evolves_trans; [apply evolves_emit|].
  destruct (de_retryable (classifyError e)).
  - unfold scheduleRetry.
    match goal with |- context [if ?c then _ else _] => destruct c end.
    + unfold handleMaxRetriesExceeded.
      eapply evolves_trans; [apply evolves_set_retryAttempts|].
      eapply evolves_trans; [apply evolves_updateStatus|].
      eapply evolves_trans; [apply evolves_emit|].
      apply evolves_emit.
    + apply evolves_set_retryQueues.
  - unfold handleNonRetryableError.
    eapply evolves_trans; [apply evolves_updateStatus|].
    eapply evolves_trans; [apply evolves_emit|].
    apply evolves_emit.
Qed.

Lemma steps_ret {A : Type} (a : A) : steps allowed (ret a).
Proof. intros s. apply evolves_refl. Qed.

Lemma steps_throw {A : Type} (e : RawError) : steps allowed (@throw A e).
Proof. intros s. apply evolves_refl. Qed.

Lemma steps_modify (f : State -> State) :
  (forall s, evolves allowed s (f s)) -> steps allowed (modify f).
Proof. intros H s. apply H. Qed.

Lemma steps_bind {A B : Type} (m : M A) (k : A -> M B) :
  steps allowed m -> (forall a, steps allowed (k a)) -> steps allowed (bind m k).
Proof.
  intros Hm Hk s. unfold bind. specialize (Hm s).
  destruct (m s) as [[a | e] s']; simpl in *; [|exact Hm].
  eapply evolves_trans; [exact Hm | apply Hk].
Qed.

Lemma steps_call (c : Call) : allowed c -> steps allowed (modify (record_call c)).
Proof. intros Hc. apply steps_modify. intros s. apply evolves_record_call, Hc. Qed.

Lemma steps_anchor_call (c : Call) (env : Env) :
  allowed c -> steps allowed (anchor_call c env).
Proof.
  intros Hc. unfold anchor_call. apply steps_bind; [apply steps_call, Hc|].
  intros _. destruct (env_withdraw env); [apply steps_ret | apply steps_throw].
Qed.

Lemma steps_answer (w : Js.Nullable WithdrawResult) : steps allowed (answer w).
Proof. destruct w; [apply steps_ret | apply steps_throw]. Qed.

Lemma steps_complete env l w : steps allowed (complete env l w).
Proof.
  unfold complete.
  apply steps_bind; [apply steps_modify; intros s; apply evolves_alter|]. intros _.
  apply steps_bind; [apply steps_modify; intros s; apply evolves_updateStatus|]. intros _.
  apply steps_modify. intros s. apply evolves_push_metrics.
Qed.

Lemma steps_on_failure env l e : steps allowed (on_failure env l e).
Proof.
  unfold on_failure.
  apply steps_bind.
  { intros s. pose proof (evolves_handleDeliveryError (orderId env) e s) as H.
    destruct (handleDeliveryError (orderId env) e s). exact H. }
  intros d.
  apply steps_bind; [apply steps_modify; intros s; apply evolves_alter|]. intros _.
  apply steps_throw.
Qed.

(** The steps that follow the bridge transfer make allowed calls only,
    provided the client calls of the protocol probe and the SEP-24
    withdrawal are allowed, and those of a SEP-6 withdrawal are whenever
    the delivery method is a configured one. *)
Lemma steps_withdrawal env quote rd l (htlcResult : BridgeResult) :
  allowed call_recommendProtocol -> allowed call_sep24_initiateWithdraw ->
  (selectedMethod quote rd <> None ->
   forall c, sep6_withdrawal_call c = true -> allowed c) ->
  steps allowed
    (modify (set_heap (alter (with_bridge (br_htlcId htlcResult)
                                          (br_stellarTxHash htlcResult)) l)) ;;;
     payout <-
       match StellarAnchorService.getAnchorForCorridor "US"
               (toCountry quote) (toCurrency quote) with
       | Some a => ret a
       | None => throw (newError "No anchor available for this corridor")
       end ;;
     protocol <- recommendProtocol env ;;
     withdrawResult <-
       match protocol with
       | sep6 => processSEP6Withdrawal env (anchor_code payout) quote
                   rd (br_stellarAccount htlcResult)
       | sep24 => processSEP24Withdrawal env (anchor_code payout) quote
                    rd (br_stellarAccount htlcResult)
       end ;;
     answer withdrawResult).
Proof.
  intros Hrec H24 H6.
  apply steps_bind; [apply steps_modify; intros s; apply evolves_alter|]. intros _.
  apply steps_bind.
  { destruct (StellarAnchorService.getAnchorForCorridor "US"
                (toCountry quote) (toCurrency quote));
      [apply steps_ret | apply steps_throw]. }
  intros payout.
  apply steps_bind.
  { unfold recommendProtocol. apply steps_bind; [apply steps_call, Hrec|]. intros _.
    apply steps_ret. }
  intros protocol.
  apply steps_bind; [|intros result; apply steps_answer].
  destruct protocol.
  - unfold processSEP6Withdrawal.
    destruct (selectedMethod quote rd) eqn:Hsel; [|apply steps_throw].
    assert (Hall : forall c, sep6_withdrawal_call c = true -> allowed c)
      by (apply H6; discriminate).
    destruct (String.eqb (anchor_code payout) "CLICK_PHP");
      [apply steps_anchor_call, Hall; reflexivity|].
    destruct (String.eqb (anchor_code payout) "COWRIE_NGN");
      [apply steps_anchor_call, Hall; reflexivity|].
    apply steps_bind.
    { unfold sep6_authenticate.
      apply steps_bind; [apply steps_call, Hall; reflexivity|]. intros _.
      destruct (env_authenticate env); [apply steps_ret | apply steps_throw]. }
    intros _. apply steps_anchor_call, Hall. reflexivity.
  - apply steps_anchor_call, H24.
Qed.

(** The stages make allowed calls only, provided the client calls of the
    swap, the bridge, the protocol probe and the SEP-24 withdrawal are
    allowed, and those of a SEP-6 withdrawal are whenever the delivery
    method is a configured one. *)
Lemma steps_stages env quote sender rd l :
  allowed call_buildSwapTx -> allowed call_bridgeToStellar ->
  allowed call_recommendProtocol -> allowed call_sep24_initiateWithdraw ->
  (selectedMethod quote rd <> None ->
   forall c, sep6_withdrawal_call c = true -> allowed c) ->
  steps allowed (stages env quote sender rd l).
Proof.
  intros Hswap Hbridge Hrec H24 H6. unfold stages.
  apply steps_bind; [apply steps_modify; intros s; apply evolves_alter|]. intros _.
  apply steps_bind; [apply steps_modify; intros s; apply evolves_updateStatus|]. intros _.
  apply steps_bind.
  { destruct (WrappedStellarUSDC.getWrappedStellarUSDC (fromChain quote));
      [apply steps_ret | apply steps_throw]. }
  intros w.
  apply steps_bind.
  { unfold buildSwapTx. apply steps_bind; [apply steps_call, Hswap|]. intros _.
    destruct (env_swap_ok env); [apply steps_ret | apply steps_throw]. }
  intros _.
  apply steps_bind.
  { unfold bridgeToStellar. apply steps_bind; [apply steps_call, Hbridge|]. intros _ s.
    destruct (resolverKeypair s); [destruct (env_bridge env)|]; apply evolves_refl. }
  intros h. apply steps_withdrawal; assumption.
Qed.

End Evolution.

Lemma steps_stages_any env quote sender rd l :
  steps any_call (stages env quote sender rd l).
Proof. apply steps_stages; unfold any_call; auto. Qed.

Lemma no_calls_made s s' :
  evolves (fun _ => False) s s' -> calls s' = calls s.
Proof.
  intros [_ _ _ _ (made & Hc & Hf)].
  destruct made as [|c made]; [rewrite Hc; apply app_nil_r|].
  inversion Hf; contradiction.
Qed.

(** Where the state stands once the order is created and stored. *)
Lemma prepared_tables env quote sender rd s :
  let l := fresh (dom (heap s)) in
  let s1 := prepared env quote sender rd s in
  repo_orders s1 !! orderId env = Some l /\
  engine_orders s1 !! orderId env = Some l /\
  (exists o, heap s1 !! l = Some o /\ status o = pending) /\
  calls s1 = calls s /\
  resolverKeypair s1 = resolverKeypair s /\
  emitted s1 = emitted s.
Proof.
  intros l s1. subst s1. unfold prepared, bind, alloc, modify. simpl.
  fold l. unfold OrderRepository.save. simpl.
  rewrite lookup_insert_eq. simpl.
  rewrite !lookup_insert_eq. repeat split; eauto.
Qed.

Lemma executeRemittance_unfold env quote sender rd s :
  executeRemittance env quote sender rd s =
  let l := fresh (dom (heap s)) in
  match pipeline env quote sender rd l (prepared env quote sender rd s) with
  | (Ok _, s') => (Ok l, s')
  | (Throw e, s') => on_failure env l e s'
  end.
Proof.
  unfold executeRemittance, prepared, bind, tryCatch, alloc, modify, ret. simpl.
  match goal with |- context [pipeline ?a ?b ?c ?d ?e ?f] =>
    destruct (pipeline a b c d e f) as [[[] | e0] s'] end; reflexivity.
Qed.

Lemma on_failure_result env l e s :
  fst (on_failure env l e s) =
    Throw (newError (messages (de_type (classifyError e)))).
Proof.
  unfold on_failure, bind, modify, throw, handleDeliveryError. simpl.
  unfold getUserFriendlyMessage.
  destruct (de_type (classifyError e)); reflexivity.
Qed.

Lemma on_failure_status env l e s :
  is_Some (heap s !! l) ->
  exists o, heap (snd (on_failure env l e s)) !! l = Some o /\ status o = failed.
Proof.
  intros Hl. unfold on_failure, bind, modify, throw.
  pose proof (evolves_handleDeliveryError any_call (orderId env) e s) as Hev.
  destruct (handleDeliveryError (orderId env) e s) as [d s1]. simpl in *.
  assert (is_Some (heap s1 !! l)) as [o Ho].
  { apply elem_of_dom. rewrite (ev_dom _ _ _ Hev). apply elem_of_dom, Hl. }
  exists (with_status failed o). split; [|reflexivity].
  rewrite lookup_alter_eq, Ho. reflexivity.
Qed.

Lemma complete_status env l w s :
  repo_orders s !! orderId env = Some l ->
  is_Some (heap s !! l) ->
  fst (complete env l w s) = Ok tt /\
  exists o, heap (snd (complete env l w s)) !! l = Some o /\ status o = completed.
Proof.
  intros Hrepo [o Ho]. unfold complete, bind, modify. simpl.
  split; [reflexivity|].
  unfold OrderRepository.updateStatus. simpl. rewrite Hrepo. simpl.
  rewrite !lookup_alter_eq, Ho. simpl. eexists. split; reflexivity.
Qed.

Lemma stored_order_at id l o s :
  repo_orders s !! id = Some l -> engine_orders s !! id = Some l ->
  heap s !! l = Some o -> stored_order id s = Some o.
Proof.
  intros Hr He Hh. unfold stored_order. rewrite Hr, He, Nat.eqb_refl. exact Hh.
Qed.

(** C1.  Whatever the environment, the quote, the sender, the recipient
    details and the state of the engine, when [executeRemittance] is over
    the order it created is the one the repository and the engine hold
    under its id, and its status is [completed] if the call returned (the
    returned object being that order) and [failed] if the call threw:
    never [pending] or [processing]. *)
Theorem executeRemittance_terminal_status
    (env : Env) (quote : RemittanceQuote) (senderAddress : string)
    (recipientDetails : RecipientDetails) (s : State) :
  let result := fst (executeRemittance env quote senderAddress recipientDetails s) in
  let s' := snd (executeRemittance env quote senderAddress recipientDetails s) in
  exists order : RemittanceOrder,
    stored_order (orderId env) s' = Some order /\
    match result with
    | Ok l => heap s' !! l = Some order /\ status order = completed
    | Throw _ => status order = failed
    end.
Proof.
  intros result s'. subst result s'.
  rewrite executeRemittance_unfold.
  destruct (prepared_tables env quote senderAddress recipientDetails s)
    as (Hrepo & Heng & (o1 & Ho1 & _) & _).
  set (l := fresh (dom (heap s))) in *.
  set (s1 := prepared env quote senderAddress recipientDetails s) in *.
  cbv zeta. unfold pipeline, bind.
  pose proof (steps_stages_any env quote senderAddress recipientDetails l s1) as Hev.
  destruct (stages env quote senderAddress recipientDetails l s1) as [[w | e] s2];
    simpl in Hev.
  - (* the withdrawal went through *)
    assert (Hl2 : is_Some (heap s2 !! l)).
    { apply elem_of_dom. rewrite (ev_dom _ _ _ Hev). apply elem_of_dom. eauto. }
    assert (Hrepo2 : repo_orders s2 !! orderId env = Some l)
      by (rewrite (ev_repo _ _ _ Hev); exact Hrepo).
    destruct (complete_status env l w s2 Hrepo2 Hl2) as (Hok & o & Ho & Hst).
    pose proof (steps_complete any_call env l w s2) as Hev3.
    destruct (complete env l w s2) as [[[] | e] s3]; simpl in *; [|discriminate Hok].
    exists o. split; [|split; assumption].
    apply (stored_order_at _ l); [| |exact Ho].
    + rewrite (ev_repo _ _ _ Hev3). exact Hrepo2.
    + rewrite (ev_engine _ _ _ Hev3), (ev_engine _ _ _ Hev). exact Heng.
  - (* some stage threw *)
    assert (Hl2 : is_Some (heap s2 !! l)).
    { apply elem_of_dom. rewrite (ev_dom _ _ _ Hev). apply elem_of_dom. eauto. }
    destruct (on_failure_status env l e s2 Hl2) as (o & Ho & Hst).
    pose proof (steps_on_failure any_call env l e s2) as Hev3.
    pose proof (on_failure_result env l e s2) as Hres.
    destruct (on_failure env l e s2) as [r s3]; simpl in *. subst r.
    exists o. split; [|exact Hst].
    apply (stored_order_at _ l); [| |exact Ho].
    + rewrite (ev_repo _ _ _ Hev3), (ev_repo _ _ _ Hev). exact Hrepo.
    + rewrite (ev_engine _ _ _ Hev3), (ev_engine _ _ _ Hev). exact Heng.
Qed.

Lemma bind_modify {B : Type} (f : State -> State) (k : unit -> M B) (s : State) :
  bind (modify f) k s = k tt (f s).
Proof. reflexivity. Qed.

Lemma bind_ret {A B : Type} (a : A) (k : A -> M B) (s : State) :
  bind (ret a) k s = k a s.
Proof. reflexivity. Qed.

Lemma bind_throw {A B : Type} (e : RawError) (k : A -> M B) (s : State) :
  bind (throw e) k s = (Throw e, s).
Proof. reflexivity. Qed.

Lemma bind_assoc {A B C : Type} (m : M A) (f : A -> M B) (k : B -> M C) (s : State) :
  bind (bind m f) k s = bind m (fun a => bind (f a) k) s.
Proof. unfold bind. destruct (m s) as [[a | e] s']; reflexivity. Qed.

Lemma calls_after_bind {A B : Type} (m : M A) (k : A -> M B) (s : State) :
  (forall a, steps any_call (k a)) ->
  exists made, calls (snd (bind m k s)) = (calls (snd (m s)) ++ made)%list.
Proof.
  intros Hk. unfold bind. destruct (m s) as [[a | e] s']; cbn [snd].
  - destruct (ev_calls _ _ _ (Hk a s')) as (made & H & _). eauto.
  - exists []. rewrite app_nil_r. reflexivity.
Qed.

(** When the source chain has a wrapped token, the first call the stages
    make is the swap build, and the bridge transfer follows when the swap
    build succeeds. *)
Lemma stages_first_calls env quote sender rd l s :
  is_Some (WrappedStellarUSDC.getWrappedStellarUSDC (fromChain quote)) ->
  exists rest,
    calls (snd (stages env quote sender rd l s)) =
      (calls s ++ call_buildSwapTx :: rest)%list /\
    (env_swap_ok env = true -> exists rest', rest = call_bridgeToStellar :: rest').
Proof.
  intros [w Hw]. unfold stages. rewrite Hw.
  rewrite bind_modify; cbv beta. rewrite bind_modify; cbv beta.
  rewrite bind_ret; cbv beta.
  unfold buildSwapTx. rewrite bind_assoc, bind_modify; cbv beta.
  destruct (env_swap_ok env).
  - rewrite bind_ret; cbv beta.
    unfold bridgeToStellar. rewrite bind_assoc, bind_modify; cbv beta.
    match goal with
    | |- context [bind ?m ?k ?s0] =>
        destruct (calls_after_bind m k s0) as (made & Hmade)
    end.
    { intros h. apply steps_withdrawal; unfold any_call; auto. }
    rewrite Hmade. exists (call_bridgeToStellar :: made). split; [|eauto].
    cbn [record_call calls snd].
    assert (Hbridge : forall s0 : State,
               calls (snd (match resolverKeypair s0 with
                           | None => (Throw (newError "Resolver key not set"), s0)
                           | Some stellarAccount =>
                               match env_bridge env with
                               | sdk_throws e => (Throw e, s0)
                               | submit_rejected =>
                                   (Throw (newError "Failed to bridge to Stellar"), s0)
                               | submitted hash =>
                                   (Ok {| br_htlcId := "HTLC-" +:+ env_htlc_suffix env;
                                          br_stellarTxHash := hash;
                                          br_stellarAccount := stellarAccount |}, s0)
                               end
                           end : Result BridgeResult * State)) = calls s0).
    { intros s0. destruct (resolverKeypair s0); [destruct (env_bridge env)|];
        reflexivity. }
    rewrite Hbridge. cbn [record_call calls].
    rewrite updateStatus_calls. cbn [set_heap calls].
    rewrite <- !app_assoc. reflexivity.
  - rewrite bind_throw. exists []. split; [|discriminate].
    cbn [snd record_call calls]. rewrite updateStatus_calls. reflexivity.
Qed.

(** What happens after the stages makes no call. *)
Lemma executeRemittance_calls env quote sender rd s :
  calls (snd (executeRemittance env quote sender rd s)) =
  calls (snd (stages env quote sender rd (fresh (dom (heap s)))
                (prepared env quote sender rd s))).
Proof.
  rewrite executeRemittance_unfold. cbv zeta. unfold pipeline, bind.
  destruct (stages env quote sender rd (fresh (dom (heap s)))
              (prepared env quote sender rd s)) as [[w | e] s2]; cbn [snd].
  - pose proof (steps_complete (fun _ => False) env (fresh (dom (heap s))) w s2) as Hev.
    apply no_calls_made in Hev.
    unfold complete, bind, modify in *. simpl in *. exact Hev.
  - pose proof (steps_on_failure (fun _ => False) env (fresh (dom (heap s))) e s2) as Hev.
    apply no_calls_made in Hev. exact Hev.
Qed.

(** C6, as stated, fails.  [recipientDetails] is of type [any]; when it
    is [undefined], the order literal's read of [recipientDetails.name]
    throws before an order exists and outside the [try] block: the caller
    receives the raw TypeError, whose message is none of the fixed ones,
    and the engine is left as it was. *)
Lemma missing_recipient_details_throw_raw_text :
  let run := executeRemittance_call Samples.testnet_env (Js.value Samples.gcash_quote)
               "0xSender" (Js.nothing Js.js_undefined) initial_state in
  fst run = Throw (cannot_read Js.js_undefined "name") /\
  snd run = initial_state /\
  err_message (cannot_read Js.js_undefined "name") =
    Some "Cannot read properties of undefined (reading 'name')" /\
  ~ In (err_message (cannot_read Js.js_undefined "name"))
       (map (fun kind => Some (messages kind))
            [INSUFFICIENT_FUNDS; INVALID_RECIPIENT; KYC_REQUIRED; COMPLIANCE_BLOCKED;
             ANCHOR_UNAVAILABLE; RATE_EXPIRED; LIMIT_EXCEEDED; TECHNICAL_ERROR;
             NETWORK_ERROR; TIMEOUT]).
Proof.
  split; [reflexivity|]. split; [reflexivity|]. split; [reflexivity|].
  intros H. vm_compute in H.
  repeat (destruct H as [H | H]; [discriminate H|]). exact H.
Qed.

(** C6, amended.  When [executeRemittance] is called with a quote and
    recipient details that are objects, and throws, the failure is that of
    the pipeline run by this call, on the order this call created; what is
    thrown is a new [Error] whose message is the entry of the fixed table
    of user-facing messages for the kind that failure was classified as;
    the value carries nothing else, so no text of the underlying
    exception reaches the caller. *)
Theorem failure_message_is_fixed
    (env : Env) (quote : RemittanceQuote) (senderAddress : string)
    (recipientDetails : RecipientDetails) (s : State) (thrown : RawError) :
  fst (executeRemittance_call env (Js.value quote) senderAddress
         (Js.value recipientDetails) s) = Throw thrown ->
  exists raw : RawError,
    fst (pipeline env quote senderAddress recipientDetails (fresh (dom (heap s)))
           (prepared env quote senderAddress recipientDetails s)) = Throw raw /\
    thrown = newError (messages (de_type (classifyError raw))) /\
    In (err_message thrown)
       (map (fun kind => Some (messages kind))
            [INSUFFICIENT_FUNDS; INVALID_RECIPIENT; KYC_REQUIRED; COMPLIANCE_BLOCKED;
             ANCHOR_UNAVAILABLE; RATE_EXPIRED; LIMIT_EXCEEDED; TECHNICAL_ERROR;
             NETWORK_ERROR; TIMEOUT]) /\
    err_toString thrown = "Error: " +:+ messages (de_type (classifyError raw)) /\
    err_code thrown = None /\
    err_response thrown = None.
Proof.
  cbn [executeRemittance_call].
  rewrite executeRemittance_unfold. cbv zeta.
  set (l := fresh (dom (heap s))).
  set (s1 := prepared env quote senderAddress recipientDetails s).
  destruct (pipeline env quote senderAddress recipientDetails l s1)
    as [[[] | raw] s2] eqn:Hp; [discriminate|].
  rewrite on_failure_result. intros [= <-].
  exists raw. split; [reflexivity|]. split; [reflexivity|].
  split; [destruct (de_type (classifyError raw)); simpl; tauto|].
  split; [destruct (de_type (classifyError raw)); reflexivity|].
  split; reflexivity.
Qed.

Lemma failure_message_is_fixed_witness :
  exists raw : RawError,
    fst (pipeline Samples.testnet_env Samples.gcash_quote "0xSender"
           Samples.teleport_details (fresh (dom (heap initial_state)))
           (prepared Samples.testnet_env Samples.gcash_quote "0xSender"
              Samples.teleport_details initial_state)) = Throw raw /\
    newError "Something went wrong. Our team has been notified." =
      newError (messages (de_type (classifyError raw))).
Proof.
  destruct (failure_message_is_fixed Samples.testnet_env Samples.gcash_quote "0xSender"
              Samples.teleport_details initial_state
              (newError "Something went wrong. Our team has been notified."))
    as (raw & Hraw & Hthrown & _).
  - vm_compute. reflexivity.
  - exists raw. split; [exact Hraw | exact Hthrown].
Defined.

(** C5, as stated, fails.  With a delivery method that maps to no
    configured method, a newly constructed engine has called the swap
    build and the bridge transfer by the time the call fails, and the
    failure it reports is the bridge's, not that of the delivery method. *)
Lemma unmapped_method_fails_after_swap_and_bridge :
  let run := executeRemittance Samples.testnet_env Samples.gcash_quote "0xSender"
               Samples.teleport_details initial_state in
  selectedMethod Samples.gcash_quote Samples.teleport_details = None /\
  calls (snd run) = [call_buildSwapTx; call_bridgeToStellar] /\
  emitted (snd run) =
    [delivery_error (orderId Samples.testnet_env)
       (classifyError (newError "Resolver key not set"))] /\
  fst run = Throw (newError "Something went wrong. Our team has been notified.").
Proof.
  split; [reflexivity|]. split; [vm_compute; reflexivity|].
  split; vm_compute; reflexivity.
Qed.

(** C5, amended.  If the method named in the recipient details maps to
    no method configured for the quote's destination country and
    currency, [executeRemittance] makes no call of a SEP-6 withdrawal
    (anchor integration, authentication or withdrawal), while the swap
    build and the bridge transfer are attempted before the method is
    looked at: when the source chain has a wrapped token, the first call
    made is the swap build, and the second, when the swap build succeeds,
    is the bridge transfer.  The SEP-6 withdrawal step itself, whatever
    the anchor, the account and the state it is entered in, throws the
    error "Invalid delivery method" and leaves the state as it is; that
    error is classified as a technical error. *)
Theorem unmapped_method_rejected_at_sep6_step
    (env : Env) (quote : RemittanceQuote) (senderAddress : string)
    (recipientDetails : RecipientDetails) (s : State) :
  selectedMethod quote recipientDetails = None ->
  let s' := snd (executeRemittance env quote senderAddress recipientDetails s) in
  (exists made : list Call,
      calls s' = (calls s ++ made)%list /\
      Forall (fun c => sep6_withdrawal_call c = false) made /\
      (is_Some (WrappedStellarUSDC.getWrappedStellarUSDC (fromChain quote)) ->
       made !! 0%nat = Some call_buildSwapTx /\
       (env_swap_ok env = true -> made !! 1%nat = Some call_bridgeToStellar))) /\
  (forall (anchorCode stellarAccount : string) (s0 : State),
      processSEP6Withdrawal env anchorCode quote recipientDetails stellarAccount s0 =
        (Throw (newError "Invalid delivery method"), s0)) /\
  de_type (classifyError (newError "Invalid delivery method")) = TECHNICAL_ERROR.
Proof.
  intros Hsel s'. subst s'.
  split; [|split; [|reflexivity]].
  - rewrite executeRemittance_calls.
    destruct (prepared_tables env quote senderAddress recipientDetails s)
      as (_ & _ & _ & Hcalls & _).
    set (l := fresh (dom (heap s))) in *.
    set (s1 := prepared env quote senderAddress recipientDetails s) in *.
    assert (Hev : steps no_sep6_withdrawal
                    (stages env quote senderAddress recipientDetails l))
      by (apply steps_stages; try reflexivity; intros H; contradiction).
    destruct (ev_calls _ _ _ (Hev s1)) as (made & Hmade & Hnone).
    exists made. rewrite <- Hcalls. split; [exact Hmade|]. split; [exact Hnone|].
    intros Hw.
    destruct (stages_first_calls env quote senderAddress recipientDetails l s1 Hw)
      as (rest & Hfirst & Hsecond).
    rewrite Hfirst in Hmade. apply app_inv_head in Hmade. subst made.
    split; [reflexivity|]. intros Hswap.
    destruct (Hsecond Hswap) as (rest' & ->). reflexivity.
  - intros anchorCode stellarAccount s0.
    unfold processSEP6Withdrawal. rewrite Hsel. reflexivity.
Qed.

Lemma unmapped_method_rejected_at_sep6_step_witness :
  exists made : list Call,
    calls (snd (executeRemittance Samples.testnet_env Samples.gcash_quote "0xSender"
                  Samples.teleport_details initial_state)) =
      (calls initial_state ++ made)%list /\
    Forall (fun c => sep6_withdrawal_call c = false) made /\
    made !! 0%nat = Some call_buildSwapTx /\
    made !! 1%nat = Some call_bridgeToStellar.
Proof.
  destruct (unmapped_method_rejected_at_sep6_step Samples.testnet_env
              Samples.gcash_quote "0xSender" Samples.teleport_details
              initial_state eq_refl)
    as ((made & Hcalls & Hnone & Hfirst) & _).
  destruct Hfirst as (H0 & H1); [vm_compute; eauto|].
  exists made. split; [exact Hcalls|]. split; [exact Hnone|].
  split; [exact H0 | exact (H1 eq_refl)].
Defined.

(** A scenario: the anchor refuses the connection during the SEP-24
    withdrawal.  The SEP-24 service rethrows the failure as a plain
    error, which keeps the text but not the code of the HTTP error. *)
Example anchor_refusal_scenario :
  env_withdraw Samples.refusing_env =
    failed_with "Interactive withdrawal failed: connect ECONNREFUSED 10.0.0.1:443" /\
  forall s : State,
    anchor_call call_sep24_initiateWithdraw Samples.refusing_env s =
      (Throw (newError "Interactive withdrawal failed: connect ECONNREFUSED 10.0.0.1:443"),
       record_call call_sep24_initiateWithdraw s).
Proof. split; reflexivity. Qed.

(** A scenario: a newly constructed engine never set a resolver key, so
    the bridge step throws and the order ends failed. *)
Example unkeyed_bridge_scenario :
  let run := executeRemittance Samples.sep24_env Samples.gcash_quote "0xSender"
               Samples.teleport_details initial_state in
  fst run = Throw (newError "Something went wrong. Our team has been notified.") /\
  (status <$> stored_order (orderId Samples.sep24_env) (snd run)) = Some failed /\
  In (delivery_error (orderId Samples.sep24_env)
        (classifyError (newError "Resolver key not set")))
     (emitted (snd run)).
Proof. vm_compute. repeat split. left. reflexivity. Qed.

End ExecutionFacts.

(** * Further properties of the code *)

Section RepositoryFacts.
Import OrderRepository Ledger.

Lemma ledger_empty s :
  repo_orders s = ∅ -> repo_ordersByUser s = ∅ -> repo_wf s /\ index_wf s.
Proof.
  intros Hr Hu. split.
  - intros id l. rewrite Hr, lookup_empty. discriminate.
  - intros user ids id. rewrite Hu, lookup_empty. discriminate.
Qed.

Lemma keeps_identity_none : keeps_identity (fun o => o).
Proof. intros o. split; reflexivity. Qed.

Lemma keeps_identity_status st : keeps_identity (with_status st).
Proof. intros o. split; reflexivity. Qed.

Lemma keeps_identity_after_status st f :
  keeps_identity f -> keeps_identity (fun o => f (with_status st o)).
Proof. intros Hf o. destruct (Hf (with_status st o)) as [-> ->]. split; reflexivity. Qed.

Lemma updateStatus_heap_other id st f s l l' :
  repo_orders s !! id = Some l -> l' <> l ->
  heap (updateStatus id st f s) !! l' = heap s !! l'.
Proof.
  intros Hl Hne. unfold updateStatus. rewrite Hl. simpl.
  apply lookup_alter_ne. congruence.
Qed.

Lemma findById_updateStatus id st f s :
  findById id (updateStatus id st f s) =
  (fun o => f (with_status st o)) <$> findById id s.
Proof.
  unfold findById, updateStatus.
  destruct (repo_orders s !! id) as [l|] eqn:Hl; simpl; rewrite Hl; [|reflexivity].
  apply lookup_alter_eq.
Qed.

(** X1.  An order object that [save] has filed is found again under its id
    by [findById], and after [updateStatus] on that id it is found with the
    new status and with the additional data assigned on top of it. *)
Theorem saved_order_is_found_with_its_last_update
    (l : loc) (o : RemittanceOrder) (st : OrderStatus)
    (additionalData : RemittanceOrder -> RemittanceOrder) (s : State) :
  heap s !! l = Some o ->
  findById (order_id o) (save l s) = Some o /\
  findById (order_id o) (updateStatus (order_id o) st additionalData (save l s))
    = Some (additionalData (with_status st o)).
Proof.
  intros Ho.
  assert (Hfind : findById (order_id o) (save l s) = Some o).
  { unfold findById, save. rewrite Ho. simpl. rewrite lookup_insert_eq. exact Ho. }
  split; [exact Hfind|].
  rewrite findById_updateStatus, Hfind. reflexivity.
Qed.

Lemma saved_order_is_found_with_its_last_update_witness :
  findById "RMT-7"
    (updateStatus "RMT-7" completed (fun o => o) (save 0%nat Cases.one_object)) =
  Some (with_status completed Cases.order_of_juan).
Proof.
  refine (proj2 (saved_order_is_found_with_its_last_update 0%nat Cases.order_of_juan
                   completed (fun o => o) Cases.one_object _)).
  reflexivity.
Defined.

Lemma repo_wf_inj s id id' l :
  repo_wf s -> repo_orders s !! id = Some l -> repo_orders s !! id' = Some l -> id = id'.
Proof.
  intros Hwf H1 H2.
  destruct (Hwf _ _ H1) as (o & Ho & <-).
  destruct (Hwf _ _ H2) as (o' & Ho' & <-). congruence.
Qed.

Lemma findById_updateStatus_other id st f s other :
  repo_wf s -> other <> id ->
  findById other (updateStatus id st f s) = findById other s.
Proof.
  intros Hwf Hne. unfold findById.
  replace (repo_orders (updateStatus id st f s)) with (repo_orders s)
    by (unfold updateStatus; destruct (repo_orders s !! id); reflexivity).
  destruct (repo_orders s !! other) as [l'|] eqn:Hl'; [|reflexivity].
  destruct (repo_orders s !! id) as [l|] eqn:Hl.
  - apply (updateStatus_heap_other _ _ _ _ l); [exact Hl|].
    intros ->. apply Hne. exact (repo_wf_inj _ _ _ _ Hwf Hl' Hl).
  - unfold updateStatus. rewrite Hl. reflexivity.
Qed.

(** X2.  In a repository whose ids lead to objects carrying those ids,
    [updateStatus] with data that keeps id and sender changes the order of
    the given id and no other: that order is found with the status and the
    data assigned, every other id is found as before, the repository stays
    well formed, and for an id that is not stored nothing changes at all. *)
Theorem updateStatus_touches_one_order
    (id : string) (st : OrderStatus)
    (additionalData : RemittanceOrder -> RemittanceOrder) (s : State) :
  repo_wf s -> keeps_identity additionalData ->
  let s' := updateStatus id st additionalData s in
  repo_wf s' /\
  findById id s' = (fun o => additionalData (with_status st o)) <$> findById id s /\
  (forall other, other <> id -> findById other s' = findById other s) /\
  (findById id s = None -> s' = s).
Proof.
  intros Hwf Hf s'. subst s'. repeat split.
  - intros id0 l0 H0. unfold updateStatus in *.
    destruct (repo_orders s !! id) as [l|] eqn:Hl; [|apply Hwf; exact H0].
    simpl in *. destruct (Hwf _ _ H0) as (o & Ho & Hid).
    destruct (decide (l0 = l)) as [->|Hne].
    + rewrite lookup_alter_eq, Ho. simpl. eexists. split; [reflexivity|].
      destruct (Hf (with_status st o)) as [-> _]. exact Hid.
    + rewrite lookup_alter_ne by congruence. eauto.
  - apply findById_updateStatus.
  - intros other Hne. apply findById_updateStatus_other; assumption.
  - unfold findById, updateStatus. intros Hnone.
    destruct (repo_orders s !! id) as [l|] eqn:Hl; [|reflexivity].
    destruct (Hwf _ _ Hl) as (o & Ho & _). congruence.
Qed.

Lemma one_object_ledger : repo_wf Cases.one_object /\ index_wf Cases.one_object.
Proof. apply ledger_empty; reflexivity. Qed.

Lemma findByUser_save_shape l o s :
  heap s !! l = Some o ->
  repo_orders (save l s) = <[order_id o := l]> (repo_orders s) /\
  repo_ordersByUser (save l s) =
    <[sender_address o :=
        (default [] (repo_ordersByUser s !! sender_address o) ++ [order_id o])%list]>
      (repo_ordersByUser s) /\
  heap (save l s) = heap s.
Proof. intros Ho. unfold save. rewrite Ho. auto. Qed.

Lemma omap_insert_fresh (m : gmap string loc) (id : string) (l : loc) (ids : list string) :
  ~ In id ids ->
  omap (fun i => <[id := l]> m !! i) ids = omap (fun i => m !! i) ids.
Proof.
  induction ids as [|i ids IH]; intros Hnot; [reflexivity|]. simpl.
  rewrite lookup_insert_ne by (intros ->; apply Hnot; left; reflexivity).
  assert (H : ~ In id ids) by (intros Hin; apply Hnot; right; exact Hin).
  destruct (m !! i); [f_equal|]; exact (IH H).
Qed.

Lemma index_lists_stored s user ids id :
  index_wf s -> repo_ordersByUser s !! user = Some ids -> In id ids ->
  is_Some (repo_orders s !! id).
Proof. intros Hix Hu Hin. destruct (Hix _ _ _ Hu Hin) as (l & o & H & _). eauto. Qed.

Lemma save_keeps_ledger l o s :
  repo_wf s -> index_wf s ->
  heap s !! l = Some o -> repo_orders s !! order_id o = None ->
  repo_wf (save l s) /\ index_wf (save l s).
Proof.
  intros Hwf Hix Ho Hfresh.
  destruct (findByUser_save_shape l o s Ho) as (Hrepo & Hby & Hheap).
  assert (Hnot : forall user ids, repo_ordersByUser s !! user = Some ids ->
                                  ~ In (order_id o) ids).
  { intros user ids Hu Hin.
    destruct (index_lists_stored _ _ _ _ Hix Hu Hin) as [l0 Hl0]. congruence. }
  split.
  - intros id0 l0. rewrite Hrepo, Hheap.
    destruct (decide (id0 = order_id o)) as [->|Hne].
    + rewrite lookup_insert_eq. intros [= <-]. eauto.
    + rewrite lookup_insert_ne by congruence. apply Hwf.
  - intros user ids id0. rewrite Hby, Hrepo, Hheap.
    destruct (decide (user = sender_address o)) as [->|Hne].
    + rewrite lookup_insert_eq. intros [= <-] Hin.
      apply in_app_or in Hin. destruct Hin as [Hin | [<- | []]].
      * destruct (repo_ordersByUser s !! sender_address o) as [ids|] eqn:Hu;
          simpl in Hin; [|contradiction].
        rewrite lookup_insert_ne by (intros <-; exact (Hnot _ _ Hu Hin)).
        exact (Hix _ _ _ Hu Hin).
      * rewrite lookup_insert_eq. eauto.
    + rewrite lookup_insert_ne by congruence. intros Hu Hin.
      rewrite lookup_insert_ne by (intros <-; exact (Hnot _ _ Hu Hin)).
      exact (Hix _ _ _ Hu Hin).
Qed.

Lemma findByUser_save l o s :
  index_wf s -> heap s !! l = Some o -> repo_orders s !! order_id o = None ->
  findByUser (sender_address o) (save l s) = (findByUser (sender_address o) s ++ [l])%list /\
  (forall user, user <> sender_address o -> findByUser user (save l s) = findByUser user s).
Proof.
  intros Hix Ho Hfresh.
  destruct (findByUser_save_shape l o s Ho) as (Hrepo & Hby & Hheap).
  assert (Hnot : forall user,
            ~ In (order_id o) (default [] (repo_ordersByUser s !! user))).
  { intros user. destruct (repo_ordersByUser s !! user) as [ids|] eqn:Hu; simpl;
      [|intros []].
    intros Hin. destruct (index_lists_stored _ _ _ _ Hix Hu Hin) as [l0 Hl0]. congruence. }
  split.
  - unfold findByUser. rewrite Hby, Hrepo, lookup_insert_eq. simpl.
    rewrite omap_app. simpl. rewrite lookup_insert_eq. f_equal.
    apply omap_insert_fresh, Hnot.
  - intros user Hne. unfold findByUser. rewrite Hby, Hrepo.
    rewrite lookup_insert_ne by congruence.
    apply omap_insert_fresh, Hnot.
Qed.

(** X3.  In a well-formed repository, saving an order under an id that is
    not stored yet appends it to what [findByUser] returns for its sender,
    leaves the lists of all other users as they were, keeps the repository
    and its per-user index well formed, and every object [findByUser]
    returns for a user is a live order sent by that user. *)
Theorem findByUser_lists_the_orders_of_the_user
    (l : loc) (o : RemittanceOrder) (s : State) :
  repo_wf s -> index_wf s ->
  heap s !! l = Some o -> repo_orders s !! order_id o = None ->
  let s' := save l s in
  repo_wf s' /\ index_wf s' /\
  findByUser (sender_address o) s' = (findByUser (sender_address o) s ++ [l])%list /\
  (forall user, user <> sender_address o -> findByUser user s' = findByUser user s) /\
  (forall user l', In l' (findByUser user s') ->
     exists o', heap s' !! l' = Some o' /\ sender_address o' = user).
Proof.
  intros Hwf Hix Ho Hfresh s'. subst s'.
  destruct (save_keeps_ledger l o s Hwf Hix Ho Hfresh) as (Hwf' & Hix').
  destruct (findByUser_save l o s Hix Ho Hfresh) as (Hmine & Hothers).
  split; [exact Hwf'|]. split; [exact Hix'|]. split; [exact Hmine|].
  split; [exact Hothers|].
  intros user l'. unfold findByUser. intros Hin.
  apply list_elem_of_In, list_elem_of_omap in Hin.
  destruct Hin as (id0 & Hin & Hl').
  destruct (repo_ordersByUser (save l s) !! user) as [ids|] eqn:Hu;
    simpl in Hin; [|inversion Hin].
  apply list_elem_of_In in Hin.
  destruct (Hix' _ _ _ Hu Hin) as (l0 & o0 & Hl0 & Ho0 & Hs).
  rewrite Hl0 in Hl'. injection Hl' as <-. eauto.
Qed.

Lemma findByUser_lists_the_orders_of_the_user_witness :
  findByUser "0xSender" (save 0%nat Cases.one_object) = [0%nat].
Proof.
  refine (proj1 (proj2 (proj2
    (findByUser_lists_the_orders_of_the_user 0%nat Cases.order_of_juan Cases.one_object
       (proj1 one_object_ledger) (proj2 one_object_ledger) _ _)))); reflexivity.
Defined.

Lemma updateStatus_touches_one_order_witness :
  findById "RMT-8" (updateStatus "RMT-7" failed (fun o => o) (save 0%nat Cases.one_object))
  = findById "RMT-8" (save 0%nat Cases.one_object).
Proof.
  refine (proj1 (proj2 (proj2
    (updateStatus_touches_one_order "RMT-7" failed (fun o => o)
       (save 0%nat Cases.one_object) _ keeps_identity_none))) "RMT-8" _).
  - refine (proj1 (save_keeps_ledger 0%nat Cases.order_of_juan Cases.one_object
                     (proj1 one_object_ledger) (proj2 one_object_ledger) _ _)); reflexivity.
  - discriminate.
Defined.

End RepositoryFacts.

Section RetryFacts.
Import ErrorHandler RetryScheduler Ledger.

Lemma retryable_has_attempts (e : RawError) :
  de_retryable (classifyError e) = true ->
  (1 <= maxAttempts (getRetryPolicy (de_type (classifyError e))))%nat.
Proof.
  rewrite classifyError_retryable.
  destruct (de_type (classifyError e)); simpl; intros H; first [lia | discriminate H].
Qed.

Lemma scheduled_delay (kind : DeliveryErrorType) (n : nat) :
  (n < maxAttempts (getRetryPolicy kind))%nat ->
  (maxAttempts (getRetryPolicy kind) <= 3)%nat /\
  In (retry_delay (getRetryPolicy kind) n) [0; 5000; 10000; 20000]%Z.
Proof.
  intros Hlt. split; [destruct kind; simpl; lia|].
  assert (Hn : (n <= 2)%nat) by (destruct kind; simpl in Hlt; lia).
  destruct n as [|[|[|n]]]; [| | |lia]; destruct kind; simpl in Hlt; try lia;
    vm_compute; tauto.
Qed.

Lemma retry_bounded_handleDeliveryError id e s :
  retry_bounded s -> retry_bounded (snd (handleDeliveryError id e s)).
Proof.
  intros [Hq Ha].
  destruct (de_retryable (classifyError e)) eqn:Hr.
  - destruct (Nat.le_gt_cases (maxAttempts (getRetryPolicy (de_type (classifyError e))))
                (default 0%nat (retryAttempts s !! id))) as [Hle | Hlt].
    + destruct (handleDeliveryError_exhausted id e s Hr Hle) as (Hq' & Ha' & _).
      unfold retry_bounded. rewrite Hq', Ha'.
      split; [exact Hq|]. intros id' n Hn.
      apply lookup_delete_Some in Hn. destruct Hn as [_ Hn]. eauto.
    + destruct (handleDeliveryError_schedules id e s Hr Hlt) as (Hq' & Ha' & _).
      unfold retry_bounded. rewrite Hq', Ha'.
      split; [|exact Ha]. intros id' t Ht.
      destruct (decide (id' = id)) as [->|Hne].
      * rewrite lookup_insert_eq in Ht. injection Ht as <-. simpl.
        destruct (scheduled_delay _ _ Hlt) as [H3 Hd].
        repeat split; [lia | lia | exact H3 | exact Hd].
      * rewrite lookup_insert_ne in Ht by congruence. eauto.
  - destruct (handleDeliveryError_refund id e s Hr) as (Hq' & Ha' & _).
    unfold retry_bounded. rewrite Hq', Ha'.
    split; assumption.
Qed.

Lemma retry_bounded_fire_timer id s :
  retry_bounded s -> retry_bounded (fire_timer id s).
Proof.
  intros [Hq Ha]. unfold fire_timer.
  destruct (retryQueues s !! id) as [t|] eqn:Ht; [|split; assumption].
  split; simpl.
  - intros id' t' Ht'. apply lookup_delete_Some in Ht'. destruct Ht' as [_ Ht']. eauto.
  - intros id' n Hn. destruct (decide (id' = id)) as [->|Hne].
    + rewrite lookup_insert_eq in Hn. injection Hn as <-.
      destruct (Hq _ _ Ht) as (H1 & H2 & _). lia.
    + rewrite lookup_insert_ne in Hn by congruence. eauto.
Qed.

Lemma retry_bounded_cancelRetries id s :
  retry_bounded s -> retry_bounded (cancelRetries id s).
Proof.
  intros [Hq Ha]. unfold cancelRetries. split; simpl.
  - intros id' t' Ht'. apply lookup_delete_Some in Ht'. destruct Ht' as [_ Ht']. eauto.
  - intros id' n Hn. apply lookup_delete_Some in Hn. destruct Hn as [_ Hn]. eauto.
Qed.

Lemma retry_bounded_initial : retry_bounded initial_state.
Proof. split; intros id x H; simpl in H; rewrite lookup_empty in H; discriminate H. Qed.

(** X4.  Whatever sequence of delivery failures, timer expiries and
    cancellations the error handler goes through, the retry bookkeeping
    stays within bounds: a pending timer is for an attempt between 1 and the
    maximum of its policy, which is at most 3, its delay is 0, 5000, 10000
    or 20000 ms (the cap of 300000 ms is never reached), and no order has
    more than three attempts recorded. *)
Theorem retry_bookkeeping_stays_bounded (ops : list RetryOp) (s : State) :
  retry_bounded s ->
  retry_bounded (fold_left (fun s op => apply_op op s) ops s).
Proof.
  revert s. induction ops as [|op ops IH]; intros s Hs; [exact Hs|].
  simpl. apply IH. destruct op; simpl.
  - apply retry_bounded_handleDeliveryError, Hs.
  - apply retry_bounded_fire_timer, Hs.
  - apply retry_bounded_cancelRetries, Hs.
Qed.

Lemma retry_bookkeeping_stays_bounded_witness :
  retry_bounded initial_state /\
  retry_bounded
    (fold_left (fun s op => apply_op op s)
       [op_failure "RMT-1" (Samples.server_error 500); op_timer "RMT-1";
        op_failure "RMT-1" Samples.rate_error; op_cancel "RMT-1"]
       initial_state).
Proof.
  split; [exact retry_bounded_initial|].
  apply retry_bookkeeping_stays_bounded. exact retry_bounded_initial.
Defined.

Lemma first_failure_sets_timer id e s :
  de_retryable (classifyError e) = true ->
  retryAttempts s !! id = None ->
  let policy := getRetryPolicy (de_type (classifyError e)) in
  let s' := snd (handleDeliveryError id e s) in
  retryQueues s' = <[id := {| timer_delay := retry_delay policy 0;
                              timer_attempt := 1;
                              timer_maxAttempts := maxAttempts policy |}]> (retryQueues s) /\
  retryAttempts s' = retryAttempts s /\
  emitted s' = (emitted s ++ [delivery_error id (classifyError e)])%list.
Proof.
  intros Hr Hnone policy s'. subst policy s'.
  pose proof (retryable_has_attempts e Hr) as H1.
  assert (Hlt : (default 0%nat (retryAttempts s !! id)
                 < maxAttempts (getRetryPolicy (de_type (classifyError e))))%nat)
    by (rewrite Hnone; simpl; lia).
  pose proof (handleDeliveryError_schedules id e s Hr Hlt) as H.
  rewrite Hnone in H. exact H.
Qed.

(** X5.  [cancelRetries] forgets the order: afterwards [getRetryStatus]
    reports no retry and zero attempts, the timer callback of the order does
    nothing, the status of every other order, the events emitted and the
    order objects are as before, and the next retryable failure of the order
    starts over with attempt 1 at the initial delay of its policy. *)
Theorem cancelRetries_forgets_the_order (orderId : string) (s : State) :
  let s' := cancelRetries orderId s in
  getRetryStatus orderId s' =
    {| isRetrying := false; attempts := 0; nextRetryIn := Some 0%Z |} /\
  fire_timer orderId s' = s' /\
  (forall other, other <> orderId -> getRetryStatus other s' = getRetryStatus other s) /\
  emitted s' = emitted s /\ heap s' = heap s /\
  (forall error, de_retryable (classifyError error) = true ->
     let policy := getRetryPolicy (de_type (classifyError error)) in
     retryQueues (snd (handleDeliveryError orderId error s')) !! orderId =
       Some {| timer_delay := retry_delay policy 0;
               timer_attempt := 1;
               timer_maxAttempts := maxAttempts policy |}).
Proof.
  intros s'. subst s'. repeat split.
  - unfold getRetryStatus, cancelRetries. simpl. rewrite !lookup_delete_eq. reflexivity.
  - unfold fire_timer, cancelRetries. simpl. rewrite lookup_delete_eq. reflexivity.
  - intros other Hne. unfold getRetryStatus, cancelRetries. simpl.
    rewrite !lookup_delete_ne by congruence. reflexivity.
  - intros error Hr policy. subst policy.
    destruct (first_failure_sets_timer orderId error (cancelRetries orderId s) Hr)
      as (-> & _).
    + unfold cancelRetries. simpl. apply lookup_delete_eq.
    + apply lookup_insert_eq.
Qed.

(** X6.  When a retryable failure arrives for an order that has used up the
    attempts of its policy, manual review is requested, the attempt counter
    is deleted and the timers are left as they are; so the next retryable
    failure of the same order does not ask for review again but schedules
    attempt 1 at the initial delay, as for a new order. *)
Theorem exhausted_retries_start_over (orderId : string) (error next : RawError) (s : State) :
  de_retryable (classifyError error) = true ->
  (maxAttempts (getRetryPolicy (de_type (classifyError error)))
   <= default 0 (retryAttempts s !! orderId))%nat ->
  de_retryable (classifyError next) = true ->
  let s1 := snd (handleDeliveryError orderId error s) in
  let s2 := snd (handleDeliveryError orderId next s1) in
  let policy := getRetryPolicy (de_type (classifyError next)) in
  In (manual_review_required orderId "Max retries exceeded" (classifyError error))
     (emitted s1) /\
  attempts (getRetryStatus orderId s1) = 0%nat /\
  retryQueues s1 = retryQueues s /\
  retryQueues s2 !! orderId =
    Some {| timer_delay := retry_delay policy 0;
            timer_attempt := 1;
            timer_maxAttempts := maxAttempts policy |} /\
  ~ In (manual_review_required orderId "Max retries exceeded" (classifyError next))
       (skipn (length (emitted s1)) (emitted s2)).
Proof.
  intros Hr Hle Hr' s1 s2 policy. subst s1 s2 policy.
  destruct (handleDeliveryError_exhausted orderId error s Hr Hle) as (Hq & Ha & He).
  assert (Hnone : retryAttempts (snd (handleDeliveryError orderId error s)) !! orderId = None)
    by (rewrite Ha; apply lookup_delete_eq).
  destruct (first_failure_sets_timer orderId next _ Hr' Hnone) as (Hq2 & _ & He2).
  split; [rewrite He; apply in_or_app; right; simpl; auto|].
  split; [unfold getRetryStatus; cbn [attempts]; rewrite Hnone; reflexivity|].
  split; [exact Hq|].
  split; [rewrite Hq2; apply lookup_insert_eq|].
  rewrite He2, skipn_app, skipn_all, Nat.sub_diag. simpl.
  intros [H | []]. discriminate H.
Qed.

Lemma exhausted_retries_start_over_witness :
  let s := set_retryAttempts (insert "RMT-1" 3%nat) initial_state in
  let s1 := snd (handleDeliveryError "RMT-1" (Samples.server_error 500) s) in
  let s2 := snd (handleDeliveryError "RMT-1" (Samples.server_error 500) s1) in
  retryQueues s2 !! "RMT-1" =
    Some {| timer_delay := 5000; timer_attempt := 1; timer_maxAttempts := 3 |}.
Proof.
  intros s s1 s2.
  refine (proj1 (proj2 (proj2 (proj2
    (exhausted_retries_start_over "RMT-1" (Samples.server_error 500) (Samples.server_error 500) s
       _ _ _))))).
  - reflexivity.
  - vm_compute. lia.
  - reflexivity.
Defined.

End RetryFacts.

Section LedgerFacts.
Import ErrorHandler RetryScheduler Execution OrderRepository Ledger.

Lemma passes_ret {A : Type} (R : State -> State -> Prop) (a : A) :
  (forall s, R s s) -> passes R (ret a).
Proof. intros Hrefl s. apply Hrefl. Qed.

Lemma passes_throw {A : Type} (R : State -> State -> Prop) (e : RawError) :
  (forall s, R s s) -> passes R (@throw A e).
Proof. intros Hrefl s. apply Hrefl. Qed.

Lemma passes_bind {A B : Type} (R : State -> State -> Prop) (m : M A) (k : A -> M B) :
  (forall s1 s2 s3, R s1 s2 -> R s2 s3 -> R s1 s3) ->
  passes R m -> (forall a, passes R (k a)) -> passes R (bind m k).
Proof.
  intros Htrans Hm Hk s. unfold bind. specialize (Hm s).
  destruct (m s) as [[a | e] s']; simpl in *; [|exact Hm].
  eapply Htrans; [exact Hm | apply Hk].
Qed.

Section Pass.
Context (R : State -> State -> Prop) (env : Env) (l : loc).
Hypothesis R_refl : forall s, R s s.
Hypothesis R_trans : forall s1 s2 s3, R s1 s2 -> R s2 s3 -> R s1 s3.
Hypothesis R_alter : forall f s, keeps_identity f -> R s (set_heap (alter f l) s).
Hypothesis R_update : forall st f s,
  keeps_identity f -> R s (updateStatus (orderId env) st f s).
Hypothesis R_call : forall c s, R s (record_call c s).

Lemma passes_anchor_call c : passes R (anchor_call c env).
Proof.
  unfold anchor_call.
  apply passes_bind; [exact R_trans | intros s; apply R_call|]. intros _.
  destruct (env_withdraw env); [apply passes_ret | apply passes_throw]; exact R_refl.
Qed.

Lemma passes_stages quote sender rd : passes R (stages env quote sender rd l).
Proof.
  unfold stages.
  apply passes_bind; [exact R_trans | intros s; apply R_alter, keeps_identity_status|].
  intros _.
  apply passes_bind; [exact R_trans | intros s; apply R_update, keeps_identity_none|].
  intros _.
  apply passes_bind; [exact R_trans | |].
  { destruct (WrappedStellarUSDC.getWrappedStellarUSDC (fromChain quote));
      [apply passes_ret | apply passes_throw]; exact R_refl. }
  intros w.
  apply passes_bind; [exact R_trans | |].
  { unfold buildSwapTx. apply passes_bind; [exact R_trans | intros s; apply R_call|].
    intros _. destruct (env_swap_ok env); [apply passes_ret | apply passes_throw];
      exact R_refl. }
  intros _.
  apply passes_bind; [exact R_trans | |].
  { unfold bridgeToStellar.
    apply passes_bind; [exact R_trans | intros s; apply R_call|]. intros _ s.
    destruct (resolverKeypair s); [destruct (env_bridge env)|]; apply R_refl. }
  intros h.
  apply passes_bind; [exact R_trans | intros s; apply R_alter|].
  { intros o. split; reflexivity. }
  intros _.
  apply passes_bind; [exact R_trans | |].
  { destruct (StellarAnchorService.getAnchorForCorridor "US"
                (toCountry quote) (toCurrency quote));
      [apply passes_ret | apply passes_throw]; exact R_refl. }
  intros payout.
  apply passes_bind; [exact R_trans | |].
  { unfold recommendProtocol.
    apply passes_bind; [exact R_trans | intros s; apply R_call|]. intros _.
    apply passes_ret, R_refl. }
  intros protocol.
  apply passes_bind; [exact R_trans | |].
  2: { intros [result | v]; [apply passes_ret | apply passes_throw]; exact R_refl. }
  destruct protocol.
  - unfold processSEP6Withdrawal.
    destruct (selectedMethod quote rd); [|apply passes_throw, R_refl].
    destruct (String.eqb (anchor_code payout) "CLICK_PHP"); [apply passes_anchor_call|].
    destruct (String.eqb (anchor_code payout) "COWRIE_NGN"); [apply passes_anchor_call|].
    apply passes_bind; [exact R_trans | |].
    { unfold sep6_authenticate.
      apply passes_bind; [exact R_trans | intros s; apply R_call|]. intros _.
      destruct (env_authenticate env); [apply passes_ret | apply passes_throw];
        exact R_refl. }
    intros _. apply passes_anchor_call.
  - apply passes_anchor_call.
Qed.

Lemma passes_complete w :
  (forall s, R s (push_metrics l s)) -> passes R (complete env l w).
Proof.
  intros R_metrics. unfold complete.
  apply passes_bind; [exact R_trans | intros s; apply R_alter|].
  { intros o. split; reflexivity. }
  intros _.
  apply passes_bind; [exact R_trans | intros s; apply R_update|].
  { intros o. split; reflexivity. }
  intros _ s. apply R_metrics.
Qed.

End Pass.

Lemma quiet_refl s : quiet s s.
Proof. repeat split. Qed.

Lemma quiet_trans s1 s2 s3 : quiet s1 s2 -> quiet s2 s3 -> quiet s1 s3.
Proof. intros (? & ? & ?) (? & ? & ?). repeat split; congruence. Qed.

Lemma quiet_updateStatus id st f s : quiet s (updateStatus id st f s).
Proof.
  unfold quiet.
  rewrite updateStatus_retryQueues, updateStatus_retryAttempts, updateStatus_emitted.
  repeat split.
Qed.

Lemma quiet_stages env quote sender rd l s :
  quiet s (snd (stages env quote sender rd l s)).
Proof.
  apply (passes_stages quiet env l quiet_refl quiet_trans).
  - intros f s0 _. repeat split.
  - intros st f s0 _. apply quiet_updateStatus.
  - intros c s0. repeat split.
Qed.

Lemma quiet_complete env l w s : quiet s (snd (complete env l w s)).
Proof.
  apply (passes_complete quiet env l quiet_trans).
  - intros f s0 _. repeat split.
  - intros st f s0 _. apply quiet_updateStatus.
  - intros s0. repeat split.
Qed.

Lemma metrics_updateStatus id st f s :
  metrics_orders (updateStatus id st f s) = metrics_orders s.
Proof. unfold updateStatus. destruct (repo_orders s !! id); reflexivity. Qed.

Lemma metrics_stages env quote sender rd l s :
  metrics_orders (snd (stages env quote sender rd l s)) = metrics_orders s.
Proof.
  apply (passes_stages (fun s s' => metrics_orders s' = metrics_orders s) env l).
  - reflexivity.
  - intros s1 s2 s3 H1 H2. congruence.
  - reflexivity.
  - intros st f s0 _. apply metrics_updateStatus.
  - reflexivity.
Qed.

Lemma metrics_handleDeliveryError id e s :
  metrics_orders (snd (handleDeliveryError id e s)) = metrics_orders s.
Proof.
  unfold handleDeliveryError. simpl.
  destruct (de_retryable (classifyError e)).
  - unfold scheduleRetry.
    match goal with |- context [if ?c then _ else _] => destruct c end; simpl;
      rewrite ?metrics_updateStatus; simpl; rewrite ?metrics_updateStatus; reflexivity.
  - simpl. rewrite !metrics_updateStatus. simpl. apply metrics_updateStatus.
Qed.

Lemma touches_refl id l s : touches id l s s.
Proof. constructor; eauto. Qed.

Lemma touches_trans id l s1 s2 s3 :
  touches id l s1 s2 -> touches id l s2 s3 -> touches id l s1 s3.
Proof.
  intros H1 H2. constructor.
  - intros l' Hne. rewrite (t_heap_other _ _ _ _ H2), (t_heap_other _ _ _ _ H1); auto.
  - intros o Ho. destruct (t_heap_same _ _ _ _ H1 _ Ho) as (o2 & Ho2 & Hi & Hs).
    destruct (t_heap_same _ _ _ _ H2 _ Ho2) as (o3 & Ho3 & Hi3 & Hs3).
    exists o3. repeat split; congruence.
  - rewrite (t_repo _ _ _ _ H2). apply (t_repo _ _ _ _ H1).
  - rewrite (t_byUser _ _ _ _ H2). apply (t_byUser _ _ _ _ H1).
  - rewrite (t_engine _ _ _ _ H2). apply (t_engine _ _ _ _ H1).
  - intros id' Hne. rewrite (t_queues _ _ _ _ H2), (t_queues _ _ _ _ H1); auto.
  - intros id' Hne. rewrite (t_attempts _ _ _ _ H2), (t_attempts _ _ _ _ H1); auto.
Qed.

Lemma touches_stored_trans id l s1 s2 s3 :
  touches_stored id l s1 s2 -> touches_stored id l s2 s3 -> touches_stored id l s1 s3.
Proof.
  intros H1 H2 Hl. specialize (H1 Hl).
  apply (touches_trans _ _ _ s2); [exact H1|]. apply H2.
  rewrite (t_repo _ _ _ _ H1). exact Hl.
Qed.

Lemma touches_alter id l f s :
  keeps_identity f -> touches id l s (set_heap (alter f l) s).
Proof.
  intros Hf. constructor; simpl; auto.
  - intros l' Hne. apply lookup_alter_ne. congruence.
  - intros o Ho. rewrite lookup_alter_eq, Ho. simpl. exists (f o).
    destruct (Hf o). auto.
Qed.

Lemma touches_updateStatus id l st f s :
  keeps_identity f -> touches_stored id l s (updateStatus id st f s).
Proof.
  intros Hf Hl. unfold updateStatus.
  destruct (repo_orders s !! id) as [l'|]; [|apply touches_refl].
  rewrite (Hl l' eq_refl).
  apply touches_alter, keeps_identity_after_status, Hf.
Qed.

Lemma touches_emit id l ev s : touches id l s (emit ev s).
Proof. constructor; simpl; eauto. Qed.

Lemma touches_forget_attempts id l s :
  touches id l s (set_retryAttempts (delete id) s).
Proof.
  constructor; simpl; eauto.
  intros id' Hne. apply lookup_delete_ne. congruence.
Qed.

Lemma touches_set_timer id l t s :
  touches id l s (set_retryQueues (insert id t) s).
Proof.
  constructor; simpl; eauto.
  intros id' Hne. apply lookup_insert_ne. congruence.
Qed.

Lemma touches_handleDeliveryError id l e s :
  touches_stored id l s (snd (handleDeliveryError id e s)).
Proof.
  assert (Hup : forall s0, touches_stored id l s0 (updateStatus id failed (fun o => o) s0))
    by (intros s0; apply touches_updateStatus, keeps_identity_none).
  assert (Hem : forall ev s0, touches_stored id l s0 (emit ev s0))
    by (intros ev s0 _; apply touches_emit).
  unfold handleDeliveryError. cbn [snd]. cbv zeta.
  eapply touches_stored_trans; [apply Hup|].
  eapply touches_stored_trans; [apply Hem|].
  destruct (de_retryable (classifyError e)).
  - unfold scheduleRetry. cbv zeta.
    match goal with |- context [if ?c then _ else _] => destruct c end.
    + unfold handleMaxRetriesExceeded. cbv zeta.
      eapply touches_stored_trans; [intros _; apply touches_forget_attempts|].
      eapply touches_stored_trans; [apply Hup|].
      eapply touches_stored_trans; [apply Hem|]. apply Hem.
    + intros _. apply touches_set_timer.
  - unfold handleNonRetryableError. cbv zeta.
    eapply touches_stored_trans; [apply Hup|].
    eapply touches_stored_trans; [apply Hem|]. apply Hem.
Qed.

Lemma touches_pipeline env quote sender rd l s :
  touches_stored (orderId env) l s (snd (pipeline env quote sender rd l s)).
Proof.
  unfold pipeline.
  apply (passes_bind (touches_stored (orderId env) l)).
  - apply touches_stored_trans.
  - apply passes_stages.
    + intros s0 _. apply touches_refl.
    + apply touches_stored_trans.
    + intros f s0 Hf _. apply touches_alter, Hf.
    + intros st f s0 Hf. apply touches_updateStatus, Hf.
    + intros c s0 _. constructor; simpl; eauto.
  - intros w. apply passes_complete.
    + apply touches_stored_trans.
    + intros f s0 Hf _. apply touches_alter, Hf.
    + intros st f s0 Hf. apply touches_updateStatus, Hf.
    + intros s0 _. constructor; simpl; eauto.
Qed.

Lemma touches_on_failure env l e s :
  touches_stored (orderId env) l s (snd (on_failure env l e s)).
Proof.
  unfold on_failure, bind, modify, throw.
  pose proof (touches_handleDeliveryError (orderId env) l e s) as H.
  destruct (handleDeliveryError (orderId env) e s) as [d s1]. simpl in *.
  eapply touches_stored_trans; [exact H|].
  intros _. apply touches_alter, keeps_identity_status.
Qed.

Lemma touches_executeRemittance env quote sender rd s :
  touches (orderId env) (fresh (dom (heap s)))
    (prepared env quote sender rd s)
    (snd (executeRemittance env quote sender rd s)).
Proof.
  rewrite executeRemittance_unfold.
  destruct (prepared_tables env quote sender rd s) as (Hrepo & _).
  set (l := fresh (dom (heap s))) in *.
  set (s1 := prepared env quote sender rd s) in *. cbv zeta.
  assert (Hat : forall s0, repo_orders s0 = repo_orders s1 ->
            forall l', repo_orders s0 !! orderId env = Some l' -> l' = l)
    by (intros s0 -> l'; rewrite Hrepo; congruence).
  pose proof (touches_pipeline env quote sender rd l s1 (Hat s1 eq_refl)) as Hp.
  destruct (pipeline env quote sender rd l s1) as [[[] | e] s2]; simpl in *;
    [exact Hp|].
  apply (touches_trans _ _ _ s2); [exact Hp|].
  apply touches_on_failure, Hat, (t_repo _ _ _ _ Hp).
Qed.

Lemma touches_keeps_ledger id l s s' :
  touches id l s s' ->
  (repo_wf s -> repo_wf s') /\ (index_wf s -> index_wf s').
Proof.
  intros Ht.
  assert (Hheap : forall l0 o, heap s !! l0 = Some o ->
            exists o', heap s' !! l0 = Some o' /\ order_id o' = order_id o /\
                       sender_address o' = sender_address o).
  { intros l0 o Ho. destruct (decide (l0 = l)) as [->|Hne].
    - apply (t_heap_same _ _ _ _ Ht), Ho.
    - exists o. rewrite (t_heap_other _ _ _ _ Ht) by exact Hne. auto. }
  split.
  - intros Hwf id0 l0. rewrite (t_repo _ _ _ _ Ht). intros H0.
    destruct (Hwf _ _ H0) as (o & Ho & Hid).
    destruct (Hheap _ _ Ho) as (o' & Ho' & Hi & _). exists o'. split; congruence.
  - intros Hix user ids id0. rewrite (t_byUser _ _ _ _ Ht), (t_repo _ _ _ _ Ht).
    intros Hu Hin. destruct (Hix _ _ _ Hu Hin) as (l0 & o & Hl0 & Ho & Hs).
    destruct (Hheap _ _ Ho) as (o' & Ho' & _ & Hs'). exists l0, o'.
    repeat split; congruence.
Qed.

Lemma prepared_shape env quote sender rd s :
  exists o, order_id o = orderId env /\ sender_address o = sender /\
    prepared env quote sender rd s =
      set_engine_orders (insert (orderId env) (fresh (dom (heap s))))
        (save (fresh (dom (heap s))) (set_heap (insert (fresh (dom (heap s))) o) s)).
Proof. eexists. split; [|split]; [| |reflexivity]; reflexivity. Qed.

Lemma fresh_not_stored s id l :
  repo_wf s -> repo_orders s !! id = Some l -> l <> fresh (dom (heap s)).
Proof.
  intros Hwf Hl Heq. destruct (Hwf _ _ Hl) as (o & Ho & _).
  apply (is_fresh (dom (heap s))). rewrite <- Heq. apply elem_of_dom. eauto.
Qed.

End LedgerFacts.

Section EngineFacts.
Import ErrorHandler RetryScheduler Execution OrderRepository Ledger.

Lemma updateStatus_heap id st f s :
  heap (updateStatus id st f s) =
  match repo_orders s !! id with
  | Some l => alter (fun o => f (with_status st o)) l (heap s)
  | None => heap s
  end.
Proof. unfold updateStatus. destruct (repo_orders s !! id); reflexivity. Qed.

Lemma updateStatus_repo id st f s :
  repo_orders (updateStatus id st f s) = repo_orders s.
Proof. unfold updateStatus. destruct (repo_orders s !! id); reflexivity. Qed.

Lemma alter_failed_twice (l : loc) (h : gmap loc RemittanceOrder) :
  alter (with_status failed) l (alter (with_status failed) l h) =
  alter (with_status failed) l h.
Proof.
  apply map_eq. intros l'. destruct (decide (l' = l)) as [->|Hne].
  - rewrite !lookup_alter_eq. destruct (h !! l); reflexivity.
  - rewrite !lookup_alter_ne by congruence. reflexivity.
Qed.

Lemma handleDeliveryError_heap id e s :
  heap (snd (handleDeliveryError id e s)) = heap (updateStatus id failed (fun o => o) s) /\
  repo_orders (snd (handleDeliveryError id e s)) = repo_orders s.
Proof.
  unfold handleDeliveryError. cbn [snd]. cbv zeta.
  destruct (de_retryable (classifyError e)).
  - unfold scheduleRetry. cbv zeta.
    match goal with |- context [if ?c then _ else _] => destruct c end.
    + unfold handleMaxRetriesExceeded. simpl.
      rewrite !updateStatus_heap, !updateStatus_repo. simpl.
      rewrite !updateStatus_repo, !updateStatus_heap.
      destruct (repo_orders s !! id); [|auto]. split; [apply alter_failed_twice|reflexivity].
    + simpl. rewrite updateStatus_repo. auto.
  - unfold handleNonRetryableError. simpl.
    rewrite !updateStatus_heap, !updateStatus_repo. simpl.
    rewrite !updateStatus_repo, !updateStatus_heap.
    destruct (repo_orders s !! id); [|auto]. split; [apply alter_failed_twice|reflexivity].
Qed.

(** X7.  [handleDeliveryError] marks the stored order of the given id failed
    and touches no other order: in a well-formed repository every other id
    is found unchanged and keeps its retry status, and the repository stays
    well formed. *)
Theorem handleDeliveryError_fails_one_order
    (orderId : string) (error : RawError) (s : State) :
  repo_wf s ->
  let s' := snd (handleDeliveryError orderId error s) in
  repo_wf s' /\
  findById orderId s' = with_status failed <$> findById orderId s /\
  (forall other, other <> orderId ->
     findById other s' = findById other s /\
     getRetryStatus other s' = getRetryStatus other s).
Proof.
  intros Hwf s'. subst s'.
  destruct (handleDeliveryError_heap orderId error s) as (Hheap & Hrepo).
  assert (Ht : touches orderId (default 0%nat (repo_orders s !! orderId)) s
                 (snd (handleDeliveryError orderId error s))).
  { apply touches_handleDeliveryError. intros l' Hl'. rewrite Hl'. reflexivity. }
  assert (Hfind : forall i, findById i (snd (handleDeliveryError orderId error s)) =
                            findById i (updateStatus orderId failed (fun o => o) s)).
  { intros i. unfold findById. rewrite Hrepo, Hheap, updateStatus_repo. reflexivity. }
  split; [apply (touches_keeps_ledger _ _ _ _ Ht), Hwf|]. split.
  - rewrite Hfind. apply findById_updateStatus.
  - intros other Hne. split.
    + rewrite Hfind. apply findById_updateStatus_other; assumption.
    + unfold getRetryStatus.
      rewrite (t_queues _ _ _ _ Ht), (t_attempts _ _ _ _ Ht) by exact Hne. reflexivity.
Qed.

Lemma alloc_keeps_ledger o s :
  repo_wf s -> index_wf s ->
  let s0 := set_heap (insert (fresh (dom (heap s))) o) s in
  repo_wf s0 /\ index_wf s0 /\
  (forall id, findById id s0 = findById id s) /\
  (forall user, findByUser user s0 = findByUser user s).
Proof.
  intros Hwf Hix s0. subst s0.
  assert (Hlive : forall id l, repo_orders s !! id = Some l ->
            (<[fresh (dom (heap s)) := o]> (heap s)) !! l = heap s !! l).
  { intros id l Hl. apply lookup_insert_ne. intros Heq. symmetry in Heq. revert Heq.
    exact (fresh_not_stored _ _ _ Hwf Hl). }
  repeat split.
  - intros id l Hl. simpl in *. rewrite (Hlive _ _ Hl). apply Hwf, Hl.
  - intros user ids id Hu Hin. simpl in *.
    destruct (Hix _ _ _ Hu Hin) as (l & o' & Hl & Ho' & Hs).
    exists l, o'. rewrite (Hlive _ _ Hl). auto.
  - intros id. unfold findById. simpl.
    destruct (repo_orders s !! id) as [l|] eqn:Hl; [|reflexivity].
    apply (Hlive _ _ Hl).
Qed.

Lemma prepared_keeps_ledger env quote sender rd s :
  repo_wf s -> index_wf s -> repo_orders s !! orderId env = None ->
  let s1 := prepared env quote sender rd s in
  let l := fresh (dom (heap s)) in
  repo_wf s1 /\ index_wf s1 /\
  (forall id, id <> orderId env -> findById id s1 = findById id s) /\
  findByUser sender s1 = (findByUser sender s ++ [l])%list /\
  (forall user, user <> sender -> findByUser user s1 = findByUser user s) /\
  quiet s s1 /\ metrics_orders s1 = metrics_orders s.
Proof.
  intros Hwf Hix Hfresh s1 l. subst s1.
  destruct (prepared_shape env quote sender rd s) as (o & Hid & Hsender & ->).
  fold l.
  destruct (alloc_keeps_ledger o s Hwf Hix) as (Hwf0 & Hix0 & Hfind0 & Huser0).
  fold l in Hwf0, Hix0, Hfind0, Huser0.
  set (s0 := set_heap (insert l o) s) in *.
  assert (Ho : heap s0 !! l = Some o) by apply lookup_insert_eq.
  assert (Hfresh0 : repo_orders s0 !! order_id o = None) by (rewrite Hid; exact Hfresh).
  destruct (save_keeps_ledger l o s0 Hwf0 Hix0 Ho Hfresh0) as (Hwf1 & Hix1).
  destruct (findByUser_save l o s0 Hix0 Ho Hfresh0) as (Hmine & Hothers).
  destruct (findByUser_save_shape l o s0 Ho) as (Hrepo & Hby & Hheap).
  rewrite Hsender in Hmine, Hothers.
  split; [exact Hwf1|]. split; [exact Hix1|]. split; [|split; [|split; [|split]]].
  - intros id Hne. rewrite <- Hfind0. unfold findById. simpl.
    rewrite Hrepo, Hheap, Hid. rewrite lookup_insert_ne by congruence. reflexivity.
  - rewrite <- Huser0. exact Hmine.
  - intros user Hne. rewrite <- Huser0. apply Hothers, Hne.
  - unfold save. rewrite Ho. repeat split.
  - unfold save. rewrite Ho. reflexivity.
Qed.

Lemma executeRemittance_well_formed env quote sender rd s :
  repo_wf s -> index_wf s -> repo_orders s !! orderId env = None ->
  repo_wf (snd (executeRemittance env quote sender rd s)) /\
  index_wf (snd (executeRemittance env quote sender rd s)).
Proof.
  intros Hwf Hix Hfresh.
  pose proof (touches_executeRemittance env quote sender rd s) as Ht.
  destruct (prepared_keeps_ledger env quote sender rd s Hwf Hix Hfresh)
    as (Hwf1 & Hix1 & _).
  destruct (touches_keeps_ledger _ _ _ _ Ht) as (Hk1 & Hk2). auto.
Qed.

(** X8.  [executeRemittance] with an order id that is not stored yet keeps
    the repository and the per-user index well formed, leaves every other
    stored order and its retry status untouched, whether the call returns or
    throws, and appends the new order to the sender's list and to no other
    user's. *)
Theorem executeRemittance_keeps_the_ledger
    (env : Env) (quote : RemittanceQuote) (senderAddress : string)
    (recipientDetails : RecipientDetails) (s : State) :
  repo_wf s -> index_wf s -> repo_orders s !! orderId env = None ->
  let s' := snd (executeRemittance env quote senderAddress recipientDetails s) in
  let l := fresh (dom (heap s)) in
  repo_wf s' /\ index_wf s' /\
  (forall other, other <> orderId env ->
     findById other s' = findById other s /\
     getRetryStatus other s' = getRetryStatus other s) /\
  findByUser senderAddress s' = (findByUser senderAddress s ++ [l])%list /\
  (forall user, user <> senderAddress -> findByUser user s' = findByUser user s).
Proof.
  intros Hwf Hix Hfresh s' l. subst s'.
  pose proof (touches_executeRemittance env quote senderAddress recipientDetails s) as Ht.
  destruct (prepared_keeps_ledger env quote senderAddress recipientDetails s Hwf Hix Hfresh)
    as (Hwf1 & Hix1 & Hfind1 & Hmine1 & Hothers1 & (Hq1 & Ha1 & _) & _).
  destruct (prepared_tables env quote senderAddress recipientDetails s) as (Hrepo1 & _).
  fold l in Ht, Hmine1, Hrepo1.
  set (s1 := prepared env quote senderAddress recipientDetails s) in *.
  set (s2 := snd (executeRemittance env quote senderAddress recipientDetails s)) in *.
  destruct (touches_keeps_ledger _ _ _ _ Ht) as (Hk1 & Hk2).
  assert (Huser : forall user, findByUser user s2 = findByUser user s1).
  { intros user. unfold findByUser.
    rewrite (t_byUser _ _ _ _ Ht), (t_repo _ _ _ _ Ht). reflexivity. }
  split; [exact (Hk1 Hwf1)|]. split; [exact (Hk2 Hix1)|]. split; [|split].
  - intros other Hne. split.
    + rewrite <- (Hfind1 other Hne). unfold findById. rewrite (t_repo _ _ _ _ Ht).
      destruct (repo_orders s1 !! other) as [l'|] eqn:Hl'; [|reflexivity].
      apply (t_heap_other _ _ _ _ Ht). intros ->.
      apply Hne. exact (repo_wf_inj _ _ _ _ Hwf1 Hl' Hrepo1).
    + unfold getRetryStatus.
      rewrite (t_queues _ _ _ _ Ht), (t_attempts _ _ _ _ Ht) by exact Hne.
      rewrite Hq1, Ha1. reflexivity.
  - rewrite Huser. exact Hmine1.
  - intros user Hne. rewrite Huser. apply Hothers1, Hne.
Qed.

Lemma executeRemittance_keeps_the_ledger_witness :
  findByUser "0xSender"
    (snd (executeRemittance Samples.sep24_env Samples.gcash_quote "0xSender"
            Samples.teleport_details Samples.keyed_engine)) = [0%nat].
Proof.
  refine (proj1 (proj2 (proj2 (proj2
    (executeRemittance_keeps_the_ledger Samples.sep24_env Samples.gcash_quote "0xSender"
       Samples.teleport_details Samples.keyed_engine _ _ _))))).
  - apply ledger_empty; reflexivity.
  - apply ledger_empty; reflexivity.
  - reflexivity.
Defined.

Lemma handleDeliveryError_fails_one_order_witness :
  status <$>
    findById (orderId Samples.sep24_env)
      (snd (handleDeliveryError (orderId Samples.sep24_env) Samples.refused
              (snd (execute Cases.by_sep24 Samples.keyed_engine)))) = Some failed.
Proof.
  rewrite (proj1 (proj2
    (handleDeliveryError_fails_one_order (orderId Samples.sep24_env) Samples.refused
       (snd (execute Cases.by_sep24 Samples.keyed_engine))
       (proj1 (executeRemittance_well_formed _ _ _ _ Samples.keyed_engine
                 (proj1 (ledger_empty Samples.keyed_engine eq_refl eq_refl))
                 (proj2 (ledger_empty Samples.keyed_engine eq_refl eq_refl)) eq_refl))))).
  reflexivity.
Defined.

Lemma executeRemittance_key env quote sender rd s :
  resolverKeypair (snd (executeRemittance env quote sender rd s)) = resolverKeypair s.
Proof.
  rewrite executeRemittance_unfold.
  destruct (prepared_tables env quote sender rd s) as (_ & _ & _ & _ & Hkey & _).
  set (l := fresh (dom (heap s))) in *.
  set (s1 := prepared env quote sender rd s) in *. cbv zeta.
  unfold pipeline, bind.
  pose proof (steps_stages_any env quote sender rd l s1) as Hev.
  destruct (stages env quote sender rd l s1) as [[w | e] s2]; simpl in Hev.
  - pose proof (steps_complete any_call env l w s2) as Hev3.
    destruct (complete env l w s2) as [[[] | e] s3]; cbn [fst snd] in *.
    + rewrite (ev_key _ _ _ Hev3), (ev_key _ _ _ Hev). exact Hkey.
    + pose proof (steps_on_failure any_call env l e s3) as Hev4.
      rewrite (ev_key _ _ _ Hev4), (ev_key _ _ _ Hev3), (ev_key _ _ _ Hev). exact Hkey.
  - pose proof (steps_on_failure any_call env l e s2) as Hev3.
    rewrite (ev_key _ _ _ Hev3), (ev_key _ _ _ Hev). exact Hkey.
Qed.

Lemma pipeline_throws_then_call_throws env quote sender rd s :
  threw (fst (stages env quote sender rd (fresh (dom (heap s)))
                (prepared env quote sender rd s))) = true ->
  threw (fst (executeRemittance env quote sender rd s)) = true.
Proof.
  intros H. rewrite executeRemittance_unfold. cbv zeta. unfold pipeline, bind.
  destruct (stages env quote sender rd (fresh (dom (heap s)))
              (prepared env quote sender rd s)) as [[w | e] s2]; [discriminate H|].
  rewrite on_failure_result. reflexivity.
Qed.

Lemma stages_without_key env quote sender rd l s :
  resolverKeypair s = None ->
  threw (fst (stages env quote sender rd l s)) = true.
Proof.
  intros Hk.
  unfold stages, buildSwapTx, bridgeToStellar.
  unfold bind, modify, throw, ret. simpl.
  destruct (WrappedStellarUSDC.getWrappedStellarUSDC (fromChain quote)); [|reflexivity].
  destruct (env_swap_ok env); [|reflexivity]. simpl.
  rewrite updateStatus_resolverKeypair. simpl. rewrite Hk. reflexivity.
Qed.

Lemma stages_sep6_without_method env quote sender rd l s :
  selectedMethod quote rd = None -> recommended env = sep6 ->
  threw (fst (stages env quote sender rd l s)) = true.
Proof.
  intros Hsel Hrec.
  unfold stages, buildSwapTx, bridgeToStellar, recommendProtocol, processSEP6Withdrawal.
  unfold bind, modify, throw, ret. simpl.
  destruct (WrappedStellarUSDC.getWrappedStellarUSDC (fromChain quote)); [|reflexivity].
  destruct (env_swap_ok env); [|reflexivity]. simpl.
  rewrite updateStatus_resolverKeypair. simpl.
  destruct (resolverKeypair s); [|reflexivity].
  destruct (env_bridge env); try reflexivity. simpl.
  destruct (StellarAnchorService.getAnchorForCorridor "US"
              (toCountry quote) (toCurrency quote)); [|reflexivity].
  simpl. rewrite Hrec, Hsel. reflexivity.
Qed.

(** X9.  An engine whose bridge has no resolver key never completes a
    remittance: every call of a series of [executeRemittance] calls throws,
    and the key is still missing afterwards.  A freshly constructed engine
    is in that state, and nothing in the engine sets the key. *)
Theorem unkeyed_engine_never_completes (rs : list Remittance) (s : State) :
  resolverKeypair s = None ->
  length (fst (execute_all rs s)) = length rs /\
  forallb threw (fst (execute_all rs s)) = true /\
  resolverKeypair (snd (execute_all rs s)) = None.
Proof.
  revert s. induction rs as [|r rs IH]; intros s Hk; [auto|].
  simpl. unfold execute at 1 2 3.
  pose proof (executeRemittance_key (rem_env r) (rem_quote r) (rem_sender r)
                (rem_recipient r) s) as Hkey.
  pose proof (pipeline_throws_then_call_throws (rem_env r) (rem_quote r) (rem_sender r)
                (rem_recipient r) s) as Hthrow.
  destruct (executeRemittance (rem_env r) (rem_quote r) (rem_sender r)
              (rem_recipient r) s) as [result s1]. simpl in *.
  rewrite Hk in Hkey. destruct (IH s1 Hkey) as (Hlen & Hall & Hnone).
  destruct (execute_all rs s1) as [results s2]. simpl in *.
  repeat split; [congruence | | exact Hnone].
  rewrite Hall, andb_true_r. apply Hthrow, stages_without_key.
  destruct (prepared_tables (rem_env r) (rem_quote r) (rem_sender r)
              (rem_recipient r) s) as (_ & _ & _ & _ & -> & _). exact Hk.
Qed.

Lemma unkeyed_engine_never_completes_witness :
  forallb threw (fst (execute_all [Cases.by_sep24; Cases.by_sep6] initial_state)) = true.
Proof.
  refine (proj1 (proj2
    (unkeyed_engine_never_completes [Cases.by_sep24; Cases.by_sep6] initial_state _))).
  reflexivity.
Defined.

Lemma filter_none {A : Type} (p : A -> bool) (l : list A) :
  (forall x, In x l -> p x = false) -> List.filter p l = [].
Proof.
  induction l as [|x l IH]; intros H; [reflexivity|]. simpl.
  rewrite (H x) by (left; reflexivity). apply IH. intros y Hy. apply H. right. exact Hy.
Qed.

Lemma no_methods_for_country_names (country currency : string) :
  String.length country <> 2%nat ->
  DeliveryMethodHandler.getAvailableDeliveryMethods country currency = [].
Proof.
  intros Hlen. unfold DeliveryMethodHandler.getAvailableDeliveryMethods.
  apply filter_none. intros method Hin.
  assert (Hcodes : forallb (fun m => Nat.eqb (String.length
                                (DeliveryMethodHandler.dm_countryCode m)) 2)
                     DeliveryMethodHandler.deliveryMethods = true) by reflexivity.
  rewrite forallb_forall in Hcodes. specialize (Hcodes method Hin).
  apply Nat.eqb_eq in Hcodes.
  destruct (String.eqb_spec (DeliveryMethodHandler.dm_countryCode method) country)
    as [Heq | _]; [|reflexivity].
  exfalso. apply Hlen. rewrite <- Heq. exact Hcodes.
Qed.

(** X10.  For a quote whose destination country is not a two-letter code the
    delivery method handler has no method at all, so no delivery method of
    the recipient is ever selected; if SEP-6 is the protocol chosen,
    [executeRemittance] throws and makes no SEP-6 withdrawal call. *)
Theorem country_names_cannot_take_sep6
    (env : Env) (quote : RemittanceQuote) (senderAddress : string)
    (recipientDetails : RecipientDetails) (s : State) :
  String.length (toCountry quote) <> 2%nat ->
  selectedMethod quote recipientDetails = None /\
  (recommended env = sep6 ->
   threw (fst (executeRemittance env quote senderAddress recipientDetails s)) = true /\
   Forall no_sep6_withdrawal
     (skipn (length (calls s))
        (calls (snd (executeRemittance env quote senderAddress recipientDetails s))))).
Proof.
  intros Hlen.
  assert (Hsel : selectedMethod quote recipientDetails = None).
  { unfold selectedMethod. rewrite no_methods_for_country_names by exact Hlen.
    reflexivity. }
  split; [exact Hsel|]. intros Hrec. split.
  - apply pipeline_throws_then_call_throws, stages_sep6_without_method; assumption.
  - rewrite executeRemittance_unfold.
    destruct (prepared_tables env quote senderAddress recipientDetails s)
      as (_ & _ & _ & Hcalls & _).
    set (l := fresh (dom (heap s))) in *.
    set (s1 := prepared env quote senderAddress recipientDetails s) in *. cbv zeta.
    unfold pipeline, bind.
    assert (Hev : evolves no_sep6_withdrawal s1
                    (snd (stages env quote senderAddress recipientDetails l s1))).
    { apply steps_stages; try reflexivity. intros Hsome. contradiction. }
    pose proof (stages_sep6_without_method env quote senderAddress recipientDetails l s1
                  Hsel Hrec) as Hth.
    destruct (stages env quote senderAddress recipientDetails l s1) as [[w | e] s2];
      [discriminate Hth|]. simpl in Hev.
    pose proof (steps_on_failure no_sep6_withdrawal env l e s2) as Hev3.
    destruct (ev_calls _ _ _ Hev) as (made & Hmade & Hall).
    destruct (ev_calls _ _ _ Hev3) as (made3 & Hmade3 & Hall3).
    rewrite Hmade3, Hmade, Hcalls, <- app_assoc, skipn_app, skipn_all, Nat.sub_diag.
    simpl. apply Forall_app. split; assumption.
Qed.

Lemma country_names_cannot_take_sep6_witness :
  threw (fst (executeRemittance Samples.sep6_env Samples.gcash_quote "0xSender"
                Cases.gcash_details Samples.keyed_engine)) = true.
Proof.
  refine (proj1 (proj2
    (country_names_cannot_take_sep6 Samples.sep6_env Samples.gcash_quote "0xSender"
       Cases.gcash_details Samples.keyed_engine _) _)).
  - vm_compute. lia.
  - reflexivity.
Defined.

Lemma prepared_quiet env quote sender rd s :
  quiet s (prepared env quote sender rd s) /\
  metrics_orders (prepared env quote sender rd s) = metrics_orders s.
Proof.
  destruct (prepared_shape env quote sender rd s) as (o & _ & _ & ->).
  unfold save. simpl. rewrite lookup_insert_eq. repeat split.
Qed.

(** X11.  What one [executeRemittance] call for an order with no attempts
    recorded leaves in the error handler and the metrics.  When it returns,
    the order returned is the new one, timers, attempt counters and events
    are untouched and the order is the one entry added to the metrics.  When
    it throws, the metrics are untouched and the failure [raw] of the
    pipeline is handled once: if its kind is retryable, the order gets a
    timer for attempt 1 with a delay of 0 or 5000 ms and only the error
    report is emitted; otherwise no timer is set and the error report, the
    refund request and the user notification are emitted. *)
Theorem executeRemittance_bookkeeping
    (env : Env) (quote : RemittanceQuote) (senderAddress : string)
    (recipientDetails : RecipientDetails) (s : State) :
  retryAttempts s !! orderId env = None ->
  let id := orderId env in
  let l := fresh (dom (heap s)) in
  let s' := snd (executeRemittance env quote senderAddress recipientDetails s) in
  match fst (executeRemittance env quote senderAddress recipientDetails s) with
  | Ok order =>
      order = l /\ quiet s s' /\ metrics_orders s' = (metrics_orders s ++ [l])%list
  | Throw _ =>
      metrics_orders s' = metrics_orders s /\
      retryAttempts s' = retryAttempts s /\
      exists raw,
        fst (stages env quote senderAddress recipientDetails l
               (prepared env quote senderAddress recipientDetails s)) = Throw raw /\
        let d := classifyError raw in
        let policy := getRetryPolicy (de_type d) in
        if de_retryable d then
          retryQueues s' =
            <[id := {| timer_delay := retry_delay policy 0;
                       timer_attempt := 1;
                       timer_maxAttempts := maxAttempts policy |}]> (retryQueues s) /\
          In (retry_delay policy 0) [0; 5000]%Z /\
          emitted s' = (emitted s ++ [delivery_error id d])%list
        else
          retryQueues s' = retryQueues s /\
          emitted s' =
            (emitted s ++
               [delivery_error id d;
                refund_required id (de_message d) (de_type d);
                user_notification id "delivery_failed"
                  (default "Your transaction could not be completed. A refund will be processed."
                     (Js.or_else (de_userAction d) None))
                  "error"])%list
  end.
Proof.
  intros Hnone id l s'. subst id s'.
  rewrite executeRemittance_unfold. fold l.
  destruct (prepared_quiet env quote senderAddress recipientDetails s)
    as ((Hq1 & Ha1 & He1) & Hm1).
  set (s1 := prepared env quote senderAddress recipientDetails s) in *. cbv zeta.
  unfold pipeline, bind.
  destruct (quiet_stages env quote senderAddress recipientDetails l s1) as (Hq2 & Ha2 & He2).
  pose proof (metrics_stages env quote senderAddress recipientDetails l s1) as Hm2.
  destruct (stages env quote senderAddress recipientDetails l s1) as [[w | raw] s2];
    cbn [fst snd] in *.
  - destruct (quiet_complete env l w s2) as (Hq3 & Ha3 & He3).
    unfold complete, bind, modify in *. cbn [fst snd] in *.
    split; [reflexivity|]. split; [repeat split; congruence|].
    simpl. rewrite metrics_updateStatus. simpl. congruence.
  - unfold on_failure, bind, modify, throw.
    pose proof (metrics_handleDeliveryError (orderId env) raw s2) as Hm3.
    assert (Hnone2 : retryAttempts s2 !! orderId env = None) by (rewrite Ha2, Ha1; exact Hnone).
    destruct (de_retryable (classifyError raw)) eqn:Hr.
    + destruct (first_failure_sets_timer (orderId env) raw s2 Hr Hnone2) as (Hq3 & Ha3 & He3).
      destruct (handleDeliveryError (orderId env) raw s2) as [d s3]. cbn [fst snd] in *.
      unfold set_heap. cbn [metrics_orders retryAttempts retryQueues emitted].
      split; [congruence|]. split; [congruence|]. exists raw. split; [reflexivity|].
      cbv zeta. rewrite Hr. split; [congruence|]. split; [|congruence].
      pose proof (retryable_has_attempts raw Hr) as H1.
      destruct (scheduled_delay (de_type (classifyError raw)) 0) as (_ & Hd); [lia|].
      revert Hd. clear. destruct (de_type (classifyError raw)); vm_compute; tauto.
    + destruct (handleDeliveryError_refund (orderId env) raw s2 Hr) as (Hq3 & Ha3 & He3).
      destruct (handleDeliveryError (orderId env) raw s2) as [d s3]. cbn [fst snd] in *.
      unfold set_heap. cbn [metrics_orders retryAttempts retryQueues emitted].
      split; [congruence|]. split; [congruence|]. exists raw. split; [reflexivity|].
      cbv zeta. rewrite Hr. split; congruence.
Qed.

Lemma executeRemittance_bookkeeping_witness :
  match fst (executeRemittance Samples.refusing_env Samples.gcash_quote "0xSender"
               Samples.teleport_details Samples.keyed_engine) with
  | Ok _ => True
  | Throw _ =>
      metrics_orders
        (snd (executeRemittance Samples.refusing_env Samples.gcash_quote "0xSender"
                Samples.teleport_details Samples.keyed_engine)) =
      metrics_orders Samples.keyed_engine
  end.
Proof.
  pose proof (executeRemittance_bookkeeping Samples.refusing_env Samples.gcash_quote
                "0xSender" Samples.teleport_details Samples.keyed_engine eq_refl) as H.
  cbv zeta in H.
  destruct (executeRemittance Samples.refusing_env Samples.gcash_quote "0xSender"
              Samples.teleport_details Samples.keyed_engine) as [[o | e] s'];
    cbn [fst snd] in *; [exact I | exact (proj1 H)].
Defined.

End EngineFacts.

Section RouteFacts.
Import OneInchAggregator StellarAnchorService WrappedStellarUSDC Routes.

Ltac refute_earlier Hprev :=
  match goal with
  | S : ?server ?j = _ |- _ =>
      let H := fresh in
      assert (H : retryable_failure (server j) = true) by (apply Hprev; lia);
      rewrite S in H; simpl in H;
      first [ discriminate H
            | match goal with
              | C : is_client_error _ = true |- _ => rewrite C in H; discriminate H
              end ]
  end.

Ltac earlier_failed :=
  let j := fresh "j" in let Hj := fresh "Hj" in
  intros j Hj; destruct j as [|[|[|j]]]; try lia;
  match goal with
  | S : ?server ?i = Throw ?e, C : is_client_error ?e = false
    |- retryable_failure (?server ?i) = true =>
      rewrite S; simpl; rewrite C; reflexivity
  | S : ?server ?i = Ok (Js.nothing _)
    |- retryable_failure (?server ?i) = true =>
      rewrite S; reflexivity
  end.

Ltac answered_at k :=
  exists k; eexists; split; [lia|]; split; [eassumption|]; split; [reflexivity|];
  earlier_failed.

Ltac first_answer :=
  let q := fresh "q" in intros q; split;
  [ let H := fresh "H" in intros H;
    first [ discriminate H
          | injection H as <-;
            first [ answered_at 0%nat | answered_at 1%nat | answered_at 2%nat ] ]
  | let k := fresh "k" in let d := fresh "d" in
    let Hk := fresh "Hk" in let Hs := fresh "Hs" in let Hprev := fresh "Hprev" in
    intros (k & d & Hk & Hs & -> & Hprev);
    destruct k as [|[|[|k]]]; try lia;
    first [ congruence | refute_earlier Hprev ] ].

Ltac third_try :=
  let x := fresh "x" in let Hprev := fresh "Hprev" in let Hx := fresh "Hx" in
  intros x Hprev Hx;
  first [ refute_earlier Hprev
        | discriminate Hx
        | injection Hx as <-; reflexivity ].

Ltac tries_over := split; [first_answer | split; third_try].

(** X12.  With well-formed token addresses the aggregator's [getQuote]
    returns a quote exactly when one of the first three requests is
    answered with a body and every request before it failed without a
    4xx response or was answered without a body; the quote is that first
    answer, normalised.  When the third request fails after two such
    failures, the error thrown is the third one mapped by
    [handleApiError], and when the third answer has no body it is the
    TypeError of reading that body, mapped likewise; the earlier errors
    are dropped. *)
Theorem getQuote_returns_the_first_answer
    (server : nat -> Result (Js.Nullable QuoteData)) (params : SwapParams) :
  isValidAddress (sp_fromToken params) = true ->
  isValidAddress (sp_toToken params) = true ->
  (forall q, fst (getQuote server params) = Ok q <->
     exists k d, (k < 3)%nat /\ server k = Ok (Js.value d) /\ q = normalize d /\
       forall j, (j < k)%nat -> retryable_failure (server j) = true) /\
  (forall e, (forall j, (j < 2)%nat -> retryable_failure (server j) = true) ->
     server 2%nat = Throw e ->
     fst (getQuote server params) = Throw (handleApiError e)) /\
  (forall v, (forall j, (j < 2)%nat -> retryable_failure (server j) = true) ->
     server 2%nat = Ok (Js.nothing v) ->
     fst (getQuote server params) = Throw (handleApiError (cannot_read v "dstAmount"))).
Proof.
  intros Hfrom Hto.
  unfold getQuote, getQuote_loop, retryCount.
  rewrite Hfrom, Hto. simpl.
  destruct (server 0%nat) as [[d0 | v0] | e0] eqn:S0; simpl;
    [| | destruct (is_client_error e0) eqn:C0; simpl];
    try solve [tries_over].
  all: destruct (server 1%nat) as [[d1 | v1] | e1] eqn:S1; simpl;
    [| | destruct (is_client_error e1) eqn:C1; simpl];
    try solve [tries_over].
  all: destruct (server 2%nat) as [[d2 | v2] | e2] eqn:S2; simpl;
    [| | destruct (is_client_error e2) eqn:C2; simpl].
  all: tries_over.
Qed.

Lemma getQuote_returns_the_first_answer_witness :
  fst (getQuote RouteCases.answers_second Samples.usdt_to_susdc) =
  Ok (normalize {| qd_dstAmount := Some "100000000";
                   qd_toAmount := None;
                   qd_protocols := None;
                   qd_gas := Some "210000";
                   qd_estimatedGas := None |}).
Proof.
  apply (proj1 (getQuote_returns_the_first_answer RouteCases.answers_second
                  Samples.usdt_to_susdc eq_refl eq_refl)).
  exists 1%nat. eexists. split; [lia|]. split; [reflexivity|]. split; [reflexivity|].
  intros [|j] Hj; [reflexivity | lia].
Defined.

Lemma chain_names_lower (chain : string) :
  In chain chain_names -> Js.toLowerCase chain = chain.
Proof.
  intros H. repeat (destruct H as [<- | H]; [reflexivity|]). destruct H.
Qed.

Lemma supported_chain_named (chain : string) (n : Z) :
  assoc chain supportedChains = Some n -> In chain chain_names /\ n <> 0%Z.
Proof.
  intros H. apply assoc_In in H.
  repeat (destruct H as [[= <- <-] | H]; [split; [simpl; tauto | lia]|]). destruct H.
Qed.

Lemma lower_ascii_idem (c : ascii) : Js.lower_ascii (Js.lower_ascii c) = Js.lower_ascii c.
Proof. destruct c as [[] [] [] [] [] [] [] []]; reflexivity. Qed.

Lemma toLowerCase_idem (s : string) : Js.toLowerCase (Js.toLowerCase s) = Js.toLowerCase s.
Proof.
  induction s as [|c s IH]; [reflexivity|]. simpl. rewrite lower_ascii_idem, IH. reflexivity.
Qed.

Lemma is_prototype_member_In (key : string) :
  Js.is_prototype_member key = true <-> In key Js.prototype_members.
Proof.
  unfold Js.is_prototype_member. rewrite existsb_exists. split.
  - intros (x & Hin & Heq). apply String.eqb_eq in Heq. subst x. exact Hin.
  - intros H. exists key. split; [exact H | apply String.eqb_refl].
Qed.

(** A name in lower case that is the name of an inherited member is
    [constructor] or [__proto__]. *)
Lemma lower_case_member (chain : string) :
  Js.is_prototype_member (Js.toLowerCase chain) = true ->
  In (Js.toLowerCase chain) Js.lower_case_members.
Proof.
  intros H. apply is_prototype_member_In in H.
  pose proof (toLowerCase_idem chain) as Hi. simpl in H.
  repeat (destruct H as [H | H];
          [rewrite <- H in Hi |- *;
           first [ vm_compute in Hi; discriminate Hi | simpl; tauto ]|]).
  destruct H.
Qed.

Lemma lower_case_members_lower (chain : string) :
  In chain Js.lower_case_members ->
  Js.toLowerCase chain = chain /\ Js.is_prototype_member chain = true /\
  ~ In chain chain_names.
Proof.
  intros H.
  repeat (destruct H as [<- | H];
          [split; [reflexivity|]; split; [reflexivity|];
           intros Hin; simpl in Hin; repeat (destruct Hin as [Hin | Hin]; [discriminate Hin|]);
           exact Hin|]).
  destruct H.
Qed.

(** No name that lower-cases to the name of a chain is the name of an
    inherited member. *)
Lemma chain_is_no_member (chain : string) :
  In (Js.toLowerCase chain) chain_names -> Js.is_prototype_member chain = false.
Proof.
  intros Hlow. destruct (Js.is_prototype_member chain) eqn:Hm; [|reflexivity].
  exfalso. apply is_prototype_member_In in Hm. simpl in Hm.
  repeat (destruct Hm as [<- | Hm];
          [vm_compute in Hlow;
           repeat (destruct Hlow as [Hlow | Hlow]; [discriminate Hlow|]); exact Hlow|]).
  destruct Hm.
Qed.

(** A member that lower-cases to [constructor] or [__proto__] is that
    name. *)
Lemma member_in_lower_case (chain : string) :
  Js.is_prototype_member chain = true ->
  In (Js.toLowerCase chain) Js.lower_case_members -> In chain Js.lower_case_members.
Proof.
  intros Hm Hlow. apply is_prototype_member_In in Hm. simpl in Hm.
  repeat (destruct Hm as [<- | Hm];
          [first [ simpl; tauto
                 | vm_compute in Hlow;
                   repeat (destruct Hlow as [Hlow | Hlow]; [discriminate Hlow|]);
                   destruct Hlow ]|]).
  destruct Hm.
Qed.

Lemma wrapped_own (chain : string) (wrapped : WrappedStellarToken) :
  getWrappedStellarUSDC chain = Some (Js.own wrapped) ->
  In (Js.toLowerCase chain, wrapped) WRAPPED_STELLAR_USDC /\
  In (Js.toLowerCase chain) chain_names.
Proof.
  unfold getWrappedStellarUSDC. intros H. apply property_own, assoc_In in H.
  split; [exact H|]. apply (in_map fst) in H. exact H.
Qed.

Lemma wrapped_inherited (chain name : string) :
  getWrappedStellarUSDC chain = Some (Js.inherited name) ->
  name = Js.toLowerCase chain /\ In (Js.toLowerCase chain) Js.lower_case_members.
Proof.
  unfold getWrappedStellarUSDC. intros H.
  apply property_inherited in H as (-> & Hm & _).
  split; [reflexivity | apply lower_case_member, Hm].
Qed.

Lemma wrapped_None (chain : string) :
  getWrappedStellarUSDC chain = None ->
  ~ In (Js.toLowerCase chain) chain_names /\
  ~ In (Js.toLowerCase chain) Js.lower_case_members.
Proof.
  unfold getWrappedStellarUSDC. intros H. apply property_None in H as (Hnone & Hm).
  split.
  - apply assoc_None_iff in Hnone. exact Hnone.
  - intros Hin. destruct (lower_case_members_lower _ Hin) as (_ & Hm' & _). congruence.
Qed.

(** X13.  A malformed source token address is not rejected up front:
    [getQuote] makes no request, yet waits 1000 ms and 2000 ms between its
    three tries of the same check, and then throws the address error wrapped
    as a network error; [findBestStablecoinRoute] on a supported chain
    reports it as 'No routes available' after the same waits. *)
Theorem malformed_token_address_is_retried
    (server : nat -> Result (Js.Nullable QuoteData)) (params : SwapParams) :
  isValidAddress (sp_fromToken params) = false ->
  getQuote server params =
    (Throw (newError "Network error: Invalid token address"),
     [delay 1000; delay 2000]) /\
  requests (snd (getQuote server params)) = [] /\
  (forall chain amount userAddress, In chain chain_names ->
     findBestStablecoinRoute server chain (sp_fromToken params) amount userAddress =
       (Throw (newError "No routes available"), [delay 1000; delay 2000])).
Proof.
  intros Hbad.
  pose proof (getQuote_malformed_address server params (or_introl Hbad)) as Hq.
  split; [exact Hq|]. split; [rewrite Hq; reflexivity|].
  intros chain amount userAddress Hin. unfold findBestStablecoinRoute.
  repeat (destruct Hin as [<- | Hin];
          [simpl; rewrite getQuote_malformed_address by (left; exact Hbad); reflexivity|]).
  destruct Hin.
Qed.

Lemma malformed_token_address_is_retried_witness :
  delays (snd (getQuote Samples.answers_100_usdc RouteCases.bad_token)) = [1000; 2000]%Z.
Proof.
  rewrite (proj1 (malformed_token_address_is_retried Samples.answers_100_usdc
                    RouteCases.bad_token eq_refl)).
  reflexivity.
Defined.

(** X14.  The outcomes of [findBestStablecoinRoute].  A route is
    returned only for one of the six chain names in lower case, and it is
    the aggregator's quote for the wrapped token of that chain.  On such
    a chain every failure of the aggregator is reported as 'No routes
    available'.  For the names [constructor] and [__proto__], which both
    tables inherit, no request is made and 'No routes available' is
    reported after waits of 1000 ms and 2000 ms.  For any other chain
    name nothing is requested or waited for: the error is 'Unsupported
    chain' when the name in lower case is one of the six or one of the
    two, and 'Wrapped Stellar USDC not available' otherwise. *)
Theorem findBestStablecoinRoute_outcomes
    (server : nat -> Result (Js.Nullable QuoteData))
    (fromChain fromToken amount userAddress : string) :
  let result := fst (findBestStablecoinRoute server fromChain fromToken amount userAddress) in
  let log := snd (findBestStablecoinRoute server fromChain fromToken amount userAddress) in
  match result with
  | Ok (chain, quote) =>
      chain = fromChain /\ In fromChain chain_names /\
      exists wrapped chainId,
        getWrappedStellarUSDC fromChain = Some (Js.own wrapped) /\
        assoc fromChain supportedChains = Some chainId /\
        getQuote server {| sp_fromChain := Js.own chainId;
                           sp_fromToken := fromToken;
                           sp_toToken := address wrapped;
                           sp_amount := amount;
                           sp_fromAddress := userAddress;
                           sp_slippage := 1 |} = (Ok quote, log)
  | Throw e =>
      if bool_decide (In fromChain chain_names) then
        e = newError "No routes available"
      else if bool_decide (In fromChain Js.lower_case_members) then
        e = newError "No routes available" /\
        log = [delay 1000; delay 2000]
      else
        log = [] /\
        e = newError
              ((if bool_decide (In (Js.toLowerCase fromChain) chain_names \/
                                In (Js.toLowerCase fromChain) Js.lower_case_members)
                then "Unsupported chain: "
                else "Wrapped Stellar USDC not available on ") +:+ fromChain)
  end.
Proof.
  intros result log. subst result log. unfold findBestStablecoinRoute.
  destruct (getWrappedStellarUSDC fromChain) as [[w | name]|] eqn:Hw.
  - destruct (wrapped_own _ _ Hw) as (_ & Hlow).
    pose proof (chain_is_no_member _ Hlow) as Hplain.
    rewrite (property_plain _ _ Hplain).
    destruct (assoc fromChain supportedChains) as [chainId|] eqn:Hid; cbn [fmap option_fmap option_map].
    + destruct (supported_chain_named _ _ Hid) as (Hname & Hnz).
      destruct (Z.eqb_spec chainId 0) as [-> | _]; [contradiction|].
      cbn [address_of].
      destruct (getQuote server _) as [[q | e] log] eqn:Hq; simpl.
      * split; [reflexivity|]. split; [exact Hname|]. eauto.
      * case_bool_decide; [reflexivity | contradiction].
    + simpl. apply assoc_None_iff in Hid.
      case_bool_decide; [contradiction|].
      case_bool_decide as Hmember.
      { destruct (lower_case_members_lower _ Hmember) as (_ & Hm & _). congruence. }
      split; [reflexivity|].
      case_bool_decide as Hknown; [reflexivity|].
      exfalso. apply Hknown. left. exact Hlow.
  - destruct (wrapped_inherited _ _ Hw) as (-> & Hlow).
    destruct (property fromChain supportedChains) as [[chainId | name]|] eqn:Hid.
    + apply property_own in Hid. destruct (supported_chain_named _ _ Hid) as (Hname & _).
      rewrite (chain_names_lower _ Hname) in Hlow.
      destruct (lower_case_members_lower _ Hlow) as (_ & _ & Hnot). contradiction.
    + apply property_inherited in Hid as (-> & Hm & _).
      pose proof (member_in_lower_case _ Hm Hlow) as Hmember.
      destruct (lower_case_members_lower _ Hmember) as (_ & _ & Hnot).
      rewrite getQuote_malformed_address by (right; reflexivity). simpl.
      case_bool_decide; [contradiction|].
      case_bool_decide; [split; reflexivity | contradiction].
    + apply property_None in Hid as (Hnone & Hm). apply assoc_None_iff in Hnone. simpl.
      case_bool_decide; [contradiction|].
      case_bool_decide as Hmember.
      { destruct (lower_case_members_lower _ Hmember) as (_ & Hm' & _). congruence. }
      split; [reflexivity|].
      case_bool_decide as Hknown; [reflexivity|].
      exfalso. apply Hknown. right. exact Hlow.
  - destruct (wrapped_None _ Hw) as (Hlow & Hlow'). simpl.
    case_bool_decide as Hname.
    { rewrite <- (chain_names_lower _ Hname) in Hname. contradiction. }
    case_bool_decide as Hmember.
    { destruct (lower_case_members_lower _ Hmember) as (Heq & _).
      rewrite <- Heq in Hmember. contradiction. }
    split; [reflexivity|].
    case_bool_decide as Hknown; [|reflexivity].
    destruct Hknown as [H | H]; [destruct (Hlow H) | destruct (Hlow' H)].
Qed.

(** X15.  A chain name that has a wrapped token but is not written in
    lower case is not a key of the chain id tables: the engine's
    [getChainId] falls back to 1 for it, so the engine asks the
    aggregator for a quote on chain 1 with the wrapped token of the named
    chain, whose own id differs from 1 unless the chain is Ethereum, while
    [findBestStablecoinRoute] refuses the same name as unsupported without
    any request. *)
Theorem mixed_case_chains_are_quoted_on_chain_one
    (chain : string) (wrapped : WrappedStellarToken) :
  getWrappedStellarUSDC chain = Some (Js.own wrapped) ->
  chain <> Js.toLowerCase chain ->
  RemittanceEngine.getChainId chain = Js.own 1%Z /\
  (exists n, assoc (Js.toLowerCase chain) supportedChains = Some n /\
     (Js.toLowerCase chain <> "ethereum" -> n <> 1%Z)) /\
  (forall server fromToken amount userAddress,
     findBestStablecoinRoute server chain fromToken amount userAddress =
       (Throw (newError ("Unsupported chain: " +:+ chain)), [])) /\
  (forall getBigInt Number_toString server params payout e,
     RemittanceEngine.qp_fromChain params = chain ->
     getAnchorForCorridor "US" (RemittanceEngine.qp_toCountry params)
       (RemittanceEngine.qp_toCurrency params) = Some payout ->
     sp_fromChain (quote_request params (Js.own wrapped)) = Js.own 1%Z /\
     sp_toToken (quote_request params (Js.own wrapped)) = address wrapped /\
     (fst (getQuote server (quote_request params (Js.own wrapped))) = Throw e ->
      RemittanceEngine.getQuote getBigInt Number_toString server params = Throw e)).
Proof.
  intros Hw Hne.
  destruct (wrapped_own _ _ Hw) as (_ & Hlow).
  pose proof (chain_is_no_member _ Hlow) as Hplain.
  assert (Hnot : ~ In chain chain_names).
  { intros Hin. apply Hne. symmetry. apply chain_names_lower, Hin. }
  assert (Hnone : assoc chain supportedChains = None) by (apply assoc_None_iff; exact Hnot).
  assert (Hid : RemittanceEngine.getChainId chain = Js.own 1%Z).
  { unfold RemittanceEngine.getChainId. rewrite (property_plain _ _ Hplain).
    change RemittanceEngine.chainIds with supportedChains. rewrite Hnone. reflexivity. }
  split; [exact Hid|]. split; [|split].
  - simpl in Hlow.
    repeat (destruct Hlow as [<- | Hlow];
            [eexists; split; [reflexivity | first [lia | congruence]]|]).
    destruct Hlow.
  - intros server fromToken amount userAddress.
    unfold findBestStablecoinRoute.
    rewrite Hw, (property_plain _ _ Hplain), Hnone. reflexivity.
  - intros getBigInt Number_toString server params payout e <- Hpay.
    split; [unfold quote_request; simpl; rewrite Hid; reflexivity|].
    split; [reflexivity|].
    intros He. unfold RemittanceEngine.getQuote. rewrite Hpay, Hw.
    unfold quote_request in He. rewrite He. reflexivity.
Qed.

Lemma mixed_case_chains_are_quoted_on_chain_one_witness :
  RemittanceEngine.getChainId "Polygon" = Js.own 1%Z /\
  getWrappedStellarUSDC "Polygon"
    = Some (Js.own (token "0x2791Bca1f2de4661ED88A30C99A7a9449Aa84174" 6)).
Proof.
  split; [|reflexivity].
  refine (proj1 (mixed_case_chains_are_quoted_on_chain_one "Polygon" _ eq_refl _)).
  discriminate.
Defined.

(** X16.  [isWrappedStellarUSDC] ignores case in both arguments.  For a
    chain whose name in lower case is one of the table's it accepts the
    address [getWrappedStellarUSDC] returns for the chain, and accepts an
    address only if it equals, case aside, the address registered for
    that name.  For a chain whose name in lower case is [constructor] or
    [__proto__], and for no other, it throws the TypeError of reading
    [toLowerCase] of [undefined]. *)
Theorem isWrappedStellarUSDC_ignores_case (chain tokenAddress : string) :
  isWrappedStellarUSDC chain tokenAddress =
    isWrappedStellarUSDC (Js.toLowerCase chain) (Js.toLowerCase tokenAddress) /\
  (forall wrapped, getWrappedStellarUSDC chain = Some (Js.own wrapped) ->
     isWrappedStellarUSDC chain (address wrapped) = Ok true) /\
  (isWrappedStellarUSDC chain tokenAddress = Ok true ->
   exists wrapped, In (Js.toLowerCase chain, wrapped) WRAPPED_STELLAR_USDC /\
     Js.toLowerCase tokenAddress = Js.toLowerCase (address wrapped)) /\
  (In (Js.toLowerCase chain) Js.lower_case_members <->
   isWrappedStellarUSDC chain tokenAddress =
     Throw (cannot_read Js.js_undefined "toLowerCase")) /\
  (forall e, isWrappedStellarUSDC chain tokenAddress = Throw e ->
     e = cannot_read Js.js_undefined "toLowerCase").
Proof.
  split; [|split; [|split; [|split]]].
  - unfold isWrappedStellarUSDC, getWrappedStellarUSDC.
    rewrite !toLowerCase_idem. reflexivity.
  - intros wrapped Hw. unfold isWrappedStellarUSDC. rewrite Hw.
    rewrite String.eqb_refl. reflexivity.
  - unfold isWrappedStellarUSDC.
    destruct (getWrappedStellarUSDC chain) as [[w | name]|] eqn:Hw; try discriminate.
    intros [= H]. apply String.eqb_eq in H. exists w. split; [|congruence].
    apply (wrapped_own _ _ Hw).
  - unfold isWrappedStellarUSDC.
    destruct (getWrappedStellarUSDC chain) as [[w | name]|] eqn:Hw.
    + split; [|discriminate]. intros Hin.
      destruct (lower_case_members_lower _ Hin) as (_ & _ & Hnot).
      destruct (Hnot (proj2 (wrapped_own _ _ Hw))).
    + split; [reflexivity|]. intros _. apply (wrapped_inherited _ _ Hw).
    + split; [|discriminate]. intros Hin. destruct (proj2 (wrapped_None _ Hw) Hin).
  - intros e. unfold isWrappedStellarUSDC.
    destruct (getWrappedStellarUSDC chain) as [[w | name]|]; try discriminate.
    intros [= <-]. reflexivity.
Qed.

Lemma isWrappedStellarUSDC_constructor_scenario :
  isWrappedStellarUSDC "Constructor" "0xA0b86991c6218b36c1d19D4a2e9Eb0cE3606eB48" =
    Throw (cannot_read Js.js_undefined "toLowerCase") /\
  isWrappedStellarUSDC "Ethereum" "0xa0b86991c6218b36c1d19d4a2e9eb0ce3606eb48" = Ok true /\
  isWrappedStellarUSDC "solana" "0xA0b86991c6218b36c1d19D4a2e9Eb0cE3606eB48" = Ok false.
Proof. repeat split. Qed.

End RouteFacts.

Section CorridorFacts.
Import StellarAnchorService WrappedStellarUSDC RemittanceEngine.

Lemma registered_anchor (code : string) (a : Anchor) :
  getAnchorInfo code = Some a -> In a anchorList /\ anchor_code a = code.
Proof.
  intros H. apply assoc_In in H. unfold anchors in H. apply in_map_iff in H.
  destruct H as (a' & [= <- <-] & Hin). auto.
Qed.

Lemma getAnchorForCorridor_registered (fromCountry toCountry currency : string) (a : Anchor) :
  getAnchorForCorridor fromCountry toCountry currency = Some a -> In a anchorList.
Proof.
  unfold getAnchorForCorridor.
  assert (Hfind : find (supports currency) (map snd anchors) = Some a -> In a anchorList).
  { intros H. apply find_some in H. exact (proj1 H). }
  destruct (assoc (fromCountry +:+ "-" +:+ toCountry) corridorMap) as [code|];
    [|exact Hfind].
  destruct (negb (String.eqb code "")); [|exact Hfind].
  intros H. exact (proj1 (registered_anchor _ _ H)).
Qed.

(** X17.  When the corridor table has an entry for the pair of countries,
    [getAnchorForCorridor] returns the registered anchor of that entry for
    every currency: the currency is not consulted, so the anchor returned
    may not support it. *)
Theorem corridor_hit_ignores_the_currency (fromCountry toCountry code : string) :
  assoc (fromCountry +:+ "-" +:+ toCountry) corridorMap = Some code ->
  exists a, getAnchorInfo code = Some a /\ In a anchorList /\ anchor_code a = code /\
    forall currency, getAnchorForCorridor fromCountry toCountry currency = Some a.
Proof.
  intros Hkey.
  assert (Hcode : is_Some (getAnchorInfo code) /\ negb (String.eqb code "") = true).
  { apply assoc_In, (in_map snd) in Hkey. simpl in Hkey.
    repeat (destruct Hkey as [<- | Hkey]; [split; [eexists|]; reflexivity|]).
    destruct Hkey. }
  destruct Hcode as ([a Ha] & Hne). exists a.
  destruct (registered_anchor code a Ha) as (Hin & Hc).
  repeat split; try assumption.
  intros currency. unfold getAnchorForCorridor. rewrite Hkey, Hne. exact Ha.
Qed.

Lemma corridor_hit_ignores_the_currency_witness :
  exists a, getAnchorForCorridor "US" "PH" "NGN" = Some a /\
            anchor_code a = "CLICK_PHP" /\ supports "NGN" a = false.
Proof.
  destruct (corridor_hit_ignores_the_currency "US" "PH" "CLICK_PHP" eq_refl)
    as (a & Hinfo & _ & Hcode & Hall).
  exists a. split; [apply Hall|]. split; [exact Hcode|].
  injection Hinfo as <-. reflexivity.
Defined.

Lemma exchange_rate_listed (fromCurrency toCurrency : string) (anchorCode : option string) :
  In (getExchangeRate fromCurrency toCurrency anchorCode)
     [56.50; 1520.00; 850.00; 0.92; 61.41; 1652.17; 1.0]%float.
Proof.
  unfold getExchangeRate.
  destruct (assoc (fromCurrency +:+ "-" +:+ toCurrency) rates) as [r|] eqn:Hr;
    [|simpl; tauto].
  apply assoc_In in Hr. simpl in Hr.
  repeat (destruct Hr as [[= _ <-] | Hr]; [simpl; tauto|]). destruct Hr.
Qed.

(** X18.  [getExchangeRate] does not depend on the anchor code it is given;
    its value is one of the six static rates or 1.0, hence positive, and it
    is 1.0 for every currency pair that is not a key of the rate table. *)
Theorem getExchangeRate_values (fromCurrency toCurrency : string) (anchorCode : option string) :
  let rate := getExchangeRate fromCurrency toCurrency anchorCode in
  rate = getExchangeRate fromCurrency toCurrency None /\
  In rate [56.50; 1520.00; 850.00; 0.92; 61.41; 1652.17; 1.0]%float /\
  PrimFloat.ltb 0%float rate = true /\
  (~ In (fromCurrency +:+ "-" +:+ toCurrency) (map fst rates) -> rate = 1.0%float).
Proof.
  intros rate. subst rate.
  split; [reflexivity|]. split; [apply exchange_rate_listed|]. split.
  - pose proof (exchange_rate_listed fromCurrency toCurrency anchorCode) as H.
    simpl in H.
    repeat (destruct H as [<- | H]; [reflexivity|]). destruct H.
  - intros Hnot. apply assoc_None_iff in Hnot. unfold getExchangeRate.
    rewrite Hnot. reflexivity.
Qed.

Lemma listed_anchor_registered (a : Anchor) :
  In a anchorList -> getAnchorInfo (anchor_code a) = Some a.
Proof.
  intros H. simpl in H.
  repeat (destruct H as [<- | H]; [reflexivity|]). destruct H.
Qed.

(** For a registered anchor, a method named after an inherited member
    is no key of the anchor's delivery times, and gets that member. *)
Lemma delivery_time_of_a_member (anchorCode method : string) :
  is_Some (getAnchorInfo anchorCode) -> Js.is_prototype_member method = true ->
  estimateDeliveryTime anchorCode method = Js.inherited method.
Proof.
  intros [a Ha] Hm. destruct (registered_anchor _ _ Ha) as (Hin & <-).
  apply is_prototype_member_In in Hm. simpl in Hin, Hm.
  repeat (destruct Hin as [<- | Hin];
          [repeat (destruct Hm as [<- | Hm]; [reflexivity|]); destruct Hm|]).
  destruct Hin.
Qed.

(** X19.  [estimateDeliveryTime] gives a number of minutes between 1 and
    2880 for every method that is not named after a member that objects
    inherit, and for a registered anchor and a method so named
    ('constructor', 'toString', '__proto__', ...) it gives that member,
    which is no number.  It is the default of 60 minutes for an anchor
    that is not registered and for a method that no anchor lists and no
    object inherits; so it is 60 for SETTLE_EUR with the engine's default
    method 'bank_transfer'. *)
Theorem estimateDeliveryTime_bounds (anchorCode method : string) :
  match estimateDeliveryTime anchorCode method with
  | Js.own minutes => (1 <= minutes <= 2880)%Z
  | Js.inherited name =>
      name = method /\ Js.is_prototype_member method = true /\
      is_Some (getAnchorInfo anchorCode)
  end /\
  (Js.is_prototype_member method = false ->
   exists minutes, estimateDeliveryTime anchorCode method = Js.own minutes /\
     (1 <= minutes <= 2880)%Z) /\
  (is_Some (getAnchorInfo anchorCode) -> Js.is_prototype_member method = true ->
   estimateDeliveryTime anchorCode method = Js.inherited method) /\
  (getAnchorInfo anchorCode = None ->
   estimateDeliveryTime anchorCode method = Js.own 60%Z) /\
  (~ In method ["bank_transfer"; "mobile_wallet"; "gcash"; "paymaya"; "mobile_money";
                "sepa"; "wire"] ->
   Js.is_prototype_member method = false ->
   estimateDeliveryTime anchorCode method = Js.own 60%Z) /\
  estimateDeliveryTime "SETTLE_EUR" "bank_transfer" = Js.own 60%Z /\
  estimateDeliveryTime "CLICK_PHP" "constructor" = Js.inherited "constructor".
Proof.
  split; [apply delivery_time_range|].
  split; [apply delivery_time_of_a_plain_method|].
  split; [apply delivery_time_of_a_member|].
  split; [|split; [|split; reflexivity]].
  - unfold estimateDeliveryTime, getAnchorInfo. intros ->. reflexivity.
  - intros Hnot Hplain. unfold estimateDeliveryTime.
    destruct (assoc anchorCode anchors) as [a|] eqn:Ha; [|reflexivity].
    destruct (assoc anchorCode deliveryTimes) as [times|] eqn:Ht; [|reflexivity].
    rewrite (property_plain _ _ Hplain).
    destruct (assoc method times) as [t|] eqn:Hm; [|reflexivity].
    pose proof (assoc_In _ _ _ Hm) as Hin.
    exfalso. apply Hnot.
    apply assoc_In in Ht. simpl in Ht.
    repeat (destruct Ht as [[= _ <-] | Ht];
            [simpl in Hin; repeat (destruct Hin as [[= <- _] | Hin]; [simpl; tauto|]);
             destruct Hin|]).
    destruct Ht.
Qed.

Example estimateDeliveryTime_examples :
  estimateDeliveryTime "CLICK_PHP" "gcash" = Js.own 1%Z /\
  estimateDeliveryTime "SETTLE_EUR" "wire" = Js.own 2880%Z /\
  estimateDeliveryTime "COWRIE_NGN" "toString" = Js.inherited "toString" /\
  estimateDeliveryTime "VIBRANT_USD" "__proto__" = Js.inherited "__proto__" /\
  estimateDeliveryTime "NO_SUCH_ANCHOR" "constructor" = Js.own 60%Z.
Proof. repeat split. Qed.

(** X20.  A quote [getQuote] returns repeats the request's chain, token,
    amount, country and currency, and names what [executeRemittance] will
    look up again: the corridor has a registered anchor, which is the
    protocol of the third route step, the source chain has a wrapped token
    of the table, and the source token is a well-formed address.  Its
    exchange rate is one of the static rates or 1.0.  Its estimated time
    is a number between 4 and 2883 minutes when the delivery method asked
    for is not named after an inherited member, and otherwise the text
    made of 3 and of that member. *)
Theorem quote_names_what_execution_looks_up
    (getBigInt : string -> Result Z) (Number_toString : float -> string)
    (server : nat -> Result (Js.Nullable OneInchAggregator.QuoteData))
    (params : QuoteParams) (q : RemittanceQuote) :
  getQuote getBigInt Number_toString server params = Ok q ->
  (fromChain q, fromToken q, fromAmount q, toCountry q, toCurrency q) =
    (qp_fromChain params, qp_fromToken params, qp_fromAmount params,
     qp_toCountry params, qp_toCurrency params) /\
  (exists payout wrapped,
     getAnchorForCorridor "US" (toCountry q) (toCurrency q) = Some payout /\
     In payout anchorList /\
     getWrappedStellarUSDC (fromChain q) = Some (Js.own wrapped) /\
     map step_protocol (route q) = ["1inch"; "HTLC"; anchor_code payout] /\
     OneInchAggregator.isValidAddress (fromToken q) = true) /\
  In (exchangeRate q) [56.50; 1520.00; 850.00; 0.92; 61.41; 1652.17; 1.0]%float /\
  (if Js.is_prototype_member (QuoteSpec.requested_method params)
   then estimatedTime q =
          Js.text [Js.numeral 3; Js.member_text (QuoteSpec.requested_method params)]
   else exists minutes : Z,
          estimatedTime q = Js.number minutes /\ (4 <= minutes <= 2883)%Z).
Proof.
  intros H.
  destruct (getQuote_parts _ _ _ _ _ H)
    as (payout & token & oneInchQuote & units & Hpay & Htoken & Hq & _ & ->).
  cbn [fromChain fromToken fromAmount toCountry toCurrency route exchangeRate
       estimatedTime].
  pose proof (getAnchorForCorridor_registered _ _ _ _ Hpay) as Hlisted.
  split; [reflexivity|]. split; [|split].
  - exists payout, token. split; [exact Hpay|]. split; [exact Hlisted|].
    split; [exact Htoken|]. split; [reflexivity|].
    exact (proj1 (getQuote_answer_had_addresses _ _ _ Hq)).
  - rewrite <- (static_rate_of_USD _ (Some (anchor_code payout))).
    apply exchange_rate_listed.
  - unfold sum_time, build_route. cbn [fold_left step_estimatedTime].
    rewrite requested_method_default.
    destruct (Js.is_prototype_member (QuoteSpec.requested_method params)) eqn:Hm.
    + rewrite delivery_time_of_a_member;
        [reflexivity | rewrite (listed_anchor_registered _ Hlisted); eauto | exact Hm].
    + destruct (delivery_time_of_a_plain_method (anchor_code payout) _ Hm)
        as (t & -> & Ht).
      exists (3 + t)%Z. split; [reflexivity | lia].
Qed.

Lemma quote_names_what_execution_looks_up_witness :
  exists minutes : Z,
    estimatedTime Samples.gcash_quote = Js.number minutes /\ (4 <= minutes <= 2883)%Z.
Proof.
  destruct (quote_names_what_execution_looks_up Samples.decimal_getBigInt
              Samples.exponent_form Samples.answers_100_usdc Samples.gcash_request
              Samples.gcash_quote) as (_ & _ & _ & Htime).
  - vm_compute. reflexivity.
  - exact Htime.
Defined.

End CorridorFacts.

Section Sep6Facts.
Import StellarAnchorService DeliveryMethodHandler Sep6.

(** What a call leaves of the world it starts in: requests are only
    added, and tokens only change at [anchorCode] of instance [i]. *)
Lemma request_sent net r w :
  sent (snd (request net r w)) = (sent w ++ [r])%list /\
  engine_tokens (snd (request net r w)) = engine_tokens w /\
  integration_tokens (snd (request net r w)) = integration_tokens w /\
  delivery_tokens (snd (request net r w)) = delivery_tokens w.
Proof. repeat split. Qed.

Lemma authenticate_effect net i anchorCode account w :
  let w' := snd (authenticate net i anchorCode account w) in
  (exists new, sent w' = (sent w ++ new)%list /\ withdrawal_endpoints new = []) /\
  (forall j code, (j, code) <> (i, anchorCode) ->
     authTokens j w' !! code = authTokens j w !! code) /\
  match fst (authenticate net i anchorCode account w) with
  | Ok token => authTokens i w' !! anchorCode = Some token
  | Throw _ => engine_tokens w' = engine_tokens w /\
               integration_tokens w' = integration_tokens w /\
               delivery_tokens w' = delivery_tokens w
  end.
Proof.
  unfold authenticate.
  destruct (endpoint_of anchorCode) as [endpoint|].
  2:{ simpl. split; [exists []; rewrite app_nil_r; auto|]. auto. }
  unfold request.
  destruct (net (sent w) (GET_auth endpoint account)) as [[transaction | v] | e]; simpl.
  2,3: solve [split; [exists [GET_auth endpoint account]; split; reflexivity|]; auto].
  match goal with
  | |- context [net ?l ?r] => destruct (net l r) as [[token | v] | e]
  end; simpl.
  2,3: solve [split; [exists [GET_auth endpoint account; POST_auth endpoint transaction];
                      split; [rewrite <- app_assoc; reflexivity|reflexivity]|]; auto].
  split; [exists [GET_auth endpoint account; POST_auth endpoint transaction];
          split; [|reflexivity]|split].
  - destruct i; simpl; rewrite <- app_assoc; reflexivity.
  - intros j code Hne. destruct i, j; simpl; try reflexivity;
      apply lookup_insert_ne; congruence.
  - destruct i; simpl; apply lookup_insert_eq.
Qed.

Lemma withdraw_effect net i params w :
  let w' := snd (withdraw net i params w) in
  engine_tokens w' = engine_tokens w /\
  integration_tokens w' = integration_tokens w /\
  delivery_tokens w' = delivery_tokens w /\
  (sent w' = sent w /\ Ledger.threw (fst (withdraw net i params w)) = true \/
   exists endpoint token dest dest_extra,
     endpoint_of (wp_anchorCode params) = Some endpoint /\
     mjoin (authTokens i w !! wp_anchorCode params) = Some token /\
     token <> "" /\
     destination params = Ok (dest, dest_extra) /\
     sent w' =
       (sent w ++
        [POST_withdraw endpoint token
           {| req_asset_code := wp_asset_code params;
              req_amount := wp_amount params;
              req_type := wp_type params;
              req_account := wp_account params;
              req_dest := dest;
              req_dest_extra := dest_extra;
              req_memo := if_truthy (wp_memo params);
              req_lang := if_truthy (wp_lang params);
              req_on_change_callback := if_truthy (wp_on_change_callback params);
              req_country_code := if_truthy (wp_country_code params) |}])%list).
Proof.
  unfold withdraw.
  destruct (endpoint_of (wp_anchorCode params)) as [endpoint|];
    [|simpl; intuition auto].
  destruct (mjoin (authTokens i w !! wp_anchorCode params)) as [token|] eqn:Htok;
    [|simpl; intuition auto].
  simpl. destruct (String.eqb_spec token "") as [-> | Hne]; [simpl; intuition auto|]. simpl.
  destruct (destination params) as [[dest dest_extra] | e]; [|simpl; intuition auto].
  unfold request.
  match goal with
  | |- context [net ?l ?r] => destruct (net l r) as [[id | v] | e]
  end; simpl;
    (split; [reflexivity|]; split; [reflexivity|]; split; [reflexivity|]; right;
     exists endpoint, token, dest, dest_extra; auto).
Qed.

Lemma endpoint_of_code (anchorCode endpoint : string) :
  endpoint_of anchorCode = Some endpoint ->
  In (anchorCode, endpoint) anchorEndpoints.
Proof.
  unfold endpoint_of.
  destruct (assoc anchorCode anchorEndpoints) as [e|] eqn:He; [|discriminate].
  destruct (String.eqb e ""); [discriminate|]. intros [= <-]. apply assoc_In, He.
Qed.

Lemma withdrawal_endpoints_app (l1 l2 : list Http) :
  withdrawal_endpoints (l1 ++ l2) = (withdrawal_endpoints l1 ++ withdrawal_endpoints l2)%list.
Proof. apply omap_app. Qed.

Lemma withdrawals_app (l1 l2 : list Http) :
  withdrawals (l1 ++ l2) = (withdrawals l1 ++ withdrawals l2)%list.
Proof. apply omap_app. Qed.

(** No token of the integrations' service for Cowrie, and no
    withdrawal request to Cowrie so far. *)
Lemma cowrie_kept_by_authenticate net i anchorCode account w :
  (i, anchorCode) <> (of_integrations, "COWRIE_NGN") ->
  let w' := snd (authenticate net i anchorCode account w) in
  integration_tokens w' !! "COWRIE_NGN" = integration_tokens w !! "COWRIE_NGN" /\
  withdrawal_endpoints (sent w') = withdrawal_endpoints (sent w).
Proof.
  intros Hne w'. subst w'.
  destruct (authenticate_effect net i anchorCode account w) as ((new & Hs & Hn) & Ht & _).
  split.
  - apply (Ht of_integrations "COWRIE_NGN"). congruence.
  - rewrite Hs, withdrawal_endpoints_app, Hn, app_nil_r. reflexivity.
Qed.

Lemma cowrie_kept_by_withdraw net i params w :
  integration_tokens w !! "COWRIE_NGN" = None ->
  (i = of_engine -> wp_anchorCode params <> "COWRIE_NGN") ->
  i <> of_delivery ->
  let w' := snd (withdraw net i params w) in
  integration_tokens w' !! "COWRIE_NGN" = None /\
  forall endpoint, In endpoint (withdrawal_endpoints (sent w')) ->
    endpoint <> "https://api.cowrie.exchange" \/
    In endpoint (withdrawal_endpoints (sent w)).
Proof.
  intros Hnone Hcode Hown w'. subst w'.
  destruct (withdraw_effect net i params w)
    as (_ & Hi & _ & [Hs | (endpoint & token & dest & extra & He & Htok & _ & _ & Hs)]).
  - destruct Hs as [Hs _]. rewrite Hi, Hs. auto.
  - rewrite Hi, Hs, withdrawal_endpoints_app. split; [exact Hnone|].
    intros e Hin. apply in_app_or in Hin. destruct Hin as [Hin | [<- | []]]; [auto|].
    left. intros ->. apply endpoint_of_code in He. simpl in He.
    assert (Hc : wp_anchorCode params = "COWRIE_NGN").
    { destruct He as [He | [He | [He | [He | []]]]];
        first [discriminate He | injection He; intros; congruence]. }
    destruct i; [exact (Hcode eq_refl Hc) | | exact (Hown eq_refl)].
    simpl in Htok. rewrite Hc, Hnone in Htok. discriminate Htok.
Qed.

Lemma cowrie_without_token net params w :
  integration_tokens w !! "COWRIE_NGN" = None ->
  cowrieNigeriaIntegration net params w = (Throw (newError "Not authenticated"), w).
Proof.
  intros Hnone. unfold cowrieNigeriaIntegration.
  destruct (cowrie_destination params) as [dest extra].
  unfold withdraw. simpl. rewrite Hnone. reflexivity.
Qed.

Lemma cowrie_kept_by_click net params w :
  integration_tokens w !! "COWRIE_NGN" = None ->
  let w' := snd (clickPhilippinesIntegration net params w) in
  integration_tokens w' !! "COWRIE_NGN" = None /\
  forall endpoint, In endpoint (withdrawal_endpoints (sent w')) ->
    endpoint <> "https://api.cowrie.exchange" \/
    In endpoint (withdrawal_endpoints (sent w)).
Proof.
  intros Hnone w'. subst w'. unfold clickPhilippinesIntegration.
  destruct (cowrie_kept_by_authenticate net of_integrations "CLICK_PHP"
              (ip_stellarAccount params) w) as (Ht & Hs); [congruence|].
  destruct (authenticate net of_integrations "CLICK_PHP" (ip_stellarAccount params) w)
    as [[token | e] w1]; simpl in *.
  - destruct (click_destination params) as [dest extra].
    match goal with |- context [withdraw net of_integrations ?p w1] =>
      destruct (cowrie_kept_by_withdraw net of_integrations p w1) as (H1 & H2);
        [congruence | discriminate | discriminate |] end.
    split; [exact H1|]. intros e He. rewrite <- Hs. apply H2, He.
  - rewrite Ht, Hs. auto.
Qed.

Lemma cowrie_kept_by_withdrawal net anchorCode quote rd account w :
  integration_tokens w !! "COWRIE_NGN" = None ->
  let w' := snd (processSEP6Withdrawal net anchorCode quote rd account w) in
  integration_tokens w' !! "COWRIE_NGN" = None /\
  forall endpoint, In endpoint (withdrawal_endpoints (sent w')) ->
    endpoint <> "https://api.cowrie.exchange" \/
    In endpoint (withdrawal_endpoints (sent w)).
Proof.
  intros Hnone w'. subst w'. unfold processSEP6Withdrawal.
  destruct (Execution.selectedMethod quote rd); [|simpl; auto].
  destruct (String.eqb_spec anchorCode "CLICK_PHP") as [_ | Hclick];
    [apply cowrie_kept_by_click, Hnone|].
  destruct (String.eqb_spec anchorCode "COWRIE_NGN") as [_ | Hcowrie].
  { rewrite cowrie_without_token by exact Hnone. simpl. auto. }
  destruct (cowrie_kept_by_authenticate net of_engine anchorCode account w)
    as (Ht & Hs); [congruence|].
  destruct (authenticate net of_engine anchorCode account w) as [[token | e] w1];
    simpl in *.
  - destruct (buildSEP6Params rd) as [[bank gcash] mobile].
    match goal with |- context [withdraw net of_engine ?p w1] =>
      destruct (cowrie_kept_by_withdraw net of_engine p w1) as (H1 & H2);
        [congruence | intros _; exact Hcowrie | discriminate |] end.
    split; [exact H1|]. intros e He. rewrite <- Hs. apply H2, He.
  - rewrite Ht, Hs. auto.
Qed.

Lemma cowrie_never_reached net ops w :
  integration_tokens w !! "COWRIE_NGN" = None ->
  ~ In "https://api.cowrie.exchange" (withdrawal_endpoints (sent w)) ->
  integration_tokens (run_ops net ops w) !! "COWRIE_NGN" = None /\
  ~ In "https://api.cowrie.exchange" (withdrawal_endpoints (sent (run_ops net ops w))).
Proof.
  revert w. induction ops as [|op ops IH]; intros w Hnone Hlog; [auto|].
  unfold run_ops. simpl. apply IH.
  - destruct op; simpl.
    + apply cowrie_kept_by_click, Hnone.
    + rewrite cowrie_without_token by exact Hnone. exact Hnone.
    + apply cowrie_kept_by_withdrawal, Hnone.
  - intros Hin. apply Hlog.
    destruct op; simpl in Hin.
    + destruct (proj2 (cowrie_kept_by_click net params w Hnone) _ Hin); [congruence|auto].
    + rewrite cowrie_without_token in Hin by exact Hnone. exact Hin.
    + destruct (proj2 (cowrie_kept_by_withdrawal net anchorCode quote recipientDetails
                         stellarAccount w Hnone) _ Hin); [congruence|auto].
Qed.

(** X21.  The Cowrie integration never authenticates, and the service it
    uses is the integrations' own, which only the Click integration
    authenticates, for Click.  So on an engine that started fresh, after any
    series of integration calls and SEP-6 withdrawals and whatever the
    anchors answer, [cowrieNigeriaIntegration] throws 'Not authenticated'
    without making a request, so does the SEP-6 withdrawal step for
    COWRIE_NGN once a delivery method is selected, and no withdrawal request
    has ever been sent to Cowrie. *)
Theorem cowrie_withdrawals_are_never_authenticated
    (net : Network) (ops : list Op) (params : IntegrationParams) :
  let w := run_ops net ops fresh_world in
  cowrieNigeriaIntegration net params w = (Throw (newError "Not authenticated"), w) /\
  (forall quote recipientDetails stellarAccount,
     Execution.selectedMethod quote recipientDetails <> None ->
     processSEP6Withdrawal net "COWRIE_NGN" quote recipientDetails stellarAccount w =
       (Throw (newError "Not authenticated"), w)) /\
  ~ In "https://api.cowrie.exchange" (withdrawal_endpoints (sent w)).
Proof.
  intros w. subst w.
  destruct (cowrie_never_reached net ops fresh_world) as (Hnone & Hlog);
    [reflexivity | simpl; tauto |].
  split; [apply cowrie_without_token, Hnone|]. split; [|exact Hlog].
  intros quote rd account Hsel. unfold processSEP6Withdrawal.
  destruct (Execution.selectedMethod quote rd); [|contradiction]. simpl.
  apply cowrie_without_token, Hnone.
Qed.

Lemma no_withdrawal_sent (log : list Http) :
  withdrawal_endpoints log = [] -> withdrawals log = [].
Proof.
  induction log as [|[| |] log IH]; simpl; first [reflexivity | exact IH | discriminate].
Qed.

(** X22.  [clickPhilippinesIntegration] never gets a GCash or PayMaya
    withdrawal through: it passes the recipient as [dest], but
    [SEP6Service.withdraw] reads the [gcash] / [paymaya] details object,
    which the integration does not set.  The call throws one of four fixed
    errors and sends no withdrawal request; when authentication yields a
    token the error is 'GCash details required' or 'PayMaya details
    required'. *)
Theorem click_wallet_withdrawals_always_fail
    (net : Network) (params : IntegrationParams) (w : World) :
  ip_deliveryMethod params = Some "gcash" \/ ip_deliveryMethod params = Some "paymaya" ->
  let result := fst (clickPhilippinesIntegration net params w) in
  let w' := snd (clickPhilippinesIntegration net params w) in
  withdrawals (sent w') = withdrawals (sent w) /\
  (exists message, result = Throw (newError message) /\
     In message ["Authentication failed"; "Not authenticated";
                 "GCash details required"; "PayMaya details required"]) /\
  (forall token,
     fst (authenticate net of_integrations "CLICK_PHP" (ip_stellarAccount params) w)
       = Ok (Some token) ->
     token <> "" ->
     result = Throw (newError (if Js.strictEq (ip_deliveryMethod params) "gcash"
                               then "GCash details required"
                               else "PayMaya details required"))).
Proof.
  intros Hm result w'. subst result w'. unfold clickPhilippinesIntegration.
  destruct (authenticate_effect net of_integrations "CLICK_PHP"
              (ip_stellarAccount params) w) as ((new & Hs & Hn) & _ & Hres).
  pose proof (no_withdrawal_sent new Hn) as Hw.
  destruct (authenticate net of_integrations "CLICK_PHP" (ip_stellarAccount params) w)
    as [[token | e] w1] eqn:Hauth; cbn [fst snd] in *.
  - destruct (click_destination params) as [dest extra].
    unfold withdraw. cbn [wp_anchorCode wp_type].
    change (endpoint_of "CLICK_PHP") with (Some "https://api.clickpeso.com").
    cbn [authTokens] in Hres |- *. rewrite Hres.
    change (mjoin (Some token)) with token.
    assert (Hdest : forall p, wp_type p = ip_deliveryMethod params ->
              wp_gcash p = None -> wp_paymaya p = None ->
              destination p =
                Throw (newError (if Js.strictEq (ip_deliveryMethod params) "gcash"
                                 then "GCash details required"
                                 else "PayMaya details required"))).
    { intros p Ht Hg Hp. unfold destination. rewrite Ht, Hg, Hp.
      destruct Hm as [-> | ->]; reflexivity. }
    destruct (Js.truthy token) eqn:Htr; simpl.
    + rewrite Hdest by reflexivity. simpl.
      split; [rewrite Hs, withdrawals_app, Hw, app_nil_r; reflexivity|]. split.
      * eexists. split; [reflexivity|]. destruct Hm as [-> | ->]; simpl; tauto.
      * intros tok _ _. reflexivity.
    + split; [rewrite Hs, withdrawals_app, Hw, app_nil_r; reflexivity|]. split.
      * eexists. split; [reflexivity|]. simpl. tauto.
      * intros tok [= ->] Hne. simpl in Htr.
        destruct (String.eqb_spec tok ""); [contradiction | discriminate Htr].
  - split; [rewrite Hs, withdrawals_app, Hw, app_nil_r; reflexivity|]. split.
    + unfold authenticate in Hauth.
      change (endpoint_of "CLICK_PHP") with (Some "https://api.clickpeso.com") in Hauth.
      unfold request in Hauth.
      destruct (net _ _) as [[transaction | v] | e'] in Hauth;
        [destruct (net _ _) as [[token | v] | e'] in Hauth | |];
        first [ discriminate Hauth
              | injection Hauth as <- _; eexists; (split; [reflexivity | simpl; tauto]) ].
    + intros tok H. discriminate H.
Qed.

Lemma click_wallet_withdrawals_always_fail_witness :
  fst (clickPhilippinesIntegration Sep6Cases.obliging Sep6Cases.to_juan fresh_world) =
  Throw (newError "GCash details required").
Proof.
  refine (proj2 (proj2
    (click_wallet_withdrawals_always_fail Sep6Cases.obliging Sep6Cases.to_juan
       fresh_world (or_introl eq_refl))) "eyJhbGciOi.token" _ _).
  - reflexivity.
  - discriminate.
Defined.

Lemma destination_without_details (params : WithdrawParams) dest dest_extra :
  wp_bank_account params = None -> wp_mobile_money params = None ->
  wp_gcash params = None -> wp_paymaya params = None ->
  destination params = Ok (dest, dest_extra) -> dest = None /\ dest_extra = None.
Proof.
  unfold destination. intros -> -> -> ->.
  repeat match goal with |- context [if ?c then _ else _] => destruct c end;
    intros [= <- <-] || discriminate; auto.
Qed.

Lemma withdraw_sends net i params w :
  (forall dest dest_extra, destination params = Ok (dest, dest_extra) ->
     dest = None /\ dest_extra = None) ->
  exists new, sent (snd (withdraw net i params w)) = (sent w ++ new)%list /\
    Forall (fun data => req_dest data = None /\ req_dest_extra data = None)
      (withdrawals new).
Proof.
  intros Hdest.
  destruct (withdraw_effect net i params w)
    as (_ & _ & _ & [Hs | (endpoint & token & dest & extra & _ & _ & _ & Hd & Hs)]).
  - exists []. rewrite app_nil_r. split; [exact (proj1 Hs) | constructor].
  - eexists. split; [exact Hs|]. simpl. constructor; [|constructor].
    simpl. exact (Hdest _ _ Hd).
Qed.

Lemma after_authenticate net i anchorCode account w
    (k : World -> Result (Js.Nullable Execution.WithdrawResult) * World) :
  (forall w1, exists new, sent (snd (k w1)) = (sent w1 ++ new)%list /\
     Forall (fun data => req_dest data = None /\ req_dest_extra data = None)
       (withdrawals new)) ->
  exists new,
    sent (snd (match authenticate net i anchorCode account w with
               | (Throw e, w1) => (Throw e, w1)
               | (Ok _, w1) => k w1
               end)) = (sent w ++ new)%list /\
    Forall (fun data => req_dest data = None /\ req_dest_extra data = None)
      (withdrawals new).
Proof.
  intros Hk.
  destruct (authenticate_effect net i anchorCode account w) as ((new & Hs & Hn) & _).
  pose proof (no_withdrawal_sent new Hn) as Hw.
  destruct (authenticate net i anchorCode account w) as [[token | e] w1]; simpl in *.
  - destruct (Hk w1) as (new' & Hs' & Hall). exists (new ++ new')%list.
    rewrite Hs', Hs, app_assoc, withdrawals_app, Hw. auto.
  - exists new. rewrite Hw. split; [exact Hs | constructor].
Qed.

Lemma selected_method quote rd m :
  Execution.selectedMethod quote rd = Some m ->
  In m deliveryMethods /\ dm_countryCode m = toCountry quote /\
  dm_currency m = toCurrency quote /\ rd_deliveryMethod rd = Some (dm_type m).
Proof.
  unfold Execution.selectedMethod, getAvailableDeliveryMethods. intros H.
  apply find_some in H. destruct H as (Hin & Heq).
  apply filter_In in Hin. destruct Hin as (Hin & Hc).
  apply andb_true_iff in Hc. destruct Hc as (Hc1 & Hc2).
  apply String.eqb_eq in Hc1, Hc2.
  unfold Js.strictEq in Heq. destruct (rd_deliveryMethod rd) as [d|]; [|discriminate].
  apply String.eqb_eq in Heq. subst d. auto.
Qed.

(** X23.  No SEP-6 withdrawal request that the engine's withdrawal step
    sends for the anchor of the quote's corridor names a destination: [dest]
    and [dest_extra] are absent from every one of them, whatever the
    recipient details, the state of the services and the answers of the
    anchors. *)
Theorem sep6_withdrawals_name_no_destination
    (net : Network) (quote : RemittanceQuote) (recipientDetails : RecipientDetails)
    (stellarAccount : string) (payout : Anchor) (w : World) :
  getAnchorForCorridor "US" (toCountry quote) (toCurrency quote) = Some payout ->
  let w' := snd (processSEP6Withdrawal net (anchor_code payout) quote recipientDetails
                   stellarAccount w) in
  exists new, sent w' = (sent w ++ new)%list /\
    Forall (fun data => req_dest data = None /\ req_dest_extra data = None)
      (withdrawals new).
Proof.
  intros Hpay w'. subst w'. unfold processSEP6Withdrawal.
  destruct (Execution.selectedMethod quote recipientDetails) as [m|] eqn:Hsel.
  2:{ exists []. rewrite app_nil_r. split; [reflexivity | constructor]. }
  destruct (selected_method _ _ _ Hsel) as (Hin & Hc & Hcur & Hty).
  destruct (String.eqb_spec (anchor_code payout) "CLICK_PHP") as [_ | Hclick].
  { unfold clickPhilippinesIntegration. apply after_authenticate. intros w1.
    destruct (click_destination _) as [dest extra].
    apply withdraw_sends. intros d x. apply destination_without_details; reflexivity. }
  destruct (String.eqb_spec (anchor_code payout) "COWRIE_NGN") as [_ | Hcowrie].
  { unfold cowrieNigeriaIntegration. destruct (cowrie_destination _) as [dest extra].
    apply withdraw_sends. intros d x. apply destination_without_details; reflexivity. }
  apply after_authenticate. intros w1.
  rewrite <- Hc, <- Hcur in Hpay. unfold buildSEP6Params. rewrite Hty.
  simpl in Hin.
  repeat (destruct Hin as [<- | Hin];
          [ first [ exfalso; cbv in Hpay; injection Hpay as <-;
                    first [apply Hclick; reflexivity | apply Hcowrie; reflexivity]
                  | simpl; apply withdraw_sends; intros d x; cbv; intros [= <- <-]; auto ]
          |]).
  destruct Hin.
Qed.

Lemma sep6_withdrawals_name_no_destination_witness :
  withdrawals
    (sent (snd (processSEP6Withdrawal Sep6Cases.obliging "CLICK_PHP" Sep6Cases.ph_quote
                  Sep6Cases.ada_bank "GRESOLVERPUBLICKEY" fresh_world))) <> [] /\
  Forall (fun data => req_dest data = None /\ req_dest_extra data = None)
    (withdrawals
       (sent (snd (processSEP6Withdrawal Sep6Cases.obliging "CLICK_PHP" Sep6Cases.ph_quote
                     Sep6Cases.ada_bank "GRESOLVERPUBLICKEY" fresh_world)))).
Proof.
  split; [vm_compute; discriminate|].
  destruct (sep6_withdrawals_name_no_destination Sep6Cases.obliging Sep6Cases.ph_quote
              Sep6Cases.ada_bank "GRESOLVERPUBLICKEY" _ fresh_world eq_refl)
    as (new & Hs & Hall).
  simpl sent in Hs. rewrite Hs. exact Hall.
Defined.

End Sep6Facts.

Section DeliveryFacts.
Import StellarAnchorService DeliveryMethodHandler Sep6 Delivery.

Lemma strip_length (text s rest : string) :
  strip text s = Some rest ->
  String.length s = (String.length text + String.length rest)%nat.
Proof.
  revert s. induction text as [|a text IH]; intros s; simpl.
  - intros [= ->]. reflexivity.
  - destruct s as [|b s]; [discriminate|].
    destruct (Ascii.eqb a b); [|discriminate].
    intros H. simpl. rewrite (IH _ H). reflexivity.
Qed.

Lemma take_digits_length (n : nat) (s rest : string) :
  take_digits n s = Some rest ->
  String.length s = (n + String.length rest)%nat.
Proof.
  revert s. induction n as [|n IH]; intros s; simpl.
  - intros [= ->]. reflexivity.
  - destruct s as [|c s]; [discriminate|].
    destruct (is_digit c); [|discriminate].
    intros H. simpl. rewrite (IH _ H). reflexivity.
Qed.

Lemma test_length (pattern : Pattern) (value : string) :
  test pattern value = true ->
  (least_length pattern <= String.length value <= most_length pattern)%nat.
Proof.
  revert value. induction pattern as [|atom rest IH]; intros value; simpl.
  - intros H. apply String.eqb_eq in H. subst value. simpl. lia.
  - destruct atom as [text | chars | least most].
    + destruct (strip text value) as [value'|] eqn:Hs; [|discriminate].
      intros H. specialize (IH _ H). rewrite (strip_length _ _ _ Hs). lia.
    + destruct value as [|c value']; [discriminate|].
      intros H. apply andb_true_iff in H. destruct H as [_ H].
      specialize (IH _ H). simpl. lia.
    + intros H. apply existsb_exists in H. destruct H as (n & Hn & H).
      apply in_seq in Hn.
      destruct (take_digits n value) as [value'|] eqn:Ht; [|discriminate].
      specialize (IH _ H). rewrite (take_digits_length _ _ _ Ht). lia.
Qed.

Lemma units_of_ascii (c : ascii) :
  (nat_of_ascii c <? 128)%nat = true -> Js.units_of_byte c = 1%nat.
Proof. intros H. unfold Js.units_of_byte. rewrite H. reflexivity. Qed.

Lemma is_digit_ascii (c : ascii) :
  is_digit c = true -> (nat_of_ascii c <? 128)%nat = true.
Proof.
  unfold is_digit. intros H. apply andb_true_iff in H. destruct H as [_ H].
  apply Nat.leb_le in H. apply Nat.ltb_lt. lia.
Qed.

Lemma strip_units (text s rest : string) :
  Js.is_ascii text = true -> strip text s = Some rest ->
  Js.length s = (String.length text + Js.length rest)%nat.
Proof.
  revert s. induction text as [|a text IH]; intros s Hascii; simpl.
  - intros [= ->]. reflexivity.
  - destruct s as [|b s]; [discriminate|].
    destruct (Ascii.eqb_spec a b) as [<- | _]; [|discriminate].
    unfold Js.is_ascii in Hascii. simpl in Hascii.
    apply andb_true_iff in Hascii. destruct Hascii as [Ha Hascii].
    intros H. simpl. rewrite (IH _ Hascii H), (units_of_ascii _ Ha). reflexivity.
Qed.

Lemma take_digits_units (n : nat) (s rest : string) :
  take_digits n s = Some rest -> Js.length s = (n + Js.length rest)%nat.
Proof.
  revert s. induction n as [|n IH]; intros s; simpl.
  - intros [= ->]. reflexivity.
  - destruct s as [|c s]; [discriminate|].
    destruct (is_digit c) eqn:Hc; [|discriminate].
    intros H. simpl. rewrite (IH _ H), (units_of_ascii _ (is_digit_ascii _ Hc)).
    reflexivity.
Qed.

(** What a plain pattern matches is ASCII text: its [length] is the
    number of its bytes. *)
Lemma test_units (pattern : Pattern) (value : string) :
  plain pattern = true -> test pattern value = true ->
  Js.length value = String.length value.
Proof.
  revert value. induction pattern as [|atom rest IH]; intros value Hplain; simpl.
  - intros H. apply String.eqb_eq in H. subst value. reflexivity.
  - unfold plain in Hplain. simpl in Hplain.
    apply andb_true_iff in Hplain. destruct Hplain as [Hatom Hplain].
    destruct atom as [text | chars | least most].
    + destruct (strip text value) as [value'|] eqn:Hs; [|discriminate].
      intros H. rewrite (strip_units _ _ _ Hatom Hs), (strip_length _ _ _ Hs).
      rewrite (IH _ Hplain H). reflexivity.
    + destruct value as [|c value']; [discriminate|].
      intros H. apply andb_true_iff in H. destruct H as [Hc H].
      apply existsb_exists in Hc. destruct Hc as (c' & Hin & Hc).
      apply Ascii.eqb_eq in Hc. subst c'.
      unfold Js.is_ascii in Hatom. rewrite forallb_forall in Hatom.
      simpl. rewrite (units_of_ascii _ (Hatom _ Hin)), (IH _ Hplain H). reflexivity.
    + intros H. apply existsb_exists in H. destruct H as (n & Hn & H).
      destruct (take_digits n value) as [value'|] eqn:Ht; [|discriminate].
      rewrite (take_digits_units _ _ _ Ht), (take_digits_length _ _ _ Ht).
      rewrite (IH _ Hplain H). reflexivity.
Qed.

Lemma app_nil_iff {A : Type} (l1 l2 : list A) :
  (l1 ++ l2)%list = [] <-> l1 = [] /\ l2 = [].
Proof.
  split; [apply app_eq_nil | intros [-> ->]; reflexivity].
Qed.

Lemma value_errors_none (label value : string) (validation : Validation) :
  value_errors label value validation = [] <->
  (forall pattern, v_pattern validation = Some pattern -> test pattern value = true) /\
  (forall least, v_minLength validation = Some least ->
     (least <= Js.length value)%nat) /\
  (forall most, v_maxLength validation = Some most -> most <> 0%nat ->
     (Js.length value <= most)%nat) /\
  (forall options, v_options validation = Some options -> In value options).
Proof.
  unfold value_errors. rewrite !app_nil_iff.
  assert (H1 : match v_pattern validation with
               | Some pattern =>
                   if test pattern value then [] else [label +:+ " format is invalid"]
               | None => []
               end = [] <->
               forall pattern, v_pattern validation = Some pattern ->
                 test pattern value = true).
  { destruct (v_pattern validation) as [p|]; [|split; [discriminate | reflexivity]].
    destruct (test p value) eqn:Ht.
    - split; [intros _ p' [= <-]; exact Ht | reflexivity].
    - split; [discriminate | intros H; specialize (H p eq_refl); congruence]. }
  assert (H2 : match v_minLength validation with
               | Some least =>
                   if negb (least =? 0)%nat && (Js.length value <? least)%nat
                   then [label +:+ " is too short"] else []
               | None => []
               end = [] <->
               forall least, v_minLength validation = Some least ->
                 (least <= Js.length value)%nat).
  { destruct (v_minLength validation) as [n|]; [|split; [discriminate | reflexivity]].
    destruct (Nat.eqb_spec n 0) as [-> | Hn]; simpl.
    - split; [intros _ n' [= <-]; lia | reflexivity].
    - destruct (Nat.ltb_spec (Js.length value) n).
      + split; [discriminate | intros H'; specialize (H' n eq_refl); lia].
      + split; [intros _ n' [= <-]; lia | reflexivity]. }
  assert (H3 : match v_maxLength validation with
               | Some most =>
                   if negb (most =? 0)%nat && (most <? Js.length value)%nat
                   then [label +:+ " is too long"] else []
               | None => []
               end = [] <->
               forall most, v_maxLength validation = Some most -> most <> 0%nat ->
                 (Js.length value <= most)%nat).
  { destruct (v_maxLength validation) as [n|]; [|split; [discriminate | reflexivity]].
    destruct (Nat.eqb_spec n 0) as [-> | Hn]; simpl.
    - split; [intros _ n' [= <-] Hn; contradiction | reflexivity].
    - destruct (Nat.ltb_spec n (Js.length value)).
      + split; [discriminate | intros H'; specialize (H' n eq_refl Hn); lia].
      + split; [intros _ n' [= <-] _; lia | reflexivity]. }
  assert (H4 : match v_options validation with
               | Some options =>
                   if existsb (String.eqb value) options then []
                   else [label +:+ " must be one of: " +:+ join ", " options]
               | None => []
               end = [] <->
               forall options, v_options validation = Some options -> In value options).
  { destruct (v_options validation) as [o|]; [|split; [discriminate | reflexivity]].
    destruct (existsb (String.eqb value) o) eqn:He.
    - apply existsb_exists in He. destruct He as (x & Hx & He).
      apply String.eqb_eq in He. subst x.
      split; [intros _ o' [= <-]; exact Hx | reflexivity].
    - split; [discriminate|]. intros H'. specialize (H' o eq_refl).
      assert (existsb (String.eqb value) o = true)
        by (apply existsb_exists; exists value; split; [exact H' | apply String.eqb_refl]).
      congruence. }
  rewrite H1, H2, H3, H4. tauto.
Qed.

Lemma field_errors_none (recipient : gmap string string) (field : DeliveryField) :
  df_required field = true ->
  field_errors recipient field = [] <-> acceptable recipient field.
Proof.
  intros Hreq. unfold field_errors, acceptable. rewrite Hreq. simpl.
  destruct (recipient !! df_name field) as [v|] eqn:Hv; simpl.
  2:{ split; [discriminate | intros (v & H & _); discriminate H]. }
  destruct (String.eqb_spec v "") as [-> | Hne]; simpl.
  { split; [discriminate | intros (v & [= <-] & H & _); contradiction]. }
  destruct (df_validation field) as [validation|].
  - rewrite value_errors_none. split.
    + intros H. exists v. split; [reflexivity|]. split; [exact Hne|].
      intros validation' [= <-]. exact H.
    + intros (v' & [= <-] & _ & H). apply H. reflexivity.
  - split; [|reflexivity]. intros _. exists v. split; [reflexivity|].
    split; [exact Hne|]. discriminate.
Qed.

Lemma flat_map_nil {A B : Type} (f : A -> list B) (l : list A) :
  flat_map f l = [] <-> Forall (fun x => f x = []) l.
Proof.
  induction l as [|x l IH]; simpl.
  - split; [constructor | reflexivity].
  - rewrite app_nil_iff, IH. split.
    + intros [H1 H2]. constructor; assumption.
    + intros H. inversion H; subst. auto.
Qed.

Lemma registered_method (id : string) (method : DeliveryMethod) :
  getMethod id = Some method ->
  In method deliveryMethods /\ dm_id method = id /\
  exists fields, assoc id requiredFields = Some fields /\
    Forall (fun field => df_required field = true) fields.
Proof.
  unfold getMethod. intros H. apply find_some in H. destruct H as (Hin & Hid).
  apply String.eqb_eq in Hid. split; [exact Hin|]. split; [exact Hid|].
  subst id. simpl in Hin.
  repeat (destruct Hin as [<- | Hin];
          [eexists; split; [reflexivity | repeat constructor]|]).
  destruct Hin.
Qed.

Lemma not_a_number (x y : float) :
  PrimFloat.eqb x x = false ->
  PrimFloat.ltb x y = false /\ PrimFloat.ltb y x = false.
Proof.
  rewrite FloatAxioms.eqb_spec, !FloatAxioms.ltb_spec. unfold SFeqb, SFltb.
  destruct (Prim2SF x) as [sx | sx | | sx mx ex] eqn:Hx; simpl.
  - destruct sx; discriminate.
  - destruct sx; discriminate.
  - intros _. split; [reflexivity|]. destruct (Prim2SF y); reflexivity.
  - destruct sx; rewrite Z.compare_refl, Pos.compare_refl; discriminate.
Qed.

(** X24.  What [validateDeliveryRequest] accepts: exactly the requests that
    name a registered method, whose amount is neither below the method's
    minimum nor above its maximum as [number]s, and whose recipient has, for
    every field of the method's schema, a value that is present, not empty
    and passes the checks of the field.  An unknown method gives the one
    error 'Invalid delivery method'.  An amount that [parseFloat] reads as
    NaN is below no minimum and above no maximum, so it raises no amount
    error. *)
Theorem validateDeliveryRequest_accepts
    (parseFloat : string -> float) (request : DeliveryRequest) :
  (fst (validateDeliveryRequest parseFloat request) = true <->
   exists method fields,
     getMethod (dr_method request) = Some method /\
     assoc (dr_method request) requiredFields = Some fields /\
     PrimFloat.ltb (parseFloat (dr_amount request)) (number (dm_minAmount method)) = false /\
     PrimFloat.ltb (number (dm_maxAmount method)) (parseFloat (dr_amount request)) = false /\
     Forall (acceptable (dr_recipient request)) fields) /\
  (getMethod (dr_method request) = None ->
   validateDeliveryRequest parseFloat request = (false, ["Invalid delivery method"])) /\
  (PrimFloat.eqb (parseFloat (dr_amount request)) (parseFloat (dr_amount request)) = false ->
   forall method, amount_errors parseFloat method (dr_amount request) = []).
Proof.
  split; [|split].
  - unfold validateDeliveryRequest.
    destruct (getMethod (dr_method request)) as [method|] eqn:Hm.
    2:{ simpl. split; [discriminate | intros (m & f & H & _); discriminate H]. }
    destruct (registered_method _ _ Hm) as (_ & Hid & fields & Hf & Hreq).
    rewrite Hid, Hf. simpl.
    set (errors := (amount_errors parseFloat method (dr_amount request) ++
                    flat_map (field_errors (dr_recipient request)) fields)%list).
    assert (Herr : errors = [] <->
              PrimFloat.ltb (parseFloat (dr_amount request))
                (number (dm_minAmount method)) = false /\
              PrimFloat.ltb (number (dm_maxAmount method))
                (parseFloat (dr_amount request)) = false /\
              Forall (acceptable (dr_recipient request)) fields).
    { subst errors. unfold amount_errors. rewrite !app_nil_iff, flat_map_nil.
      assert (Hfields : Forall (fun x => field_errors (dr_recipient request) x = []) fields
                        <-> Forall (acceptable (dr_recipient request)) fields).
      { clear -Hreq. induction Hreq as [|field fields Hr _ IH].
        - split; constructor.
        - split; intros H; inversion H; subst; constructor;
            first [apply (field_errors_none _ _ Hr); assumption | apply IH; assumption]. }
      rewrite Hfields.
      destruct (PrimFloat.ltb (parseFloat (dr_amount request))
                  (number (dm_minAmount method)));
        destruct (PrimFloat.ltb (number (dm_maxAmount method))
                    (parseFloat (dr_amount request)));
        split; intros H; try tauto;
        first [ destruct H as [[H _] _]; discriminate H
              | destruct H as [[_ H] _]; discriminate H
              | destruct H as [H _]; discriminate H
              | destruct H as [_ [H _]]; discriminate H ]. }
    split.
    + intros H. exists method, fields. split; [reflexivity|]. split; [reflexivity|].
      apply Herr. destruct errors; [reflexivity | discriminate H].
    + intros (m & f & [= <-] & [= <-] & H). apply Herr in H. rewrite H. reflexivity.
  - intros Hm. unfold validateDeliveryRequest. rewrite Hm. reflexivity.
  - intros Hnan method. unfold amount_errors.
    destruct (not_a_number (parseFloat (dr_amount request)) (number (dm_minAmount method))
                Hnan) as [-> _].
    destruct (not_a_number (parseFloat (dr_amount request)) (number (dm_maxAmount method))
                Hnan) as [_ ->].
    reflexivity.
Qed.

Lemma value_errors_matching (label value : string) (validation : Validation)
    (pattern : Pattern) :
  v_pattern validation = Some pattern -> test pattern value = true ->
  plain pattern = true ->
  (forall least, v_minLength validation = Some least ->
     (least <= least_length pattern)%nat) ->
  (forall most, v_maxLength validation = Some most ->
     (most_length pattern <= most)%nat) ->
  v_options validation = None ->
  value_errors label value validation = [].
Proof.
  intros Hp Ht Hplain Hmin Hmax Ho. pose proof (test_length _ _ Ht) as Hlen.
  rewrite <- (test_units _ _ Hplain Ht) in Hlen.
  apply value_errors_none. repeat split.
  - intros p. rewrite Hp. intros [= <-]. exact Ht.
  - intros n Hn. specialize (Hmin _ Hn). lia.
  - intros n Hn _. specialize (Hmax _ Hn). lia.
  - intros o. rewrite Ho. discriminate.
Qed.

(** X25.  For every field of the registered schemas that has a pattern, a
    value that matches the pattern raises no other error: the minimum and
    maximum length of the field are the shortest and longest length the
    pattern admits, so 'too short' and 'too long' are reported only for
    values whose format is reported as invalid too. *)
Theorem a_matching_value_has_no_other_error
    (id : string) (fields : list DeliveryField) (field : DeliveryField)
    (validation : Validation) (pattern : Pattern) (value : string) :
  In (id, fields) requiredFields -> In field fields ->
  df_validation field = Some validation -> v_pattern validation = Some pattern ->
  test pattern value = true ->
  value_errors (df_label field) value validation = [] /\
  (least_length pattern <= String.length value <= most_length pattern)%nat /\
  v_minLength validation = Some (least_length pattern) /\
  v_maxLength validation = Some (most_length pattern).
Proof.
  intros Hid Hfield Hv Hp Ht.
  assert (Hschema : v_minLength validation = Some (least_length pattern) /\
                    v_maxLength validation = Some (most_length pattern) /\
                    v_options validation = None /\
                    plain pattern = true).
  { simpl in Hid.
    repeat (destruct Hid as [[= <- <-] | Hid];
            [ simpl in Hfield;
              repeat (destruct Hfield as [<- | Hfield];
                      [ first [ discriminate Hv
                              | injection Hv as <-; first [ discriminate Hp
                                | injection Hp as <-; repeat split ] ] |]);
              destruct Hfield |]).
    destruct Hid. }
  destruct Hschema as (Hmin & Hmax & Ho & Hplain).
  split; [|split; [exact (test_length _ _ Ht) | split; assumption]].
  apply (value_errors_matching _ _ _ pattern); try assumption.
  - intros n. rewrite Hmin. intros [= <-]. lia.
  - intros n. rewrite Hmax. intros [= <-]. lia.
Qed.

Lemma a_matching_value_has_no_other_error_witness :
  value_errors "GCash Mobile Number" "+639171234567"
    {| v_pattern := Some philippine_mobile; v_minLength := Some 13%nat;
       v_maxLength := Some 13%nat; v_options := None |} = [].
Proof.
  refine (proj1 (a_matching_value_has_no_other_error "gcash_php" _
                   {| df_name := "phone_number"; df_label := "GCash Mobile Number";
                      df_required := true;
                      df_validation := matching philippine_mobile 13 |}
                   _ philippine_mobile "+639171234567" _ _ eq_refl eq_refl eq_refl)).
  - left. reflexivity.
  - left. reflexivity.
Defined.

Lemma delivery_destination (method : DeliveryMethod) (recipient : gmap string string)
    (params : WithdrawParams) dest dest_extra :
  In method deliveryMethods -> wp_type params = Some (dm_type method) ->
  destination (delivery_details method recipient params) = Ok (dest, dest_extra) ->
  wp_type (delivery_details method recipient params) = Some (dm_type method) /\
  (dm_type method = "gcash" /\ dest = recipient !! "phone_number" \/
   dm_type method = "mobile_money" /\ dest = recipient !! "phone_number" \/
   dm_type method = "bank_transfer" /\ dest = None /\ dest_extra = None).
Proof.
  intros Hin Hty. simpl in Hin.
  repeat (destruct Hin as [<- | Hin];
          [ unfold delivery_details, destination; simpl in *; rewrite Hty; simpl;
            first [ discriminate | intros [= <- <-]; split; [reflexivity | tauto] ] |]).
  destruct Hin.
Qed.

(** What the anchor answered when [withdraw] returns, and what went
    wrong when it throws: nothing was sent, or the request failed. *)
Lemma withdraw_answer net i params w :
  match fst (withdraw net i params w) with
  | Ok (Js.value result) =>
      exists endpoint token data,
        net (sent w) (POST_withdraw endpoint token data) =
          Ok (Js.value (Execution.wr_id result))
  | Ok (Js.nothing v) =>
      exists endpoint token data,
        net (sent w) (POST_withdraw endpoint token data) = Ok (Js.nothing v)
  | Throw _ =>
      sent (snd (withdraw net i params w)) = sent w \/
      exists endpoint token data e,
        net (sent w) (POST_withdraw endpoint token data) = Throw e
  end.
Proof.
  unfold withdraw.
  destruct (endpoint_of (wp_anchorCode params)) as [endpoint|]; [|left; reflexivity].
  destruct (negb (Js.truthy (mjoin (authTokens i w !! wp_anchorCode params))));
    [left; reflexivity|].
  destruct (destination params) as [[dest dest_extra] | e]; [|left; reflexivity].
  unfold request.
  match goal with
  | |- context [net ?l ?r] => destruct (net l r) as [[id | v] | e] eqn:Hnet
  end; cbn [fst snd]; eauto 10.
Qed.

(** X26.  The outcomes of [processDelivery].  An invalid request is answered
    with the joined validation errors and nothing is sent.  Every withdrawal
    request sent carries the type of the request's method; its destination
    is the recipient's phone number for GCash and mobile money, and is
    absent for every bank transfer, the CBU/CVU of an Argentine transfer
    included.  A successful call has sent exactly one withdrawal request,
    which the anchor answered with a body, whose id is the transaction id
    of the result.  When the anchor answers a withdrawal request with a
    body that is [null] or [undefined], the call does not succeed: the
    error it reports is the TypeError of reading [id].  A PayMaya delivery
    never succeeds and never sends a withdrawal request, because its
    details are filed under [gcash]. *)
Theorem processDelivery_outcomes
    (parseFloat : string -> float) (net : Network) (request : DeliveryRequest)
    (w : World) :
  let result := fst (processDelivery parseFloat net request w) in
  let w' := snd (processDelivery parseFloat net request w) in
  (fst (validateDeliveryRequest parseFloat request) = false ->
   w' = w /\
   result = {| success := false; transactionId := None;
               error := Some (join ", " (snd (validateDeliveryRequest parseFloat request))) |}) /\
  exists new, sent w' = (sent w ++ new)%list /\
    (forall data, In data (withdrawals new) ->
       exists method, getMethod (dr_method request) = Some method /\
         req_type data = Some (dm_type method) /\
         (dm_type method = "gcash" /\
            req_dest data = dr_recipient request !! "phone_number" \/
          dm_type method = "mobile_money" /\
            req_dest data = dr_recipient request !! "phone_number" \/
          dm_type method = "bank_transfer" /\
            req_dest data = None /\ req_dest_extra data = None)) /\
    (success result = true ->
     List.length (withdrawals new) = 1%nat /\
     error result = None /\
     exists log endpoint token data,
       net log (POST_withdraw endpoint token data) =
         Ok (Js.value (transactionId result))) /\
    (forall v,
       (forall log endpoint token data,
          net log (POST_withdraw endpoint token data) = Ok (Js.nothing v)) ->
       success result = false /\
       (withdrawals new <> [] -> error result = err_message (cannot_read v "id"))) /\
    (dr_method request = "paymaya_php" ->
     success result = false /\ withdrawals new = []).
Proof.
  intros result w'. subst result w'. unfold processDelivery.
  destruct (fst (validateDeliveryRequest parseFloat request)) eqn:Hvalid; simpl.
  2:{ split; [auto|]. exists []. rewrite app_nil_r.
      split; [reflexivity|]. split; [intros data []|]. split; [discriminate|].
      split; [intros v _; split; [reflexivity | intros H; destruct (H eq_refl)] | auto]. }
  split; [discriminate|].
  destruct (getMethod (dr_method request)) as [method|] eqn:Hm.
  2:{ exists []. rewrite app_nil_r. simpl.
      split; [reflexivity|]. split; [intros data []|]. split; [discriminate|].
      split; [intros v _; split; [reflexivity | intros H; destruct (H eq_refl)] | auto]. }
  destruct (registered_method _ _ Hm) as (Hin & Hid & _).
  destruct (authenticate_effect net of_delivery (dr_anchorCode request)
              (dr_senderAccount request) w) as ((new & Hs & Hn) & _).
  pose proof (no_withdrawal_sent new Hn) as Hw.
  destruct (authenticate net of_delivery (dr_anchorCode request)
              (dr_senderAccount request) w) as [[token | e] w1]; simpl in Hs |- *.
  2:{ exists new. rewrite Hw. split; [exact Hs|]. split; [intros data []|].
      split; [discriminate|].
      split; [intros v _; split; [reflexivity | intros H; destruct (H eq_refl)] | auto]. }
  match goal with |- context [withdraw net of_delivery ?p w1] =>
    set (params := p);
    destruct (withdraw_effect net of_delivery params w1) as (_ & _ & _ & Hsent);
    pose proof (withdraw_answer net of_delivery params w1) as Hanswer
  end.
  assert (Hpay : dr_method request = "paymaya_php" ->
                 forall dest extra, destination params <> Ok (dest, extra)).
  { intros Hname dest extra. rewrite Hname in Hm. injection Hm as <-. discriminate. }
  assert (Hdata : forall dest extra data,
            destination params = Ok (dest, extra) ->
            req_type data = wp_type params -> req_dest data = dest ->
            req_dest_extra data = extra ->
            exists method0, Some method = Some method0 /\
              req_type data = Some (dm_type method0) /\
              (dm_type method0 = "gcash" /\
                 req_dest data = dr_recipient request !! "phone_number" \/
               dm_type method0 = "mobile_money" /\
                 req_dest data = dr_recipient request !! "phone_number" \/
               dm_type method0 = "bank_transfer" /\
                 req_dest data = None /\ req_dest_extra data = None)).
  { intros dest extra data Hd Hty Hdest Hextra. exists method. split; [reflexivity|].
    subst params.
    apply delivery_destination in Hd as (Hty' & Hcases); [|exact Hin | reflexivity].
    rewrite Hty, Hdest, Hextra. split; [exact Hty' | exact Hcases]. }
  destruct (withdraw net of_delivery params w1) as [[[r | v] | e] w2];
    cbn [fst snd] in *.
  - destruct Hsent as [[_ Hthrew]
                      | (endpoint & tok & dest & extra & _ & _ & _ & Hd & Hsent)];
      [discriminate Hthrew|].
    eexists. split; [rewrite Hsent, Hs, <- app_assoc; reflexivity|].
    rewrite withdrawals_app, Hw. simpl. split; [|split; [|split]].
    + intros data [<- | []]. apply (Hdata dest extra); [exact Hd | reflexivity..].
    + intros _. split; [reflexivity|]. split; [reflexivity|].
      destruct Hanswer as (endpoint' & tok' & data & Hnet). eauto 10.
    + intros v Hnull. destruct Hanswer as (endpoint' & tok' & data & Hnet).
      rewrite Hnull in Hnet. discriminate Hnet.
    + intros Hname. exfalso. exact (Hpay Hname _ _ Hd).
  - destruct Hsent as [[_ Hthrew]
                      | (endpoint & tok & dest & extra & _ & _ & _ & Hd & Hsent)];
      [discriminate Hthrew|].
    eexists. split; [rewrite Hsent, Hs, <- app_assoc; reflexivity|].
    rewrite withdrawals_app, Hw. simpl. split; [|split; [|split]].
    + intros data [<- | []]. apply (Hdata dest extra); [exact Hd | reflexivity..].
    + discriminate.
    + intros v' Hnull. split; [reflexivity|]. intros _.
      destruct Hanswer as (endpoint' & tok' & data & Hnet).
      rewrite Hnull in Hnet. injection Hnet as <-. reflexivity.
    + intros Hname. exfalso. exact (Hpay Hname _ _ Hd).
  - destruct Hsent as [[Hsame _]
                      | (endpoint & tok & dest & extra & _ & _ & _ & Hd & Hsent)].
    + exists new. rewrite Hsame, Hw.
      split; [exact Hs|]. split; [intros data []|]. split; [discriminate|].
      split; [intros v _; split; [reflexivity | intros H; destruct (H eq_refl)] | auto].
    + eexists. split; [rewrite Hsent, Hs, <- app_assoc; reflexivity|].
      rewrite withdrawals_app, Hw. simpl. split; [|split; [|split]].
      * intros data [<- | []]. apply (Hdata dest extra); [exact Hd | reflexivity..].
      * discriminate.
      * intros v Hnull. split; [reflexivity|]. intros _. exfalso.
        destruct Hanswer as [Hsame | (endpoint' & tok' & data & e' & Hnet)].
        -- rewrite Hsent in Hsame. apply (f_equal List.length) in Hsame.
           rewrite length_app in Hsame. simpl in Hsame. lia.
        -- rewrite Hnull in Hnet. discriminate Hnet.
      * intros Hname. exfalso. exact (Hpay Hname _ _ Hd).
Qed.

Lemma corridor_countries_are_names :
  Forall (fun corridor => String.length (snd (fst (fst corridor))) <> 2%nat)
         getSupportedCorridors.
Proof. repeat constructor; simpl; lia. Qed.

(** X27.  None of the corridors [getSupportedCorridors] advertises can use a
    delivery method: the destinations are country names, for which the
    corridor lookup still finds an anchor by currency, but the delivery
    method handler, whose methods are keyed by two-letter codes, has none,
    so no recipient's method is ever selected for a quote to such a
    destination. *)
Theorem advertised_corridors_have_no_delivery_method
    (from to : string) (currencies methods : list string) :
  In (from, to, currencies, methods) getSupportedCorridors ->
  forall currency, In currency currencies ->
    is_Some (getAnchorForCorridor "US" to currency) /\
    getAvailableDeliveryMethods to currency = [] /\
    forall quote recipientDetails,
      toCountry quote = to ->
      Execution.selectedMethod quote recipientDetails = None.
Proof.
  intros Hin currency Hcur.
  assert (Hlen : String.length to <> 2%nat).
  { pose proof corridor_countries_are_names as H. rewrite Forall_forall in H.
    exact (H _ (proj2 (list_elem_of_In _ _) Hin)). }
  split; [|split].
  - simpl in Hin.
    repeat (destruct Hin as [[= <- <- <- <-] | Hin];
            [destruct Hcur as [<- | []]; eexists; reflexivity|]).
    destruct Hin.
  - apply no_methods_for_country_names, Hlen.
  - intros quote rd <-. unfold Execution.selectedMethod.
    rewrite no_methods_for_country_names by exact Hlen. reflexivity.
Qed.

Lemma advertised_corridors_have_no_delivery_method_witness :
  getAvailableDeliveryMethods "Philippines" "PHP" = [].
Proof.
  refine (proj1 (proj2
    (advertised_corridors_have_no_delivery_method "US" "Philippines" ["PHP"]
       ["bank_transfer"; "gcash"; "paymaya"] _ "PHP" _))).
  - left. reflexivity.
  - left. reflexivity.
Defined.

(** Worked examples: an amount that is no number passes validation, and
    a PayMaya delivery fails at the withdrawal although the anchor
    answers every request. *)
Lemma worded_amount_scenario :
  validateDeliveryRequest DeliveryCases.decimal_parseFloat DeliveryCases.worded_amount
    = (true, []).
Proof. vm_compute. reflexivity. Qed.

Lemma paymaya_delivery_scenario :
  fst (processDelivery DeliveryCases.decimal_parseFloat Sep6Cases.obliging
         DeliveryCases.paymaya_request fresh_world) =
    {| success := false; transactionId := None;
       error := Some "PayMaya details required" |} /\
  sent (snd (processDelivery DeliveryCases.decimal_parseFloat Sep6Cases.obliging
               DeliveryCases.paymaya_request fresh_world)) =
    [GET_auth "https://api.clickpeso.com" "GRESOLVERPUBLICKEY";
     POST_auth "https://api.clickpeso.com" (Some "AAAA...challenge")].
Proof. split; vm_compute; reflexivity. Qed.

(** A worked example: the anchor answers the withdrawal request of a
    GCash delivery with [null]; the delivery fails on the read of the
    answer's id, after the request went out. *)
Example bodiless_answer_scenario :
  let run := processDelivery DeliveryCases.decimal_parseFloat
               Sep6Cases.bodiless_withdrawals DeliveryCases.gcash_request fresh_world in
  fst run = {| success := false; transactionId := None;
               error := Some "Cannot read properties of null (reading 'id')" |} /\
  List.length (withdrawals (sent (snd run))) = 1%nat.
Proof. split; vm_compute; reflexivity. Qed.

(** A worked example: a name that is the one letter e with an acute
    accent is two bytes of UTF-8 and one UTF-16 code unit, which is below
    the minimum length of an account name. *)
Example accented_name_scenario :
  let name := String (ascii_of_nat 195) (String (ascii_of_nat 169) EmptyString) in
  String.length name = 2%nat /\ Js.length name = 1%nat /\
  value_errors "Account Name" name
    {| v_pattern := None; v_minLength := Some 2%nat; v_maxLength := Some 100%nat;
       v_options := None |} = ["Account Name is too short"].
Proof. repeat split. Qed.

End DeliveryFacts.

Section WrappedFailures.
Import ErrorHandler StellarAnchorService DeliveryMethodHandler Sep6.

Lemma plain_error_kind (message : string) :
  ~ In (de_type (classifyError (newError message)))
       [ANCHOR_UNAVAILABLE; TIMEOUT; NETWORK_ERROR].
Proof.
  unfold classifyError. simpl.
  repeat match goal with |- context [if ?c then _ else _] => destruct c end;
    simpl; intros H; repeat (destruct H as [H | H]; [discriminate H|]); exact H.
Qed.

Lemma authenticate_throws_plain net i anchorCode account w e :
  fst (authenticate net i anchorCode account w) = Throw e ->
  exists message, e = newError message.
Proof.
  unfold authenticate.
  destruct (endpoint_of anchorCode); [|intros [= <-]; eauto].
  unfold request.
  destruct (net _ _) as [[transaction | v] | e']; [|intros [= <-]; eauto..].
  destruct (net _ _) as [[token | v] | e']; [discriminate | intros [= <-]; eauto..].
Qed.

Lemma destination_throws_plain params e :
  destination params = Throw e -> exists message, e = newError message.
Proof.
  unfold destination.
  repeat match goal with
         | |- context [if ?c then _ else _] => destruct c
         | |- context [match ?x with Some _ => _ | None => _ end] => destruct x
         end; first [discriminate | intros [= <-]; eauto].
Qed.

Lemma withdraw_throws_plain net i params w e :
  fst (withdraw net i params w) = Throw e -> exists message, e = newError message.
Proof.
  unfold withdraw.
  destruct (endpoint_of (wp_anchorCode params)); [|intros [= <-]; eauto].
  destruct (negb _); [intros [= <-]; eauto|].
  destruct (destination params) as [[dest extra] | e'] eqn:Hd;
    [|simpl; intros [= <-]; exact (destination_throws_plain _ _ Hd)].
  unfold request.
  destruct (net _ _) as [[id | v] | e']; [discriminate.. | intros [= <-]; eauto].
Qed.

(** X28.  Every error the SEP-6 withdrawal step throws is a plain [Error]
    made from a message: [SEP6Service] wraps what the network layer throws,
    so the code and the response of the original failure are gone, and
    [classifyError] never finds such a failure to be ANCHOR_UNAVAILABLE,
    TIMEOUT or NETWORK_ERROR, the three kinds that are decided by the code
    alone. *)
Theorem sep6_failures_lose_their_network_code
    (net : Network) (anchorCode : string) (quote : RemittanceQuote)
    (recipientDetails : RecipientDetails) (stellarAccount : string) (w : World)
    (e : RawError) :
  fst (processSEP6Withdrawal net anchorCode quote recipientDetails stellarAccount w)
    = Throw e ->
  (exists message, e = newError message) /\
  err_code e = None /\ err_response e = None /\
  ~ In (de_type (classifyError e)) [ANCHOR_UNAVAILABLE; TIMEOUT; NETWORK_ERROR].
Proof.
  intros H.
  assert (Hplain : exists message, e = newError message).
  { revert H. unfold processSEP6Withdrawal.
    destruct (Execution.selectedMethod quote recipientDetails); [|intros [= <-]; eauto].
    destruct (String.eqb anchorCode "CLICK_PHP").
    { unfold clickPhilippinesIntegration. cbn [ip_stellarAccount].
      destruct (authenticate net of_integrations "CLICK_PHP" stellarAccount w)
        as [[token | e'] w1] eqn:Ha.
      - destruct (click_destination _) as [dest extra]. apply withdraw_throws_plain.
      - simpl. intros [= <-].
        apply (authenticate_throws_plain net of_integrations "CLICK_PHP" stellarAccount w).
        rewrite Ha. reflexivity. }
    destruct (String.eqb anchorCode "COWRIE_NGN").
    { unfold cowrieNigeriaIntegration. destruct (cowrie_destination _) as [dest extra].
      apply withdraw_throws_plain. }
    destruct (authenticate net of_engine anchorCode stellarAccount w)
      as [[token | e'] w1] eqn:Ha.
    - destruct (buildSEP6Params recipientDetails) as [[bank gcash] mobile].
      apply withdraw_throws_plain.
    - simpl. intros [= <-].
      apply (authenticate_throws_plain net of_engine anchorCode stellarAccount w).
      rewrite Ha. reflexivity. }
  destruct Hplain as (message & ->).
  split; [eauto|]. split; [reflexivity|]. split; [reflexivity|].
  apply plain_error_kind.
Qed.

Lemma sep6_failures_lose_their_network_code_witness :
  de_type (classifyError Samples.refused) = ANCHOR_UNAVAILABLE /\
  exists e,
    fst (processSEP6Withdrawal Sep6Cases.refusing_withdrawals "CLICK_PHP"
           Sep6Cases.ph_quote Sep6Cases.ada_bank "GRESOLVERPUBLICKEY" fresh_world)
      = Throw e /\
    ~ In (de_type (classifyError e)) [ANCHOR_UNAVAILABLE; TIMEOUT; NETWORK_ERROR].
Proof.
  split; [reflexivity|]. eexists. split; [vm_compute; reflexivity|].
  refine (proj2 (proj2 (proj2
    (sep6_failures_lose_their_network_code Sep6Cases.refusing_withdrawals "CLICK_PHP"
       Sep6Cases.ph_quote Sep6Cases.ada_bank "GRESOLVERPUBLICKEY" fresh_world _ _)))).
  vm_compute. reflexivity.
Defined.

End WrappedFailures.
